(* ===== verification/_CoqProject ===== *)
-Q . S2P
Prelude.v
Endian.v
Streaming.v
Gf256.v
SoftAes.v
Reciprocal.v
Sha256.v
Hmac.v
Pbkdf2.v
KeccakP.v
KeccakSponge.v
XmrKeccak.v
CnMath.v
KangarooTwelve.v
Salsa20.v
Pwxform.v
Smix.v
Yespower.v
Blake2b.v
Blake256.v
Jh.v
Groestl.v
Skein.v
Variant4.v
CnAlgo.v
Scratchpad.v
Conceal.v
CryptoNight.v
CnDouble.v
CnSpec.v
CnMulti.v
JobBoundary.v
PowIntensity.v
CpuScheduling.v
