(* ===== verification/Prelude.v ===== *)
(** * Verification of the C hash cores and the mining logic of mo-miner

    mo-miner is a CPU and GPU miner: a Node.js process talks to pools and
    hands jobs to a native addon, which plans nonces for its threads
    ([native/]), chooses sizes of GPU work ([sycl/]) and computes hashes
    ([xmrig/crypto/]).  This library models the deterministic C and header
    code of these three layers and proves it correct; all file names below are
    relative to [src/].

    ** The parts, their files and how they depend on each other

    Shared:
    - [Prelude]: words of fixed width as [Z] with the C conversions ([u8],
      [u32], [u64]), rotations, arrays as lists ([write_at], reads [a.[i]]),
      the option monad for accesses that may fail, [memcpy] of bytes that must
      exist, tactics ([bitwise],
      [bitblast], [forall_words], [next]) and the hint database [words].
    - [Endian]: byte codecs ([panthera/sysendian.h]) and byte strings as
      numbers.
    - [Streaming]: what it means to consume a message in blocks ([absorb]),
      the loops that do it (eager, and lazy for the hashes that keep a full
      block back), and the classes [StreamingHash] and [StreamingHashOk]: a
      hash context with Init, Update and Final, and the law that any portions
      give the hash of their concatenation.  HMAC is proved once against
      these classes; SHA-256 is an instance.

    Hash cores under [xmrig/crypto/randomx]:
    - [Reciprocal]: [reciprocal.c], the constants of RandomX divisions.
    - [Sha256], [Hmac], [Pbkdf2]: the three parts of [panthera/sha256.c];
      each uses the one before.
    - [KeccakP] ([KeccakP-1600-reference.c]), [KeccakSponge]
      ([KeccakSponge.inc], [KeccakSpongeWidth1600.c]), [KangarooTwelve]
      ([KangarooTwelve.c]): permutation, sponge over it, tree hash over that.
    - [Salsa20], [Pwxform], [Smix], [Yespower]: [panthera/yespower-opt.c] and
      [yespower-platform.c], from the core function to the entry points and
      the memory they keep; PBKDF2 and HMAC from above.
    - [Blake2b]: [blake2/blake2b.c], [blake2-impl.h], [endian.h].

    CryptoNight, [xmrig/crypto/cn]:
    - the hashes it ends with: [Blake256] ([c_blake256.c]), [Jh] ([c_jh.c]), [Groestl]
      ([c_groestl.c], [groestl_tables.h]), [Skein] ([c_skein.c],
      [skein_port.h]).
    - [Variant4]: [r/variant4_random_math.h], the programs of CryptoNightR;
      its random bytes are [blake256_hash] of [Blake256].
    - [Gf256] (the field of AES and Groestl), [SoftAes] ([soft_aes.h], the
      AES part of [CryptoNight_x86.h]): single AES rounds and keys, with the
      class [AesRounds] of which table look-ups and processor instructions
      are two instances, and its law [AesRoundsOk], FIPS 197.
    - [XmrKeccak] ([base/crypto/keccak.cpp], [keccak.h]); its sponge is the
      one of [KeccakSponge].  The header converts sizes to [int]
      ([keccak_size]), which is why theorems on CryptoNight ask for inputs
      below 2^31 bytes.
    - [CnMath] ([umul128.h], [CryptoNight_monero.h]): products, the tweak of
      variant 1, division and square root of variant 2; [Conceal]: the
      floating-point tweak of one coin.
    - [CnAlgo] ([Algorithm.h], [CnAlgo.h]): the algorithms and their traits.
    - [Scratchpad]: [cn_explode_scratchpad], [cn_implode_scratchpad];
      [CryptoNight]: [cryptonight_single_hash], which calls all of the above
      and is proved against [AesRoundsOk].  [CnDouble]
      ([cryptonight_double_hash]) and [CnMulti] ([cryptonight_triple_hash],
      [cryptonight_quad_hash], [cryptonight_penta_hash]): hashes whose turns
      are interleaved.  [CnSpec]: the published hash with its variants 0, 1
      and 2, and the refinement; it takes a turn in the two halves of
      [CnDouble].

    The miner itself:
    - [JobBoundary]: [native/job-boundary.h], [Core::next_nonce_after_batch]
      of [native/core.h] and the planning of nonces in
      [native/job/execution.inc].
    - [CpuScheduling]: [native/cpu-scheduling.h], [hashrate-sampling.h]; its
      device names are read back with [parse_unsigned] of [JobBoundary].
    - [PowIntensity]: [sycl/pow-intensity.h], [workgroup-limits.h]; it checks
      PearlHash shapes with [JobBoundary].

    ** How code is modelled

    A C function is a Gallina function of the state it reads that returns the
    state it leaves; a struct is a record, an output buffer a list that is
    returned, a reference argument the old value in and the new one out.
    Integers are [Z] with every wrap-around written out.  [None] is an access
    outside an array, a failed assertion, a division by zero or, in a loop
    with fuel, the end of the fuel; the theorems prove that it does not occur.
    Uninitialised locals and caller's memory are arguments that the theorems
    quantify over.  Names are those of the code; where two builds exist the
    default one is modelled, and a few theorems compare builds.  The machine
    is little-endian with 8-bit bytes, [unsigned] of 32 and [size_t] of 64
    bits, and no object is larger than the address space.

    ** What the theorems show

    - Refinement: each hash file has a [Module] with the published algorithm
      ([Fips], [Fips202], [K12], [Salsa], [SMix], [Blake], [JhSpec],
      [GroestlSpec], [SkeinSpec], ...), written as mathematics (columns,
      polynomials over GF(2^8), tweaks, trees) and not after the code.  The
      compression function or permutation is proved equal to it, and Init, any
      Updates, Final and the one-call functions to the hash.  The exact
      conditions are stated where the code is not right for all calls.
    - CryptoNight, for inputs below 2^31 bytes: for thirteen algorithms of the
      variants 0 and 1 the C++ code is the hash of the standard (whole
      scratchpad, key schedule, loop, final hash), also where it keeps half of
      the memory; for the eight of variant 2 it is too, unless some turn takes
      the root of one of the last 5.5 billion 64-bit numbers, for which the
      code's root is one too large; for all twenty-six no access leaves the
      input, the scratchpad or the tables, and a hash fails only where a
      division of the heavy algorithms traps (for which registers, the
      theorems say) or the generator of programs needs more turns.  Software
      and hardware AES give the same hash, and interleaved hashes are hashes
      one after the other.  The model was also evaluated on the vector
      of [tests/vectors/cpu.js] for cn/upx2 and gives its digest.
    - Memory: [Smix], [Pwxform], [Yespower], [KangarooTwelve], the sponge,
      [XmrKeccak], [Scratchpad], [CryptoNight] and [Variant4] check every index they
      compute; the theorems show that no access fails.  [Jh] fails where a
      copy reads past its data; its theorem says for which portions it does
      not.  A thread of yespower keeps its region in good order over any
      history of calls and answers of the kernel.
    - Nonces: workers, batches, lanes and threads never hash a nonce twice, and
      counters do not wrap or lose the pool's prefix, for the three ways the
      miner plans nonces, and for the seeds of PearlHash.  Two of the three
      need counters that start with equal protected bits; the code checks
      that for embedded nonces only, and examples show what happens without.
    - Bounds: sizes and products of GPU work do not overflow; three theorems
      give the inputs for which 32-bit counts of the hashes do.
    - Types: the generator of CryptoNightR makes only well-typed programs, and
      on those the interpreter is the meaning of its instructions.
    - Text: numbers are parsed as what they denote, device names are read back.
    - Errors: bad parameters, lengths and shapes are refused exactly, with the
      outputs as documented.

    ** Fuel

    Loops over a buffer take as fuel the number of blocks or the number of
    bytes, which each turn lowers; [smix1]'s doubling loop takes 32 turns,
    enough for every [N] below 2^32 ([smix1_refines]); the loops of
    [Variant4] take 258, 71 and 46 turns, one more than their counters allow
    ([gen_loop_ok], [asic_loop_ok], [find_latency_ok]).  The outer loop of the
    generator ends when a hash is lucky, so its number of turns is an argument;
    every turn is proved to end, safely.  The loops of [Scratchpad] take [N]
    turns, eight times what they need.  [cpu_thread_batches] takes any fuel
    above the numbers of threads and batches.

    ** Not modelled

    - C++ classes and glue, threads, Node-API, I/O, operating-system and
      processor interfaces ([native/core.cpp], [async-worker.h],
      [xmrig/backend], [xmrig/crypto/common]); of [native/job] and
      [native/core] only the planning of nonces.
    - Of CryptoNight: generated and assembly code (the functions [*_asm] and
      [*_sse41]), the NEON and VAES variants ([CryptoNight_arm.h],
      [sse2neon.h], [CryptoNight_x86_vaes.cpp]), dispatch and allocation.  No
      specification beyond the code is given for the variants R, heavy and
      Conceal as a whole, only for their parts.
    - The virtual machine of RandomX: floating-point rounding modes and
      generated machine code; likewise the SSE4.1 and AVX2 variants of
      BLAKE2b (vector intrinsics).
    - Vendored code: sphlib under [xmrig/crypto/ghostrider] (its BLAKE, Groestl,
      JH, Skein, Keccak and SHA-2 compute functions verified here in other
      files; the others are the first candidates for an extension), Argon2,
      libethash and fmt under [xmrig/3rdparty].
    - [sycl/] kernels and [hoohash/host_math.c], which computes with the
      floating-point functions of the system's libm.
    - JavaScript, scripts and tests. *)

From Stdlib Require Export ZArith Lia Btauto.
From stdpp Require Export base list numbers.

#[global] Open Scope Z_scope.
#[global] Set Default Goal Selector "!".

(** ** Fixed-width unsigned words

    A [w]-bit unsigned C integer is a [Z] in [0, 2^w); [u8], [u32], [u64]
    are the C conversions to the unsigned types (reduction modulo 2^w). *)

Definition u8 (x : Z) : Z := Z.land x 0xff.
Definition u32 (x : Z) : Z := Z.land x 0xffffffff.
Definition u64 (x : Z) : Z := Z.land x 0xffffffffffffffff.

(** The conversion of a 32-bit pattern to [int]. *)
Definition signed32 (x : Z) : Z := if x <? 2 ^ 31 then x else x - 2 ^ 32.

Definition word (w x : Z) : Prop := 0 <= x < 2 ^ w.
Abbreviation is_byte := (word 8).
Abbreviation bytes := (Forall (word 8)).

#[global] Instance word_dec w x : Decision (word w x).
Proof. unfold word. apply _. Defined.

Create HintDb words discriminated.
#[export] Hint Constants Opaque : words.

Lemma u8_mod x : u8 x = x mod 2 ^ 8.
Proof. unfold u8. change 0xff with (Z.ones 8). by rewrite Z.land_ones by lia. Qed.

Lemma u32_mod x : u32 x = x mod 2 ^ 32.
Proof. unfold u32. change 0xffffffff with (Z.ones 32). by rewrite Z.land_ones by lia. Qed.

Lemma u64_mod x : u64 x = x mod 2 ^ 64.
Proof.
  unfold u64. change 0xffffffffffffffff with (Z.ones 64). by rewrite Z.land_ones by lia.
Qed.

(** The case split every lemma on [u8], [u32], [u64] needs. *)
Ltac unfold_words := rewrite ?u8_mod, ?u32_mod, ?u64_mod in *.

Lemma u8_word x : word 8 (u8 x).
Proof. unfold_words. apply Z.mod_pos_bound. lia. Qed.
Lemma u32_word x : word 32 (u32 x).
Proof. unfold_words. apply Z.mod_pos_bound. lia. Qed.
Lemma u64_word x : word 64 (u64 x).
Proof. unfold_words. apply Z.mod_pos_bound. lia. Qed.

Lemma u8_small x : word 8 x -> u8 x = x.
Proof. unfold_words. apply Z.mod_small. Qed.
Lemma u32_small x : word 32 x -> u32 x = x.
Proof. unfold_words. apply Z.mod_small. Qed.
Lemma u64_small x : word 64 x -> u64 x = x.
Proof. unfold_words. apply Z.mod_small. Qed.

Lemma u32_add_l x y : u32 (u32 x + y) = u32 (x + y).
Proof. unfold_words. apply Zplus_mod_idemp_l. Qed.
Lemma u32_add_r x y : u32 (x + u32 y) = u32 (x + y).
Proof. unfold_words. apply Zplus_mod_idemp_r. Qed.
Lemma u64_add_l x y : u64 (u64 x + y) = u64 (x + y).
Proof. unfold_words. apply Zplus_mod_idemp_l. Qed.
Lemma u64_add_r x y : u64 (x + u64 y) = u64 (x + y).
Proof. unfold_words. apply Zplus_mod_idemp_r. Qed.
Lemma u32_sub_l x y : u32 (u32 x - y) = u32 (x - y).
Proof. unfold_words. apply Zminus_mod_idemp_l. Qed.
Lemma u64_sub_l x y : u64 (u64 x - y) = u64 (x - y).
Proof. unfold_words. apply Zminus_mod_idemp_l. Qed.
Lemma u32_idem x : u32 (u32 x) = u32 x.
Proof. apply u32_small, u32_word. Qed.
Lemma u64_idem x : u64 (u64 x) = u64 x.
Proof. apply u64_small, u64_word. Qed.
Lemma u8_idem x : u8 (u8 x) = u8 x.
Proof. apply u8_small, u8_word. Qed.

(** *** Words and bits *)

Lemma word_testbit w x i : 0 <= w -> word w x -> w <= i -> Z.testbit x i = false.
Proof.
  intros Hw Hx Hi. rewrite <- (Z.mod_small x (2 ^ w)) by exact Hx.
  apply Z.mod_pow2_bits_high. lia.
Qed.

Lemma word_of_bits w x :
  0 <= w -> 0 <= x -> (forall i, w <= i -> Z.testbit x i = false) -> word w x.
Proof.
  intros Hw Hx Hb. split; [done |].
  assert (x = x mod 2 ^ w) as ->; [| apply Z.mod_pos_bound; lia].
  apply Z.bits_inj'. intros i Hi. destruct (decide (w <= i)).
  - rewrite Z.mod_pow2_bits_high by lia. by apply Hb.
  - by rewrite Z.mod_pow2_bits_low by lia.
Qed.

Lemma word_land w x y : 0 <= w -> word w x -> 0 <= y -> word w (Z.land x y).
Proof.
  intros Hw Hx Hy. apply word_of_bits; [done | apply Z.land_nonneg; lia |].
  intros i Hi. by rewrite Z.land_spec, (word_testbit w x).
Qed.

Lemma word_lor w x y : 0 <= w -> word w x -> word w y -> word w (Z.lor x y).
Proof.
  intros Hw Hx Hy.
  apply word_of_bits; [done | apply Z.lor_nonneg; unfold word in *; lia |].
  intros i Hi. by rewrite Z.lor_spec, (word_testbit w x), (word_testbit w y).
Qed.

Lemma word_lxor w x y : 0 <= w -> word w x -> word w y -> word w (Z.lxor x y).
Proof.
  intros Hw Hx Hy.
  apply word_of_bits; [done | apply Z.lxor_nonneg; unfold word in *; lia |].
  intros i Hi. by rewrite Z.lxor_spec, (word_testbit w x), (word_testbit w y).
Qed.

Lemma word_shiftr w x n : 0 <= n -> word w x -> word w (Z.shiftr x n).
Proof.
  intros Hn [H0 H1]. split; [by apply Z.shiftr_nonneg |].
  rewrite Z.shiftr_div_pow2 by lia. apply Z.div_lt_upper_bound; [lia |].
  assert (0 < 2 ^ n) by lia. nia.
Qed.

Lemma word_mono w w' x : 0 <= w <= w' -> word w x -> word w' x.
Proof.
  intros Hw [H0 H1]. split; [done |].
  assert (2 ^ w <= 2 ^ w') by (apply Z.pow_le_mono_r; lia). lia.
Qed.

#[export] Hint Resolve u8_word u32_word u64_word : words.
#[export] Hint Resolve word_lor word_lxor word_shiftr : words.
#[export] Hint Extern 1 (0 <= _) => lia : words.

(** Equality of words bit by bit: [bitwise] leaves one boolean equation per
    bit index, [bitblast] also closes it when it is propositional. *)
Ltac bitwise :=
  apply Z.bits_inj'; let i := fresh "i" in let Hi := fresh "Hi" in intros i Hi;
  rewrite ?Z.land_spec, ?Z.lor_spec, ?Z.lxor_spec, ?Z.ldiff_spec,
    ?Z.lnot_spec by lia;
  rewrite ?Z.land_spec, ?Z.lor_spec, ?Z.lxor_spec, ?Z.ldiff_spec,
    ?Z.lnot_spec by lia.
Ltac bitblast := bitwise; btauto.

(** Complement of a [w]-bit word: the C expression [~x] converted back. *)
Definition not32 (x : Z) : Z := u32 (Z.lnot x).
Definition not64 (x : Z) : Z := u64 (Z.lnot x).

Lemma not32_word x : word 32 (not32 x).
Proof. apply u32_word. Qed.
Lemma not64_word x : word 64 (not64 x).
Proof. apply u64_word. Qed.

(** Left and right rotation of 32- and 64-bit words by [0 < n < w]. *)
Definition rotl32 (x n : Z) : Z := Z.lor (u32 (Z.shiftl x n)) (Z.shiftr x (32 - n)).
Definition rotr32 (x n : Z) : Z := Z.lor (Z.shiftr x n) (u32 (Z.shiftl x (32 - n))).
Definition rotl64 (x n : Z) : Z := Z.lor (u64 (Z.shiftl x n)) (Z.shiftr x (64 - n)).
Definition rotr64 (x n : Z) : Z := Z.lor (Z.shiftr x n) (u64 (Z.shiftl x (64 - n))).

Lemma rotr32_rotl32 x n : rotr32 x n = rotl32 x (32 - n).
Proof. unfold rotr32, rotl32. rewrite Z.lor_comm. do 2 f_equal. lia. Qed.
Lemma rotr64_rotl64 x n : rotr64 x n = rotl64 x (64 - n).
Proof. unfold rotr64, rotl64. rewrite Z.lor_comm. do 2 f_equal. lia. Qed.

Lemma rotl32_word x n : 0 <= n <= 32 -> word 32 x -> word 32 (rotl32 x n).
Proof. intros. unfold rotl32. auto with words. Qed.
Lemma rotl64_word x n : 0 <= n <= 64 -> word 64 x -> word 64 (rotl64 x n).
Proof. intros. unfold rotl64. auto with words. Qed.
Lemma rotr32_word x n : 0 <= n <= 32 -> word 32 x -> word 32 (rotr32 x n).
Proof. intros. rewrite rotr32_rotl32. apply rotl32_word; [lia | done]. Qed.
Lemma rotr64_word x n : 0 <= n <= 64 -> word 64 x -> word 64 (rotr64 x n).
Proof. intros. rewrite rotr64_rotl64. apply rotl64_word; [lia | done]. Qed.

Lemma rotl_bits w x n i :
  0 < n < w -> word w x -> 0 <= i < w ->
  Z.testbit (Z.lor ((Z.shiftl x n) mod 2 ^ w) (Z.shiftr x (w - n))) i =
  Z.testbit x ((i - n) mod w).
Proof.
  intros Hn Hx Hi. rewrite Z.lor_spec, Z.mod_pow2_bits_low by lia.
  rewrite Z.shiftl_spec, Z.shiftr_spec by lia. destruct (decide (i < n)).
  - rewrite Z.testbit_neg_r by lia. cbn. f_equal.
    apply (Z.mod_unique_pos _ _ (-1)); lia.
  - rewrite (word_testbit w x (i + (w - n))), orb_false_r by (done || lia).
    f_equal. symmetry. apply Z.mod_small. lia.
Qed.

Lemma rotl_rotl_cancel w x n (rot := fun x n =>
    Z.lor ((Z.shiftl x n) mod 2 ^ w) (Z.shiftr x (w - n))) :
  0 < n < w -> word w x -> word w (rot x n) -> rot (rot x n) (w - n) = x.
Proof.
  intros Hn Hx Hr. assert (Hr2 : word w (rot (rot x n) (w - n))).
  { apply word_lor; [lia | apply Z.mod_pos_bound; lia | by apply word_shiftr; [lia |]]. }
  apply Z.bits_inj'. intros i Hi. destruct (decide (i < w)).
  - subst rot. cbv beta in *. rewrite rotl_bits by (done || lia).
    rewrite rotl_bits; [| lia | done | apply Z.mod_pos_bound; lia].
    f_equal. rewrite Zminus_mod_idemp_l. replace (i - (w - n) - n) with (i + (-1) * w) by lia.
    rewrite Z.mod_add by lia. apply Z.mod_small. lia.
  - by rewrite !(word_testbit w) by (done || lia).
Qed.

Lemma rotl32_cancel x n : 0 < n < 32 -> word 32 x -> rotl32 (rotl32 x n) (32 - n) = x.
Proof.
  intros Hn Hx. assert (H := rotl32_word x n ltac:(lia) Hx). unfold rotl32 in *.
  rewrite !u32_mod in *. by apply (rotl_rotl_cancel 32).
Qed.
Lemma rotl64_cancel x n : 0 < n < 64 -> word 64 x -> rotl64 (rotl64 x n) (64 - n) = x.
Proof.
  intros Hn Hx. assert (H := rotl64_word x n ltac:(lia) Hx). unfold rotl64 in *.
  rewrite !u64_mod in *. by apply (rotl_rotl_cancel 64).
Qed.
Lemma rotr64_rotl64_cancel x n : 0 < n < 64 -> word 64 x -> rotr64 (rotl64 x n) n = x.
Proof. intros. rewrite rotr64_rotl64. by apply rotl64_cancel. Qed.
Lemma rotr32_rotl32_cancel x n : 0 < n < 32 -> word 32 x -> rotr32 (rotl32 x n) n = x.
Proof. intros. rewrite rotr32_rotl32. by apply rotl32_cancel. Qed.
Lemma rotl32_rotr32_cancel x n : 0 < n < 32 -> word 32 x -> rotl32 (rotr32 x n) n = x.
Proof.
  intros. rewrite rotr32_rotl32. replace n with (32 - (32 - n)) at 2 by lia.
  apply rotl32_cancel; [lia | done].
Qed.
Lemma rotl64_rotr64_cancel x n : 0 < n < 64 -> word 64 x -> rotl64 (rotr64 x n) n = x.
Proof.
  intros. rewrite rotr64_rotl64. replace n with (64 - (64 - n)) at 2 by lia.
  apply rotl64_cancel; [lia | done].
Qed.

(** Addition modulo 2^w is undone by subtraction. *)
Lemma u32_sub_add x y : word 32 x -> u32 (u32 (x + y) - y) = x.
Proof.
  intros. unfold Z.sub. rewrite u32_add_l. replace (x + y + - y) with x by lia.
  by apply u32_small.
Qed.
Lemma u64_sub_add x y : word 64 x -> u64 (u64 (x + y) - y) = x.
Proof.
  intros. unfold Z.sub. rewrite u64_add_l. replace (x + y + - y) with x by lia.
  by apply u64_small.
Qed.

(** A bound on a quotient is a bound on a product. *)
Lemma le_div_iff a b c : 0 < c -> a <= b / c <-> a * c <= b.
Proof.
  intros Hc. split; intros H.
  - pose proof (Z.mul_div_le b c Hc). nia.
  - apply Z.div_le_lower_bound; lia.
Qed.

Lemma lxor_cancel_r x y : Z.lxor (Z.lxor x y) y = x.
Proof. by rewrite Z.lxor_assoc, Z.lxor_nilpotent, Z.lxor_0_r. Qed.
Lemma lxor_cancel_l x y : Z.lxor x (Z.lxor x y) = y.
Proof. by rewrite <- Z.lxor_assoc, Z.lxor_nilpotent. Qed.

(** ** Arrays

    A C array is a list; [a.[i]] reads it (reads are proved in bounds where it
    matters) and stdpp's [<[i := v]> a] writes it. *)

Notation "a .[ i ]" := (nth i a 0) (at level 1, left associativity, format "a .[ i ]").

(** [memcpy (buf + off, src, length src)]. *)
Definition write_at {A} (off : nat) (src buf : list A) : list A :=
  take off buf ++ src ++ drop (off + length src) buf.

Lemma length_write_at {A} off (src buf : list A) :
  (off + length src <= length buf)%nat -> length (write_at off src buf) = length buf.
Proof. intros. unfold write_at. rewrite !length_app, length_take, length_drop. lia. Qed.

Lemma take_write_at {A} off (src buf : list A) :
  (off + length src <= length buf)%nat ->
  take (off + length src) (write_at off src buf) = take off buf ++ src.
Proof.
  intros. unfold write_at. rewrite app_assoc. apply take_app_length'.
  rewrite length_app, length_take. lia.
Qed.

Lemma take_write_at' {A} n off (src buf : list A) :
  n = (off + length src)%nat -> (n <= length buf)%nat ->
  take n (write_at off src buf) = take off buf ++ src.
Proof. intros ->. apply take_write_at. Qed.

Lemma write_at_full {A} off (src buf : list A) :
  (off + length src = length buf)%nat -> write_at off src buf = take off buf ++ src.
Proof. intros. unfold write_at. rewrite (drop_ge buf) by lia. by rewrite app_nil_r. Qed.

Lemma drop_write_at {A} off (src buf : list A) n :
  (off + length src <= n)%nat -> (off + length src <= length buf)%nat ->
  drop n (write_at off src buf) = drop n buf.
Proof.
  intros. unfold write_at. rewrite app_assoc, drop_app.
  rewrite drop_ge by (rewrite length_app, length_take; lia). cbn.
  rewrite drop_drop. f_equal. rewrite length_app, length_take. lia.
Qed.

Lemma bytes_write_at off src buf : bytes src -> bytes buf -> bytes (write_at off src buf).
Proof.
  intros. unfold write_at. auto using Forall_app_2, Forall_take, Forall_drop.
Qed.

(** A byte buffer of size [n]. *)
Definition buffer (n : nat) (b : list Z) : Prop := length b = n /\ bytes b.

Lemma buffer_write_at n off src buf :
  buffer n buf -> bytes src -> (off + length src <= n)%nat -> buffer n (write_at off src buf).
Proof.
  intros [Hl Hb] Hs Ho. split; [rewrite length_write_at; lia | by apply bytes_write_at].
Qed.

Lemma write_at_cons {A} p (x : A) l buf :
  (p < length buf)%nat -> write_at (S p) l (<[p := x]> buf) = write_at p (x :: l) buf.
Proof.
  intros Hp. unfold write_at. rewrite (drop_insert_lt buf) by lia.
  rewrite (take_S_r _ _ x) by by apply list_lookup_insert_eq.
  rewrite take_insert_ge, <- app_assoc by lia. cbn [app length]. do 4 f_equal. lia.
Qed.

Lemma take_insert_last (l : list Z) r x :
  (r < length l)%nat -> take (r + 1) (<[r := x]> l) = take r l ++ [x].
Proof.
  intros Hr. rewrite Nat.add_1_r, (take_S_r _ _ x) by by apply list_lookup_insert_eq.
  by rewrite take_insert_ge by lia.
Qed.

Lemma buffer_insert n l i x : buffer n l -> is_byte x -> buffer n (<[i := x]> l).
Proof. intros [Hl Hb] Hx. split; [by rewrite length_insert | by apply Forall_insert]. Qed.

Lemma bytes_app l k : bytes l -> bytes k -> bytes (l ++ k).
Proof. apply Forall_app_2. Qed.
Lemma bytes_replicate n b : is_byte b -> bytes (replicate n b).
Proof. apply Forall_replicate. Qed.

(** Reading past the end yields 0, a word of every width. *)
Lemma word_nth w l i : 0 <= w -> Forall (word w) l -> word w l.[i].
Proof.
  intros Hw Hl. revert i. induction Hl as [| x l Hx _ IH]; intros [| i]; cbn; try done;
    unfold word; lia.
Qed.
#[export] Hint Resolve word_nth : words.

(** Goals [Forall P [x1; ..; xn]], one element at a time. *)
Ltac forall_words :=
  repeat (apply Forall_cons_2; [solve [auto with words | unfold word; lia] |]); apply Forall_nil_2.

(** ** Loops over arrays *)

(** [for (i = 0; i < n; i++) dst[i] ^= src[i];] *)
Definition xor_loop (n : nat) (dst src : list Z) : list Z :=
  fold_left (fun dst i => <[i := Z.lxor dst.[i] src.[i]]> dst) (seq 0 n) dst.

(** Two byte strings combined position by position. *)
Definition xor_bytes : list Z -> list Z -> list Z := zip_with Z.lxor.

Lemma length_xor_loop n dst src : length (xor_loop n dst src) = length dst.
Proof.
  unfold xor_loop. induction n as [| n IH]; [done |].
  rewrite seq_S, fold_left_app. cbn [fold_left]. by rewrite length_insert.
Qed.

Lemma lookup_nth_Z (l : list Z) i : (i < length l)%nat -> l !! i = Some l.[i].
Proof. intros H. destruct (nth_lookup_or_length l i 0); [done | lia]. Qed.

(** Lists of numbers are equal when they have the same elements at every
    index. *)
Lemma nth_ext_Z (l k : list Z) :
  length l = length k -> (forall i, (i < length l)%nat -> l.[i] = k.[i]) -> l = k.
Proof. intros. by apply (nth_ext _ _ 0 0). Qed.

Lemma nth_insert_eq (l : list Z) i x : (i < length l)%nat -> (<[i := x]> l).[i] = x.
Proof. intros. rewrite nth_lookup, list_lookup_insert_eq by done. done. Qed.
Lemma nth_insert_ne (l : list Z) i j x : i <> j -> (<[i := x]> l).[j] = l.[j].
Proof. intros. by rewrite !nth_lookup, list_lookup_insert_ne. Qed.

Lemma nth_take_Z (l : list Z) n i : (i < n)%nat -> (take n l).[i] = l.[i].
Proof. intros. by rewrite !nth_lookup, lookup_take_lt. Qed.
Lemma nth_drop_Z (l : list Z) n i : (drop n l).[i] = l.[n + i].
Proof. by rewrite !nth_lookup, lookup_drop. Qed.

Lemma Forall_nth_Z (P : Z -> Prop) l :
  (forall i, (i < length l)%nat -> P l.[i]) -> Forall P l.
Proof. intros H. apply List.Forall_forall. intros x (i & Hi & <-)%(In_nth _ _ 0). by apply H. Qed.

Lemma nth_map_seq (f : nat -> Z) a n i : (i < n)%nat -> (map f (seq a n)).[i] = f (a + i)%nat.
Proof.
  intros Hi. rewrite (nth_indep _ 0 (f 0%nat)) by (rewrite length_map, length_seq; lia).
  by rewrite map_nth, seq_nth by lia.
Qed.

Lemma nth_xor_loop n dst src i :
  (n <= length dst)%nat ->
  (xor_loop n dst src).[i] = if (i <? n)%nat then Z.lxor dst.[i] src.[i] else dst.[i].
Proof.
  unfold xor_loop. induction n as [| n IH]; intros Hn; [done |].
  rewrite seq_S, fold_left_app. cbn [fold_left plus].
  pose proof (length_xor_loop n dst src) as Hl. unfold xor_loop in Hl.
  destruct (decide (i = n)) as [-> |].
  - rewrite nth_insert_eq by (rewrite Hl; lia). rewrite IH by lia.
    rewrite (proj2 (Nat.ltb_ge n n)), (proj2 (Nat.ltb_lt n (S n))) by lia. done.
  - rewrite nth_insert_ne, IH by (done || lia).
    destruct (Nat.ltb_spec i n), (Nat.ltb_spec i (S n)); (done || lia).
Qed.

Lemma length_xor_bytes l k : length (xor_bytes l k) = (length l `min` length k)%nat.
Proof. apply length_zip_with. Qed.

Lemma nth_xor_bytes l k i :
  length l = length k -> (xor_bytes l k).[i] = Z.lxor l.[i] k.[i].
Proof.
  revert k i. induction l as [| x l IH]; intros [| y k] [| i] Hl; cbn in *; try done.
  apply IH. lia.
Qed.

Lemma bytes_xor_bytes l k : bytes l -> bytes k -> bytes (xor_bytes l k).
Proof.
  intros Hl. revert k. induction Hl as [| x l Hx _ IH]; intros k Hk; cbn; [done |].
  destruct Hk; constructor; auto with words.
Qed.

Lemma nth_zeroes n i : (replicate n 0).[i] = 0.
Proof. revert i. induction n as [| n IH]; intros [| i]; cbn; done. Qed.

(** The loop over the whole of [src] changes a prefix of [dst]. *)
Lemma xor_loop_spec dst src :
  (length src <= length dst)%nat ->
  xor_loop (length src) dst src
  = xor_bytes dst (src ++ replicate (length dst - length src) 0).
Proof.
  intros Hl. assert (Hp : length (src ++ replicate (length dst - length src) 0) = length dst)
    by (rewrite length_app, length_replicate; lia).
  apply nth_ext_Z.
  - rewrite length_xor_loop, length_xor_bytes, Hp. lia.
  - intros i Hi. rewrite nth_xor_loop, nth_xor_bytes by done.
    destruct (Nat.ltb_spec i (length src)).
    + by rewrite app_nth1.
    + by rewrite app_nth2, nth_zeroes, Z.lxor_0_r by lia.
Qed.

Lemma xor_loop_full n dst src :
  length dst = n -> length src = n -> xor_loop n dst src = xor_bytes dst src.
Proof.
  intros Hd <-. rewrite xor_loop_spec by lia. by rewrite Hd, Nat.sub_diag, app_nil_r.
Qed.

(** One iteration of a loop, without evaluating it. *)
Lemma fold_left_one {A B} (f : A -> B -> A) b l a : fold_left f (b :: l) a = fold_left f l (f a b).
Proof. done. Qed.

(** Two loop bodies that agree on the states an invariant describes. *)
Lemma fold_left_agree {A B} (P : A -> Prop) (Q : B -> Prop) (f g : A -> B -> A) l a :
  (forall a b, P a -> Q b -> f a b = g a b /\ P (g a b)) -> P a -> Forall Q l ->
  fold_left f l a = fold_left g l a /\ P (fold_left g l a).
Proof.
  intros Hfg Ha Hl. revert a Ha. induction Hl as [| b l Hb _ IH]; intros a Ha; [done |].
  cbn [fold_left]. destruct (Hfg a b Ha Hb) as [-> HP]. by apply IH.
Qed.

(** One step of a computation that has succeeded so far, as a rewriting step
    (so that what follows is not evaluated). *)
Lemma some_bind {A B} (f : A -> option B) a : mbind f (Some a) = f a.
Proof. done. Qed.
Ltac next := rewrite some_bind; cbv beta iota.

(** [memcpy(dst + off, src, n)]; [None] when it would read behind the end of
    [src] or write behind the end of [dst]. *)
Definition memcpy (off n : nat) (src dst : list Z) : option (list Z) :=
  if (n <=? length src)%nat && (off + n <=? length dst)%nat then Some (write_at off (take n src) dst) else None.
Lemma memcpy_ok off n src dst :
  (n <= length src)%nat -> (off + n <= length dst)%nat -> memcpy off n src dst = Some (write_at off (take n src) dst).
Proof. intros. unfold memcpy. by rewrite !(proj2 (Nat.leb_le _ _)) by lia. Qed.
