(* ===== verification/Endian.v ===== *)
(** * Byte order: big- and little-endian words

    The byte codecs of [xmrig/crypto/randomx/panthera/sysendian.h] and the
    number-theoretic reading of byte strings they are proved against.  The
    other encoders of the tree ([U8TO32] of c_blake256.c, [load64] of
    blake2-impl.h, ...) are declared beside their users and proved equal to
    [be_word]/[le_word] with the lemmas of this file. *)

From S2P Require Import Prelude.

(** ** Byte strings as numbers *)

Fixpoint le_word (l : list Z) : Z :=
  match l with [] => 0 | b :: l => b + 256 * le_word l end.
Fixpoint le_bytes (n : nat) (x : Z) : list Z :=
  match n with O => [] | S n => x mod 256 :: le_bytes n (x / 256) end.
Definition be_word (l : list Z) : Z := le_word (rev l).
Definition be_bytes (n : nat) (x : Z) : list Z := rev (le_bytes n x).

Lemma le_word_range l : bytes l -> word (8 * Z.of_nat (length l)) (le_word l).
Proof.
  unfold word. induction 1 as [| b l Hb _ IH]; cbn [le_word length]; [lia |].
  replace (8 * Z.of_nat (S (length l))) with (8 + 8 * Z.of_nat (length l)) by lia.
  rewrite Z.pow_add_r by lia. unfold word in Hb. lia.
Qed.

Lemma length_le_bytes n x : length (le_bytes n x) = n.
Proof. revert x. induction n; intros; cbn; congruence. Qed.
Lemma length_be_bytes n x : length (be_bytes n x) = n.
Proof. unfold be_bytes. by rewrite length_rev, length_le_bytes. Qed.

Lemma bytes_le_bytes n x : bytes (le_bytes n x).
Proof.
  revert x. induction n; intros; cbn; constructor; [| done].
  apply (Z.mod_pos_bound x 256). lia.
Qed.
Lemma bytes_rev l : bytes l -> bytes (rev l).
Proof. apply List.Forall_rev. Qed.
Lemma bytes_be_bytes n x : bytes (be_bytes n x).
Proof. apply bytes_rev, bytes_le_bytes. Qed.

Lemma le_word_le_bytes n x : le_word (le_bytes n x) = x mod 2 ^ (8 * Z.of_nat n).
Proof.
  revert x. induction n as [| n IH]; intros x; cbn [le_bytes le_word].
  - by rewrite Z.mod_1_r.
  - rewrite IH. replace (8 * Z.of_nat (S n)) with (8 + 8 * Z.of_nat n) by lia.
    rewrite Z.pow_add_r, Z.rem_mul_r by lia. done.
Qed.

Lemma le_bytes_le_word l : bytes l -> le_bytes (length l) (le_word l) = l.
Proof.
  induction 1 as [| b l Hb _ IH]; [done |]. cbn [le_bytes le_word length]. unfold word in Hb.
  replace (b + 256 * le_word l) with (b + le_word l * 256) by lia.
  rewrite Z.mod_add, Z.mod_small, Z.div_add, Z.div_small, Z.add_0_l by lia.
  by rewrite IH.
Qed.

Lemma be_word_be_bytes n x : be_word (be_bytes n x) = x mod 2 ^ (8 * Z.of_nat n).
Proof. unfold be_word, be_bytes. by rewrite rev_involutive, le_word_le_bytes. Qed.

Lemma be_bytes_be_word l : bytes l -> be_bytes (length l) (be_word l) = l.
Proof.
  intros Hl. unfold be_word, be_bytes. rewrite <- (length_rev l).
  rewrite le_bytes_le_word by by apply bytes_rev. apply rev_involutive.
Qed.

Lemma be_word_range l : bytes l -> word (8 * Z.of_nat (length l)) (be_word l).
Proof. intros. rewrite <- length_rev. apply le_word_range. by apply bytes_rev. Qed.

(** Bytes of distinct positions do not overlap: [|] is [+]. *)
Lemma lor_shift_add x y n : 0 <= n -> word n x -> Z.lor x (Z.shiftl y n) = x + Z.shiftl y n.
Proof.
  intros Hn Hx. rewrite Z.add_nocarry_lxor.
  - symmetry. apply Z.lxor_lor. apply Z.bits_inj'. intros i Hi.
    rewrite Z.land_spec, Z.shiftl_spec, Z.bits_0 by lia. destruct (decide (i < n)).
    + by rewrite (Z.testbit_neg_r y), andb_false_r by lia.
    + by rewrite (word_testbit n x i) by (done || lia).
  - apply Z.bits_inj'. intros i Hi.
    rewrite Z.land_spec, Z.shiftl_spec, Z.bits_0 by lia. destruct (decide (i < n)).
    + by rewrite (Z.testbit_neg_r y), andb_false_r by lia.
    + by rewrite (word_testbit n x i) by (done || lia).
Qed.

Lemma land_ff x n : 0 <= n -> Z.land (Z.shiftr x n) 0xff = (x / 2 ^ n) mod 256.
Proof.
  intros. change 0xff with (Z.ones 8). by rewrite Z.land_ones, Z.shiftr_div_pow2 by lia.
Qed.

(** ** sysendian.h *)

Definition be32dec (p : list Z) : Z :=
  u32 (p.[3] + Z.shiftl p.[2] 8 + Z.shiftl p.[1] 16 + Z.shiftl p.[0] 24).

Definition be32enc (x : Z) : list Z :=
  [ Z.land (Z.shiftr x 24) 0xff; Z.land (Z.shiftr x 16) 0xff;
    Z.land (Z.shiftr x 8) 0xff; Z.land x 0xff ].

Definition be64enc (x : Z) : list Z :=
  [ Z.land (Z.shiftr x 56) 0xff; Z.land (Z.shiftr x 48) 0xff;
    Z.land (Z.shiftr x 40) 0xff; Z.land (Z.shiftr x 32) 0xff;
    Z.land (Z.shiftr x 24) 0xff; Z.land (Z.shiftr x 16) 0xff;
    Z.land (Z.shiftr x 8) 0xff; Z.land x 0xff ].

Definition le32dec (p : list Z) : Z :=
  u32 (p.[0] + Z.shiftl p.[1] 8 + Z.shiftl p.[2] 16 + Z.shiftl p.[3] 24).

Definition le32enc (x : Z) : list Z :=
  [ Z.land x 0xff; Z.land (Z.shiftr x 8) 0xff;
    Z.land (Z.shiftr x 16) 0xff; Z.land (Z.shiftr x 24) 0xff ].

Ltac enc_bytes :=
  change 0xff with (Z.ones 8); rewrite ?Z.land_ones, ?Z.shiftr_div_pow2 by lia;
  cbn [le_bytes rev app]; rewrite ?Z.div_div by lia; reflexivity.

Lemma be32enc_spec x : be32enc x = be_bytes 4 x.
Proof. unfold be32enc, be_bytes. enc_bytes. Qed.
Lemma be64enc_spec x : be64enc x = be_bytes 8 x.
Proof. unfold be64enc, be_bytes. enc_bytes. Qed.
Lemma le32enc_spec x : le32enc x = le_bytes 4 x.
Proof. unfold le32enc. enc_bytes. Qed.

(** Destruct a list of known length [n] into its elements. *)
Ltac explode_list l :=
  repeat (let x := fresh "x" in destruct l as [| x l]; [cbn in *; lia |]);
  try (destruct l as [| ? l]; [| cbn in *; lia]).

Ltac inv_bytes :=
  repeat match goal with
  | H : Forall _ (_ :: _) |- _ => apply Forall_cons_1 in H as [? H]
  | H : Forall _ [] |- _ => clear H
  end.

Lemma be32dec_spec p : bytes p -> length p = 4%nat -> be32dec p = be_word p.
Proof.
  intros Hb Hl. do 4 (destruct p as [| ? p]; [done |]). destruct p; [| done]. inv_bytes.
  unfold be32dec, be_word. cbn [nth rev app le_word]. rewrite !Z.shiftl_mul_pow2 by lia.
  unfold word in *. rewrite u32_small by (unfold word; lia). lia.
Qed.
Lemma le32dec_spec p : bytes p -> length p = 4%nat -> le32dec p = le_word p.
Proof.
  intros Hb Hl. do 4 (destruct p as [| ? p]; [done |]). destruct p; [| done]. inv_bytes.
  unfold le32dec. cbn [nth le_word]. rewrite !Z.shiftl_mul_pow2 by lia.
  unfold word in *. rewrite u32_small by (unfold word; lia). lia.
Qed.

Lemma be32dec_word p : word 32 (be32dec p).
Proof. apply u32_word. Qed.
Lemma le32dec_word p : word 32 (le32dec p).
Proof. apply u32_word. Qed.
#[export] Hint Resolve be32dec_word le32dec_word : words.

Lemma be32dec_enc x : word 32 x -> be32dec (be32enc x) = x.
Proof.
  intros Hx. rewrite be32enc_spec, be32dec_spec;
    [| apply bytes_be_bytes | apply length_be_bytes].
  rewrite be_word_be_bytes. by apply Z.mod_small.
Qed.
Lemma le32dec_enc x : word 32 x -> le32dec (le32enc x) = x.
Proof.
  intros Hx. rewrite le32enc_spec, le32dec_spec;
    [| apply bytes_le_bytes | apply length_le_bytes].
  rewrite le_word_le_bytes. by apply Z.mod_small.
Qed.

(** ** Vectors of words *)

(** Split a byte string into [k] pieces of [n] bytes. *)
Fixpoint pieces (n k : nat) (l : list Z) : list (list Z) :=
  match k with O => [] | S k => take n l :: pieces n k (drop n l) end.

Lemma length_pieces n k l : length (pieces n k l) = k.
Proof. revert l. induction k; intros; cbn; congruence. Qed.

Lemma pieces_Forall n k l :
  bytes l -> (n * k <= length l)%nat ->
  Forall (fun p => bytes p /\ length p = n) (pieces n k l).
Proof.
  revert l. induction k as [| k IH]; intros l Hb Hl; cbn; constructor.
  - split; [by apply Forall_take |]. rewrite length_take. lia.
  - apply IH; [by apply Forall_drop |]. rewrite length_drop. lia.
Qed.

Lemma concat_pieces n k l : length l = (n * k)%nat -> concat (pieces n k l) = l.
Proof.
  revert l. induction k as [| k IH]; intros l Hl; cbn.
  - destruct l; cbn in *; [done | lia].
  - rewrite IH by (rewrite length_drop; lia). apply take_drop.
Qed.

(** Only the first [n * k] bytes are looked at. *)
Lemma pieces_take n k l : pieces n k (take (n * k) l) = pieces n k l.
Proof.
  revert l. induction k as [| k IH]; intros l; [done |]. cbn [pieces].
  rewrite take_take, skipn_firstn_comm. replace (n `min` (n * S k))%nat with n by lia.
  replace (n * S k - n)%nat with (n * k)%nat by lia. by rewrite IH.
Qed.

(** Only the low [n] bytes matter to an [n]-byte encoding. *)
Lemma le_bytes_mod n w x : 8 * Z.of_nat n <= w -> le_bytes n (x mod 2 ^ w) = le_bytes n x.
Proof.
  revert w x. induction n as [| n IH]; intros w x Hw; cbn [le_bytes]; [done |].
  assert (2 ^ w = 256 * 2 ^ (w - 8)) as ->.
  { change 256 with (2 ^ 8). rewrite <- Z.pow_add_r by lia. f_equal. lia. }
  assert (0 < 2 ^ (w - 8)) by lia.
  rewrite Z.rem_mul_r by lia. f_equal.
  - by rewrite (Z.mul_comm 256), Z.mod_add, Z.mod_mod by lia.
  - rewrite (Z.mul_comm 256), Z.div_add by lia.
    rewrite (Z.div_small (x mod 256)) by (apply Z.mod_pos_bound; lia).
    rewrite Z.add_0_l. apply IH. lia.
Qed.
Lemma be_bytes_u64 n x : (n <= 8)%nat -> be_bytes n (u64 x) = be_bytes n x.
Proof. intros. unfold be_bytes. rewrite u64_mod, le_bytes_mod by lia. done. Qed.
Lemma be_bytes_u32 n x : (n <= 4)%nat -> be_bytes n (u32 x) = be_bytes n x.
Proof. intros. unfold be_bytes. rewrite u32_mod, le_bytes_mod by lia. done. Qed.

Lemma length_concat_be n l : length (concat (map (be_bytes n) l)) = (n * length l)%nat.
Proof. induction l; cbn; [lia |]. rewrite length_app, length_be_bytes. lia. Qed.
Lemma length_concat_le n l : length (concat (map (le_bytes n) l)) = (n * length l)%nat.
Proof. induction l; cbn; [lia |]. rewrite length_app, length_le_bytes. lia. Qed.
Lemma bytes_concat_be n l : bytes (concat (map (be_bytes n) l)).
Proof. induction l; cbn; [done |]. apply bytes_app; [apply bytes_be_bytes | done]. Qed.
Lemma bytes_concat_le n l : bytes (concat (map (le_bytes n) l)).
Proof. induction l; cbn; [done |]. apply bytes_app; [apply bytes_le_bytes | done]. Qed.

(** ** Words assembled and taken apart byte by byte *)

Lemma be_bytes_split n k x : be_bytes (n + k) x = be_bytes n (x / 2 ^ (8 * Z.of_nat k)) ++ be_bytes k x.
Proof.
  unfold be_bytes. rewrite <- rev_app_distr. f_equal. revert x.
  induction k as [| k IH]; intros x; [by rewrite Nat.add_0_r, Z.div_1_r |].
  rewrite Nat.add_succ_r. cbn [le_bytes app]. f_equal. rewrite IH. do 2 f_equal.
  rewrite Z.div_div by lia. f_equal. replace (8 * Z.of_nat (S k)) with (8 + 8 * Z.of_nat k) by lia.
  by rewrite Z.pow_add_r by lia.
Qed.

Lemma le_word_snoc l b : le_word (l ++ [b]) = le_word l + Z.shiftl b (8 * Z.of_nat (length l)).
Proof.
  rewrite Z.shiftl_mul_pow2 by lia. induction l as [| a l IH]; cbn [le_word app length]; [lia |].
  rewrite IH. replace (8 * Z.of_nat (S (length l))) with (8 + 8 * Z.of_nat (length l)) by lia.
  rewrite Z.pow_add_r by lia. lia.
Qed.

Lemma lor_bytes p n :
  bytes p -> (n <= length p)%nat ->
  fold_left (fun w i => Z.lor w (Z.shiftl p.[i] (8 * Z.of_nat i))) (seq 0 n) 0 = le_word (take n p).
Proof.
  intros Hp. induction n as [| n IH]; intros Hn; [by rewrite take_0 |].
  rewrite seq_S, fold_left_app. cbn [fold_left Nat.add]. rewrite IH by lia.
  rewrite (take_S_r p n p.[n]) by by apply lookup_nth_Z.
  rewrite le_word_snoc, length_take. replace (n `min` length p)%nat with n by lia.
  apply lor_shift_add; [lia |]. pose proof (le_word_range (take n p)) as Hw.
  rewrite length_take in Hw. replace (n `min` length p)%nat with n in Hw by lia.
  apply Hw. by apply Forall_take.
Qed.

Lemma store_bytes n w :
  map (fun i => u8 (Z.shiftr w (8 * Z.of_nat i))) (seq 0 n) = le_bytes n w.
Proof.
  revert w. induction n as [| n IH]; intros w; [done |]. cbn [seq map le_bytes]. f_equal.
  - rewrite Z.shiftr_0_r. apply u8_mod.
  - rewrite <- IH, <- seq_shift, map_map. apply map_ext. intros i. f_equal.
    rewrite !Z.shiftr_div_pow2 by lia. replace (8 * Z.of_nat (S i)) with (8 + 8 * Z.of_nat i) by lia.
    rewrite Z.pow_add_r, Z.div_div by lia. done.
Qed.

Lemma le_bytes_lxor n a b : le_bytes n (Z.lxor a b) = xor_bytes (le_bytes n a) (le_bytes n b).
Proof.
  revert a b. induction n as [| n IH]; intros a b; [done |]. cbn [le_bytes xor_bytes zip_with].
  f_equal.
  - change 256 with (2 ^ 8). rewrite <- !Z.land_ones by lia. bitblast.
  - rewrite <- IH. f_equal. change 256 with (2 ^ 8). rewrite <- !Z.shiftr_div_pow2 by lia.
    apply Z.shiftr_lxor.
Qed.

Lemma nth_le_bytes n w i : (i < n)%nat -> (le_bytes n w).[i] = u8 (Z.shiftr w (8 * Z.of_nat i)).
Proof. intros Hi. rewrite <- store_bytes. by rewrite nth_map_seq. Qed.

Lemma nth_concat_le n x q i :
  (i < n)%nat -> (q < length x)%nat ->
  (concat (map (le_bytes n) x)).[n * q + i] = (le_bytes n x.[q]).[i].
Proof.
  intros Hi. revert q. induction x as [| w x IH]; intros q Hq; cbn [length] in Hq; [lia |].
  rewrite map_cons, concat_cons. destruct q as [| q].
  - rewrite Nat.mul_0_r, app_nth1 by (rewrite length_le_bytes; lia). done.
  - rewrite app_nth2; rewrite length_le_bytes; [| nia].
    replace (n * S q + i - n)%nat with (n * q + i)%nat by lia. apply IH. lia.
Qed.
