(* ===== verification/Streaming.v ===== *)
(** * Block absorption and the streaming-hash interface

    Every hash of the tree consumes its input in blocks of [n] bytes, keeps an
    incomplete block in its context and can be fed in arbitrary portions.
    This file has the reference semantics of that scheme ([absorb]), the
    [while (len >= n)] loop the C code uses, the arithmetic of filling a
    partially full block, and the interface [StreamingHash] /
    [StreamingHashOk] that the hashes implement and their clients (HMAC,
    PBKDF2, yespower) are proved against. *)

From S2P Require Import Prelude.

Section Absorb.
Context {S : Type} (f : S -> list Z -> S) (n : nat).

(** Feed the first [k] blocks of [m] to the compression step [f]. *)
Fixpoint absorb (k : nat) (s : S) (m : list Z) : S :=
  match k with O => s | Datatypes.S k => absorb k (f s (take n m)) (drop n m) end.

(** Feed every complete block of [m]; [rest m] is the incomplete tail. *)
Definition absorb_all (s : S) (m : list Z) : S := absorb (length m / n) s m.
Definition rest (m : list Z) : list Z := drop (n * (length m / n)) m.

(** The C loop [while (len >= n) { f(src); src += n; len -= n; }]. *)
Fixpoint while_full (fuel : nat) (s : S) (src : list Z) : S * list Z :=
  match fuel with
  | O => (s, src)
  | Datatypes.S fuel =>
      if (n <=? length src)%nat then while_full fuel (f s (take n src)) (drop n src)
      else (s, src)
  end.

Hypothesis n_pos : (0 < n)%nat.

Lemma absorb_add k j s m : absorb (k + j) s m = absorb j (absorb k s m) (drop (n * k) m).
Proof.
  revert s m. induction k as [| k IH]; intros s m; cbn.
  - by rewrite Nat.mul_0_r.
  - rewrite IH, drop_drop. do 2 f_equal. lia.
Qed.

Lemma absorb_prefix k s m d : (n * k <= length m)%nat -> absorb k s (m ++ d) = absorb k s m.
Proof.
  revert s m. induction k as [| k IH]; intros s m Hm; cbn; [done |].
  rewrite take_app_le, drop_app_le by lia. apply IH. rewrite length_drop. lia.
Qed.

Lemma absorb_1 s b d : length b = n -> absorb 1 s (b ++ d) = f s b.
Proof. intros Hb. cbn [absorb]. by rewrite take_app_length'. Qed.

Lemma length_rest m : length (rest m) = (length m mod n)%nat.
Proof. unfold rest. rewrite length_drop. pose proof (Nat.div_mod_eq (length m) n). lia. Qed.

Lemma rest_lt m : (length (rest m) < n)%nat.
Proof. rewrite length_rest. apply Nat.mod_upper_bound. lia. Qed.

Lemma rest_bytes m : bytes m -> bytes (rest m).
Proof. apply Forall_drop. Qed.

Lemma absorb_all_small s m : (length m < n)%nat -> absorb_all s m = s.
Proof. intros. unfold absorb_all. by rewrite Nat.div_small by lia. Qed.

Lemma rest_small m : (length m < n)%nat -> rest m = m.
Proof. intros. unfold rest. rewrite Nat.div_small by lia. by rewrite Nat.mul_0_r. Qed.

(** One more full block. *)
Lemma absorb_all_block s b m :
  length b = n -> absorb_all s (b ++ m) = absorb_all (f s b) m.
Proof.
  intros Hb. unfold absorb_all. rewrite length_app, Hb.
  replace (n + length m)%nat with (1 * n + length m)%nat by lia.
  rewrite Nat.div_add_l by lia. rewrite (absorb_add 1), absorb_1 by done.
  f_equal. rewrite drop_app_length'; [done | lia].
Qed.

Lemma rest_block b m : length b = n -> rest (b ++ m) = rest m.
Proof.
  intros Hb. unfold rest. rewrite length_app, Hb.
  replace (n + length m)%nat with (1 * n + length m)%nat by lia.
  rewrite Nat.div_add_l by lia.
  replace (n * (1 + length m / n))%nat with (length b + n * (length m / n))%nat by lia.
  by rewrite drop_app_add.
Qed.

(** Absorbing [m ++ d]: the complete blocks of [m] first, then the blocks
    that start with the tail of [m]. *)
Lemma absorb_all_app s m d :
  absorb_all s (m ++ d) = absorb_all (absorb_all s m) (rest m ++ d).
Proof.
  unfold absorb_all at 1 3. set (k := (length m / n)%nat).
  pose proof (Nat.div_mod_eq (length m) n) as Hm. fold k in Hm.
  assert ((length (m ++ d) / n)%nat = (k + length (rest m ++ d) / n)%nat) as ->.
  { rewrite !length_app, length_rest.
    replace (length m + length d)%nat with (k * n + (length m mod n + length d))%nat by lia.
    by rewrite Nat.div_add_l by lia. }
  rewrite absorb_add, absorb_prefix by lia. f_equal.
  unfold rest. rewrite drop_app_le by lia. done.
Qed.

Lemma rest_app m d : rest (m ++ d) = rest (rest m ++ d).
Proof.
  set (k := (length m / n)%nat).
  pose proof (Nat.div_mod_eq (length m) n) as Hm. fold k in Hm.
  unfold rest at 1 2. rewrite !length_app, length_rest.
  replace (length m + length d)%nat with (k * n + (length m mod n + length d))%nat by lia.
  rewrite Nat.div_add_l by lia. rewrite Nat.mul_add_distr_l, <- drop_drop.
  f_equal. rewrite drop_app_le by lia. done.
Qed.

(** The complete blocks of [m] alone. *)
Definition whole (m : list Z) : list Z := take (n * (length m / n)) m.

Lemma whole_rest m : whole m ++ rest m = m.
Proof. apply take_drop. Qed.

Lemma length_whole m : length (whole m) = (n * (length m / n))%nat.
Proof.
  unfold whole. rewrite length_take. pose proof (Nat.div_mod_eq (length m) n). lia.
Qed.

Lemma rest_whole m : rest (whole m) = [].
Proof.
  apply nil_length_inv. rewrite length_rest, length_whole, Nat.mul_comm. apply Nat.Div0.mod_mul.
Qed.

Lemma absorb_all_whole s m : absorb_all s (whole m) = absorb_all s m.
Proof.
  unfold absorb_all at 1. rewrite length_whole, Nat.mul_comm, Nat.div_mul by lia.
  unfold absorb_all. rewrite <- (absorb_prefix _ s (whole m) (rest m)), whole_rest; [done |].
  rewrite length_whole. lia.
Qed.

(** Filling the partial block of [m] with the first bytes of [d]. *)
Lemma absorb_all_fill s m d (fill := (n - length (rest m))%nat) :
  (fill <= length d)%nat ->
  absorb_all s (m ++ d)
  = absorb_all (f (absorb_all s m) (rest m ++ take fill d)) (drop fill d) /\
  rest (m ++ d) = rest (drop fill d).
Proof.
  intros Hf. pose proof (rest_lt m).
  assert (Hl : length (rest m ++ take fill d) = n).
  { rewrite length_app, length_take. unfold fill in *. lia. }
  rewrite absorb_all_app, rest_app.
  assert (rest m ++ d = (rest m ++ take fill d) ++ drop fill d) as ->
    by by rewrite <- app_assoc, take_drop.
  by rewrite absorb_all_block, rest_block.
Qed.

(** Not enough data to complete the block: nothing is absorbed. *)
Lemma absorb_all_nofill s m d :
  (length (rest m) + length d < n)%nat ->
  absorb_all s (m ++ d) = absorb_all s m /\ rest (m ++ d) = rest m ++ d.
Proof.
  intros Hl. rewrite absorb_all_app, rest_app.
  assert (length (rest m ++ d) < n)%nat by (rewrite length_app; lia).
  by rewrite (absorb_all_small _ (rest m ++ d)), (rest_small (rest m ++ d)).
Qed.

(** The loop, with fuel at least the number of remaining bytes, absorbs
    exactly the complete blocks. *)
Lemma while_full_spec fuel s src :
  (length src <= fuel)%nat -> while_full fuel s src = (absorb_all s src, rest src).
Proof.
  revert s src. induction fuel as [| fuel IH]; intros s src Hf.
  - rewrite absorb_all_small, rest_small by lia. done.
  - cbn. destruct (Nat.leb_spec n (length src)) as [Hl | Hl].
    + rewrite IH by (rewrite length_drop; lia).
      assert (Ht : length (take n src) = n) by (rewrite length_take; lia).
      by rewrite <- (absorb_all_block s _ _ Ht), <- (rest_block _ (drop n src) Ht), take_drop.
    + by rewrite absorb_all_small, rest_small by lia.
Qed.
End Absorb.

(** An invariant of the step function holds of the absorbed state. *)
Lemma absorb_inv {S} (P : S -> Prop) (f : S -> list Z -> S) n k s m :
  (forall s b, P s -> bytes b -> length b = n -> P (f s b)) ->
  P s -> bytes m -> (n * k <= length m)%nat -> P (absorb f n k s m).
Proof.
  intros Hf. revert s m. induction k as [| k IH]; intros s m Hs Hm Hl; cbn; [done |].
  apply IH; [| by apply Forall_drop | rewrite length_drop; lia].
  apply Hf; [done | by apply Forall_take | rewrite length_take; lia].
Qed.

Lemma absorb_all_inv {S} (P : S -> Prop) (f : S -> list Z -> S) n s m :
  (0 < n)%nat -> (forall s b, P s -> bytes b -> length b = n -> P (f s b)) ->
  P s -> bytes m -> P (absorb_all f n s m).
Proof.
  intros Hn Hf Hs Hm. apply (absorb_inv P f n); try done.
  rewrite Nat.mul_comm. pose proof (Nat.div_mod_eq (length m) n). lia.
Qed.

(** Two step functions that agree on full blocks absorb alike. *)
Lemma absorb_ext {S} (P : S -> Prop) (f g : S -> list Z -> S) n k s m :
  (forall s b, P s -> bytes b -> length b = n -> f s b = g s b /\ P (f s b)) ->
  P s -> bytes m -> (n * k <= length m)%nat -> absorb f n k s m = absorb g n k s m.
Proof.
  intros Hf. revert s m. induction k as [| k IH]; intros s m Hs Hm Hl; cbn; [done |].
  destruct (Hf s (take n m)) as [<- HP];
    [done | by apply Forall_take | rewrite length_take; lia |].
  apply IH; [done | by apply Forall_drop | rewrite length_drop; lia].
Qed.

(** ** The last block kept back

    BLAKE2b and Skein compress a full block only when more data follow: of [n]
    bytes these blocks have been compressed. *)
Definition lazy_blocks (B n : nat) : nat := ((n - 1) / B)%nat.
Lemma lazy_blocks_spec B n k :
  (0 < B)%nat ->
  lazy_blocks B n = k <-> (B * k < n <= B * (k + 1))%nat \/ (n = 0 /\ k = 0)%nat.
Proof.
  intros HB. unfold lazy_blocks. pose proof (Nat.div_mod_eq (n - 1) B) as Hd.
  pose proof (Nat.mod_upper_bound (n - 1) B ltac:(lia)) as Hm. split.
  - intros <-. lia.
  - intros H. symmetry. apply (Nat.div_unique _ _ _ (n - 1 - B * k)); nia.
Qed.

(** ** Merkle-Damgard padding in place

    A buffer of [n] bytes holding [r] message bytes [R] is completed with a
    marker byte [x], zeroes and a [t]-byte length field; when they do not fit,
    the zeroes run over into a second block. *)
Section PadInPlace.
Context (n t r : nat) (x : Z) (R buf tail : list Z).
Hypotheses (HR : take r buf = R) (Hbuf : length buf = n) (Hr : (r < n)%nat)
  (Htail : length tail = t) (Ht : (t < n)%nat).

Lemma pad_one_block :
  (r + t < n)%nat ->
  write_at (n - t) tail (write_at r (x :: replicate (n - t - r - 1) 0) buf)
  = R ++ [x] ++ replicate (n - t - r - 1) 0 ++ tail.
Proof.
  intros Hfit. set (z := x :: replicate _ 0).
  assert (Hz : length z = (n - t - r)%nat) by (cbn; rewrite length_replicate; lia).
  rewrite write_at_full by (rewrite length_write_at; lia).
  pose proof (take_write_at r z buf ltac:(lia)) as Hw.
  replace (r + length z)%nat with (n - t)%nat in Hw by lia.
  rewrite Hw, HR. unfold z. by rewrite <- !app_assoc.
Qed.

Lemma pad_first_block :
  write_at r (x :: replicate (n - r - 1) 0) buf = R ++ [x] ++ replicate (n - r - 1) 0.
Proof using HR Hbuf Hr.
  clear Ht Htail. rewrite write_at_full; [by rewrite HR |]. cbn. rewrite length_replicate. lia.
Qed.

Lemma pad_second_block blk :
  length blk = n ->
  write_at (n - t) tail (write_at 0 (replicate (n - t) 0) blk) = replicate (n - t) 0 ++ tail.
Proof using Htail Ht.
  clear HR Hbuf Hr. intros Hb.
  rewrite write_at_full by (rewrite length_write_at; rewrite ?length_replicate; lia).
  f_equal. pose proof (take_write_at 0 (replicate (n - t) 0) blk) as Hw.
  rewrite length_replicate, take_0 in Hw. apply Hw. lia.
Qed.
End PadInPlace.

(** ** The streaming interface *)

(** [stream_init] reinitialises a context that may hold anything of the right
    shape, [stream_update] feeds a portion of the message, [stream_final]
    returns the digest. *)
Class StreamingHash (ctx : Type) := {
  stream_init : ctx -> ctx;
  stream_update : ctx -> list Z -> ctx;
  stream_final : ctx -> list Z
}.

(** What an implementation promises of the hash function [H]: [stream_repr c m]
    says that the context [c] stands for the message [m] fed so far. *)
Class StreamingHashOk (ctx : Type) `{StreamingHash ctx} (H : list Z -> list Z) := {
  stream_wf : ctx -> Prop;
  stream_repr : ctx -> list Z -> Prop;
  stream_init_ok c : stream_wf c -> stream_repr (stream_init c) [];
  stream_update_ok c m d :
    stream_repr c m -> bytes d -> stream_repr (stream_update c d) (m ++ d);
  stream_final_ok c m : stream_repr c m -> stream_final c = H m;
  stream_repr_wf c m : stream_repr c m -> stream_wf c
}.

Section StreamingClient.
Context {ctx : Type} {SH : StreamingHash ctx} {H : list Z -> list Z}.
Context {SHO : StreamingHashOk ctx H}.

(** Feeding a message portion by portion. *)
Definition feed (c : ctx) (portions : list (list Z)) : ctx :=
  fold_left stream_update portions c.

Lemma feed_ok c m portions :
  stream_repr c m -> Forall (Forall is_byte) portions ->
  stream_repr (feed c portions) (m ++ concat portions).
Proof.
  intros Hc Hp. revert c m Hc. induction Hp as [| d ds Hd _ IH]; intros c m Hc; cbn.
  - by rewrite app_nil_r.
  - rewrite app_assoc. by apply IH, stream_update_ok.
Qed.

(** The digest depends on the concatenation of the portions only. *)
Lemma feed_digest c portions :
  stream_wf c -> Forall (Forall is_byte) portions ->
  stream_final (feed (stream_init c) portions) = H (concat portions).
Proof.
  intros Hc Hp. apply stream_final_ok. apply (feed_ok _ []); [| done].
  by apply stream_init_ok.
Qed.

(** One call with the whole message. *)
Lemma oneshot_digest c m :
  stream_wf c -> bytes m -> stream_final (stream_update (stream_init c) m) = H m.
Proof.
  intros Hc Hm. apply stream_final_ok. apply (stream_update_ok _ []); [| done].
  by apply stream_init_ok.
Qed.
End StreamingClient.
