(* ===== verification/Gf256.v ===== *)
(** * The field of AES

    GF(2^8) and the S-box as FIPS 197 defines them; the tables of Groestl
    and of the software AES are compared with these. *)

From S2P Require Import Prelude.

Module Gf256.
(** GF(2^8) modulo x^8 + x^4 + x^3 + x + 1, and the S-box of AES: the inverse
    a^254, then an affine map. *)
Definition xtime (a : Z) : Z := if a <? 128 then 2 * a else Z.lxor (2 * a) 0x11B.
Definition gmul (a b : Z) : Z :=
  fold_left (fun acc i => if Z.testbit a (Z.of_nat i) then Z.lxor acc (Nat.iter i xtime b) else acc)
    (seq 0 8) 0.
Definition ginv (a : Z) : Z := Nat.iter 253 (gmul a) a.
Definition rotl8 (b n : Z) : Z := Z.lor (u8 (Z.shiftl b n)) (Z.shiftr b (8 - n)).
Definition sbox (a : Z) : Z :=
  let b := ginv a in
  fold_left (fun acc n => Z.lxor acc (rotl8 b n)) [1; 2; 3; 4] (Z.lxor 0x63 b).
End Gf256.
