(* ===== verification/SoftAes.v ===== *)
(** * AES rounds in software: [xmrig/crypto/cn/soft_aes.h] and the AES part of
    [CryptoNight_x86.h]

    CryptoNight uses single AES rounds and the first ten round keys of
    AES-256.  On processors with AES instructions these are the intrinsics
    [_mm_aesenc_si128] and [_mm_aeskeygenassist_si128], otherwise the table
    look-ups of [soft_aes.h].  Both are instances of the interface
    [AesRounds], whose law is FIPS 197 ([Aes]). *)

From S2P Require Import Prelude Endian Gf256.

(** ** 128-bit registers

    [__m128i] as its two 64-bit halves, and the intrinsics the code uses. *)
Record m128i := M128 { lo64 : Z; hi64 : Z }.

(** The 32-bit elements; element 0 is what [_mm_cvtsi128_si32] returns. *)
Definition epi32 (x : m128i) (i : Z) : Z :=
  if i =? 0 then u32 x.(lo64) else if i =? 1 then Z.shiftr x.(lo64) 32
  else if i =? 2 then u32 x.(hi64) else Z.shiftr x.(hi64) 32.
Definition _mm_set_epi32 (e3 e2 e1 e0 : Z) : m128i :=
  M128 (Z.lor e0 (Z.shiftl e1 32)) (Z.lor e2 (Z.shiftl e3 32)).
Definition _mm_set_epi64x (e1 e0 : Z) : m128i := M128 e0 e1.
Definition _mm_xor_si128 (a b : m128i) : m128i :=
  M128 (Z.lxor a.(lo64) b.(lo64)) (Z.lxor a.(hi64) b.(hi64)).
Definition _mm_shuffle_epi32 (x : m128i) (imm : Z) : m128i :=
  let sel n := epi32 x (Z.land (Z.shiftr imm n) 3) in
  _mm_set_epi32 (sel 6) (sel 4) (sel 2) (sel 0).
(** [_mm_slli_si128(x, 4)]. *)
Definition _mm_slli_si128_4 (x : m128i) : m128i :=
  M128 (u64 (Z.shiftl x.(lo64) 32)) (Z.lor (u64 (Z.shiftl x.(hi64) 32)) (Z.shiftr x.(lo64) 32)).

Definition vec (x : m128i) : Prop := word 64 x.(lo64) /\ word 64 x.(hi64).
Definition vec_bytes (x : m128i) : list Z := le_bytes 8 x.(lo64) ++ le_bytes 8 x.(hi64).
Definition vec_of_bytes (l : list Z) : m128i := M128 (le_word (take 8 l)) (le_word (drop 8 l)).

(** ** [soft_aes.h] *)

Definition saes_data : list Z := [
  0x63; 0x7c; 0x77; 0x7b; 0xf2; 0x6b; 0x6f; 0xc5; 0x30; 0x01; 0x67; 0x2b; 0xfe; 0xd7; 0xab; 0x76;
  0xca; 0x82; 0xc9; 0x7d; 0xfa; 0x59; 0x47; 0xf0; 0xad; 0xd4; 0xa2; 0xaf; 0x9c; 0xa4; 0x72; 0xc0;
  0xb7; 0xfd; 0x93; 0x26; 0x36; 0x3f; 0xf7; 0xcc; 0x34; 0xa5; 0xe5; 0xf1; 0x71; 0xd8; 0x31; 0x15;
  0x04; 0xc7; 0x23; 0xc3; 0x18; 0x96; 0x05; 0x9a; 0x07; 0x12; 0x80; 0xe2; 0xeb; 0x27; 0xb2; 0x75;
  0x09; 0x83; 0x2c; 0x1a; 0x1b; 0x6e; 0x5a; 0xa0; 0x52; 0x3b; 0xd6; 0xb3; 0x29; 0xe3; 0x2f; 0x84;
  0x53; 0xd1; 0x00; 0xed; 0x20; 0xfc; 0xb1; 0x5b; 0x6a; 0xcb; 0xbe; 0x39; 0x4a; 0x4c; 0x58; 0xcf;
  0xd0; 0xef; 0xaa; 0xfb; 0x43; 0x4d; 0x33; 0x85; 0x45; 0xf9; 0x02; 0x7f; 0x50; 0x3c; 0x9f; 0xa8;
  0x51; 0xa3; 0x40; 0x8f; 0x92; 0x9d; 0x38; 0xf5; 0xbc; 0xb6; 0xda; 0x21; 0x10; 0xff; 0xf3; 0xd2;
  0xcd; 0x0c; 0x13; 0xec; 0x5f; 0x97; 0x44; 0x17; 0xc4; 0xa7; 0x7e; 0x3d; 0x64; 0x5d; 0x19; 0x73;
  0x60; 0x81; 0x4f; 0xdc; 0x22; 0x2a; 0x90; 0x88; 0x46; 0xee; 0xb8; 0x14; 0xde; 0x5e; 0x0b; 0xdb;
  0xe0; 0x32; 0x3a; 0x0a; 0x49; 0x06; 0x24; 0x5c; 0xc2; 0xd3; 0xac; 0x62; 0x91; 0x95; 0xe4; 0x79;
  0xe7; 0xc8; 0x37; 0x6d; 0x8d; 0xd5; 0x4e; 0xa9; 0x6c; 0x56; 0xf4; 0xea; 0x65; 0x7a; 0xae; 0x08;
  0xba; 0x78; 0x25; 0x2e; 0x1c; 0xa6; 0xb4; 0xc6; 0xe8; 0xdd; 0x74; 0x1f; 0x4b; 0xbd; 0x8b; 0x8a;
  0x70; 0x3e; 0xb5; 0x66; 0x48; 0x03; 0xf6; 0x0e; 0x61; 0x35; 0x57; 0xb9; 0x86; 0xc1; 0x1d; 0x9e;
  0xe1; 0xf8; 0x98; 0x11; 0x69; 0xd9; 0x8e; 0x94; 0x9b; 0x1e; 0x87; 0xe9; 0xce; 0x55; 0x28; 0xdf;
  0x8c; 0xa1; 0x89; 0x0d; 0xbf; 0xe6; 0x42; 0x68; 0x41; 0x99; 0x2d; 0x0f; 0xb0; 0x54; 0xbb; 0x16].

Definition SAES_WPOLY : Z := 0x011b.
Definition saes_b2w (b0 b1 b2 b3 : Z) : Z :=
  Z.lor (Z.lor (Z.lor (Z.shiftl b3 24) (Z.shiftl b2 16)) (Z.shiftl b1 8)) b0.
Definition saes_f2 (x : Z) : Z := Z.lxor (Z.shiftl x 1) (Z.land (Z.shiftr x 7) 1 * SAES_WPOLY).
Definition saes_f3 (x : Z) : Z := Z.lxor (saes_f2 x) x.
Definition saes_h0 (x : Z) : Z := x.
Definition saes_u0 (p : Z) : Z := saes_b2w (saes_f2 p) p p (saes_f3 p).
Definition saes_u1 (p : Z) : Z := saes_b2w (saes_f3 p) (saes_f2 p) p p.
Definition saes_u2 (p : Z) : Z := saes_b2w p (saes_f3 p) (saes_f2 p) p.
Definition saes_u3 (p : Z) : Z := saes_b2w p p (saes_f3 p) (saes_f2 p).

Definition saes_table : list (list Z) :=
  Eval vm_compute in [map saes_u0 saes_data; map saes_u1 saes_data; map saes_u2 saes_data; map saes_u3 saes_data].
Definition saes_sbox : list Z := Eval vm_compute in map saes_h0 saes_data.

(** [saes_table[k][i]]. *)
Definition entry (k : nat) (i : Z) : Z := (nth k saes_table []).[Z.to_nat i].

(** [soft_aesenc(__m128i in, __m128i key)]; the version for [const uint32_t* in]
    has the same expressions for the four words it loads. *)
Definition soft_aesenc_words (x0 x1 x2 x3 : Z) (key : m128i) : m128i :=
  let t a b c d := Z.lxor (Z.lxor (Z.lxor (entry 0 (Z.land a 0xff))
    (entry 1 (Z.land (Z.shiftr b 8) 0xff))) (entry 2 (Z.land (Z.shiftr c 16) 0xff))) (entry 3 (Z.shiftr d 24)) in
  let out := _mm_set_epi32 (t x3 x0 x1 x2) (t x2 x3 x0 x1) (t x1 x2 x3 x0) (t x0 x1 x2 x3) in
  _mm_xor_si128 out key.
Definition soft_aesenc (x key : m128i) : m128i :=
  let x0 := epi32 x 0 in
  let x1 := epi32 (_mm_shuffle_epi32 x 0x55) 0 in
  let x2 := epi32 (_mm_shuffle_epi32 x 0xAA) 0 in
  let x3 := epi32 (_mm_shuffle_epi32 x 0xFF) 0 in
  soft_aesenc_words x0 x1 x2 x3 key.

Definition sub_word (key : Z) : Z :=
  Z.lor (Z.lor (Z.lor (u32 (Z.shiftl saes_sbox.[Z.to_nat (Z.shiftr key 24)] 24))
    (Z.shiftl saes_sbox.[Z.to_nat (Z.land (Z.shiftr key 16) 0xff)] 16))
    (Z.shiftl saes_sbox.[Z.to_nat (Z.land (Z.shiftr key 8) 0xff)] 8))
    saes_sbox.[Z.to_nat (Z.land key 0xff)].
Definition _rotr (value amount : Z) : Z :=
  Z.lor (Z.shiftr value amount) (u32 (Z.shiftl value (Z.land (32 - amount) 31))).
Definition soft_aeskeygenassist (rcon : Z) (key : m128i) : m128i :=
  let X1 := sub_word (epi32 (_mm_shuffle_epi32 key 0x55) 0) in
  let X3 := sub_word (epi32 (_mm_shuffle_epi32 key 0xFF) 0) in
  _mm_set_epi32 (Z.lxor (_rotr X3 8) rcon) X3 (Z.lxor (_rotr X1 8) rcon) X1.

(** ** The pointer versions in [CryptoNight_x86.h]

    [t] is the table as one array; the shifts of [x0] .. [x3] are cumulative. *)
Definition saes_flat : list Z := Eval vm_compute in concat saes_table.

Definition soft_aesenc_ptr (x : m128i) (key : m128i) (t : list Z) : m128i :=
  let at_ off i := t.[off + Z.to_nat i] in
  let x0 := epi32 x 0 in let x1 := epi32 x 1 in let x2 := epi32 x 2 in let x3 := epi32 x 3 in
  let y0 := at_ 0%nat (Z.land x0 0xff) in let x0 := Z.shiftr x0 8 in
  let y1 := at_ 0%nat (Z.land x1 0xff) in let x1 := Z.shiftr x1 8 in
  let y2 := at_ 0%nat (Z.land x2 0xff) in let x2 := Z.shiftr x2 8 in
  let y3 := at_ 0%nat (Z.land x3 0xff) in let x3 := Z.shiftr x3 8 in
  let y0 := Z.lxor y0 (at_ 256%nat (Z.land x1 0xff)) in let x1 := Z.shiftr x1 8 in
  let y1 := Z.lxor y1 (at_ 256%nat (Z.land x2 0xff)) in let x2 := Z.shiftr x2 8 in
  let y2 := Z.lxor y2 (at_ 256%nat (Z.land x3 0xff)) in let x3 := Z.shiftr x3 8 in
  let y3 := Z.lxor y3 (at_ 256%nat (Z.land x0 0xff)) in let x0 := Z.shiftr x0 8 in
  let y0 := Z.lxor y0 (at_ 512%nat (Z.land x2 0xff)) in let x2 := Z.shiftr x2 8 in
  let y1 := Z.lxor y1 (at_ 512%nat (Z.land x3 0xff)) in let x3 := Z.shiftr x3 8 in
  let y2 := Z.lxor y2 (at_ 512%nat (Z.land x0 0xff)) in let x0 := Z.shiftr x0 8 in
  let y3 := Z.lxor y3 (at_ 512%nat (Z.land x1 0xff)) in let x1 := Z.shiftr x1 8 in
  let y0 := Z.lxor y0 (at_ 512%nat (x3 + 256)) in
  let y1 := Z.lxor y1 (at_ 512%nat (x0 + 256)) in
  let y2 := Z.lxor y2 (at_ 512%nat (x1 + 256)) in
  let y3 := Z.lxor y3 (at_ 512%nat (x2 + 256)) in
  _mm_xor_si128 (_mm_set_epi32 y3 y2 y1 y0) key.

(** [aes_round_tweak_div], for cn-heavy/tube: [k] and [x] are arrays of words,
    and a word of [x] changes before the next word of [k] is computed. *)
Definition aes_round_tweak_div (in_ key : m128i) : m128i :=
  let x := _mm_xor_si128 in_ (_mm_set_epi64x 0xffffffffffffffff 0xffffffffffffffff) in
  let byte p i := Z.land (Z.shiftr p (8 * i)) 0xff in
  let mix k a b c d := Z.lxor k (Z.lxor (Z.lxor (Z.lxor (entry 0 (byte a 0)) (entry 1 (byte b 1)))
    (entry 2 (byte c 2))) (entry 3 (byte d 3))) in
  let x0 := epi32 x 0 in let x1 := epi32 x 1 in let x2 := epi32 x 2 in let x3 := epi32 x 3 in
  let k0 := mix (epi32 key 0) x0 x1 x2 x3 in let x0 := Z.lxor x0 k0 in
  let k1 := mix (epi32 key 1) x1 x2 x3 x0 in let x1 := Z.lxor x1 k1 in
  let k2 := mix (epi32 key 2) x2 x3 x0 x1 in let x2 := Z.lxor x2 k2 in
  let k3 := mix (epi32 key 3) x3 x0 x1 x2 in
  _mm_set_epi32 k3 k2 k1 k0.

(** ** The interface: single rounds and the helper of the key schedule *)

Class AesRounds := {
  aesenc : m128i -> m128i -> m128i;
  aeskeygenassist : Z -> m128i -> m128i
}.

(** [SOFT_AES = true]. *)
Definition soft_rounds : AesRounds := {|
  aesenc x key := soft_aesenc_ptr x key saes_flat;
  aeskeygenassist := soft_aeskeygenassist
|}.

Section Keys.
Context `{AesRounds}.

Definition sl_xor (tmp1 : m128i) : m128i :=
  let tmp4 := _mm_slli_si128_4 tmp1 in
  let tmp1 := _mm_xor_si128 tmp1 tmp4 in
  let tmp4 := _mm_slli_si128_4 tmp4 in
  let tmp1 := _mm_xor_si128 tmp1 tmp4 in
  let tmp4 := _mm_slli_si128_4 tmp4 in
  _mm_xor_si128 tmp1 tmp4.

(** [aes_genkey_sub<rcon>] and [soft_aes_genkey_sub<rcon>]. *)
Definition aes_genkey_sub (rcon : Z) (xout0 xout2 : m128i) : m128i * m128i :=
  let xout1 := aeskeygenassist rcon xout2 in
  let xout1 := _mm_shuffle_epi32 xout1 0xFF in
  let xout0 := sl_xor xout0 in
  let xout0 := _mm_xor_si128 xout0 xout1 in
  let xout1 := aeskeygenassist 0x00 xout0 in
  let xout1 := _mm_shuffle_epi32 xout1 0xAA in
  let xout2 := sl_xor xout2 in
  let xout2 := _mm_xor_si128 xout2 xout1 in
  (xout0, xout2).

(** The keys [k0] .. [k9]. *)
Definition aes_genkey (m0 m1 : m128i) : list m128i :=
  let '(k2, k3) := aes_genkey_sub 0x01 m0 m1 in
  let '(k4, k5) := aes_genkey_sub 0x02 k2 k3 in
  let '(k6, k7) := aes_genkey_sub 0x04 k4 k5 in
  let '(k8, k9) := aes_genkey_sub 0x08 k6 k7 in
  [m0; m1; k2; k3; k4; k5; k6; k7; k8; k9].

(** The eight registers [x0] .. [x7]. *)
Definition aes_round (key : m128i) (x : list m128i) : list m128i := map (fun x => aesenc x key) x.
End Keys.

Definition mix_and_propagate (x : list m128i) : list m128i :=
  match x with
  | [x0; x1; x2; x3; x4; x5; x6; x7] =>
      let tmp0 := x0 in
      [_mm_xor_si128 x0 x1; _mm_xor_si128 x1 x2; _mm_xor_si128 x2 x3; _mm_xor_si128 x3 x4;
       _mm_xor_si128 x4 x5; _mm_xor_si128 x5 x6; _mm_xor_si128 x6 x7; _mm_xor_si128 x7 tmp0]
  | _ => x
  end.

(** ** FIPS 197 *)

Module Aes.
(** The state by columns: row [r] of column [c] is byte [4 c + r]. *)
Definition at_ (s : list Z) (r c : nat) : Z := s.[4 * c + r].
Definition build (f : nat -> nat -> Z) : list Z :=
  concat (map (fun c => map (fun r => f r c) (seq 0 4)) (seq 0 4)).
Definition SubBytes (s : list Z) : list Z := build (fun r c => Gf256.sbox (at_ s r c)).
Definition ShiftRows (s : list Z) : list Z := build (fun r c => at_ s r ((c + r) mod 4)).
(** The circulant matrix with this first row. *)
Definition circ : list Z := [2; 3; 1; 1].
Definition MixColumns (s : list Z) : list Z :=
  build (fun r c => fold_left Z.lxor
    (map (fun k => Gf256.gmul circ.[(k + 4 - r) mod 4] (at_ s k c)) (seq 0 4)) 0).
Definition AddRoundKey (s k : list Z) : list Z := xor_bytes s k.
Definition round (s k : list Z) : list Z := AddRoundKey (MixColumns (ShiftRows (SubBytes s))) k.

(** The key schedule for keys of [Nk = 8] words, one more word at a time. *)
Definition SubWord (w : list Z) : list Z := map Gf256.sbox w.
Definition RotWord (w : list Z) : list Z := drop 1 w ++ take 1 w.
Definition Rcon (i : nat) : list Z := [Nat.iter (i - 1) Gf256.xtime 1; 0; 0; 0].
Definition next_word (w : list (list Z)) : list (list Z) :=
  let i := length w in
  let temp := nth (i - 1) w [] in
  let temp :=
    if (i mod 8 =? 0)%nat then xor_bytes (SubWord (RotWord temp)) (Rcon (i / 8))
    else if (i mod 8 =? 4)%nat then SubWord temp else temp in
  w ++ [xor_bytes (nth (i - 8) w []) temp].
(** The first [n] words of the schedule; round key [j] is words [4 j] .. [4 j + 3]. *)
Definition KeyExpansion (key : list Z) (n : nat) : list (list Z) :=
  Nat.iter (n - 8) next_word (pieces 4 8 key).
Definition round_key (key : list Z) (n j : nat) : list Z :=
  concat (take 4 (drop (4 * j) (KeyExpansion key n))).
End Aes.

(** The intrinsics of processors with AES instructions ([SOFT_AES = false]). *)
Definition _mm_aesenc_si128 (a key : m128i) : m128i :=
  vec_of_bytes (Aes.round (vec_bytes a) (vec_bytes key)).
Definition _mm_aeskeygenassist_si128 (a : m128i) (imm : Z) : m128i :=
  let sub i := Aes.SubWord (le_bytes 4 (epi32 a i)) in
  let rot i := xor_bytes (Aes.RotWord (sub i)) [imm; 0; 0; 0] in
  vec_of_bytes (sub 1 ++ rot 1 ++ sub 3 ++ rot 3).
Definition hard_rounds : AesRounds := {|
  aesenc := _mm_aesenc_si128;
  aeskeygenassist rcon x := _mm_aeskeygenassist_si128 x rcon
|}.

(** What an implementation promises: FIPS 197 on the bytes of the registers. *)
Class AesRoundsOk (A : AesRounds) := {
  aesenc_vec x k : vec x -> vec k -> vec (aesenc x k);
  aesenc_ok x k : vec x -> vec k -> vec_bytes (aesenc x k) = Aes.round (vec_bytes x) (vec_bytes k);
  assist_vec rcon x : is_byte rcon -> vec x -> vec (aeskeygenassist rcon x);
  assist_1 rcon x : is_byte rcon -> vec x ->
    le_bytes 4 (epi32 (aeskeygenassist rcon x) 2) = Aes.SubWord (le_bytes 4 (epi32 x 3));
  assist_3 rcon x : is_byte rcon -> vec x ->
    le_bytes 4 (epi32 (aeskeygenassist rcon x) 3)
    = xor_bytes (Aes.RotWord (Aes.SubWord (le_bytes 4 (epi32 x 3)))) [rcon; 0; 0; 0]
}.

(** ** Registers and their bytes *)

Lemma le_bytes_split n k x : le_bytes (n + k) x = le_bytes n x ++ le_bytes k (Z.shiftr x (8 * Z.of_nat n)).
Proof.
  rewrite <- !store_bytes, seq_app, map_app. f_equal. rewrite Nat.add_0_l.
  rewrite <- (Nat.add_0_r n) at 1. rewrite <- fmap_add_seq. change (Nat.add n <$> seq 0 k) with (map (Nat.add n) (seq 0 k)).
  rewrite map_map. apply map_ext. intros i. rewrite Z.shiftr_shiftr by lia. do 2 f_equal. lia.
Qed.

Lemma epi32_word x i : vec x -> word 32 (epi32 x i).
Proof.
  intros [Hl Hh]. unfold epi32.
  assert (Hs : forall w, word 64 w -> word 32 (Z.shiftr w 32)).
  { intros w Hw. unfold word in *. rewrite Z.shiftr_div_pow2 by lia.
    split; [apply Z.div_pos; lia | apply Z.div_lt_upper_bound; lia]. }
  repeat case_match; auto with words.
Qed.

Lemma le_bytes_8 w : le_bytes 8 w = le_bytes 4 (u32 w) ++ le_bytes 4 (Z.shiftr w 32).
Proof. by rewrite (le_bytes_split 4 4), u32_mod, le_bytes_mod. Qed.

Lemma vec_bytes_lanes x :
  vec_bytes x = le_bytes 4 (epi32 x 0) ++ le_bytes 4 (epi32 x 1) ++ le_bytes 4 (epi32 x 2) ++ le_bytes 4 (epi32 x 3).
Proof. unfold vec_bytes, epi32. cbn [Z.eqb Pos.eqb]. by rewrite !le_bytes_8, <- !app_assoc. Qed.

Lemma length_vec_bytes x : length (vec_bytes x) = 16%nat.
Proof. unfold vec_bytes. by rewrite length_app, !length_le_bytes. Qed.
Lemma bytes_vec_bytes x : bytes (vec_bytes x).
Proof. apply bytes_app; apply bytes_le_bytes. Qed.

(** The two words of a 64-bit half. *)
Lemma half_words a b :
  word 32 a -> word 32 b ->
  word 64 (Z.lor a (Z.shiftl b 32)) /\ u32 (Z.lor a (Z.shiftl b 32)) = a /\
  Z.shiftr (Z.lor a (Z.shiftl b 32)) 32 = b.
Proof.
  intros Ha Hb. rewrite lor_shift_add by (lia || done). rewrite Z.shiftl_mul_pow2, Z.shiftr_div_pow2, u32_mod by lia.
  unfold word in *. split; [lia |]. split.
  - rewrite Z.mod_add by lia. by apply Z.mod_small.
  - rewrite Z.div_add by lia. rewrite Z.div_small by lia. lia.
Qed.

Section SetEpi32.
Context (e3 e2 e1 e0 : Z).
Hypotheses (H3 : word 32 e3) (H2 : word 32 e2) (H1 : word 32 e1) (H0 : word 32 e0).

Lemma set_vec : vec (_mm_set_epi32 e3 e2 e1 e0).
Proof. split; by apply half_words. Qed.
Lemma set_0 : epi32 (_mm_set_epi32 e3 e2 e1 e0) 0 = e0.
Proof. by apply half_words. Qed.
Lemma set_1 : epi32 (_mm_set_epi32 e3 e2 e1 e0) 1 = e1.
Proof. by apply half_words. Qed.
Lemma set_2 : epi32 (_mm_set_epi32 e3 e2 e1 e0) 2 = e2.
Proof. by apply half_words. Qed.
Lemma set_3 : epi32 (_mm_set_epi32 e3 e2 e1 e0) 3 = e3.
Proof. by apply half_words. Qed.
Lemma set_bytes :
  vec_bytes (_mm_set_epi32 e3 e2 e1 e0) = le_bytes 4 e0 ++ le_bytes 4 e1 ++ le_bytes 4 e2 ++ le_bytes 4 e3.
Proof. by rewrite vec_bytes_lanes, set_0, set_1, set_2, set_3. Qed.
End SetEpi32.

Lemma xor_vec a b : vec a -> vec b -> vec (_mm_xor_si128 a b).
Proof. intros [] []. split; cbn [lo64 hi64 _mm_xor_si128]; auto with words. Qed.

Lemma xor_bytes_app l1 l2 k1 k2 :
  length l1 = length k1 -> xor_bytes (l1 ++ l2) (k1 ++ k2) = xor_bytes l1 k1 ++ xor_bytes l2 k2.
Proof. intros. by apply zip_with_app. Qed.

Lemma xor_vec_bytes a b : vec_bytes (_mm_xor_si128 a b) = xor_bytes (vec_bytes a) (vec_bytes b).
Proof.
  unfold vec_bytes. cbn [lo64 hi64 _mm_xor_si128]. rewrite xor_bytes_app by by rewrite !length_le_bytes.
  by rewrite !le_bytes_lxor.
Qed.

Lemma u32_lxor a b : u32 (Z.lxor a b) = Z.lxor (u32 a) (u32 b).
Proof. unfold u32. bitblast. Qed.

Lemma xor_epi32 a b i : epi32 (_mm_xor_si128 a b) i = Z.lxor (epi32 a i) (epi32 b i).
Proof.
  unfold epi32. cbn [lo64 hi64 _mm_xor_si128]. repeat case_match; by rewrite ?u32_lxor, ?Z.shiftr_lxor.
Qed.

Lemma vec_of_vec_bytes x : vec x -> vec_of_bytes (vec_bytes x) = x.
Proof.
  intros [Hl Hh]. unfold vec_of_bytes, vec_bytes. rewrite take_app_length', drop_app_length' by by rewrite length_le_bytes.
  rewrite !le_word_le_bytes. destruct x as [l h]; cbn [lo64 hi64] in *. f_equal; by apply Z.mod_small.
Qed.
Lemma vec_bytes_of l : length l = 16%nat -> bytes l -> vec_bytes (vec_of_bytes l) = l /\ vec (vec_of_bytes l).
Proof.
  intros Hl Hb. unfold vec_bytes, vec_of_bytes. cbn [lo64 hi64].
  assert (H1 : length (take 8 l) = 8%nat) by (rewrite length_take; lia).
  assert (H2 : length (drop 8 l) = 8%nat) by (rewrite length_drop; lia).
  split.
  - rewrite <- H1 at 1. rewrite <- H2 at 3. rewrite !le_bytes_le_word by auto using Forall_take, Forall_drop.
    apply take_drop.
  - pose proof (le_word_range (take 8 l) (Forall_take _ _ _ Hb)) as W1.
    pose proof (le_word_range (drop 8 l) (Forall_drop _ _ _ Hb)) as W2.
    rewrite H1 in W1. rewrite H2 in W2. done.
Qed.

(** ** One round *)

(** The table: column [k] of the matrix times the S-box. *)
Definition table_column (k : nat) (b : Z) : list Z :=
  map (fun r => Gf256.gmul Aes.circ.[(k + 4 - r) mod 4] (Gf256.sbox b)) (seq 0 4).

(** A property of all bytes, checked on each of them. *)
Lemma bytes_forall (P : Z -> Prop) `{forall b, Decision (P b)} b :
  forallb (fun b => bool_decide (P b)) (seqZ 0 256) = true -> is_byte b -> P b.
Proof.
  intros Hall Hb. rewrite forallb_forall in Hall. apply (bool_decide_eq_true _), Hall, list_elem_of_In, elem_of_seqZ.
  unfold word in Hb. lia.
Qed.

Lemma sbox_table b : is_byte b -> saes_sbox.[Z.to_nat b] = Gf256.sbox b.
Proof. apply (bytes_forall (fun b => saes_sbox.[Z.to_nat b] = Gf256.sbox b)). vm_compute. reflexivity. Qed.

Lemma entry_column k b : (k < 4)%nat -> is_byte b -> le_bytes 4 (entry k b) = table_column k b.
Proof.
  intros Hk Hb. unfold table_column. rewrite <- sbox_table by done. revert Hb.
  apply (bytes_forall (fun b => le_bytes 4 (entry k b) =
    map (fun r => Gf256.gmul Aes.circ.[(k + 4 - r) mod 4] saes_sbox.[Z.to_nat b]) (seq 0 4))).
  do 4 (destruct k as [| k]; [vm_compute; reflexivity |]). lia.
Qed.

Lemma entry_word k b : word 32 (entry k b).
Proof.
  unfold entry. apply word_nth; [lia |].
  do 4 (destruct k as [| k]; [apply (bool_decide_unpack _); vm_compute; exact I |]).
  destruct k; apply Forall_nil_2.
Qed.

(** An output word of the table-driven round. *)
Definition mixed (a b c d : Z) : Z :=
  Z.lxor (Z.lxor (Z.lxor (entry 0 a) (entry 1 b)) (entry 2 c)) (entry 3 d).

Lemma mixed_word a b c d : word 32 (mixed a b c d).
Proof. unfold mixed. pose proof entry_word. auto with words. Qed.

Lemma mixed_bytes a b c d :
  is_byte a -> is_byte b -> is_byte c -> is_byte d ->
  le_bytes 4 (mixed a b c d)
  = map (fun r => fold_left Z.lxor
      (map (fun k => Gf256.gmul Aes.circ.[(k + 4 - r) mod 4] (Gf256.sbox [a; b; c; d].[k])) (seq 0 4)) 0) (seq 0 4).
Proof.
  intros. unfold mixed. rewrite !le_bytes_lxor, !entry_column by (assumption || lia).
  unfold table_column. cbn -[Gf256.gmul Gf256.sbox Z.lxor]. rewrite !Z.lxor_0_l. reflexivity.
Qed.

(** The words of a register, and their bytes. *)
Definition byte_of (x i : Z) : Z := u8 (Z.shiftr x (8 * i)).
Lemma byte_of_byte x i : is_byte (byte_of x i).
Proof. apply u8_word. Qed.
Lemma word_bytes x : le_bytes 4 x = [byte_of x 0; byte_of x 1; byte_of x 2; byte_of x 3].
Proof. rewrite <- store_bytes. done. Qed.
Lemma byte_of_top x : word 32 x -> Z.shiftr x 24 = byte_of x 3.
Proof.
  intros Hx. unfold byte_of. rewrite u8_small; [done |]. unfold word in *.
  rewrite Z.shiftr_div_pow2 by lia. split; [apply Z.div_pos; lia | apply Z.div_lt_upper_bound; lia].
Qed.
#[export] Hint Resolve byte_of_byte mixed_word : words.

(** The round on the bytes of four words. *)
Lemma aes_round_words x0 x1 x2 x3 k (b := byte_of) :
  Aes.round (le_bytes 4 x0 ++ le_bytes 4 x1 ++ le_bytes 4 x2 ++ le_bytes 4 x3) k
  = xor_bytes
      (le_bytes 4 (mixed (b x0 0) (b x1 1) (b x2 2) (b x3 3)) ++ le_bytes 4 (mixed (b x1 0) (b x2 1) (b x3 2) (b x0 3))
       ++ le_bytes 4 (mixed (b x2 0) (b x3 1) (b x0 2) (b x1 3)) ++ le_bytes 4 (mixed (b x3 0) (b x0 1) (b x1 2) (b x2 3))) k.
Proof.
  subst b. unfold Aes.round, Aes.AddRoundKey. f_equal. rewrite !mixed_bytes by auto with words.
  rewrite !word_bytes.
  repeat match goal with |- context [byte_of ?x ?i] => generalize (byte_of x i); intros ? end.
  cbn -[Gf256.gmul Gf256.sbox Z.lxor]. reflexivity.
Qed.

Lemma mixed_round x0 x1 x2 x3 key (b := byte_of)
    (y := _mm_xor_si128 (_mm_set_epi32
      (mixed (b x3 0) (b x0 1) (b x1 2) (b x2 3)) (mixed (b x2 0) (b x3 1) (b x0 2) (b x1 3))
      (mixed (b x1 0) (b x2 1) (b x3 2) (b x0 3)) (mixed (b x0 0) (b x1 1) (b x2 2) (b x3 3))) key) :
  vec key ->
  vec y /\
  vec_bytes y = Aes.round (le_bytes 4 x0 ++ le_bytes 4 x1 ++ le_bytes 4 x2 ++ le_bytes 4 x3) (vec_bytes key).
Proof.
  intros Hk. subst y b. split.
  - apply xor_vec; [| done]. apply set_vec; auto with words.
  - rewrite aes_round_words, xor_vec_bytes, set_bytes by auto with words. done.
Qed.

Lemma shuffle_1 x : vec x -> epi32 (_mm_shuffle_epi32 x 0x55) 0 = epi32 x 1.
Proof. intros Hx. apply set_0; by apply epi32_word. Qed.
Lemma shuffle_2 x : vec x -> epi32 (_mm_shuffle_epi32 x 0xAA) 0 = epi32 x 2.
Proof. intros Hx. apply set_0; by apply epi32_word. Qed.
Lemma shuffle_3 x : vec x -> epi32 (_mm_shuffle_epi32 x 0xFF) 0 = epi32 x 3.
Proof. intros Hx. apply set_0; by apply epi32_word. Qed.

Lemma soft_aesenc_words_mixed x0 x1 x2 x3 key (b := byte_of) :
  word 32 x0 -> word 32 x1 -> word 32 x2 -> word 32 x3 ->
  soft_aesenc_words x0 x1 x2 x3 key = _mm_xor_si128 (_mm_set_epi32
    (mixed (b x3 0) (b x0 1) (b x1 2) (b x2 3)) (mixed (b x2 0) (b x3 1) (b x0 2) (b x1 3))
    (mixed (b x1 0) (b x2 1) (b x3 2) (b x0 3)) (mixed (b x0 0) (b x1 1) (b x2 2) (b x3 3))) key.
Proof.
  intros H0 H1 H2 H3. unfold soft_aesenc_words. rewrite !byte_of_top by done. reflexivity.
Qed.

(** The offsets of the four tables in the flat one. *)
Lemma flat_entry k i : (k < 4)%nat -> 0 <= i < 256 -> saes_flat.[256 * k + Z.to_nat i] = entry k i.
Proof.
  intros Hk Hi. unfold entry. change saes_flat with (concat saes_table).
  assert (Hl : Forall (fun l => length l = 256%nat) saes_table) by (apply (bool_decide_unpack _); vm_compute; exact I).
  assert (Hn : length saes_table = 4%nat) by done. rewrite <- Hn in Hk. clear Hn. revert k Hk.
  induction Hl as [| l t Hl _ IH]; intros k Hk; cbn [length] in Hk; [lia |]. cbn [concat].
  destruct k as [| k].
  - rewrite app_nth1 by lia. done.
  - rewrite app_nth2 by lia. replace (256 * S k + Z.to_nat i - length l)%nat with (256 * k + Z.to_nat i)%nat by lia.
    apply IH. lia.
Qed.

Lemma soft_aesenc_ptr_words x key :
  vec x -> soft_aesenc_ptr x key saes_flat = soft_aesenc_words (epi32 x 0) (epi32 x 1) (epi32 x 2) (epi32 x 3) key.
Proof.
  intros Hx. rewrite soft_aesenc_words_mixed by by apply epi32_word. unfold soft_aesenc_ptr.
  pose proof (epi32_word x 0 Hx) as W0. pose proof (epi32_word x 1 Hx) as W1.
  pose proof (epi32_word x 2 Hx) as W2. pose proof (epi32_word x 3 Hx) as W3.
  revert W0 W1 W2 W3. generalize (epi32 x 0) (epi32 x 1) (epi32 x 2) (epi32 x 3). intros x0 x1 x2 x3 W0 W1 W2 W3.
  rewrite !Z.shiftr_shiftr by lia. cbn [Z.add Pos.add Pos.succ]. rewrite !byte_of_top by done.
  assert (Hb : forall k w i, (k < 4)%nat -> saes_flat.[256 * k + Z.to_nat (byte_of w i)] = entry k (byte_of w i))
    by (intros; apply flat_entry; [done | apply byte_of_byte]).
  assert (H3 : forall w i, saes_flat.[512 + Z.to_nat (byte_of w i + 256)] = entry 3 (byte_of w i)).
  { intros w i. rewrite <- (Hb 3%nat) by lia. f_equal. pose proof (byte_of_byte w i) as []. lia. }
  assert (H0 : forall w, saes_flat.[0 + Z.to_nat (Z.land w 0xff)] = entry 0 (byte_of w 0)).
  { intros w. rewrite <- (Hb 0%nat) by lia. unfold byte_of. by rewrite Z.shiftr_0_r. }
  assert (H1 : forall w, saes_flat.[256 + Z.to_nat (Z.land (Z.shiftr w 8) 0xff)] = entry 1 (byte_of w 1))
    by (intros w; by rewrite <- (Hb 1%nat) by lia).
  assert (H2 : forall w, saes_flat.[512 + Z.to_nat (Z.land (Z.shiftr w 16) 0xff)] = entry 2 (byte_of w 2))
    by (intros w; by rewrite <- (Hb 2%nat) by lia).
  rewrite !H0, !H1, !H2, !H3. reflexivity.
Qed.

(** ** The key schedule *)

Lemma le_word_4 a b c d : le_word [a; b; c; d] = a + 256 * b + 65536 * c + 16777216 * d.
Proof. cbn [le_word]. lia. Qed.

Lemma word_of_bytes x : word 32 x -> x = le_word [byte_of x 0; byte_of x 1; byte_of x 2; byte_of x 3].
Proof. intros Hx. rewrite <- word_bytes, le_word_le_bytes. symmetry. by apply Z.mod_small. Qed.

Lemma lor_four a b c d :
  is_byte a -> is_byte b -> is_byte c -> is_byte d ->
  Z.lor (Z.lor (Z.lor (Z.shiftl d 24) (Z.shiftl c 16)) (Z.shiftl b 8)) a = le_word [a; b; c; d].
Proof.
  intros Ha Hb Hc Hd.
  assert (Z.lor (Z.lor (Z.lor (Z.shiftl d 24) (Z.shiftl c 16)) (Z.shiftl b 8)) a
    = Z.lor (Z.lor (Z.lor a (Z.shiftl b 8)) (Z.shiftl c 16)) (Z.shiftl d 24)) as -> by bitblast.
  rewrite le_word_4. unfold word in *. rewrite !Z.shiftl_mul_pow2 by lia.
  assert (Hs : forall x y n, 0 <= n -> word n x -> Z.lor x (y * 2 ^ n) = x + y * 2 ^ n).
  { intros x y n Hn Hx. rewrite <- Z.shiftl_mul_pow2 by lia. by apply lor_shift_add. }
  rewrite (Hs a b 8), (Hs _ c 16), (Hs _ d 24) by (unfold word; lia). lia.
Qed.

Lemma sbox_byte b : is_byte b -> is_byte (Gf256.sbox b).
Proof.
  intros Hb. rewrite <- sbox_table by done. apply word_nth; [lia |]. apply (bool_decide_unpack _). vm_compute. exact I.
Qed.
#[export] Hint Resolve sbox_byte : words.

Lemma sub_word_spec x :
  word 32 x -> sub_word x = le_word (Aes.SubWord (le_bytes 4 x)).
Proof.
  intros Hx. unfold sub_word. rewrite byte_of_top by done.
  change (Z.land (Z.shiftr x 16) 0xff) with (byte_of x 2). change (Z.land (Z.shiftr x 8) 0xff) with (byte_of x 1).
  assert (Z.land x 0xff = byte_of x 0) as -> by (unfold byte_of; by rewrite Z.shiftr_0_r).
  rewrite !sbox_table by auto with words. rewrite u32_small; [rewrite lor_four by auto with words; by rewrite word_bytes |].
  rewrite Z.shiftl_mul_pow2 by lia. pose proof (sbox_byte _ (byte_of_byte x 3)). unfold word in *. lia.
Qed.

Lemma rotr_spec a b c d :
  is_byte a -> is_byte b -> is_byte c -> is_byte d -> _rotr (le_word [a; b; c; d]) 8 = le_word [b; c; d; a].
Proof.
  intros Ha Hb Hc Hd. unfold _rotr. change (Z.land (32 - 8) 31) with 24. rewrite !le_word_4.
  assert (Z.shiftr (a + 256 * b + 65536 * c + 16777216 * d) 8 = b + 256 * c + 65536 * d) as ->.
  { rewrite Z.shiftr_div_pow2 by lia. symmetry. unfold word in *. apply (Z.div_unique_pos _ _ _ a); lia. }
  assert (u32 (Z.shiftl (a + 256 * b + 65536 * c + 16777216 * d) 24) = Z.shiftl a 24) as ->.
  { rewrite u32_mod, !Z.shiftl_mul_pow2 by lia. symmetry. unfold word in *.
    apply (Z.mod_unique_pos _ _ (b + 256 * c + 65536 * d)); lia. }
  unfold word in *. rewrite lor_shift_add by (unfold word; lia). rewrite Z.shiftl_mul_pow2 by lia. lia.
Qed.

(** The two words of the helper that are used. *)
Lemma soft_assist rcon x (S3 := Aes.SubWord (le_bytes 4 (epi32 x 3))) :
  is_byte rcon -> vec x ->
  vec (soft_aeskeygenassist rcon x) /\
  le_bytes 4 (epi32 (soft_aeskeygenassist rcon x) 2) = S3 /\
  le_bytes 4 (epi32 (soft_aeskeygenassist rcon x) 3) = xor_bytes (Aes.RotWord S3) [rcon; 0; 0; 0].
Proof.
  intros Hr Hx. subst S3. unfold soft_aeskeygenassist. rewrite shuffle_1, shuffle_3 by done.
  rewrite !sub_word_spec by by apply epi32_word.
  assert (Hw : forall w, word 32 w -> exists a b c d, Aes.SubWord (le_bytes 4 w) = [a; b; c; d] /\
    is_byte a /\ is_byte b /\ is_byte c /\ is_byte d).
  { intros w Hw. rewrite word_bytes. do 4 eexists. split; [reflexivity |]. auto with words. }
  destruct (Hw _ (epi32_word x 3 Hx)) as (a & b & c & d & -> & Ha & Hb & Hc & Hd).
  destruct (Hw _ (epi32_word x 1 Hx)) as (a1 & b1 & c1 & d1 & -> & Ha1 & Hb1 & Hc1 & Hd1).
  rewrite !rotr_spec by done.
  assert (W : forall p q r s, is_byte p -> is_byte q -> is_byte r -> is_byte s -> word 32 (le_word [p; q; r; s])).
  { intros. apply (le_word_range [p; q; r; s]). forall_words. }
  assert (R32 : word 32 rcon) by (apply (word_mono 8); [lia | done]).
  rewrite set_2, set_3 by auto with words. split; [apply set_vec; auto with words |].
  rewrite le_bytes_lxor. split.
  - apply (le_bytes_le_word [a; b; c; d]). forall_words.
  - f_equal; [apply (le_bytes_le_word [b; c; d; a]); forall_words |].
    cbn [le_bytes]. unfold word in Hr. rewrite Z.mod_small, Z.div_small by lia. done.
Qed.

Lemma lanes_inj a b c d a' b' c' d' :
  length a = length a' -> length b = length b' -> length c = length c' ->
  a ++ b ++ c ++ d = a' ++ b' ++ c' ++ d' :> list Z -> a = a' /\ b = b' /\ c = c' /\ d = d'.
Proof.
  intros Ha Hb Hc H. apply app_inj_1 in H as [-> H]; [| done]. apply app_inj_1 in H as [-> H]; [| done].
  by apply app_inj_1 in H as [-> ->].
Qed.

Lemma hard_assist rcon x (S3 := Aes.SubWord (le_bytes 4 (epi32 x 3)))
    (y := _mm_aeskeygenassist_si128 x rcon) :
  is_byte rcon -> vec x ->
  vec y /\ le_bytes 4 (epi32 y 2) = S3 /\ le_bytes 4 (epi32 y 3) = xor_bytes (Aes.RotWord S3) [rcon; 0; 0; 0].
Proof.
  intros Hr Hx. subst S3 y. unfold _mm_aeskeygenassist_si128.
  assert (Hs : forall i, exists a b c d, Aes.SubWord (le_bytes 4 (epi32 x i)) = [a; b; c; d] /\
    is_byte a /\ is_byte b /\ is_byte c /\ is_byte d).
  { intros i. rewrite word_bytes. do 4 eexists. split; [reflexivity |]. auto with words. }
  destruct (Hs 1) as (a1 & b1 & c1 & d1 & -> & ? & ? & ? & ?).
  destruct (Hs 3) as (a3 & b3 & c3 & d3 & -> & ? & ? & ? & ?).
  set (l := _ ++ _). destruct (vec_bytes_of l) as [Hl Hv]; [done | subst l; cbn [Aes.RotWord drop take app xor_bytes zip_with];
    repeat apply Forall_cons_2; try apply Forall_nil_2; auto with words; apply word_lxor; done || lia |].
  split; [done |]. rewrite vec_bytes_lanes in Hl. subst l.
  apply lanes_inj in Hl as (_ & _ & -> & ->); [done | | |]; by rewrite length_le_bytes.
Qed.

#[export] Instance soft_rounds_ok : AesRoundsOk soft_rounds.
Proof.
  assert (R : forall x k, vec x -> vec k -> vec (soft_aesenc_ptr x k saes_flat) /\
    vec_bytes (soft_aesenc_ptr x k saes_flat) = Aes.round (vec_bytes x) (vec_bytes k)).
  { intros x k Hx Hk. rewrite soft_aesenc_ptr_words, soft_aesenc_words_mixed by (done || by apply epi32_word).
    rewrite (vec_bytes_lanes x). by apply mixed_round. }
  split; cbn [soft_rounds aesenc aeskeygenassist].
  - intros x k Hx Hk. exact (proj1 (R x k Hx Hk)).
  - intros x k Hx Hk. exact (proj2 (R x k Hx Hk)).
  - intros rcon x Hr Hx. exact (proj1 (soft_assist rcon x Hr Hx)).
  - intros rcon x Hr Hx. exact (proj1 (proj2 (soft_assist rcon x Hr Hx))).
  - intros rcon x Hr Hx. exact (proj2 (proj2 (soft_assist rcon x Hr Hx))).
Qed.

#[export] Instance hard_rounds_ok : AesRoundsOk hard_rounds.
Proof.
  assert (R : forall x k, vec_bytes (_mm_aesenc_si128 x k) = Aes.round (vec_bytes x) (vec_bytes k)
    /\ vec (_mm_aesenc_si128 x k)).
  { intros x k. apply vec_bytes_of.
    - unfold Aes.round, Aes.AddRoundKey. rewrite length_xor_bytes, length_vec_bytes. done.
    - rewrite (vec_bytes_lanes x), aes_round_words. apply bytes_xor_bytes; [| apply bytes_vec_bytes].
      repeat apply bytes_app; apply bytes_le_bytes. }
  split; cbn [hard_rounds aesenc aeskeygenassist].
  - intros x k _ _. exact (proj2 (R x k)).
  - intros x k _ _. exact (proj1 (R x k)).
  - intros rcon x Hr Hx. exact (proj1 (hard_assist rcon x Hr Hx)).
  - intros rcon x Hr Hx. exact (proj1 (proj2 (hard_assist rcon x Hr Hx))).
  - intros rcon x Hr Hx. exact (proj2 (proj2 (hard_assist rcon x Hr Hx))).
Qed.

(** *** Eight more words of the schedule *)

Definition next8 (rc : list Z) (w : list (list Z)) : list (list Z) :=
  match w with
  | [w0; w1; w2; w3; w4; w5; w6; w7] =>
      let n0 := xor_bytes w0 (xor_bytes (Aes.SubWord (Aes.RotWord w7)) rc) in
      let n1 := xor_bytes w1 n0 in let n2 := xor_bytes w2 n1 in let n3 := xor_bytes w3 n2 in
      let n4 := xor_bytes w4 (Aes.SubWord n3) in
      let n5 := xor_bytes w5 n4 in let n6 := xor_bytes w6 n5 in let n7 := xor_bytes w7 n6 in
      [n0; n1; n2; n3; n4; n5; n6; n7]
  | _ => []
  end.

Lemma next_word_last q v0 v1 v2 v3 v4 v5 v6 v7 m t :
  (length q = 8 * m + t)%nat -> (t < 8)%nat ->
  Aes.next_word (q ++ [v0; v1; v2; v3; v4; v5; v6; v7])
  = (q ++ [v0]) ++ [v1; v2; v3; v4; v5; v6; v7;
     xor_bytes v0 (if (t =? 0)%nat then xor_bytes (Aes.SubWord (Aes.RotWord v7)) (Aes.Rcon (m + 1))
                   else if (t =? 4)%nat then Aes.SubWord v7 else v7)].
Proof.
  intros Hq Ht. unfold Aes.next_word. rewrite length_app. cbn [length].
  rewrite !app_nth2 by lia. replace (length q + 8 - 1 - length q)%nat with 7%nat by lia.
  replace (length q + 8 - 8 - length q)%nat with 0%nat by lia. cbn [nth].
  replace (length q + 8)%nat with (t + (m + 1) * 8)%nat by lia.
  rewrite Nat.Div0.mod_add, Nat.mod_small, Nat.div_add, Nat.div_small by lia.
  by rewrite <- !app_assoc.
Qed.

Ltac next_word_step m t :=
  match goal with |- context [Aes.next_word (?q ++ [_; _; _; _; _; _; _; _])] =>
    rewrite (next_word_last q _ _ _ _ _ _ _ _ m t) by (rewrite ?length_app; cbn [length]; lia)
  end.

Lemma next_word_8 q w m :
  length w = 8%nat -> (length q = 8 * m)%nat ->
  Nat.iter 8 Aes.next_word (q ++ w) = q ++ w ++ next8 (Aes.Rcon (m + 1)) w.
Proof.
  intros Hw Hq. do 8 (destruct w as [| ? w]; [done |]). destruct w; [| done].
  cbn [Nat.iter nat_rect].
  next_word_step m 0%nat. next_word_step m 1%nat. next_word_step m 2%nat. next_word_step m 3%nat.
  next_word_step m 4%nat. next_word_step m 5%nat. next_word_step m 6%nat. next_word_step m 7%nat.
  cbn [Nat.eqb next8]. by rewrite <- !app_assoc.
Qed.

(** ** The keys of CryptoNight *)

(** A register as four words of the schedule. *)
Definition key_words (x : m128i) : list (list Z) :=
  [le_bytes 4 (epi32 x 0); le_bytes 4 (epi32 x 1); le_bytes 4 (epi32 x 2); le_bytes 4 (epi32 x 3)].

Lemma key_words_bytes x : concat (key_words x) = vec_bytes x.
Proof. rewrite vec_bytes_lanes. cbn [key_words concat]. by rewrite app_nil_r. Qed.

Lemma key_words_pieces m0 m1 : pieces 4 8 (vec_bytes m0 ++ vec_bytes m1) = key_words m0 ++ key_words m1.
Proof.
  rewrite !vec_bytes_lanes, !word_bytes. unfold key_words. rewrite !word_bytes. reflexivity.
Qed.

Lemma slli_epi32 x : vec x ->
  epi32 (_mm_slli_si128_4 x) 0 = 0 /\ epi32 (_mm_slli_si128_4 x) 1 = epi32 x 0 /\
  epi32 (_mm_slli_si128_4 x) 2 = epi32 x 1 /\ epi32 (_mm_slli_si128_4 x) 3 = epi32 x 2.
Proof.
  intros Hx. pose proof (epi32_word x 0 Hx) as W0. pose proof (epi32_word x 1 Hx) as W1.
  pose proof (epi32_word x 2 Hx) as W2.
  assert (Hs : forall w, u64 (Z.shiftl w 32) = Z.shiftl (u32 w) 32).
  { intros w. rewrite u64_mod, u32_mod, !Z.shiftl_mul_pow2 by lia.
    change (2 ^ 64) with (2 ^ 32 * 2 ^ 32). by rewrite Z.mul_mod_distr_r by lia. }
  unfold epi32 in *. cbn [Z.eqb Pos.eqb lo64 hi64 _mm_slli_si128_4] in *. rewrite !Hs.
  rewrite (Z.lor_comm _ (Z.shiftr _ 32)). destruct (half_words _ _ W1 W2) as (_ & -> & ->).
  destruct (half_words 0 _ ltac:(unfold word; lia) W0) as (_ & H0 & H1). rewrite Z.lor_0_l in H0, H1. done.
Qed.

Lemma slli_vec x : vec x -> vec (_mm_slli_si128_4 x).
Proof. intros [Hl Hh]. split; cbn [lo64 hi64 _mm_slli_si128_4]; auto with words. Qed.

Lemma sl_xor_vec x : vec x -> vec (sl_xor x).
Proof. intros. unfold sl_xor. auto 10 using xor_vec, slli_vec. Qed.

Lemma sl_xor_epi32 x : vec x ->
  epi32 (sl_xor x) 0 = epi32 x 0 /\
  epi32 (sl_xor x) 1 = Z.lxor (epi32 x 1) (epi32 x 0) /\
  epi32 (sl_xor x) 2 = Z.lxor (epi32 x 2) (Z.lxor (epi32 x 1) (epi32 x 0)) /\
  epi32 (sl_xor x) 3 = Z.lxor (epi32 x 3) (Z.lxor (epi32 x 2) (Z.lxor (epi32 x 1) (epi32 x 0))).
Proof.
  intros H0. pose proof (slli_vec _ H0) as H1. pose proof (slli_vec _ H1) as H2.
  unfold sl_xor. rewrite !xor_epi32.
  destruct (slli_epi32 _ H0) as (A0 & A1 & A2 & A3). destruct (slli_epi32 _ H1) as (B0 & B1 & B2 & B3).
  destruct (slli_epi32 _ H2) as (-> & -> & -> & ->). rewrite B0, B1, B2, B3, A0, A1, A2, A3, !Z.lxor_0_r.
  rewrite !Z.lxor_assoc. repeat split; f_equal; apply Z.lxor_comm || idtac. all: bitblast.
Qed.

Lemma shuffle_all x imm i k :
  vec x -> imm = Z.lor (Z.lor (Z.lor i (Z.shiftl i 2)) (Z.shiftl i 4)) (Z.shiftl i 6) -> 0 <= i < 4 ->
  vec (_mm_shuffle_epi32 x imm) /\ (0 <= k < 4 -> epi32 (_mm_shuffle_epi32 x imm) k = epi32 x i).
Proof.
  intros Hx -> Hi. pose proof (fun i => epi32_word x i Hx). split; [by apply set_vec |]. intros Hk.
  assert (Hk' : k = 0 \/ k = 1 \/ k = 2 \/ k = 3) by lia.
  assert (Hi' : i = 0 \/ i = 1 \/ i = 2 \/ i = 3) by lia. unfold _mm_shuffle_epi32.
  destruct Hk' as [-> | [-> | [-> | ->]]]; rewrite ?set_0, ?set_1, ?set_2, ?set_3 by done;
    by destruct Hi' as [-> | [-> | [-> | ->]]].
Qed.

Lemma SubWord_RotWord w : length w = 4%nat -> Aes.RotWord (Aes.SubWord w) = Aes.SubWord (Aes.RotWord w).
Proof. intros Hw. do 4 (destruct w as [| ? w]; [done |]). by destruct w. Qed.

Section KeysOk.
Context (A : AesRounds) `{!AesRoundsOk A}.

(** A register after [sl_xor] and the xor of [t] into all its words. *)
Lemma chained_words x t w :
  vec x -> vec t -> (forall k, 0 <= k < 4 -> le_bytes 4 (epi32 t k) = w) ->
  let n0 := xor_bytes (le_bytes 4 (epi32 x 0)) w in
  let n1 := xor_bytes (le_bytes 4 (epi32 x 1)) n0 in
  let n2 := xor_bytes (le_bytes 4 (epi32 x 2)) n1 in
  key_words (_mm_xor_si128 (sl_xor x) t) = [n0; n1; n2; xor_bytes (le_bytes 4 (epi32 x 3)) n2].
Proof.
  intros Hx Ht Hw. cbv zeta. unfold key_words. rewrite !xor_epi32.
  destruct (sl_xor_epi32 x Hx) as (-> & -> & -> & ->). rewrite !Z.lxor_assoc, !le_bytes_lxor, !Hw by lia. done.
Qed.

Lemma aes_genkey_sub_spec rcon x0 x2 :
  is_byte rcon -> vec x0 -> vec x2 ->
  let '(y0, y2) := aes_genkey_sub rcon x0 x2 in
  vec y0 /\ vec y2 /\
  key_words y0 ++ key_words y2 = next8 [rcon; 0; 0; 0] (key_words x0 ++ key_words x2).
Proof.
  intros Hr H0 H2. unfold aes_genkey_sub. set (a := aeskeygenassist rcon x2).
  assert (Ha : vec a) by by apply assist_vec.
  destruct (shuffle_all a 0xFF 3 0 Ha) as [Hs _]; [done | lia |].
  set (y0 := _mm_xor_si128 _ _). assert (V0 : vec y0) by (apply xor_vec; [by apply sl_xor_vec | done]).
  set (b := aeskeygenassist 0x00 y0). assert (Hb : vec b) by by apply assist_vec.
  destruct (shuffle_all b 0xAA 2 0 Hb) as [Ht _]; [done | lia |].
  split; [done |]. split; [apply xor_vec; [by apply sl_xor_vec | done] |].
  assert (K0 : forall k, 0 <= k < 4 -> le_bytes 4 (epi32 (_mm_shuffle_epi32 a 0xFF) k)
    = xor_bytes (Aes.SubWord (Aes.RotWord (le_bytes 4 (epi32 x2 3)))) [rcon; 0; 0; 0]).
  { intros k Hk. rewrite (proj2 (shuffle_all a 0xFF 3 k Ha eq_refl ltac:(lia)) Hk).
    subst a. rewrite assist_3 by done. by rewrite SubWord_RotWord by apply length_le_bytes. }
  pose proof (chained_words x0 _ _ H0 Hs K0) as C0. fold y0 in C0. cbv zeta in C0.
  assert (K2 : forall k, 0 <= k < 4 -> le_bytes 4 (epi32 (_mm_shuffle_epi32 b 0xAA) k)
    = Aes.SubWord (le_bytes 4 (epi32 y0 3))).
  { intros k Hk. rewrite (proj2 (shuffle_all b 0xAA 2 k Hb eq_refl ltac:(lia)) Hk).
    subst b. by rewrite assist_1 by done. }
  rewrite (chained_words x2 _ _ H2 Ht K2). change (le_bytes 4 (epi32 y0 3)) with (nth 3 (key_words y0) []). rewrite C0. reflexivity.
Qed.

(** *** The keys *)

Lemma key_step q rcon x0 x2 m :
  is_byte rcon -> vec x0 -> vec x2 -> (length q = 8 * m)%nat -> Aes.Rcon (m + 1) = [rcon; 0; 0; 0] ->
  let '(y0, y2) := aes_genkey_sub rcon x0 x2 in
  vec y0 /\ vec y2 /\
  Nat.iter 8 Aes.next_word (q ++ key_words x0 ++ key_words x2)
  = (q ++ key_words x0 ++ key_words x2) ++ key_words y0 ++ key_words y2.
Proof.
  intros Hr H0 H2 Hq Hrc. pose proof (aes_genkey_sub_spec rcon x0 x2 Hr H0 H2) as H.
  destruct (aes_genkey_sub rcon x0 x2) as [y0 y2]. destruct H as (V0 & V2 & ->).
  split; [done |]. split; [done |]. rewrite (next_word_8 q (key_words x0 ++ key_words x2) m eq_refl Hq), Hrc. by rewrite app_assoc.
Qed.

Lemma aes_genkey_schedule m0 m1 (k := aes_genkey m0 m1) :
  vec m0 -> vec m1 ->
  Forall vec k /\ length k = 10%nat /\
  Aes.KeyExpansion (vec_bytes m0 ++ vec_bytes m1) 40 = concat (map key_words k).
Proof.
  intros H0 H1. subst k. unfold aes_genkey, Aes.KeyExpansion. rewrite key_words_pieces.
  pose proof (key_step [] 0x01 m0 m1 0 ltac:(unfold word; lia) H0 H1 eq_refl eq_refl) as E.
  destruct (aes_genkey_sub 0x01 m0 m1) as [k2 k3]. destruct E as (H2 & H3 & E1). cbn [app] in E1.
  pose proof (key_step (key_words m0 ++ key_words m1) 0x02 k2 k3 1 ltac:(unfold word; lia) H2 H3 eq_refl eq_refl) as E.
  destruct (aes_genkey_sub 0x02 k2 k3) as [k4 k5]. destruct E as (H4 & H5 & E2).
  pose proof (key_step ((key_words m0 ++ key_words m1) ++ key_words k2 ++ key_words k3)
    0x04 k4 k5 2 ltac:(unfold word; lia) H4 H5 eq_refl eq_refl) as E.
  destruct (aes_genkey_sub 0x04 k4 k5) as [k6 k7]. destruct E as (H6 & H7 & E3).
  pose proof (key_step (((key_words m0 ++ key_words m1) ++ key_words k2 ++ key_words k3) ++ key_words k4 ++ key_words k5)
    0x08 k6 k7 3 ltac:(unfold word; lia) H6 H7 eq_refl eq_refl) as E.
  destruct (aes_genkey_sub 0x08 k6 k7) as [k8 k9]. destruct E as (H8 & H9 & E4).
  split; [repeat (apply Forall_cons_2; [done |]); apply Forall_nil_2 |]. split; [done |].
  change (40 - 8)%nat with (8 + (8 + (8 + 8)))%nat. rewrite !Nat.iter_add, E1, E2, E3, E4. reflexivity.
Qed.
End KeysOk.

Lemma vec_bytes_inj x y : vec x -> vec y -> vec_bytes x = vec_bytes y -> x = y.
Proof. intros Hx Hy H. by rewrite <- (vec_of_vec_bytes x), <- (vec_of_vec_bytes y), H. Qed.

Lemma words_of_keys k j :
  (j < length k)%nat -> concat (take 4 (drop (4 * j) (concat (map key_words k)))) = vec_bytes (nth j k (M128 0 0)).
Proof.
  revert j. induction k as [| x k IH]; intros j Hj; cbn [length] in Hj; [lia |]. cbn [map concat].
  destruct j as [| j].
  - cbn [drop take nth]. by rewrite <- key_words_bytes.
  - replace (4 * S j)%nat with (length (key_words x) + 4 * j)%nat by (cbn; lia). rewrite drop_app_add. apply IH. lia.
Qed.

(** The keys of two implementations of the rounds are the same. *)
Lemma keys_agree (A B : AesRounds) `{!AesRoundsOk A, !AesRoundsOk B} m0 m1 :
  vec m0 -> vec m1 -> @aes_genkey A m0 m1 = @aes_genkey B m0 m1.
Proof.
  intros H0 H1. destruct (aes_genkey_schedule A m0 m1 H0 H1) as (VA & LA & EA).
  destruct (aes_genkey_schedule B m0 m1 H0 H1) as (VB & LB & EB).
  apply (nth_ext _ _ (M128 0 0) (M128 0 0)); [by rewrite LA, LB |]. intros j Hj.
  assert (Hn : forall (l : list m128i), Forall vec l -> (j < length l)%nat -> vec (nth j l (M128 0 0))).
  { intros l Hl Hjl. rewrite List.Forall_forall in Hl. by apply Hl, nth_In. }
  apply vec_bytes_inj; [by apply Hn | apply Hn; [done | by rewrite LB, <- LA] |].
  rewrite <- !words_of_keys by (rewrite ?LB, <- ?LA; done). by rewrite <- EA, <- EB.
Qed.

(** C24: The software round, in the two forms the code has, is the round of FIPS
    197 on the bytes of the registers; so it is the AES instruction. *)
Theorem soft_aesenc_fips x key :
  vec x -> vec key ->
  vec_bytes (soft_aesenc x key) = Aes.round (vec_bytes x) (vec_bytes key) /\
  soft_aesenc_ptr x key saes_flat = soft_aesenc x key /\
  _mm_aesenc_si128 x key = soft_aesenc x key.
Proof.
  intros Hx Hk.
  assert (E : soft_aesenc_ptr x key saes_flat = soft_aesenc x key).
  { unfold soft_aesenc. by rewrite soft_aesenc_ptr_words, shuffle_1, shuffle_2, shuffle_3. }
  rewrite <- E. split; [by apply (aesenc_ok (A := soft_rounds)) |]. split; [done |].
  apply vec_bytes_inj; [by apply (aesenc_vec (A := hard_rounds)) | by apply (aesenc_vec (A := soft_rounds)) |].
  etrans; [by apply (aesenc_ok (A := hard_rounds)) |]. symmetry. by apply (aesenc_ok (A := soft_rounds)).
Qed.

(** FIPS 197, appendix B: the first round of the example. *)
Definition fips_b : m128i := vec_of_bytes
  [0x19; 0x3d; 0xe3; 0xbe; 0xa0; 0xf4; 0xe2; 0x2b; 0x9a; 0xc6; 0x8d; 0x2a; 0xe9; 0xf8; 0x48; 0x08].
Definition fips_b_key : m128i := vec_of_bytes
  [0xa0; 0xfa; 0xfe; 0x17; 0x88; 0x54; 0x2c; 0xb1; 0x23; 0xa3; 0x39; 0x39; 0x2a; 0x6c; 0x76; 0x05].
Lemma soft_aesenc_fips_witness :
  Aes.round (vec_bytes fips_b) (vec_bytes fips_b_key)
  = [0xa4; 0x9c; 0x7f; 0xf2; 0x68; 0x9f; 0x35; 0x2b; 0x6b; 0x5b; 0xea; 0x43; 0x02; 0x6a; 0x50; 0x49] /\
  vec_bytes (soft_aesenc fips_b fips_b_key) = Aes.round (vec_bytes fips_b) (vec_bytes fips_b_key).
Proof.
  split; [vm_compute; reflexivity |].
  apply (soft_aesenc_fips fips_b fips_b_key); split; by vm_compute.
Defined.

(** C36: The ten keys are the first round keys of AES-256, whichever of the two
    implementations of the rounds is used. *)
Theorem aes_genkey_fips m0 m1 j :
  vec m0 -> vec m1 -> (j < 10)%nat ->
  vec_bytes (nth j (@aes_genkey soft_rounds m0 m1) (M128 0 0))
    = Aes.round_key (vec_bytes m0 ++ vec_bytes m1) 40 j /\
  @aes_genkey hard_rounds m0 m1 = @aes_genkey soft_rounds m0 m1.
Proof.
  intros H0 H1 Hj. split; [| by apply keys_agree; try apply _].
  destruct (aes_genkey_schedule soft_rounds m0 m1 H0 H1) as (_ & Hl & E).
  unfold Aes.round_key. by rewrite E, words_of_keys by by rewrite Hl.
Qed.

(** FIPS 197, appendix A.3: words 36 .. 39 of the expanded key. *)
Definition fips_a3 : m128i * m128i :=
  (vec_of_bytes [0x60; 0x3d; 0xeb; 0x10; 0x15; 0xca; 0x71; 0xbe; 0x2b; 0x73; 0xae; 0xf0; 0x85; 0x7d; 0x77; 0x81],
   vec_of_bytes [0x1f; 0x35; 0x2c; 0x07; 0x3b; 0x61; 0x08; 0xd7; 0x2d; 0x98; 0x10; 0xa3; 0x09; 0x14; 0xdf; 0xf4]).
Lemma aes_genkey_fips_witness :
  Aes.round_key (vec_bytes fips_a3.1 ++ vec_bytes fips_a3.2) 40 9
  = [0xc8; 0x14; 0xe2; 0x04; 0x76; 0xa9; 0xfb; 0x8a; 0x50; 0x25; 0xc0; 0x2d; 0x59; 0xc5; 0x82; 0x39] /\
  vec_bytes (nth 9 (@aes_genkey soft_rounds fips_a3.1 fips_a3.2) (M128 0 0))
  = Aes.round_key (vec_bytes fips_a3.1 ++ vec_bytes fips_a3.2) 40 9.
Proof.
  split; [vm_compute; reflexivity |].
  apply (aes_genkey_fips fips_a3.1 fips_a3.2 9); [split; by vm_compute | split; by vm_compute | lia].
Defined.
