(* ===== verification/Reciprocal.v ===== *)
(** * RandomX reciprocals: [xmrig/crypto/randomx/reciprocal.c]

    [randomx_reciprocal d] replaces a division by the constant [d] with a
    multiplication.  The reference version is a restoring division that
    produces one quotient bit per bit of [d]; the fast version is closed form.
    Both are proved to be floor(2^(63 + bsr d) / d) where [bsr d] is the number
    of significant bits, the largest such quotient that fits 64 bits. *)

From S2P Require Import Prelude.

(** The loop [for (bit = divisor; bit > 0; bit >>= 1) bsr++]. *)
Fixpoint bsr_loop (fuel : nat) (bit : Z) (bsr : Z) : Z :=
  match fuel with
  | O => bsr
  | S fuel => if 0 <? bit then bsr_loop fuel (Z.shiftr bit 1) (bsr + 1) else bsr
  end.

(** One iteration of the restoring division, on 64-bit words. *)
Definition reciprocal_step (divisor : Z) (qr : Z * Z) : Z * Z :=
  let '(quotient, remainder) := qr in
  if u64 (divisor - remainder) <=? remainder
  then (u64 (u64 (quotient * 2) + 1), u64 (u64 (remainder * 2) - divisor))
  else (u64 (quotient * 2), u64 (remainder * 2)).

Definition randomx_reciprocal (divisor : Z) : Z :=
  let p2exp63 := Z.shiftl 1 63 in
  let quotient := p2exp63 / divisor in
  let remainder := p2exp63 mod divisor in
  let bsr := bsr_loop 64 divisor 0 in
  fst (Nat.iter (Z.to_nat bsr) (reciprocal_step divisor) (quotient, remainder)).

(** [__builtin_clzll]: leading zeros of a non-zero 64-bit word. *)
Definition builtin_clzll (x : Z) : Z := 63 - Z.log2 x.

Definition randomx_reciprocal_fast (divisor : Z) : Z :=
  let q := Z.shiftl 1 63 / divisor in
  let r := Z.shiftl 1 63 mod divisor in
  let shift := 64 - builtin_clzll divisor in
  u64 (u64 (Z.shiftl q shift) + u64 (Z.shiftl r shift) / divisor).

(** ** The number of significant bits *)

Definition bsr (d : Z) : Z := Z.log2 d + 1.

Lemma bsr_loop_spec fuel d acc :
  0 <= d < 2 ^ Z.of_nat fuel ->
  bsr_loop fuel d acc = acc + (if 0 <? d then bsr d else 0).
Proof.
  revert d acc. induction fuel as [| fuel IH]; intros d acc Hd; cbn [bsr_loop].
  - replace d with 0 by lia. cbn. lia.
  - destruct (Z.ltb_spec 0 d) as [Hp | Hp]; [| lia].
    rewrite Nat2Z.inj_succ, Z.pow_succ_r in Hd by lia.
    rewrite Z.shiftr_div_pow2, Z.pow_1_r by lia.
    rewrite IH by (split; [apply Z.div_pos | apply Z.div_lt_upper_bound]; lia).
    unfold bsr. cbv iota. destruct (decide (d = 1)) as [-> | Hd1]; [vm_compute (1 / 2); cbn; lia |].
    assert (1 <= d / 2) by (apply Z.div_le_lower_bound; lia). rewrite (proj2 (Z.ltb_lt 0 (d / 2))) by lia. cbv iota.
    assert (Hs : Z.log2 (d / 2) = Z.log2 d - 1); [| lia].
    rewrite <- Z.div2_div, Z.div2_spec, Z.log2_shiftr by lia.
    assert (0 < Z.log2 d) by (apply Z.log2_pos; lia). lia.
Qed.

Lemma bsr_bound d : 0 < d < 2 ^ 64 -> 1 <= bsr d <= 64.
Proof.
  intros Hd. unfold bsr. pose proof (Z.log2_nonneg d).
  assert (Z.log2 d < 64) by (apply Z.log2_lt_pow2; lia). lia.
Qed.

Lemma bsr_spec d : 0 < d -> 2 ^ (bsr d - 1) <= d < 2 ^ bsr d.
Proof.
  intros Hd. unfold bsr. replace (Z.log2 d + 1 - 1) with (Z.log2 d) by lia.
  rewrite Z.add_1_r. by apply Z.log2_spec.
Qed.

(** A divisor that is not a power of two is strictly above 2^(bsr - 1). *)
Definition not_pow2 (d : Z) : Prop := d <> 2 ^ (bsr d - 1).

Lemma quotient_range d n :
  0 < d < 2 ^ 64 -> not_pow2 d -> 0 <= n <= bsr d -> 0 <= 2 ^ (63 + n) / d < 2 ^ 64.
Proof.
  intros Hd Hp Hn. pose proof (bsr_spec d ltac:(lia)) as Hs. pose proof (bsr_bound d Hd).
  split; [apply Z.div_pos; lia |]. apply Z.div_lt_upper_bound; [lia |].
  assert (2 ^ (63 + n) <= 2 ^ 64 * 2 ^ (bsr d - 1)).
  { rewrite <- Z.pow_add_r by lia. apply Z.pow_le_mono_r; lia. }
  unfold not_pow2 in Hp. nia.
Qed.

(** ** The restoring division *)

Lemma double_divmod d x :
  0 < d ->
  (2 * x) / d = 2 * (x / d) + (if d - x mod d <=? x mod d then 1 else 0) /\
  (2 * x) mod d = 2 * (x mod d) - (if d - x mod d <=? x mod d then d else 0).
Proof.
  intros Hd. pose proof (Z.div_mod x d ltac:(lia)) as Hx.
  pose proof (Z.mod_pos_bound x d Hd) as Hm.
  destruct (Z.leb_spec (d - x mod d) (x mod d)); split; symmetry.
  - apply (Z.div_unique_pos _ _ _ (2 * (x mod d) - d)); nia.
  - apply (Z.mod_unique_pos _ _ (2 * (x / d) + 1)); nia.
  - apply (Z.div_unique_pos _ _ _ (2 * (x mod d))); nia.
  - apply (Z.mod_unique_pos _ _ (2 * (x / d))); nia.
Qed.

Lemma reciprocal_step_spec d n :
  0 < d < 2 ^ 64 -> not_pow2 d -> 0 <= n < bsr d ->
  reciprocal_step d (2 ^ (63 + n) / d, 2 ^ (63 + n) mod d) =
  (2 ^ (63 + (n + 1)) / d, 2 ^ (63 + (n + 1)) mod d).
Proof.
  intros Hd Hp Hn. pose proof (quotient_range d (n + 1) Hd Hp ltac:(lia)) as Hq.
  pose proof (Z.mod_pos_bound (2 ^ (63 + n)) d ltac:(lia)) as Hm.
  replace (63 + (n + 1)) with (Z.succ (63 + n)) in * by lia.
  rewrite Z.pow_succ_r in * by lia.
  destruct (double_divmod d (2 ^ (63 + n)) ltac:(lia)) as [Hdiv Hmod].
  rewrite Hdiv in Hq. rewrite Hdiv, Hmod. clear Hdiv Hmod. unfold reciprocal_step.
  set (q := 2 ^ (63 + n) / d) in *. set (r := 2 ^ (63 + n) mod d) in *.
  assert (0 <= q) by (apply Z.div_pos; lia).
  rewrite (u64_small (d - _)) by (unfold word; lia).
  destruct (Z.leb_spec (d - r) r).
  - rewrite u64_add_l, u64_sub_l, !u64_small by (unfold word; lia).
    f_equal; lia.
  - rewrite !u64_small by (unfold word; lia). f_equal; lia.
Qed.

Lemma reciprocal_iter_spec d n :
  0 < d < 2 ^ 64 -> not_pow2 d -> Z.of_nat n <= bsr d ->
  Nat.iter n (reciprocal_step d) (2 ^ 63 / d, 2 ^ 63 mod d) =
  (2 ^ (63 + Z.of_nat n) / d, 2 ^ (63 + Z.of_nat n) mod d).
Proof.
  intros Hd Hp. induction n as [| n IH]; intros Hn; [done |].
  cbn [Nat.iter nat_rect]. unfold Nat.iter in IH. rewrite IH by lia.
  rewrite reciprocal_step_spec by lia || done. do 2 f_equal; lia.
Qed.

Lemma randomx_reciprocal_eq d :
  0 < d < 2 ^ 64 -> not_pow2 d -> randomx_reciprocal d = 2 ^ (63 + bsr d) / d.
Proof.
  intros Hd Hp. pose proof (bsr_bound d Hd). unfold randomx_reciprocal.
  rewrite (bsr_loop_spec 64) by lia. rewrite (proj2 (Z.ltb_lt 0 d)) by lia.
  rewrite Z.shiftl_mul_pow2, Z.mul_1_l, Z.add_0_l by lia.
  rewrite reciprocal_iter_spec by (done || lia). cbn [fst]. do 3 f_equal. lia.
Qed.

(** C18: for a divisor of at most 64 bits that is not a power of two,
    [randomx_reciprocal] returns floor(2^x / divisor) for the highest x for
    which that quotient is below 2^64, as its comment promises. *)
Theorem randomx_reciprocal_correct d (x := 63 + bsr d) :
  0 < d < 2 ^ 64 -> not_pow2 d ->
  randomx_reciprocal d = 2 ^ x / d /\ 0 <= 2 ^ x / d < 2 ^ 64 /\
  forall y, x < y -> 2 ^ 64 <= 2 ^ y / d.
Proof.
  intros Hd Hp. pose proof (bsr_bound d Hd). pose proof (bsr_spec d ltac:(lia)).
  split; [by apply randomx_reciprocal_eq |]. split; [apply quotient_range; lia || done |].
  intros y Hy. apply Z.div_le_lower_bound; [lia |].
  transitivity (2 ^ (64 + bsr d)); [| apply Z.pow_le_mono_r; subst x; lia].
  rewrite Z.pow_add_r by lia. nia.
Qed.

Lemma not_pow2_7 : not_pow2 7.
Proof. unfold not_pow2. vm_compute. discriminate. Qed.

Lemma randomx_reciprocal_correct_witness :
  randomx_reciprocal 7 = 2 ^ (63 + bsr 7) / 7 /\ 0 <= 2 ^ (63 + bsr 7) / 7 < 2 ^ 64 /\
  forall y, 63 + bsr 7 < y -> 2 ^ 64 <= 2 ^ y / 7.
Proof. apply (randomx_reciprocal_correct 7); [lia | apply not_pow2_7]. Defined.

(** The closed form: splitting 2^(63+s)/d as (q*d + r)*2^s/d. *)
Lemma shifted_quotient x s d :
  0 <= s -> 0 < d -> 2 ^ s * x / d = (x / d) * 2 ^ s + (x mod d * 2 ^ s) / d.
Proof.
  intros Hs Hd. rewrite (Z.div_mod x d) at 1 by lia.
  replace (2 ^ s * (d * (x / d) + x mod d))
    with ((x / d) * 2 ^ s * d + x mod d * 2 ^ s) by lia.
  by rewrite Z.div_add_l by lia.
Qed.

(** the closed-form version used on other compilers agrees with the
    reference version on every divisor a RandomX immediate can be (32 bits,
    not a power of two). *)
Theorem randomx_reciprocal_fast_equiv d :
  0 < d < 2 ^ 32 -> not_pow2 d -> randomx_reciprocal_fast d = randomx_reciprocal d.
Proof.
  intros Hd Hp. assert (Hd' : 0 < d < 2 ^ 64) by lia.
  rewrite randomx_reciprocal_eq by done.
  pose proof (quotient_range d (bsr d) Hd' Hp ltac:(pose proof (bsr_bound d Hd'); lia)) as Hq.
  assert (Hs : 1 <= bsr d <= 32).
  { unfold bsr. pose proof (Z.log2_nonneg d).
    assert (Z.log2 d < 32) by (apply Z.log2_lt_pow2; lia). lia. }
  unfold randomx_reciprocal_fast, builtin_clzll.
  replace (64 - (63 - Z.log2 d)) with (bsr d) by (unfold bsr; lia).
  rewrite Z.pow_add_r, Z.mul_comm, shifted_quotient in * by lia.
  rewrite !Z.shiftl_mul_pow2, Z.mul_1_l by lia.
  set (q := 2 ^ 63 / d) in *. set (r := 2 ^ 63 mod d).
  assert (Hr : 0 <= r < d) by (apply Z.mod_pos_bound; lia).
  assert (2 ^ bsr d <= 2 ^ 32) by (apply Z.pow_le_mono_r; lia).
  assert (Hr' : 0 <= r * 2 ^ bsr d < 2 ^ 64) by nia.
  rewrite u64_add_l, (u64_small (r * _)) by done. by apply u64_small.
Qed.

Lemma randomx_reciprocal_fast_equiv_witness :
  randomx_reciprocal_fast 7 = randomx_reciprocal 7.
Proof. apply randomx_reciprocal_fast_equiv; [lia | apply not_pow2_7]. Defined.

(** the parameter type admits 64-bit divisors, but there the two versions
    part: the shift of the remainder loses its high bits. *)
Theorem randomx_reciprocal_fast_wide :
  exists d, 0 < d < 2 ^ 64 /\ not_pow2 d /\
    randomx_reciprocal d = 2 ^ (63 + bsr d) / d /\
    randomx_reciprocal_fast d <> randomx_reciprocal d.
Proof.
  exists (2 ^ 40 + 1). split; [lia |]. split; [by vm_compute |].
  split; [by vm_compute | by vm_compute].
Qed.
