(* ===== verification/Sha256.v ===== *)
(** * SHA-256: [xmrig/crypto/randomx/panthera/sha256.c]

    The libcperciva SHA-256 used by yespower: the compression function with
    its in-place rotating registers, the streaming context, the padding.
    [Module Fips] is the FIPS 180-4 definition; the code is proved to refine
    it, and is registered as a [StreamingHash]. *)

From S2P Require Import Prelude Endian Streaming.

(** ** The code *)

(** [be32dec_vect(dst, src, len)]: [2 * len] words, two per iteration. *)
Fixpoint be32dec_vect (src : list Z) (len : nat) : list Z :=
  match len with
  | O => []
  | S len => be32dec (take 4 src) :: be32dec (take 4 (drop 4 src))
             :: be32dec_vect (drop 8 src) len
  end.

(** [be32enc_vect(dst, src, len)]: [8 * len] bytes. *)
Fixpoint be32enc_vect (src : list Z) (len : nat) : list Z :=
  match len with
  | O => []
  | S len => be32enc src.[0] ++ be32enc src.[1] ++ be32enc_vect (drop 2 src) len
  end.

Definition Krnd : list Z := [
  0x428A2F98; 0x71374491; 0xB5C0FBCF; 0xE9B5DBA5;
  0x3956C25B; 0x59F111F1; 0x923F82A4; 0xAB1C5ED5;
  0xD807AA98; 0x12835B01; 0x243185BE; 0x550C7DC3;
  0x72BE5D74; 0x80DEB1FE; 0x9BDC06A7; 0xC19BF174;
  0xE49B69C1; 0xEFBE4786; 0x0FC19DC6; 0x240CA1CC;
  0x2DE92C6F; 0x4A7484AA; 0x5CB0A9DC; 0x76F988DA;
  0x983E5152; 0xA831C66D; 0xB00327C8; 0xBF597FC7;
  0xC6E00BF3; 0xD5A79147; 0x06CA6351; 0x14292967;
  0x27B70A85; 0x2E1B2138; 0x4D2C6DFC; 0x53380D13;
  0x650A7354; 0x766A0ABB; 0x81C2C92E; 0x92722C85;
  0xA2BFE8A1; 0xA81A664B; 0xC24B8B70; 0xC76C51A3;
  0xD192E819; 0xD6990624; 0xF40E3585; 0x106AA070;
  0x19A4C116; 0x1E376C08; 0x2748774C; 0x34B0BCB5;
  0x391C0CB3; 0x4ED8AA4A; 0x5B9CCA4F; 0x682E6FF3;
  0x748F82EE; 0x78A5636F; 0x84C87814; 0x8CC70208;
  0x90BEFFFA; 0xA4506CEB; 0xBEF9A3F7; 0xC67178F2 ].

Definition Ch (x y z : Z) : Z := Z.lxor (Z.land x (Z.lxor y z)) z.
Definition Maj (x y z : Z) : Z := Z.lor (Z.land x (Z.lor y z)) (Z.land y z).
Definition SHR (x n : Z) : Z := Z.shiftr x n.
Definition ROTR (x n : Z) : Z := Z.lor (Z.shiftr x n) (u32 (Z.shiftl x (32 - n))).
Definition S0 (x : Z) : Z := Z.lxor (Z.lxor (ROTR x 2) (ROTR x 13)) (ROTR x 22).
Definition S1 (x : Z) : Z := Z.lxor (Z.lxor (ROTR x 6) (ROTR x 11)) (ROTR x 25).
Definition s0 (x : Z) : Z := Z.lxor (Z.lxor (ROTR x 7) (ROTR x 18)) (SHR x 3).
Definition s1 (x : Z) : Z := Z.lxor (Z.lxor (ROTR x 17) (ROTR x 19)) (SHR x 10).

(** The round macro; the registers are positions of the array [S], here [regs]. *)
Definition RND (regs : list Z) (a b c d e f g h : nat) (k : Z) : list Z :=
  let regs := <[h := u32 (regs.[h] + (S1 regs.[e] + Ch regs.[e] regs.[f] regs.[g] + k))]> regs in
  let regs := <[d := u32 (regs.[d] + regs.[h])]> regs in
  <[h := u32 (regs.[h] + (S0 regs.[a] + Maj regs.[a] regs.[b] regs.[c]))]> regs.

Definition RNDr (regs W : list Z) (i ii : nat) : list Z :=
  RND regs ((64 - i) mod 8) ((65 - i) mod 8)
    ((66 - i) mod 8) ((67 - i) mod 8)
    ((68 - i) mod 8) ((69 - i) mod 8)
    ((70 - i) mod 8) ((71 - i) mod 8)
    (u32 (W.[i + ii] + Krnd.[i + ii])).

Definition MSCH (W : list Z) (ii i : nat) : list Z :=
  <[(i + ii + 16)%nat :=
      u32 (s1 W.[i + ii + 14] + W.[i + ii + 9] + s0 W.[i + ii + 1] + W.[i + ii])]> W.

(** One iteration of the mixing loop: sixteen rounds, then, unless this is the
    last group, the next sixteen schedule words. *)
Definition mix16 (WS : list Z * list Z) (i : nat) : list Z * list Z :=
  let '(W, regs) := WS in
  let regs := fold_left (fun regs j => RNDr regs W j i) (seq 0 16) regs in
  if (i =? 48)%nat then (W, regs)
  else (fold_left (fun W j => MSCH W j i) (seq 0 16) W, regs).

(** [SHA256_Transform(state, block, W, S)]; [W] is the caller's scratch array. *)
Definition SHA256_Transform_scratch (W state block : list Z) : list Z :=
  let W := write_at 0 (be32dec_vect block 8) W in
  let '(_, regs) := fold_left mix16 [0; 16; 32; 48]%nat (W, state) in
  [ u32 (state.[0] + regs.[0]); u32 (state.[1] + regs.[1]);
    u32 (state.[2] + regs.[2]); u32 (state.[3] + regs.[3]);
    u32 (state.[4] + regs.[4]); u32 (state.[5] + regs.[5]);
    u32 (state.[6] + regs.[6]); u32 (state.[7] + regs.[7]) ].

(** The scratch array is uninitialised in the callers;
    [SHA256_Transform_scratch_eq] shows that its contents do not matter. *)
Definition SHA256_Transform : list Z -> list Z -> list Z :=
  SHA256_Transform_scratch (replicate 64 0).

Record SHA256_CTX := { ctx_state : list Z; ctx_count : Z; ctx_buf : list Z }.

Definition PAD : list Z := 0x80 :: replicate 63 0.

Definition SHA256_Pad (ctx : SHA256_CTX) : SHA256_CTX :=
  let r := Z.to_nat (Z.land (Z.shiftr ctx.(ctx_count) 3) 0x3f) in
  let '(state, buf) :=
    if (r <? 56)%nat then (ctx.(ctx_state), write_at r (take (56 - r) PAD) ctx.(ctx_buf))
    else
      let buf := write_at r (take (64 - r) PAD) ctx.(ctx_buf) in
      (SHA256_Transform ctx.(ctx_state) buf, write_at 0 (replicate 56 0) buf) in
  let buf := write_at 56 (be64enc ctx.(ctx_count)) buf in
  {| ctx_state := SHA256_Transform state buf; ctx_count := ctx.(ctx_count); ctx_buf := buf |}.

Definition initial_state : list Z := [
  0x6A09E667; 0xBB67AE85; 0x3C6EF372; 0xA54FF53A;
  0x510E527F; 0x9B05688C; 0x1F83D9AB; 0x5BE0CD19 ].

Definition SHA256_Init (ctx : SHA256_CTX) : SHA256_CTX :=
  {| ctx_state := initial_state; ctx_count := 0; ctx_buf := ctx.(ctx_buf) |}.

Definition SHA256_Update (ctx : SHA256_CTX) (src : list Z) : SHA256_CTX :=
  let len := length src in
  if (len =? 0)%nat then ctx
  else
    let r := Z.to_nat (Z.land (Z.shiftr ctx.(ctx_count) 3) 0x3f) in
    let count := u64 (ctx.(ctx_count) + Z.shiftl (Z.of_nat len) 3) in
    if (len <? 64 - r)%nat then
      {| ctx_state := ctx.(ctx_state); ctx_count := count;
         ctx_buf := write_at r src ctx.(ctx_buf) |}
    else
      let buf := write_at r (take (64 - r) src) ctx.(ctx_buf) in
      let state := SHA256_Transform ctx.(ctx_state) buf in
      let '(state, src) := while_full SHA256_Transform 64 len state (drop (64 - r) src) in
      {| ctx_state := state; ctx_count := count; ctx_buf := write_at 0 src buf |}.

(** [_SHA256_Final]: the digest and the padded context it leaves. *)
Definition SHA256_Final_ (ctx : SHA256_CTX) : list Z * SHA256_CTX :=
  let ctx := SHA256_Pad ctx in
  (be32enc_vect ctx.(ctx_state) 4, ctx).

(** [SHA256_Final] clears the context ([insecure_memzero]). *)
Definition SHA256_Final (ctx : SHA256_CTX) : list Z * SHA256_CTX :=
  let '(digest, _) := SHA256_Final_ ctx in
  (digest, {| ctx_state := replicate 8 0; ctx_count := 0; ctx_buf := replicate 64 0 |}).

(** A context on the stack: its contents are unspecified before [SHA256_Init]. *)
Definition fresh_ctx : SHA256_CTX :=
  {| ctx_state := replicate 8 0; ctx_count := 0; ctx_buf := replicate 64 0 |}.

Definition SHA256_Buf (m : list Z) : list Z :=
  fst (SHA256_Final_ (SHA256_Update (SHA256_Init fresh_ctx) m)).

(** ** FIPS 180-4 *)

Module Fips.
Definition Ch (x y z : Z) : Z := Z.lxor (Z.land x y) (Z.land (not32 x) z).
Definition Maj (x y z : Z) : Z :=
  Z.lxor (Z.lxor (Z.land x y) (Z.land x z)) (Z.land y z).
Definition Sigma0 x := Z.lxor (Z.lxor (rotr32 x 2) (rotr32 x 13)) (rotr32 x 22).
Definition Sigma1 x := Z.lxor (Z.lxor (rotr32 x 6) (rotr32 x 11)) (rotr32 x 25).
Definition sigma0 x := Z.lxor (Z.lxor (rotr32 x 7) (rotr32 x 18)) (Z.shiftr x 3).
Definition sigma1 x := Z.lxor (Z.lxor (rotr32 x 17) (rotr32 x 19)) (Z.shiftr x 10).

(** The message schedule, one word per step after the sixteen of the block. *)
Definition schedule_step (W : list Z) : list Z :=
  let t := length W in
  W ++ [u32 (sigma1 W.[t - 2] + W.[t - 7] + sigma0 W.[t - 15] + W.[t - 16])].
Definition schedule (M : list Z) : list Z := Nat.iter 48 schedule_step M.

Definition round (v : list Z) (KW : Z * Z) : list Z :=
  let '(K, W) := KW in
  let T1 := u32 (v.[7] + Sigma1 v.[4] + Ch v.[4] v.[5] v.[6] + K + W) in
  let T2 := u32 (Sigma0 v.[0] + Maj v.[0] v.[1] v.[2]) in
  [ u32 (T1 + T2); v.[0]; v.[1]; v.[2]; u32 (v.[3] + T1); v.[4]; v.[5]; v.[6] ].

Definition compress (H block : list Z) : list Z :=
  let M := map be_word (pieces 4 16 block) in
  let v := fold_left round (combine Krnd (schedule M)) H in
  zip_with (fun h x => u32 (h + x)) H v.

(** Append a one bit, zeroes up to 56 mod 64 bytes, and the bit length. *)
Definition padding (len : nat) : list Z :=
  [0x80] ++ replicate ((119 - len mod 64) mod 64) 0 ++ be_bytes 8 (8 * Z.of_nat len).

Definition sha256 (m : list Z) : list Z :=
  concat (map (be_bytes 4)
    (absorb_all compress 64 initial_state (m ++ padding (length m)))).
End Fips.

(** ** The compression function *)

Lemma ROTR_rotr32 x n : ROTR x n = rotr32 x n.
Proof. done. Qed.

Lemma Ch_spec x y z : word 32 x -> word 32 z -> Ch x y z = Fips.Ch x y z.
Proof.
  intros Hx Hz. unfold Ch, Fips.Ch, not32. rewrite u32_mod. bitwise.
  destruct (decide (i < 32)).
  - rewrite Z.mod_pow2_bits_low, Z.lnot_spec by lia. btauto.
  - rewrite (word_testbit 32 x i), (word_testbit 32 z i) by (done || lia). btauto.
Qed.

Lemma Maj_spec x y z : Maj x y z = Fips.Maj x y z.
Proof. unfold Maj, Fips.Maj. bitblast. Qed.

Lemma be32dec_vect_spec block k :
  bytes block -> length block = (8 * k)%nat ->
  be32dec_vect block k = map be_word (pieces 4 (2 * k) block).
Proof.
  revert block. induction k as [| k IH]; intros block Hb Hl; [done |].
  cbn [be32dec_vect]. replace (2 * S k)%nat with (S (S (2 * k))) by lia. cbn [pieces map].
  rewrite !be32dec_spec by (solve [auto using Forall_take, Forall_drop] ||
    (rewrite length_take, ?length_drop; lia)).
  do 2 f_equal. rewrite drop_drop. apply IH; [by apply Forall_drop |].
  rewrite length_drop. lia.
Qed.

Lemma be32enc_vect_spec k src :
  length src = (2 * k)%nat -> be32enc_vect src k = concat (map (be_bytes 4) src).
Proof.
  revert src. induction k as [| k IH]; intros src Hl.
  - by destruct src.
  - destruct src as [| x [| y src]]; cbn [length] in Hl; [lia | lia |].
    cbn [be32enc_vect nth drop map concat]. rewrite !be32enc_spec, drop_0, IH by lia. done.
Qed.

(** The rotating registers: before round [i] position [p] of the array holds
    the FIPS variable [(p + i) mod 8]. *)
Definition rotated (i : nat) (v : list Z) : list Z :=
  drop (i mod 8) v ++ take (i mod 8) v.

Lemma round_sums h s c k w :
  u32 (h + (s + c + u32 (w + k))) = u32 (h + s + c + k + w).
Proof.
  rewrite Z.add_assoc, u32_add_r. f_equal. lia.
Qed.

Lemma RNDr_rotated v W i ii :
  length v = 8%nat -> Forall (word 32) v -> (i < 16)%nat ->
  RNDr (rotated i v) W i ii = rotated (i + 1) (Fips.round v (Krnd.[i + ii], W.[i + ii])).
Proof.
  intros Hl Hv Hi. do 8 (destruct v as [| ? v]; [done |]). destruct v; [| done].
  inv_bytes.
  set (k := Krnd.[i + ii]). set (w := W.[i + ii]).
  unfold RNDr, RND. fold k w. clearbody k w.
  unfold Fips.round. cbn [nth].
  rewrite <- (Ch_spec z3 z4 z5), <- (Maj_spec z z0 z1) by done.
  change (Fips.Sigma1 z3) with (S1 z3). change (Fips.Sigma0 z) with (S0 z).
  generalize round_sums u32_add_r S0 S1 Ch Maj. generalize u32. clear - Hi.
  intros u Hsum Hadd s0 s1 ch maj. do 16 (destruct i as [| i];
    [cbn; by rewrite ?Hsum, ?Hadd |]). lia.
Qed.

Lemma round_wf v KW :
  length v = 8%nat -> Forall (word 32) v ->
  length (Fips.round v KW) = 8%nat /\ Forall (word 32) (Fips.round v KW).
Proof.
  intros Hl Hv. destruct KW as [K W]. split; [done |].
  unfold Fips.round. forall_words.
Qed.

(** Sixteen rounds bring the registers back in place. *)
Lemma rounds16_spec v W ii n :
  length v = 8%nat -> Forall (word 32) v -> (n <= 16)%nat ->
  let v' := fold_left Fips.round
    (map (fun j => (Krnd.[j + ii], W.[j + ii])) (seq 0 n)) v in
  fold_left (fun regs j => RNDr regs W j ii) (seq 0 n) v = rotated n v' /\
  length v' = 8%nat /\ Forall (word 32) v'.
Proof.
  intros Hl Hv. induction n as [| n IH]; intros Hn v'.
  - subst v'. cbn. unfold rotated. cbn. by rewrite app_nil_r.
  - subst v'. destruct IH as (IH & IHl & IHv); [lia |]. rewrite !seq_S, !map_app, !fold_left_app.
    cbn [fold_left map]. rewrite IH, Nat.add_0_l, RNDr_rotated by (done || lia).
    split; [f_equal; lia |]. by apply round_wf.
Qed.

(** ** The message schedule *)

Lemma length_schedule_iter n M :
  length (Nat.iter n Fips.schedule_step M) = (length M + n)%nat.
Proof.
  induction n as [| n IH]; cbn; [lia |]. unfold Fips.schedule_step at 1.
  rewrite length_app. unfold Nat.iter in IH. rewrite IH. cbn. lia.
Qed.

Lemma schedule_iter_prefix n k M :
  exists l, Nat.iter (n + k) Fips.schedule_step M = Nat.iter k Fips.schedule_step M ++ l.
Proof.
  induction n as [| n [l IH]]; cbn; [by exists []; rewrite app_nil_r |].
  unfold Nat.iter in IH. rewrite IH. unfold Fips.schedule_step at 1.
  rewrite <- app_assoc. eauto.
Qed.

(** A schedule array: its first [16 + n] words are those of FIPS. *)
Definition scheduled (M W : list Z) (n : nat) : Prop :=
  length W = 64%nat /\ take (16 + n) W = Nat.iter n Fips.schedule_step M.

Lemma MSCH_scheduled M W i ii :
  length M = 16%nat -> (i + ii < 48)%nat ->
  scheduled M W (i + ii) -> scheduled M (MSCH W i ii) (S (i + ii)).
Proof.
  intros HM Hi [Hl HW]. unfold MSCH. rewrite (Nat.add_comm ii i).
  split; [by rewrite length_insert |].
  cbn [Nat.iter nat_rect]. unfold Nat.iter in HW. rewrite <- HW.
  unfold Fips.schedule_step. rewrite length_take.
  replace ((16 + (i + ii)) `min` length W)%nat with (16 + (i + ii))%nat by lia.
  rewrite !nth_take_Z by lia.
  replace (i + ii + 16)%nat with (16 + (i + ii))%nat by lia.
  replace (16 + S (i + ii))%nat with (S (16 + (i + ii))) by lia.
  rewrite (take_S_r _ _ (u32 (s1 W.[i + ii + 14] + W.[i + ii + 9] + s0 W.[i + ii + 1]
    + W.[i + ii]))) by (apply list_lookup_insert_eq; lia).
  rewrite take_insert_ge by lia. repeat f_equal; lia.
Qed.

Lemma MSCH16_scheduled M W ii n :
  length M = 16%nat -> (n + ii <= 48)%nat -> scheduled M W ii ->
  scheduled M (fold_left (fun W j => MSCH W j ii) (seq 0 n) W) (n + ii).
Proof.
  intros HM. induction n as [| n IH]; intros Hn HW; [done |].
  rewrite seq_S, fold_left_app. cbn [fold_left].
  apply MSCH_scheduled; [done | lia |]. apply IH; [lia | done].
Qed.

Lemma scheduled_nth M W n j :
  scheduled M W n -> (n <= 48)%nat -> length M = 16%nat -> (j < 16 + n)%nat ->
  W.[j] = (Fips.schedule M).[j].
Proof.
  intros [Hl HW] Hn HM Hj. rewrite <- (nth_take_Z W (16 + n) j) by lia. rewrite HW.
  unfold Fips.schedule. destruct (schedule_iter_prefix (48 - n) n M) as [l Hp].
  replace (48 - n + n)%nat with 48%nat in Hp by lia. rewrite Hp, app_nth1; [done |].
  rewrite length_schedule_iter. lia.
Qed.

(** ** The compression function refines FIPS 180-4 *)

Definition fips_rounds (M : list Z) (ii n : nat) (v : list Z) : list Z :=
  fold_left Fips.round (map (fun t => (Krnd.[t], (Fips.schedule M).[t])) (seq ii n)) v.

Lemma seq_from ii n : seq ii n = map (fun j => (j + ii)%nat) (seq 0 n).
Proof.
  induction n as [| n IH]; [done |]. rewrite !seq_S, map_app, IH. cbn.
  do 2 f_equal. lia.
Qed.

Lemma mix16_spec M W v ii :
  length M = 16%nat -> length v = 8%nat -> Forall (word 32) v ->
  scheduled M W ii -> (ii <= 48)%nat -> (ii < 48 -> ii <= 32)%nat ->
  exists W', mix16 (W, v) ii = (W', fips_rounds M ii 16 v) /\
    (ii < 48 -> scheduled M W' (16 + ii))%nat /\
    length (fips_rounds M ii 16 v) = 8%nat /\ Forall (word 32) (fips_rounds M ii 16 v).
Proof.
  intros HM Hl Hv HW Hii Hlast. unfold mix16.
  destruct (rounds16_spec v W ii 16 Hl Hv ltac:(lia)) as (Hr & Hrl & Hrv).
  assert (He : fold_left Fips.round
    (map (fun j => (Krnd.[j + ii], W.[j + ii])) (seq 0 16)) v = fips_rounds M ii 16 v).
  { unfold fips_rounds. f_equal. rewrite (seq_from ii), map_map. apply map_ext_in.
    intros j Hj%in_seq. f_equal. apply (scheduled_nth M W ii); (done || lia). }
  rewrite He in *. rewrite Hr. unfold rotated. cbn [Nat.modulo Nat.divmod fst snd Nat.sub].
  rewrite drop_0, take_0, app_nil_r.
  destruct (Nat.eqb_spec ii 48) as [-> |].
  - exists W. split; [done |]. split; [lia | done].
  - eexists. split; [done |]. split; [| done].
    intros _. apply MSCH16_scheduled; [done | lia | done].
Qed.

Lemma combine_nth_seq (l k : list Z) n :
  length l = n -> length k = n -> combine l k = map (fun t => (l.[t], k.[t])) (seq 0 n).
Proof.
  intros <-. revert k. induction l as [| x l IH]; intros [| y k] Hk; try done.
  cbn [length seq map combine]. rewrite IH by (cbn in Hk; lia). f_equal.
  rewrite <- seq_shift, map_map. done.
Qed.

Lemma SHA256_Transform_scratch_eq W state block :
  length W = 64%nat -> length state = 8%nat -> Forall (word 32) state ->
  bytes block -> length block = 64%nat ->
  SHA256_Transform_scratch W state block = Fips.compress state block.
Proof.
  intros HW Hl Hv Hb Hbl. unfold SHA256_Transform_scratch, Fips.compress.
  rewrite be32dec_vect_spec by done. change (2 * 8)%nat with 16%nat.
  set (M := map be_word (pieces 4 16 block)).
  assert (HM : length M = 16%nat) by (unfold M; by rewrite length_map, length_pieces).
  assert (HW0 : scheduled M (write_at 0 M W) 0).
  { split; [rewrite length_write_at; lia |]. cbn [Nat.iter nat_rect].
    pose proof (take_write_at 0 M W ltac:(lia)) as Ht. rewrite take_0, HM in Ht. done. }
  rewrite combine_nth_seq with (n := 64%nat);
    [| done | unfold Fips.schedule; by rewrite length_schedule_iter, HM].
  change (seq 0 64) with (seq 0 16 ++ seq 16 16 ++ seq 32 16 ++ seq 48 16).
  rewrite !map_app, !fold_left_app. cbn [fold_left].
  destruct (mix16_spec M _ state 0 HM Hl Hv HW0) as (W1 & -> & HW1 & Hl1 & Hv1); [lia.. |].
  destruct (mix16_spec M W1 _ 16 HM Hl1 Hv1) as (W2 & -> & HW2 & Hl2 & Hv2); [auto with lia.. |].
  destruct (mix16_spec M W2 _ 32 HM Hl2 Hv2) as (W3 & -> & HW3 & Hl3 & Hv3); [auto with lia.. |].
  destruct (mix16_spec M W3 _ 48 HM Hl3 Hv3) as (W4 & -> & _ & Hl4 & _); [auto with lia.. |].
  fold (fips_rounds M 0 16 state). set (v1 := fips_rounds M 0 16 state) in *.
  fold (fips_rounds M 16 16 v1). set (v2 := fips_rounds M 16 16 v1) in *.
  fold (fips_rounds M 32 16 v2). set (v3 := fips_rounds M 32 16 v2) in *.
  fold (fips_rounds M 48 16 v3). set (v4 := fips_rounds M 48 16 v3) in *.
  clearbody v4. do 8 (destruct v4 as [| ? v4]; [done |]). destruct v4; [| done].
  do 8 (destruct state as [| ? state]; [done |]). destruct state; done.
Qed.

Lemma compress_wf state block :
  length state = 8%nat -> Forall (word 32) state -> bytes block -> length block = 64%nat ->
  length (Fips.compress state block) = 8%nat /\ Forall (word 32) (Fips.compress state block).
Proof.
  intros Hl Hv Hb Hbl.
  rewrite <- (SHA256_Transform_scratch_eq (replicate 64 0)) by done.
  unfold SHA256_Transform_scratch. destruct (fold_left _ _ _) as [W S].
  split; [done |]. forall_words.
Qed.

(** C4: the unrolled compression function with rotating registers and an
    in-place message schedule computes the FIPS 180-4 compression function,
    whatever the scratch array contains. *)
Theorem SHA256_Transform_fips W state block :
  length W = 64%nat -> length state = 8%nat -> Forall (word 32) state ->
  bytes block -> length block = 64%nat ->
  SHA256_Transform_scratch W state block = Fips.compress state block /\
  Forall (word 32) (Fips.compress state block).
Proof.
  intros. split; [by apply SHA256_Transform_scratch_eq | by apply compress_wf].
Qed.

Lemma SHA256_Transform_fips_witness :
  SHA256_Transform_scratch (replicate 64 0) initial_state (PAD) =
    Fips.compress initial_state PAD /\ Forall (word 32) (Fips.compress initial_state PAD).
Proof.
  apply (SHA256_Transform_fips (replicate 64 0) initial_state PAD); try done;
    apply (bool_decide_unpack _); by vm_compute.
Defined.

(** ** The streaming context refines the hash of the whole message *)

Definition state_wf (s : list Z) : Prop := length s = 8%nat /\ Forall (word 32) s.

Lemma initial_state_wf : state_wf initial_state.
Proof. split; [done |]. apply (bool_decide_unpack _). by vm_compute. Qed.

Lemma SHA256_Transform_eq s b :
  state_wf s -> bytes b -> length b = 64%nat ->
  SHA256_Transform s b = Fips.compress s b /\ state_wf (SHA256_Transform s b).
Proof.
  intros [Hl Hv] Hb Hbl. unfold SHA256_Transform. rewrite SHA256_Transform_scratch_eq by done.
  split; [done |]. by apply compress_wf.
Qed.

Lemma absorb_Transform s m :
  state_wf s -> bytes m ->
  absorb_all SHA256_Transform 64 s m = absorb_all Fips.compress 64 s m.
Proof.
  intros Hs Hm. apply (absorb_ext state_wf); [| done | done |].
  - intros. by apply SHA256_Transform_eq.
  - pose proof (Nat.div_mod_eq (length m) 64). lia.
Qed.

Lemma absorb_state_wf m : bytes m -> state_wf (absorb_all Fips.compress 64 initial_state m).
Proof.
  intros Hm. apply absorb_all_inv; [lia | | apply initial_state_wf | done].
  intros s b Hs Hb Hl. destruct (SHA256_Transform_eq s b Hs Hb Hl) as [<- ?]. done.
Qed.

Definition ctx_wf (c : SHA256_CTX) : Prop := length c.(ctx_buf) = 64%nat /\ bytes c.(ctx_buf).

Record sha_repr (c : SHA256_CTX) (m : list Z) : Prop := {
  repr_bytes : bytes m;
  repr_state : c.(ctx_state) = absorb_all Fips.compress 64 initial_state m;
  repr_count : c.(ctx_count) = u64 (8 * Z.of_nat (length m));
  repr_wf : ctx_wf c;
  repr_buf : take (length m mod 64) c.(ctx_buf) = rest 64 m
}.

(** The bit count gives the number of buffered bytes. *)
Lemma count_buffered n :
  Z.to_nat (Z.land (Z.shiftr (u64 (8 * Z.of_nat n)) 3) 0x3f) = (n mod 64)%nat.
Proof.
  change 0x3f with (Z.ones 6). rewrite Z.land_ones, Z.shiftr_div_pow2, u64_mod by lia.
  change (2 ^ 64) with (2 ^ 3 * 2 ^ 61). change 8 with (2 ^ 3).
  rewrite Z.mul_mod_distr_l, (Z.mul_comm (2 ^ 3)), Z.div_mul by lia.
  change (2 ^ 61) with (2 ^ 6 * 2 ^ 55).
  rewrite Z.rem_mul_r, Z.add_mod, Z.mul_comm, Z.mod_mul, Z.add_0_r, !Z.mod_mod by lia.
  change (2 ^ 6) with (Z.of_nat 64). rewrite <- Nat2Z.inj_mod. apply Nat2Z.id.
Qed.

Lemma count_add n k :
  u64 (u64 (8 * Z.of_nat n) + Z.shiftl (Z.of_nat k) 3) = u64 (8 * Z.of_nat (n + k)).
Proof. rewrite u64_add_l, Z.shiftl_mul_pow2 by lia. f_equal. lia. Qed.

Lemma SHA256_Init_repr c : ctx_wf c -> sha_repr (SHA256_Init c) [].
Proof. intros Hc. by split. Qed.

Lemma SHA256_Update_repr c m d :
  sha_repr c m -> bytes d -> sha_repr (SHA256_Update c d) (m ++ d).
Proof.
  intros [Hm Hs Hn [Hl Hb] Hbuf] Hd. unfold SHA256_Update.
  destruct (Nat.eqb_spec (length d) 0) as [He | He].
  { destruct d; [| done]. rewrite app_nil_r. by split. }
  rewrite Hn, count_buffered, count_add. pose proof (length_rest 64 ltac:(lia) m) as Hr.
  set (r := (length m mod 64)%nat) in *. assert (r < 64)%nat by (apply Nat.mod_upper_bound; lia).
  rewrite <- length_app. destruct (Nat.ltb_spec (length d) (64 - r)) as [Hlt | Hge].
  - destruct (absorb_all_nofill Fips.compress 64 ltac:(lia) initial_state m d) as [Ha Hrest];
      [lia |].
    split; cbn [ctx_state ctx_count ctx_buf]; rewrite ?Ha, ?Hrest; try done.
    + by apply bytes_app.
    + split; cbn [ctx_buf]; [rewrite length_write_at; lia | by apply bytes_write_at].
    + rewrite <- Hbuf, <- take_write_at by lia. f_equal.
      rewrite length_app. symmetry. apply (Nat.mod_unique _ _ (length m / 64)); [lia |].
      pose proof (Nat.div_mod_eq (length m) 64). subst r. lia.
  - destruct (absorb_all_fill Fips.compress 64 ltac:(lia) initial_state m d) as [Ha Hrest];
      [lia |].
    rewrite Hr in Ha, Hrest.
    rewrite write_at_full by (rewrite length_take; lia). rewrite Hbuf.
    set (b := rest 64 m ++ take (64 - r) d) in *.
    assert (Hbb : bytes b) by (apply bytes_app; [by apply rest_bytes | by apply Forall_take]).
    assert (Hbl : length b = 64%nat) by (unfold b; rewrite length_app, length_take; lia).
    assert (Hsw := absorb_state_wf m Hm).
    destruct (SHA256_Transform_eq _ b Hsw Hbb Hbl) as [HT HTw].
    rewrite while_full_spec by (rewrite ?length_drop; lia).
    rewrite Hs, absorb_Transform by (done || by apply Forall_drop).
    pose proof (rest_lt 64 ltac:(lia) (drop (64 - r) d)).
    split; cbn [ctx_state ctx_count ctx_buf].
    + by apply bytes_app.
    + by rewrite Ha, <- HT.
    + done.
    + split; cbn [ctx_buf]; [rewrite length_write_at; lia |].
      apply bytes_write_at; [by apply rest_bytes, Forall_drop | done].
    + rewrite <- length_rest, Hrest by lia.
      pose proof (take_write_at 0 (rest 64 (drop (64 - r) d)) b ltac:(lia)) as Ht.
      by rewrite take_0 in Ht.
Qed.

(** ** Padding and the digest *)

Lemma take_PAD n : (0 < n <= 64)%nat -> take n PAD = 0x80 :: replicate (n - 1) 0.
Proof.
  intros Hn. unfold PAD. destruct n as [| n]; [lia |]. cbn [take].
  rewrite take_replicate. do 2 f_equal. lia.
Qed.

Lemma padding_bytes n : bytes (Fips.padding n).
Proof.
  unfold Fips.padding. apply bytes_app; [by forall_words |].
  apply bytes_app; [by apply bytes_replicate | apply bytes_be_bytes].
Qed.

(** The number of zeroes of the padding, by the number of buffered bytes. *)
Lemma padding_zeroes r :
  (r < 64)%nat ->
  ((119 - r) mod 64)%nat = if (r <? 56)%nat then (64 - 8 - r - 1)%nat
    else (64 - r - 1 + (64 - 8))%nat.
Proof.
  intros Hr. symmetry. destruct (Nat.ltb_spec r 56).
  - apply (Nat.mod_unique _ _ 1); lia.
  - apply (Nat.mod_unique _ _ 0); lia.
Qed.

Lemma Transform_blocks s b :
  state_wf s -> bytes b -> length b = 64%nat ->
  SHA256_Transform s b = absorb_all Fips.compress 64 s b.
Proof.
  intros Hs Hb Hl. rewrite <- (app_nil_r b) at 2.
  rewrite absorb_all_block by (done || lia). by apply SHA256_Transform_eq.
Qed.

Lemma SHA256_Pad_spec c m :
  sha_repr c m ->
  (SHA256_Pad c).(ctx_state)
  = absorb_all Fips.compress 64 initial_state (m ++ Fips.padding (length m)).
Proof.
  intros [Hm Hs Hn [Hl Hb] Hbuf]. unfold SHA256_Pad. rewrite Hn, count_buffered, Hs.
  pose proof (length_rest 64 ltac:(lia) m) as Hr. assert (Hsw := absorb_state_wf m Hm).
  rewrite absorb_all_app, be64enc_spec, be_bytes_u64 by lia.
  set (st := absorb_all _ 64 _ m) in *. pose proof (rest_bytes 64 m Hm) as Hrb.
  pose proof (padding_bytes (length m)) as Hpb. unfold Fips.padding in *.
  assert (Hr64 : (length m mod 64 < 64)%nat) by (apply Nat.mod_upper_bound; lia).
  rewrite padding_zeroes in * by done. set (r := (length m mod 64)%nat) in *.
  set (len8 := be_bytes 8 _) in *. assert (Hlen : length len8 = 8%nat) by apply length_be_bytes.
  destruct (Nat.ltb_spec r 56) as [Hlt | Hge]; cbn [ctx_state]; rewrite take_PAD by lia.
  - rewrite (pad_one_block 64 8 r 0x80 (rest 64 m)) by (done || lia).
    apply Transform_blocks; [done | by apply bytes_app |].
    rewrite !length_app, length_replicate, Hlen, Hr. cbn [length]. lia.
  - rewrite (pad_first_block 64 r 0x80 (rest 64 m)) by (done || lia).
    set (blk1 := rest 64 m ++ _ ++ _).
    assert (Hl1 : length blk1 = 64%nat).
    { unfold blk1. rewrite !length_app, length_replicate, Hr. cbn [length]. lia. }
    rewrite (pad_second_block 64 8) by (done || lia). set (blk2 := replicate (64 - 8) 0 ++ len8).
    assert (rest 64 m ++ [128] ++ replicate (64 - r - 1 + (64 - 8)) 0 ++ len8
            = blk1 ++ blk2) as Heq.
    { unfold blk1, blk2. by rewrite replicate_add, <- !app_assoc. }
    assert (Hbb : bytes (blk1 ++ blk2)) by (rewrite <- Heq; by apply bytes_app).
    apply Forall_app in Hbb as [Hb1 Hb2].
    destruct (SHA256_Transform_eq st blk1 Hsw Hb1 Hl1) as [HT1 HTw1].
    rewrite Heq, absorb_all_block, <- HT1 by (done || lia). by apply Transform_blocks.
Qed.

Lemma state_digest s : state_wf s -> be32enc_vect s 4 = concat (map (be_bytes 4) s).
Proof. intros [Hl _]. by apply be32enc_vect_spec. Qed.

Lemma SHA256_Final_spec c m : sha_repr c m -> fst (SHA256_Final_ c) = Fips.sha256 m.
Proof.
  intros Hc. unfold SHA256_Final_, Fips.sha256. cbn [fst]. rewrite (SHA256_Pad_spec c m Hc).
  apply state_digest, absorb_state_wf, bytes_app; [apply (repr_bytes _ _ Hc) |].
  apply padding_bytes.
Qed.

(** ** The streaming interface *)

#[export] Instance SHA256_streaming : StreamingHash SHA256_CTX := {
  stream_init := SHA256_Init;
  stream_update := SHA256_Update;
  stream_final c := fst (SHA256_Final_ c)
}.

#[export] Program Instance SHA256_streaming_ok : StreamingHashOk SHA256_CTX Fips.sha256 := {
  stream_wf := ctx_wf;
  stream_repr := sha_repr;
  stream_init_ok := SHA256_Init_repr;
  stream_update_ok := SHA256_Update_repr;
  stream_final_ok := SHA256_Final_spec;
  stream_repr_wf := repr_wf
}.

Lemma fresh_ctx_wf : ctx_wf fresh_ctx.
Proof. split; [done |]. by apply bytes_replicate. Qed.

(** C3: a message fed to SHA-256 in any number of portions of any sizes, into
    a context with arbitrary previous contents, gives the FIPS 180-4 digest of
    the concatenation. *)
Theorem SHA256_portions c portions :
  ctx_wf c -> Forall (Forall is_byte) portions ->
  fst (SHA256_Final (fold_left SHA256_Update portions (SHA256_Init c)))
  = Fips.sha256 (concat portions).
Proof. intros Hc Hp. exact (feed_digest c portions Hc Hp). Qed.

Lemma SHA256_portions_witness :
  fst (SHA256_Final (fold_left SHA256_Update [[97]; []; [98; 99]] (SHA256_Init fresh_ctx)))
  = Fips.sha256 [97; 98; 99].
Proof.
  apply (SHA256_portions fresh_ctx [[97]; []; [98; 99]]); [apply fresh_ctx_wf |].
  apply (bool_decide_unpack _). by vm_compute.
Defined.

Lemma SHA256_Buf_spec m : bytes m -> SHA256_Buf m = Fips.sha256 m.
Proof. intros Hm. exact (oneshot_digest fresh_ctx m fresh_ctx_wf Hm). Qed.

(** The FIPS 180-4 test vector "abc". *)
Example SHA256_abc :
  be_word (SHA256_Buf [97; 98; 99])
  = 0xba7816bf8f01cfea414140de5dae2223b00361a396177a9cb410ff61f20015ad.
Proof. by vm_compute. Qed.
