(* ===== verification/Hmac.v ===== *)
(** * HMAC: the generic construction and [HMAC_SHA256_*] of
    [xmrig/crypto/randomx/panthera/sha256.c]

    HMAC is verified once, against the [StreamingHash] interface: a pair of
    contexts of any hash that implements the interface, keyed the way the C
    files do it, computes RFC 2104.  [HMAC_SHA256_*] is the SHA-256
    instance. *)

From S2P Require Import Prelude Endian Streaming Sha256.

(** ** HMAC over any streaming hash *)

(** [memset(pad, b, B); for (i = 0; i < Klen; i++) pad[i] ^= K[i];] *)
Definition key_pad (B : nat) (b : Z) (K : list Z) : list Z :=
  xor_loop (length K) (replicate B b) K.

(** RFC 2104 for a hash [H] with [B]-byte blocks. *)
Module Rfc2104.
Definition key_block (H : list Z -> list Z) (B : nat) (K : list Z) : list Z :=
  let K := if (B <? length K)%nat then H K else K in K ++ replicate (B - length K) 0.
Definition hmac (H : list Z -> list Z) (B : nat) (K m : list Z) : list Z :=
  let block := key_block H B K in
  H (map (Z.lxor 0x5c) block ++ H (map (Z.lxor 0x36) block ++ m)).
End Rfc2104.

Lemma key_pad_spec B b K :
  (length K <= B)%nat -> key_pad B b K = map (Z.lxor b) (K ++ replicate (B - length K) 0).
Proof.
  intros HK. unfold key_pad. rewrite xor_loop_spec by (rewrite length_replicate; lia).
  rewrite length_replicate. set (l := K ++ _).
  assert (length l = B) as Hl by (unfold l; rewrite length_app, length_replicate; lia).
  clearbody l. rewrite <- Hl. unfold xor_bytes. clear. induction l as [| x l IH]; [done |].
  cbn. by rewrite <- IH.
Qed.

Lemma bytes_key_pad B b K :
  is_byte b -> bytes K -> (length K <= B)%nat -> bytes (key_pad B b K).
Proof.
  intros Hb HK Hl. rewrite key_pad_spec by done.
  assert (bytes (K ++ replicate (B - length K) 0)) as Hp by (apply bytes_app; [done |];
    apply bytes_replicate; unfold word; lia).
  induction Hp; cbn; constructor; auto with words.
Qed.

Section HmacStreaming.
Context {ctx : Type} {SH : StreamingHash ctx} {H : list Z -> list Z}.
Context {SHO : StreamingHashOk ctx H}.
Context (B : nat) (H_bytes : forall m, bytes m -> bytes (H m)).
Context (H_length : forall m, bytes m -> (length (H m) <= B)%nat).

(** The inner context stands for ipad and the message, the outer for opad. *)
Record hmac_repr (ic oc : ctx) (K m : list Z) : Prop := {
  hmac_inner : stream_repr ic (map (Z.lxor 0x36) (Rfc2104.key_block H B K) ++ m);
  hmac_outer : stream_repr oc (map (Z.lxor 0x5c) (Rfc2104.key_block H B K));
  hmac_bytes : bytes (map (Z.lxor 0x36) (Rfc2104.key_block H B K) ++ m)
}.

(** The key, shortened if it was longer than a block. *)
Definition short_key (K : list Z) : list Z := if (B <? length K)%nat then H K else K.

Lemma short_key_ok K : bytes K -> bytes (short_key K) /\ (length (short_key K) <= B)%nat.
Proof. intros. unfold short_key. destruct (Nat.ltb_spec B (length K)); auto with lia. Qed.

Lemma hmac_init_repr ic oc K :
  stream_wf ic -> stream_wf oc -> bytes K ->
  hmac_repr (stream_update (stream_init ic) (key_pad B 0x36 (short_key K)))
    (stream_update (stream_init oc) (key_pad B 0x5c (short_key K))) K [].
Proof.
  intros Hi Ho HK. destruct (short_key_ok K HK) as [Hb Hl].
  assert (forall b, key_pad B b (short_key K) = map (Z.lxor b) (Rfc2104.key_block H B K)) as Hp.
  { intros. rewrite key_pad_spec by done. done. }
  pose proof (bytes_key_pad B 0x36 (short_key K) ltac:(done) Hb Hl) as H36.
  pose proof (bytes_key_pad B 0x5c (short_key K) ltac:(done) Hb Hl) as H5c.
  rewrite !Hp in *. split; rewrite ?app_nil_r; try done.
  - apply (stream_update_ok _ []); [by apply stream_init_ok | done].
  - apply (stream_update_ok _ []); [by apply stream_init_ok | done].
Qed.

Lemma hmac_update_repr ic oc K m d :
  hmac_repr ic oc K m -> bytes d -> hmac_repr (stream_update ic d) oc K (m ++ d).
Proof.
  intros [Hi Ho Hb] Hd. split; rewrite ?app_assoc; try done.
  - by apply stream_update_ok.
  - by apply bytes_app.
Qed.

Lemma hmac_final_digest ic oc K m :
  hmac_repr ic oc K m ->
  stream_final (stream_update oc (stream_final ic)) = Rfc2104.hmac H B K m.
Proof.
  intros [Hi Ho Hb]. rewrite (stream_final_ok _ _ Hi). apply (@stream_final_ok ctx SH H SHO).
  apply stream_update_ok; [done |]. by apply H_bytes.
Qed.
End HmacStreaming.

(** ** The code: HMAC *)

Record HMAC_SHA256_CTX := { ictx : SHA256_CTX; octx : SHA256_CTX }.

Definition HMAC_SHA256_Init (ctx : HMAC_SHA256_CTX) (K : list Z) : HMAC_SHA256_CTX :=
  let '(K, ic) :=
    if (64 <? length K)%nat then
      SHA256_Final_ (SHA256_Update (SHA256_Init ctx.(ictx)) K)
    else (K, ctx.(ictx)) in
  {| ictx := SHA256_Update (SHA256_Init ic) (key_pad 64 0x36 K);
     octx := SHA256_Update (SHA256_Init ctx.(octx)) (key_pad 64 0x5c K) |}.

Definition HMAC_SHA256_Update (ctx : HMAC_SHA256_CTX) (m : list Z) : HMAC_SHA256_CTX :=
  {| ictx := SHA256_Update ctx.(ictx) m; octx := ctx.(octx) |}.

(** The digest and the context left behind. *)
Definition HMAC_SHA256_Final_ (ctx : HMAC_SHA256_CTX) : list Z * HMAC_SHA256_CTX :=
  let '(ihash, ic) := SHA256_Final_ ctx.(ictx) in
  let '(digest, oc) := SHA256_Final_ (SHA256_Update ctx.(octx) ihash) in
  (digest, {| ictx := ic; octx := oc |}).

Definition HMAC_SHA256_Final (ctx : HMAC_SHA256_CTX) : list Z :=
  fst (HMAC_SHA256_Final_ ctx).

Definition fresh_hmac : HMAC_SHA256_CTX := {| ictx := fresh_ctx; octx := fresh_ctx |}.

Definition HMAC_SHA256_Buf (K m : list Z) : list Z :=
  HMAC_SHA256_Final (HMAC_SHA256_Update (HMAC_SHA256_Init fresh_hmac K) m).

(** ** HMAC-SHA256 *)

Lemma sha256_digest_ok m :
  bytes m -> bytes (Fips.sha256 m) /\ length (Fips.sha256 m) = 32%nat.
Proof.
  intros Hm. unfold Fips.sha256.
  assert (Hw : state_wf (absorb_all Fips.compress 64 initial_state (m ++ Fips.padding (length m))))
    by (apply absorb_state_wf, bytes_app; [done | apply padding_bytes]).
  destruct Hw as [Hl _]. split; [apply bytes_concat_be | by rewrite length_concat_be, Hl].
Qed.

Lemma SHA256_Final_wf c : ctx_wf c -> ctx_wf (snd (SHA256_Final_ c)).
Proof.
  intros Hc. unfold SHA256_Final_, SHA256_Pad. cbn [snd].
  set (r := Z.to_nat _).
  assert (r < 64)%nat as Hr.
  { unfold r. change 0x3f with (Z.ones 6). rewrite Z.land_ones by lia.
    pose proof (Z.mod_pos_bound (Z.shiftr (ctx_count c) 3) (2 ^ 6)). lia. }
  assert (bytes (be64enc (ctx_count c))) by (rewrite be64enc_spec; apply bytes_be_bytes).
  assert (forall n, bytes (take n PAD)) by (intros; apply Forall_take;
    apply (bool_decide_unpack _); by vm_compute).
  assert (forall n, length (take n PAD) <= n)%nat as Ht by (intros; rewrite length_take; lia).
  change (ctx_wf c) with (buffer 64 (ctx_buf c)) in Hc.
  destruct (Nat.ltb_spec r 56) as [Hlt | Hge]; unfold ctx_wf; cbn [ctx_buf];
    repeat apply buffer_write_at; try done; try lia.
  - specialize (Ht (56 - r)%nat). lia.
  - specialize (Ht (64 - r)%nat). lia.
  - by apply bytes_replicate.
  - rewrite length_replicate. lia.
Qed.

Definition hmac_wf (c : HMAC_SHA256_CTX) : Prop := ctx_wf c.(ictx) /\ ctx_wf c.(octx).

Lemma fresh_hmac_wf : hmac_wf fresh_hmac.
Proof. split; apply fresh_ctx_wf. Qed.

Abbreviation hmac_sha_repr c := (hmac_repr (H := Fips.sha256) 64 (ictx c) (octx c)).
Abbreviation hmac_sha256 := (Rfc2104.hmac Fips.sha256 64).

Lemma sha256_bytes m : bytes m -> bytes (Fips.sha256 m).
Proof. apply sha256_digest_ok. Qed.
Lemma sha256_short m : bytes m -> (length (Fips.sha256 m) <= 64)%nat.
Proof. intros Hm. destruct (sha256_digest_ok m Hm) as [_ ->]. lia. Qed.

Lemma HMAC_SHA256_Init_repr c K :
  hmac_wf c -> bytes K -> hmac_sha_repr (HMAC_SHA256_Init c K) K [].
Proof.
  intros [Hi Ho] HK. unfold HMAC_SHA256_Init.
  pose proof (fun ic Hic => hmac_init_repr (SHO := SHA256_streaming_ok) 64
    sha256_bytes sha256_short ic (octx c) K Hic Ho HK) as Hinit.
  unfold short_key in Hinit. destruct (Nat.ltb_spec 64 (length K)) as [Hl | Hl].
  - pose proof (SHA256_Update_repr _ _ K (SHA256_Init_repr _ Hi) HK) as Hr.
    pose proof (SHA256_Final_spec _ _ Hr) as Hd.
    pose proof (SHA256_Final_wf _ (repr_wf _ _ Hr)) as Hw.
    destruct (SHA256_Final_ _) as [d ic]. cbn [fst snd app] in *. subst d.
    by apply Hinit.
  - by apply Hinit.
Qed.

Lemma HMAC_SHA256_Update_repr c K m d :
  hmac_sha_repr c K m -> bytes d -> hmac_sha_repr (HMAC_SHA256_Update c d) K (m ++ d).
Proof. apply (hmac_update_repr (SHO := SHA256_streaming_ok)). Qed.

Lemma HMAC_SHA256_Final_spec c K m :
  hmac_sha_repr c K m -> HMAC_SHA256_Final c = hmac_sha256 K m.
Proof.
  intros Hc. rewrite <- (hmac_final_digest (SHO := SHA256_streaming_ok) 64 sha256_bytes
    _ _ _ _ Hc).
  unfold HMAC_SHA256_Final, HMAC_SHA256_Final_. cbn [stream_final stream_update
    SHA256_streaming].
  destruct (SHA256_Final_ (ictx c)) as [ih ic]. cbn [fst].
  by destruct (SHA256_Final_ _) as [d oc].
Qed.

Lemma HMAC_SHA256_Buf_spec K m :
  bytes K -> bytes m -> HMAC_SHA256_Buf K m = hmac_sha256 K m.
Proof.
  intros HK Hm. apply HMAC_SHA256_Final_spec, (HMAC_SHA256_Update_repr _ _ []); [| done].
  apply HMAC_SHA256_Init_repr; [apply fresh_hmac_wf | done].
Qed.

(** C5: a key of any length and a message fed in any portions give RFC 2104
    HMAC over FIPS 180-4 SHA-256, whatever the context held before. *)
Theorem HMAC_SHA256_portions c K portions :
  hmac_wf c -> bytes K -> Forall (Forall is_byte) portions ->
  HMAC_SHA256_Final (fold_left HMAC_SHA256_Update portions (HMAC_SHA256_Init c K))
  = hmac_sha256 K (concat portions).
Proof.
  intros Hc HK Hp. apply HMAC_SHA256_Final_spec.
  pose proof (HMAC_SHA256_Init_repr c K Hc HK) as Hr.
  change (concat portions) with ([] ++ concat portions).
  revert Hr. generalize (HMAC_SHA256_Init c K) (@nil Z).
  induction Hp as [| d ds Hd _ IH]; intros h m Hr; cbn.
  - by rewrite app_nil_r.
  - rewrite app_assoc. by apply IH, HMAC_SHA256_Update_repr.
Qed.

Lemma HMAC_SHA256_portions_witness :
  HMAC_SHA256_Final (fold_left HMAC_SHA256_Update [[1; 2]; [3]]
    (HMAC_SHA256_Init fresh_hmac (replicate 70 7))) = hmac_sha256 (replicate 70 7) [1; 2; 3].
Proof.
  apply (HMAC_SHA256_portions fresh_hmac (replicate 70 7) [[1; 2]; [3]]);
    [apply fresh_hmac_wf | | ]; apply (bool_decide_unpack _); by vm_compute.
Defined.
