(* ===== verification/Pbkdf2.v ===== *)
(** * PBKDF2-HMAC-SHA256: [xmrig/crypto/randomx/panthera/sha256.c]

    PBKDF2_SHA256 has two paths: a generic one, and one for a single
    iteration that pads the two hash contexts in place once and then patches
    the block counter into the padded buffer.  Both are proved to compute
    RFC 2898. *)

From S2P Require Import Prelude Endian Streaming Sha256 Hmac.

(** ** The code: PBKDF2 *)

(** The status and the context; the status is -1 when the padding would not
    fit into the block. *)
Definition SHA256_Pad_Almost (ctx : SHA256_CTX) : Z * SHA256_CTX :=
  let r := Z.to_nat (Z.land (Z.shiftr ctx.(ctx_count) 3) 0x3f) in
  if (56 <=? r)%nat then (-1, ctx)
  else
    let len := be64enc ctx.(ctx_count) in
    let ctx := SHA256_Update ctx (take (56 - r) PAD) in
    let ctx := {| ctx_state := ctx.(ctx_state); ctx_count := ctx.(ctx_count);
                  ctx_buf := <[63%nat := len.[7]]> ctx.(ctx_buf) |} in
    (0, SHA256_Update ctx (take 7 len)).

(** [for (i = 0; i * 32 < dkLen; i++) body]: the body gets the index and the
    state; [fuel] bounds the iterations, [dkLen] of them are always enough. *)
Fixpoint blocks_loop {A} (body : nat -> A -> A) (fuel i dkLen : nat) (a : A) : A :=
  match fuel with
  | O => a
  | S fuel => if (i * 32 <? dkLen)%nat then blocks_loop body fuel (S i) dkLen (body i a) else a
  end.

(** The single-iteration path; [None] is the jump to [generic]. *)
Definition PBKDF2_single (passwd salt : list Z) (buf : list Z) : option (list Z) :=
  let hctx := HMAC_SHA256_Init fresh_hmac passwd in
  let hctx := HMAC_SHA256_Update hctx salt in
  let mask := Z.shiftl 0x3f 3 in
  let oldcount := u32 (Z.land hctx.(ictx).(ctx_count) mask) in
  let hctx := HMAC_SHA256_Update hctx [0; 0; 0; 0] in
  if Z.land hctx.(ictx).(ctx_count) mask <? oldcount then None
  else
    let '(fail, ic) := SHA256_Pad_Almost hctx.(ictx) in
    if negb (fail =? 0) then None
    else
      let ivec := Z.to_nat (Z.shiftr oldcount 3) in
      let oc := hctx.(octx) in
      let '(_, oc) := SHA256_Pad_Almost
        {| ctx_state := oc.(ctx_state);
           ctx_count := u64 (oc.(ctx_count) + Z.shiftl 32 3); ctx_buf := oc.(ctx_buf) |} in
      let '(_, _, buf) :=
        blocks_loop (fun i '(ibuf, obuf, buf) =>
          let ibuf := write_at ivec (be32enc (u32 (Z.of_nat i + 1))) ibuf in
          let state := SHA256_Transform ic.(ctx_state) ibuf in
          let obuf := write_at 0 (be32enc_vect state 4) obuf in
          let state := SHA256_Transform oc.(ctx_state) obuf in
          (ibuf, obuf, write_at (i * 32) (be32enc_vect state 4) buf))
          (length buf) 0 (length buf) (ic.(ctx_buf), oc.(ctx_buf), buf) in
      Some buf.

(** [for (j = 2; j <= c; j++)]: the pair [(U, T)] after [k] iterations. *)
Definition pbkdf2_iterate (Phctx : HMAC_SHA256_CTX) (k : nat) (UT : list Z * list Z) :
  list Z * list Z :=
  Nat.iter k (fun '(U, T) =>
    let U := HMAC_SHA256_Final (HMAC_SHA256_Update Phctx U) in
    (U, xor_loop 32 T U)) UT.

(** The [generic:] path. *)
Definition PBKDF2_generic (passwd salt : list Z) (c : Z) (buf : list Z) : list Z :=
  let Phctx := HMAC_SHA256_Init fresh_hmac passwd in
  let PShctx := HMAC_SHA256_Update Phctx salt in
  let dkLen := length buf in
  blocks_loop (fun i buf =>
    let ivec := be32enc (u32 (Z.of_nat i + 1)) in
    let T := HMAC_SHA256_Final (HMAC_SHA256_Update PShctx ivec) in
    let T := if 1 <? c then snd (pbkdf2_iterate Phctx (Z.to_nat (c - 1)) (T, T)) else T in
    let clen := (if (32 <? dkLen - i * 32) then 32 else dkLen - i * 32)%nat in
    write_at (i * 32) (take clen T) buf)
    dkLen 0 dkLen buf.

(** [buf] is the output buffer, of [dkLen] bytes; [None] is the failed
    assertion on [dkLen]. *)
Definition PBKDF2_SHA256 (passwd salt : list Z) (c : Z) (buf : list Z) : option (list Z) :=
  let dkLen := Z.of_nat (length buf) in
  if 32 * 0xffffffff <? dkLen then None
  else if (c =? 1) && (Z.land dkLen 31 =? 0) &&
     (Z.land (Z.of_nat (length salt)) 63 <=? 51) then
    match PBKDF2_single passwd salt buf with
    | Some buf => Some buf
    | None => Some (PBKDF2_generic passwd salt c buf)
    end
  else Some (PBKDF2_generic passwd salt c buf).


(** ** RFC 2898 *)

Module Rfc2898.
Definition INT (i : nat) : list Z := be_bytes 4 (Z.of_nat i).

(** [F (P, S, c, i)]: the exclusive or of the first [c] iterates. *)
Definition F (prf : list Z -> list Z) (salt : list Z) (c : nat) (i : nat) : list Z :=
  let U1 := prf (salt ++ INT i) in
  fold_left (fun T j => xor_bytes T (Nat.iter j prf U1)) (seq 1 (c - 1)) U1.

Definition pbkdf2 (prf : list Z -> list Z) (hLen : nat) (salt : list Z) (c dkLen : nat) :
  list Z :=
  take dkLen (concat (map (F prf salt c) (seq 1 ((dkLen + hLen - 1) / hLen)))).
End Rfc2898.

(** ** The output loop *)

Definition ceil32 (n : nat) : nat := ((n + 31) / 32)%nat.

Lemma ceil32_pos n : (0 < n)%nat -> ceil32 n = S (ceil32 (n - 32)).
Proof.
  intros Hn. unfold ceil32. destruct (decide (n < 32)%nat).
  - replace (n - 32)%nat with 0%nat by lia. cbn [plus]. rewrite (Nat.div_small 31) by lia.
    symmetry. apply (Nat.div_unique _ _ _ (n - 1)); lia.
  - replace (n + 31)%nat with (1 * 32 + (n - 32 + 31))%nat by lia.
    rewrite Nat.div_add_l by lia. lia.
Qed.

Lemma blocks_loop_write (T : nat -> list Z) dkLen fuel i buf :
  (forall i, length (T i) = 32%nat) -> length buf = dkLen -> (dkLen <= fuel + i * 32)%nat ->
  blocks_loop (fun i buf => write_at (i * 32)
      (take (if (32 <? dkLen - i * 32)%nat then 32 else dkLen - i * 32) (T i)) buf)
    fuel i dkLen buf
  = take (i * 32) buf ++ take (dkLen - i * 32) (concat (map T (seq i (ceil32 (dkLen - i * 32))))).
Proof.
  intros HT. revert i buf. induction fuel as [| fuel IH]; intros i buf Hb Hf; cbn [blocks_loop].
  - replace (dkLen - i * 32)%nat with 0%nat by lia. rewrite take_ge by lia. by rewrite take_0, app_nil_r.
  - destruct (Nat.ltb_spec (i * 32) dkLen) as [Hi | Hi].
    2: { replace (dkLen - i * 32)%nat with 0%nat by lia.
         rewrite take_ge by lia. by rewrite take_0, app_nil_r. }
    set (t := take _ (T i)). set (left := (dkLen - i * 32)%nat) in *.
    assert (Ht : length t = (32 `min` left)%nat).
    { unfold t. rewrite length_take, HT. destruct (Nat.ltb_spec 32 left); lia. }
    rewrite IH by (rewrite ?length_write_at; lia).
    rewrite (ceil32_pos left) by lia. cbn [seq map concat].
    replace (dkLen - S i * 32)%nat with (left - 32)%nat by lia.
    rewrite take_app, HT, app_assoc. f_equal.
    destruct (decide (32 <= left)%nat).
    + replace (S i * 32)%nat with (i * 32 + length t)%nat by lia.
      rewrite take_write_at by lia. f_equal. unfold t.
      rewrite !(take_ge (T i)); [done | rewrite HT; lia |].
      rewrite HT. destruct (Nat.ltb_spec 32 left); lia.
    + rewrite take_ge by (rewrite length_write_at; lia).
      rewrite write_at_full by lia. f_equal. unfold t.
      by rewrite (proj2 (Nat.ltb_ge 32 left)) by lia.
Qed.

(** Two loops whose bodies preserve a relation on the states. *)
Lemma blocks_loop_sim {A B} (R : A -> B -> Prop) f g fuel i dkLen a b :
  (forall i a b, (i * 32 < dkLen)%nat -> R a b -> R (f i a) (g i b)) -> R a b ->
  R (blocks_loop f fuel i dkLen a) (blocks_loop g fuel i dkLen b).
Proof.
  intros Hfg. revert i a b. induction fuel as [| fuel IH]; intros i a b Hab;
    cbn [blocks_loop]; [done |].
  destruct (Nat.ltb_spec (i * 32) dkLen); [apply IH; by apply Hfg | done].
Qed.

(** ** The generic path *)

Lemma hmac_digest_ok K m :
  bytes K -> bytes m -> bytes (hmac_sha256 K m) /\ length (hmac_sha256 K m) = 32%nat.
Proof.
  intros HK Hm. unfold Rfc2104.hmac. apply sha256_digest_ok.
  destruct (short_key_ok 64 sha256_bytes sha256_short K HK) as [Hs Hl].
  assert (forall b, is_byte b -> bytes (map (Z.lxor b) (Rfc2104.key_block Fips.sha256 64 K))) as Hx.
  { intros b Hb. unfold Rfc2104.key_block. fold (short_key (H := Fips.sha256) 64 K).
    rewrite <- key_pad_spec by done. by apply bytes_key_pad. }
  apply bytes_app; [by apply Hx |]. apply sha256_bytes, bytes_app; [by apply Hx | done].
Qed.

Lemma pbkdf2_iterate_spec Ph K k T :
  hmac_sha_repr Ph K [] -> bytes K -> bytes T -> length T = 32%nat ->
  let U := Nat.iter k (hmac_sha256 K) T in
  let F := fold_left (fun T' j => xor_bytes T' (Nat.iter j (hmac_sha256 K) T)) (seq 1 k) T in
  pbkdf2_iterate Ph k (T, T) = (U, F) /\ bytes U /\ length F = 32%nat.
Proof.
  intros HPh HK HT Hl. induction k as [| k IH]; [done |]. cbv zeta in *.
  destruct IH as (IH & HU & HF). rewrite seq_S, fold_left_app. cbn [fold_left].
  unfold pbkdf2_iterate in *. rewrite !Nat.iter_succ, IH. cbn [plus].
  set (U := Nat.iter k (hmac_sha256 K) T) in *.
  rewrite (HMAC_SHA256_Final_spec _ K U) by by apply (HMAC_SHA256_Update_repr _ _ []).
  destruct (hmac_digest_ok K U HK HU) as [Hb Hd].
  rewrite xor_loop_full by done. split; [done |].
  split; [done |]. rewrite length_xor_bytes. lia.
Qed.

Lemma INT_spec i : be32enc (u32 (Z.of_nat i + 1)) = Rfc2898.INT (S i).
Proof.
  rewrite be32enc_spec, be_bytes_u32 by lia. unfold Rfc2898.INT. f_equal. lia.
Qed.

Lemma blocks_loop_ext {A} (f g : nat -> A -> A) fuel i dkLen a :
  (forall i a, f i a = g i a) -> blocks_loop f fuel i dkLen a = blocks_loop g fuel i dkLen a.
Proof.
  intros Hfg. apply (blocks_loop_sim eq); [| done]. intros j x y _ ->. apply Hfg.
Qed.

(** Both paths produce this string. *)
Lemma pbkdf2_blocks P salt c buf (T := fun i => Rfc2898.F (hmac_sha256 P) salt c (S i)) :
  (forall i, length (T i) = 32%nat) ->
  blocks_loop (fun i buf' => write_at (i * 32)
      (take (if (32 <? length buf - i * 32)%nat then 32 else length buf - i * 32) (T i)) buf')
    (length buf) 0 (length buf) buf
  = Rfc2898.pbkdf2 (hmac_sha256 P) 32 salt c (length buf).
Proof.
  intros HT. rewrite blocks_loop_write by (done || lia).
  cbn [Nat.mul]. rewrite take_0, Nat.sub_0_r. cbn [app]. unfold Rfc2898.pbkdf2, ceil32.
  do 2 f_equal. rewrite <- seq_shift, map_map. do 3 f_equal. lia.
Qed.

Lemma pbkdf2_F_length P salt c i :
  bytes P -> bytes salt -> length (Rfc2898.F (hmac_sha256 P) salt c i) = 32%nat.
Proof.
  intros HP Hs. unfold Rfc2898.F. set (U1 := hmac_sha256 P _).
  assert (HU : bytes U1 /\ length U1 = 32%nat) by (apply hmac_digest_ok; [done |];
    apply bytes_app; [done | apply bytes_be_bytes]).
  generalize (fresh_hmac_wf). intros Hw.
  pose proof (pbkdf2_iterate_spec _ P (c - 1) U1 (HMAC_SHA256_Init_repr _ P Hw HP) HP) as H.
  destruct H as (_ & _ & H); [apply HU.. | done].
Qed.

Lemma PBKDF2_generic_spec P salt c buf :
  bytes P -> bytes salt -> word 64 c ->
  PBKDF2_generic P salt c buf
  = Rfc2898.pbkdf2 (hmac_sha256 P) 32 salt (Z.to_nat c) (length buf).
Proof.
  intros HP Hs Hc. rewrite <- pbkdf2_blocks by (intros; by apply pbkdf2_F_length).
  unfold PBKDF2_generic. apply blocks_loop_ext. intros i b. f_equal. f_equal.
  pose proof (HMAC_SHA256_Init_repr _ P fresh_hmac_wf HP) as HPh.
  rewrite INT_spec. rewrite (HMAC_SHA256_Final_spec _ P (salt ++ Rfc2898.INT (S i))).
  2: { apply HMAC_SHA256_Update_repr; [| apply bytes_be_bytes].
       by apply (HMAC_SHA256_Update_repr _ _ []). }
  unfold Rfc2898.F. set (U1 := hmac_sha256 P _).
  assert (HU : bytes U1 /\ length U1 = 32%nat) by (apply hmac_digest_ok; [done |];
    apply bytes_app; [done | apply bytes_be_bytes]).
  destruct (Z.ltb_spec 1 c) as [Hlt | Hge].
  - destruct (pbkdf2_iterate_spec _ P (Z.to_nat (c - 1)) U1 HPh HP) as [-> _]; [apply HU.. |].
    cbn [snd]. replace (Z.to_nat (c - 1)) with (Z.to_nat c - 1)%nat by lia. done.
  - by replace (Z.to_nat c - 1)%nat with 0%nat by lia.
Qed.

(** ** The single-iteration path *)

Lemma nofill_mod n k : (n mod 64 + k < 64)%nat -> ((n + k) mod 64 = n mod 64 + k)%nat.
Proof.
  intros. symmetry. apply (Nat.mod_unique _ _ (n / 64)); [lia |].
  pose proof (Nat.div_mod_eq n 64). lia.
Qed.

Lemma SHA256_Update_nofill c n src :
  c.(ctx_count) = u64 (8 * Z.of_nat n) -> (0 < length src < 64 - n mod 64)%nat ->
  SHA256_Update c src
  = {| ctx_state := c.(ctx_state); ctx_count := u64 (8 * Z.of_nat (n + length src));
       ctx_buf := write_at (n mod 64) src c.(ctx_buf) |}.
Proof.
  intros Hn Hl. unfold SHA256_Update. rewrite Hn, count_buffered, count_add.
  by rewrite (proj2 (Nat.eqb_neq _ 0)), (proj2 (Nat.ltb_lt _ _)) by lia.
Qed.

Lemma Pad_Almost_spec c m (r := (length m mod 64)%nat) :
  sha_repr c m -> (r < 56)%nat ->
  exists c', SHA256_Pad_Almost c = (0, c') /\ c'.(ctx_state) = c.(ctx_state) /\
    c'.(ctx_buf) = rest 64 m ++ Fips.padding (length m).
Proof.
  intros [Hm Hs Hn [Hl Hb] Hbuf] Hr. unfold SHA256_Pad_Almost.
  assert (Hpad : length (take (56 - r) PAD) = (56 - r)%nat) by (rewrite length_take; cbn; lia).
  rewrite be64enc_spec, Hn, count_buffered. fold r. rewrite be_bytes_u64 by lia.
  set (len := be_bytes 8 _). assert (Hlen : length len = 8%nat) by apply length_be_bytes.
  rewrite (proj2 (Nat.leb_gt 56 r)) by lia.
  rewrite (SHA256_Update_nofill c (length m)) by (rewrite ?Hpad; unfold r in *; (done || lia)).
  cbn [ctx_state ctx_count ctx_buf]. rewrite Hpad.
  rewrite (SHA256_Update_nofill _ (length m + (56 - r))); cbn [ctx_state ctx_count ctx_buf];
    [| done | rewrite length_take, nofill_mod by (fold r; lia); fold r; lia].
  eexists. split; [done |]. split; [done |]. cbn [ctx_buf].
  rewrite nofill_mod by (fold r; lia). fold r. replace (r + (56 - r))%nat with 56%nat by lia.
  unfold write_at at 1. replace (56 + length (take 7 len))%nat with 63%nat
    by (rewrite length_take; lia).
  rewrite take_insert_ge, drop_insert_ge by lia. set (Y := write_at r _ _).
  assert (HY : length Y = 64%nat) by (unfold Y; rewrite length_write_at; lia).
  assert (take 56 Y = rest 64 m ++ take (56 - r) PAD) as ->.
  { rewrite <- Hbuf. fold r. rewrite <- take_write_at by lia. f_equal. lia. }
  unfold Fips.padding. fold r len. rewrite padding_zeroes by lia.
  rewrite (proj2 (Nat.ltb_lt r 56)), take_PAD by lia. rewrite <- app_assoc. f_equal. cbn [app].
  f_equal. replace (56 - r - 1)%nat with (64 - 8 - r - 1)%nat by lia. f_equal.
  assert (H1 : length (drop 63 Y) = 1%nat) by (rewrite length_drop; lia).
  destruct (drop 63 Y) as [| y [| ? ?]]; [done | | done]. cbn [Nat.sub insert list_insert].
  rewrite <- (take_drop 7 len) at 3. f_equal.
Qed.

(** A message that leaves at most 55 bytes takes one final compression. *)
Lemma absorb_last_block m :
  bytes m -> (length m mod 64 < 56)%nat ->
  absorb_all Fips.compress 64 initial_state (m ++ Fips.padding (length m))
  = SHA256_Transform (absorb_all Fips.compress 64 initial_state m)
      (rest 64 m ++ Fips.padding (length m)).
Proof.
  intros Hm Hr. pose proof (length_rest 64 ltac:(lia) m) as Hl.
  rewrite absorb_all_app by lia. symmetry. apply Transform_blocks.
  - by apply absorb_state_wf.
  - apply bytes_app; [by apply rest_bytes | apply padding_bytes].
  - unfold Fips.padding. rewrite !length_app, length_replicate, length_be_bytes, Hl.
    rewrite padding_zeroes by lia. rewrite (proj2 (Nat.ltb_lt _ 56)) by lia. cbn [length]. lia.
Qed.

Lemma land_shiftl x y k :
  0 <= k -> Z.land x (Z.shiftl y k) = Z.shiftl (Z.land (Z.shiftr x k) y) k.
Proof.
  intros Hk. apply Z.bits_inj'. intros i Hi. rewrite Z.land_spec, !Z.shiftl_spec by lia.
  destruct (decide (i < k)).
  - by rewrite !(Z.testbit_neg_r _ (i - k)), andb_false_r by lia.
  - rewrite Z.land_spec, Z.shiftr_spec by lia. do 2 f_equal. lia.
Qed.

Lemma count_masked n :
  Z.land (u64 (8 * Z.of_nat n)) (Z.shiftl 0x3f 3) = Z.of_nat (8 * (n mod 64)).
Proof.
  rewrite land_shiftl by lia. pose proof (count_buffered n) as Hc.
  assert (0 <= Z.land (Z.shiftr (u64 (8 * Z.of_nat n)) 3) 0x3f) by (apply Z.land_nonneg; lia).
  rewrite Z.shiftl_mul_pow2 by lia. lia.
Qed.

Lemma write_at_middle {A} (a x y b : list A) :
  length x = length y -> write_at (length a) x (a ++ y ++ b) = a ++ x ++ b.
Proof.
  intros Hl. unfold write_at. rewrite take_app_length. do 2 f_equal.
  rewrite Hl, drop_app_add. by rewrite drop_app_length.
Qed.

(** The contexts after the padding of both hashes, the counter still zero. *)
Lemma ictx_padded c K salt (m := map (Z.lxor 0x36) (Rfc2104.key_block Fips.sha256 64 K) ++ salt) :
  hmac_sha_repr c K salt -> (length m mod 64 <= 51)%nat ->
  exists ic pad, SHA256_Pad_Almost (SHA256_Update c.(ictx) [0; 0; 0; 0]) = (0, ic) /\
    ic.(ctx_buf) = rest 64 m ++ [0; 0; 0; 0] ++ pad /\
    forall iv, bytes iv -> length iv = 4%nat ->
    SHA256_Transform ic.(ctx_state) (rest 64 m ++ iv ++ pad)
      = absorb_all Fips.compress 64 initial_state (m ++ iv ++ Fips.padding (length (m ++ iv))).
Proof.
  intros [Hi _ Hb] Hr. cbn [stream_repr SHA256_streaming_ok] in Hi. fold m in Hi, Hb.
  pose proof (SHA256_Update_repr _ _ [0; 0; 0; 0] Hi ltac:(by forall_words)) as Hz.
  assert (Hmod : forall iv : list Z, length iv = 4%nat ->
    (length (m ++ iv) mod 64 = length m mod 64 + 4)%nat)
    by (intros iv Hiv; rewrite length_app, Hiv; apply nofill_mod; lia).
  destruct (Pad_Almost_spec _ _ Hz) as (ic & Hic & Hst & Hbuf); [rewrite Hmod by done; lia |].
  pose proof (length_rest 64 ltac:(lia) m) as Hl.
  assert (forall iv : list Z, length iv = 4%nat ->
    absorb_all Fips.compress 64 initial_state (m ++ iv)
      = absorb_all Fips.compress 64 initial_state m /\ rest 64 (m ++ iv) = rest 64 m ++ iv) as Hab
    by (intros; apply absorb_all_nofill; lia).
  destruct (Hab [0; 0; 0; 0] eq_refl) as [Ha0 Hr0].
  exists ic, (Fips.padding (length (m ++ [0; 0; 0; 0]))). split; [done |].
  rewrite Hbuf, Hr0, <- app_assoc. split; [done |]. intros iv Hbiv Hiv.
  destruct (Hab iv Hiv) as [Ha1 Hr1].
  rewrite (app_assoc m), absorb_last_block by (rewrite ?Hmod by done; (lia || by apply bytes_app)).
  rewrite Hst, (repr_state _ _ Hz), Ha0, Ha1, Hr1, <- app_assoc.
  by rewrite !length_app, Hiv.
Qed.

Lemma key_block_length K :
  bytes K -> length (Rfc2104.key_block Fips.sha256 64 K) = 64%nat.
Proof.
  intros HK. unfold Rfc2104.key_block. fold (short_key (H := Fips.sha256) 64 K).
  destruct (short_key_ok 64 sha256_bytes sha256_short K HK) as [_ Hl].
  rewrite length_app, length_replicate. lia.
Qed.

Lemma octx_padded c K salt (k := map (Z.lxor 0x5c) (Rfc2104.key_block Fips.sha256 64 K)) :
  hmac_sha_repr c K salt -> bytes K ->
  exists x oc y pad, SHA256_Pad_Almost
    {| ctx_state := c.(octx).(ctx_state);
       ctx_count := u64 (c.(octx).(ctx_count) + Z.shiftl 32 3);
       ctx_buf := c.(octx).(ctx_buf) |} = (x, oc) /\
    oc.(ctx_buf) = y ++ pad /\ length y = 32%nat /\
    forall d, bytes d -> length d = 32%nat ->
    SHA256_Transform oc.(ctx_state) (d ++ pad)
      = absorb_all Fips.compress 64 initial_state (k ++ d ++ Fips.padding (length (k ++ d))).
Proof.
  intros [_ Ho _] HK. cbn [stream_repr SHA256_streaming_ok] in Ho. fold k in Ho.
  destruct Ho as [Hk Hs Hn [Hl Hb] _].
  assert (Hlk : length k = 64%nat) by (unfold k; by rewrite length_map, key_block_length).
  set (y := take 32 (ctx_buf (octx c))).
  assert (Hy : length y = 32%nat) by (unfold y; rewrite length_take; lia).
  set (c' := {| ctx_state := _ |}).
  destruct (absorb_all_nofill Fips.compress 64 ltac:(lia) initial_state k y) as [Hay Hry];
    [rewrite length_rest, Hlk by lia; cbn; lia |].
  assert (Hrk : rest 64 k = []) by (apply nil_length_inv; rewrite length_rest, Hlk by lia; done).
  rewrite Hrk in Hry. cbn [app] in Hry.
  assert (Hr : sha_repr c' (k ++ y)).
  { split; cbn [c' ctx_state ctx_count ctx_buf].
    - apply bytes_app; [done | by apply Forall_take].
    - by rewrite Hay.
    - change (Z.shiftl 32 3) with (Z.shiftl (Z.of_nat 32) 3).
      by rewrite Hn, count_add, length_app, Hy.
    - done.
    - by rewrite Hry, length_app, Hlk, Hy. }
  destruct (Pad_Almost_spec c' _ Hr) as (oc & Hoc & Hst & Hbuf);
    [rewrite length_app, Hlk, Hy; cbn; lia |].
  exists 0, oc, y, (Fips.padding (length (k ++ y))). split; [done |].
  rewrite Hbuf, Hry. split; [done |]. split; [done |]. intros d Hbd Hd.
  destruct (absorb_all_nofill Fips.compress 64 ltac:(lia) initial_state k d) as [Had Hrd];
    [rewrite length_rest, Hlk by lia; cbn; lia |]. rewrite Hrk in Hrd.
  rewrite (app_assoc k), absorb_last_block;
    [| by apply bytes_app | rewrite length_app, Hlk, Hd; cbn; lia].
  rewrite Hst, Had, Hrd, !length_app, Hd, Hy. cbn [app c' ctx_state]. by rewrite Hs.
Qed.

(** One iteration of the single-iteration path computes [U_1]. *)
Lemma single_block P salt m k o i (inner outer : list Z) :
  m = map (Z.lxor 0x36) (Rfc2104.key_block Fips.sha256 64 P) ++ salt ->
  k = map (Z.lxor 0x5c) (Rfc2104.key_block Fips.sha256 64 P) ->
  bytes m -> inner = absorb_all Fips.compress 64 initial_state
    (m ++ Rfc2898.INT i ++ Fips.padding (length (m ++ Rfc2898.INT i))) ->
  be32enc_vect inner 4 = Fips.sha256 (m ++ Rfc2898.INT i) /\
  (o = be32enc_vect inner 4 -> bytes k -> outer = absorb_all Fips.compress 64 initial_state
    (k ++ o ++ Fips.padding (length (k ++ o))) ->
   be32enc_vect outer 4 = Rfc2898.F (hmac_sha256 P) salt 1 i).
Proof.
  intros Hm Hk Hb ->. rewrite !(app_assoc m).
  assert (Hi : bytes (m ++ Rfc2898.INT i)) by (apply bytes_app; [done | apply bytes_be_bytes]).
  assert (Hd : forall m', bytes m' -> be32enc_vect
    (absorb_all Fips.compress 64 initial_state (m' ++ Fips.padding (length m'))) 4
    = Fips.sha256 m').
  { intros m' Hm'. apply state_digest, absorb_state_wf, bytes_app; [done |].
    apply padding_bytes. }
  rewrite Hd by done. split; [done |]. intros -> Hbk ->.
  rewrite (app_assoc k), Hd by (apply bytes_app; [done | by apply sha256_bytes]).
  unfold Rfc2898.F, Rfc2104.hmac. cbn [Nat.sub seq fold_left]. subst. by rewrite <- app_assoc.
Qed.

Lemma PBKDF2_single_spec P salt buf :
  bytes P -> bytes salt -> (length buf mod 32 = 0)%nat -> (length salt mod 64 <= 51)%nat ->
  PBKDF2_single P salt buf
  = Some (Rfc2898.pbkdf2 (hmac_sha256 P) 32 salt 1 (length buf)).
Proof.
  intros HP Hs Hdk Hr. unfold PBKDF2_single. cbv zeta.
  pose proof (HMAC_SHA256_Update_repr _ P [] salt
    (HMAC_SHA256_Init_repr _ P fresh_hmac_wf HP) Hs) as Hc. cbn [app] in Hc.
  set (c := HMAC_SHA256_Update _ salt) in *. clearbody c.
  set (m := map (Z.lxor 0x36) (Rfc2104.key_block Fips.sha256 64 P) ++ salt).
  set (k := map (Z.lxor 0x5c) (Rfc2104.key_block Fips.sha256 64 P)).
  assert (Hlm : (length m mod 64 = length salt mod 64)%nat).
  { unfold m. rewrite length_app, length_map, key_block_length by done.
    by rewrite <- Nat.Div0.add_mod_idemp_l. }
  destruct (ictx_padded c P salt Hc) as (ic & ipad & Hic & Hib & Hin); [fold m; lia |].
  destruct (octx_padded c P salt Hc HP) as (x & oc & y & opad & Hoc & Hob & Hy & Hon).
  fold m in Hib, Hin. fold k in Hon. cbn [HMAC_SHA256_Update ictx octx]. rewrite Hic, Hoc.
  destruct Hc as [Hi Ho Hbm]. cbn [stream_repr SHA256_streaming_ok] in Hi, Ho. fold m in Hi, Hbm.
  fold k in Ho. pose proof (repr_count _ _ Hi) as Hn.
  pose proof (SHA256_Update_repr _ _ [0; 0; 0; 0] Hi ltac:(by forall_words)) as Hz.
  rewrite (repr_count _ _ Hz), Hn, !count_masked.
  assert (length m mod 64 < 64)%nat by (apply Nat.mod_upper_bound; lia).
  rewrite u32_small by (unfold word; lia).
  rewrite length_app, nofill_mod by (cbn [length]; lia).
  rewrite (proj2 (Z.ltb_ge _ _)) by lia. cbn [negb Z.eqb].
  rewrite Nat2Z.inj_mul, Z.mul_comm, Z.shiftr_div_pow2, Z.div_mul, Nat2Z.id by lia.
  pose proof (length_rest 64 ltac:(lia) m) as Hl. rewrite <- Hl.
  rewrite <- pbkdf2_blocks by (intros; by apply pbkdf2_F_length). rewrite Hib, Hob.
  set (body := fun (i : nat) (a : list Z * list Z * list Z) => _).
  pose proof (blocks_loop_sim (fun a b => exists iv d, a = (rest 64 m ++ iv ++ ipad, d ++ opad, b)
    /\ length iv = 4%nat /\ length d = 32%nat) body
    (fun i buf' => write_at (i * 32) (take (if (32 <? length buf - i * 32)%nat then 32
       else length buf - i * 32) (Rfc2898.F (hmac_sha256 P) salt 1 (S i))) buf')
    (length buf) 0 (length buf) (rest 64 m ++ [0; 0; 0; 0] ++ ipad, y ++ opad, buf) buf) as Hsim.
  destruct Hsim as (iv & d & -> & _); [| by exists [0; 0; 0; 0], y | done].
  intros i ? b Hlt (iv & d & -> & Hiv & Hd). unfold body.
  rewrite INT_spec, write_at_middle by (rewrite Hiv; apply length_be_bytes).
  rewrite Hin by (apply bytes_be_bytes || apply length_be_bytes).
  set (inner := absorb_all _ _ _ (m ++ _)).
  destruct (single_block P salt m k (be32enc_vect inner 4) (S i) inner
    (SHA256_Transform (ctx_state oc) (be32enc_vect inner 4 ++ opad))) as [Hd1 Hd2]; try done.
  destruct (sha256_digest_ok (m ++ Rfc2898.INT (S i))) as [Hbo Hlo];
    [apply bytes_app; [done | apply bytes_be_bytes] |]. rewrite <- Hd1 in Hbo, Hlo.
  pose proof (write_at_middle [] (be32enc_vect inner 4) d opad ltac:(congruence)) as Hw.
  cbn [app length] in Hw. rewrite Hw, Hd2; [| done | apply (repr_bytes _ _ Ho) | by apply Hon].
  exists (Rfc2898.INT (S i)), (be32enc_vect inner 4). split; [| by rewrite Hlo].
  do 2 f_equal. symmetry. apply take_ge. rewrite pbkdf2_F_length by done.
  pose proof (Nat.div_mod_eq (length buf) 32). destruct (Nat.ltb_spec 32 (length buf - i * 32)); lia.
Qed.

Lemma PBKDF2_SHA256_eq P salt c buf :
  bytes P -> bytes salt -> word 64 c -> Z.of_nat (length buf) <= 32 * 0xffffffff ->
  PBKDF2_SHA256 P salt c buf
  = Some (Rfc2898.pbkdf2 (hmac_sha256 P) 32 salt (Z.to_nat c) (length buf)).
Proof.
  intros HP Hs Hc Hl. unfold PBKDF2_SHA256. rewrite (proj2 (Z.ltb_ge _ _)) by lia.
  destruct (_ && _) eqn:Hcond; [| by rewrite PBKDF2_generic_spec].
  apply andb_true_iff in Hcond as [[Hc1 Hdk]%andb_true_iff Hsl].
  apply Z.eqb_eq in Hc1 as ->. apply Z.eqb_eq in Hdk. apply Z.leb_le in Hsl.
  change 31 with (Z.ones 5) in Hdk. change 63 with (Z.ones 6) in Hsl.
  rewrite Z.land_ones in Hdk, Hsl by lia.
  rewrite PBKDF2_single_spec; [done | done | done | |].
  - apply Nat2Z.inj. rewrite Nat2Z.inj_mod. exact Hdk.
  - apply Nat2Z.inj_le. rewrite Nat2Z.inj_mod. exact Hsl.
Qed.

(** C6: PBKDF2-HMAC-SHA256, on both of its paths, fills the output buffer
    with the RFC 2898 key; a count of 0 is treated as 1. *)
Theorem PBKDF2_SHA256_spec P salt c buf :
  bytes P -> bytes salt -> word 64 c -> Z.of_nat (length buf) <= 32 * 0xffffffff ->
  PBKDF2_SHA256 P salt c buf
  = Some (Rfc2898.pbkdf2 (hmac_sha256 P) 32 salt (Z.to_nat c) (length buf)).
Proof. apply PBKDF2_SHA256_eq. Qed.

Lemma PBKDF2_SHA256_spec_witness :
  PBKDF2_SHA256 [112; 119] [115; 97; 108; 116] 1 (replicate 64 0)
  = Some (Rfc2898.pbkdf2 (hmac_sha256 [112; 119]) 32 [115; 97; 108; 116] 1 64) /\
  PBKDF2_SHA256 [112; 119] [115; 97; 108; 116] 3 (replicate 33 0)
  = Some (Rfc2898.pbkdf2 (hmac_sha256 [112; 119]) 32 [115; 97; 108; 116] 3 33).
Proof.
  split.
  - apply (PBKDF2_SHA256_spec [112; 119] [115; 97; 108; 116] 1 (replicate 64 0));
      try (apply (bool_decide_unpack _); by vm_compute).
  - apply (PBKDF2_SHA256_spec [112; 119] [115; 97; 108; 116] 3 (replicate 33 0));
      try (apply (bool_decide_unpack _); by vm_compute).
Defined.

(** The first half of the RFC 7914 test vector ("passwd", "salt", 1, 64). *)
Example PBKDF2_passwd_salt :
  option_map (fun buf => be_word (take 32 buf))
    (PBKDF2_SHA256 [112; 97; 115; 115; 119; 100] [115; 97; 108; 116] 1 (replicate 64 0))
  = Some 0x55ac046e56e3089fec1691c22544b605f94185216dde0465e68b9d57c20dacbc.
Proof. by vm_compute. Qed.

(** One iteration yields the bytes asked for. *)
Lemma pbkdf2_once_ok P salt n :
  bytes P -> bytes salt ->
  bytes (Rfc2898.pbkdf2 (hmac_sha256 P) 32 salt 1 n) /\
  length (Rfc2898.pbkdf2 (hmac_sha256 P) 32 salt 1 n) = n.
Proof.
  intros HP Hs. unfold Rfc2898.pbkdf2.
  assert (HF : forall i, bytes (Rfc2898.F (hmac_sha256 P) salt 1 i) /\
    length (Rfc2898.F (hmac_sha256 P) salt 1 i) = 32%nat).
  { intros i. apply hmac_digest_ok; [done |]. apply bytes_app; [done | apply bytes_be_bytes]. }
  set (k := ((n + 32 - 1) / 32)%nat).
  assert (Hc : forall l, bytes (concat (map (Rfc2898.F (hmac_sha256 P) salt 1) l)) /\
    length (concat (map (Rfc2898.F (hmac_sha256 P) salt 1) l)) = (32 * length l)%nat).
  { induction l as [| i l [IHb IHl]]; [by split; [constructor |] |]. cbn [map concat length].
    destruct (HF i) as [Hb Hl]. rewrite length_app, IHl, Hl. split; [by apply bytes_app | lia]. }
  destruct (Hc (seq 1 k)) as [Hb Hl]. split; [by apply Forall_take |].
  rewrite length_take, Hl, length_seq. unfold k.
  pose proof (Nat.div_mod_eq (n + 32 - 1) 32). pose proof (Nat.mod_upper_bound (n + 32 - 1) 32). lia.
Qed.
