(* ===== verification/KeccakP.v ===== *)
(** * Keccak-p[1600]: [xmrig/crypto/randomx/panthera/KeccakP-1600-reference.c]

    The permutation on 200-byte states and the byte-level accessors of its
    SnP interface.  A failed [assert] is [None].  The step mappings are the
    in-place double loops of the file; they are proved to compute the lane
    equations of FIPS 202 ([Module Fips202]), and the tables of the default
    build are proved to be the ones the [KeccakReference] build generates. *)

From S2P Require Import Prelude Endian.

(** ** The code *)

Definition maxNrRounds : nat := 24.
Definition nrLanes : nat := 25.
Definition index (x y : nat) : nat := (x mod 5 + 5 * (y mod 5))%nat.

(** [for(x=0; x<5; x++) for(y=0; y<5; y++)] and [for(y..) for(x..)]. *)
Definition loop_xy : list (nat * nat) := list_prod (seq 0 5) (seq 0 5).

(** The result bit and the next state of the shift register. *)
Definition LFSR86540 (LFSR : Z) : bool * Z :=
  (negb (Z.land LFSR 0x01 =? 0),
   if negb (Z.land LFSR 0x80 =? 0) then u8 (Z.lxor (Z.shiftl LFSR 1) 0x71)
   else u8 (Z.shiftl LFSR 1)).

Definition InitializeRoundConstants : list Z :=
  fst (fold_left (fun '(constants, lfsr) (_ : nat) =>
    let '(c, lfsr) := fold_left (fun '(c, lfsr) j =>
      let bitPosition := Z.shiftl 1 (Z.of_nat j) - 1 in
      let '(bit, lfsr) := LFSR86540 lfsr in
      (if bit then Z.lxor c (Z.shiftl 1 bitPosition) else c, lfsr)) (seq 0 7) (0, lfsr) in
    (constants ++ [c], lfsr)) (seq 0 maxNrRounds) ([], 0x01)).

Definition InitializeRhoOffsets : list Z :=
  let offsets := <[index 0 0 := 0]> (replicate nrLanes 0) in
  let '(offsets, _, _) := fold_left (fun '(offsets, x, y) t =>
    let offsets := <[index x y := Z.of_nat (((t + 1) * (t + 2) / 2) mod 64)]> offsets in
    (offsets, ((0 * x + 1 * y) mod 5)%nat, ((2 * x + 3 * y) mod 5)%nat))
    (seq 0 24) (offsets, 1%nat, 0%nat) in
  offsets.

Definition KeccakRoundConstants : list Z := [
  0x0000000000000001; 0x0000000000008082; 0x800000000000808A; 0x8000000080008000;
  0x000000000000808B; 0x0000000080000001; 0x8000000080008081; 0x8000000000008009;
  0x000000000000008A; 0x0000000000000088; 0x0000000080008009; 0x000000008000000A;
  0x000000008000808B; 0x800000000000008B; 0x8000000000008089; 0x8000000000008003;
  0x8000000000008002; 0x8000000000000080; 0x000000000000800A; 0x800000008000000A;
  0x8000000080008081; 0x8000000000008080; 0x0000000080000001; 0x8000000080008008 ].

Definition KeccakRhoOffsets : list Z :=
  [ 0;  1; 62; 28; 27; 36; 44;  6; 55; 20;  3; 10; 43; 25; 39; 41; 45; 15; 21;  8; 18;  2;
    61; 56; 14 ].

Definition ROL64 (a offset : Z) : Z :=
  if negb (offset =? 0) then Z.lxor (u64 (Z.shiftl a offset)) (Z.shiftr a (64 - offset)) else a.

Definition theta (A : list Z) : list Z :=
  let C := map (fun x => fold_left (fun c y => Z.lxor c A.[index x y]) (seq 0 5) 0) (seq 0 5) in
  let D := map (fun x => Z.lxor (ROL64 C.[(x + 1) mod 5] 1) C.[(x + 4) mod 5]) (seq 0 5) in
  fold_left (fun A '(x, y) => <[index x y := Z.lxor A.[index x y] D.[x]]> A) loop_xy A.

Definition rho (A : list Z) : list Z :=
  fold_left (fun A '(x, y) =>
    <[index x y := ROL64 A.[index x y] KeccakRhoOffsets.[index x y]]> A) loop_xy A.

Definition pi (A : list Z) : list Z :=
  let tempA := fold_left (fun tempA '(x, y) => <[index x y := A.[index x y]]> tempA)
    loop_xy (replicate 25 0) in
  fold_left (fun A '(x, y) =>
    <[index (0 * x + 1 * y) (2 * x + 3 * y) := tempA.[index x y]]> A) loop_xy A.

Definition chi (A : list Z) : list Z :=
  fold_left (fun A y =>
    let C := map (fun x => Z.lxor A.[index x y]
      (Z.land (not64 A.[index (x + 1) y]) A.[index (x + 2) y])) (seq 0 5) in
    fold_left (fun A x => <[index x y := C.[x]]> A) (seq 0 5) A) (seq 0 5) A.

Definition iota (A : list Z) (indexRound : nat) : list Z :=
  <[index 0 0 := Z.lxor A.[index 0 0] KeccakRoundConstants.[indexRound]]> A.

Definition KeccakP1600Round (state : list Z) (indexRound : nat) : list Z :=
  iota (chi (pi (rho (theta state)))) indexRound.

(** [unsigned int] loop bounds: [24 - nrRounds] wraps for more than 24 rounds. *)
Definition KeccakP1600OnWords (state : list Z) (nrRounds : Z) : list Z :=
  let i0 := u32 (24 - nrRounds) in
  if i0 <? 24 then
    fold_left KeccakP1600Round (seq (Z.to_nat i0) (maxNrRounds - Z.to_nat i0)) state
  else state.

(** The 200 bytes seen as 25 little-endian lanes and back: the pointer cast of
    a little-endian platform, [fromBytesToWords]/[fromWordsToBytes] otherwise. *)
Definition lanes (state : list Z) : list Z := map le_word (pieces 8 25 state).
Definition lane_bytes (A : list Z) : list Z := concat (map (le_bytes 8) A).

Definition KeccakP1600_Permute_Nrounds (nrounds : Z) (state : list Z) : list Z :=
  lane_bytes (KeccakP1600OnWords (lanes state) nrounds).
Definition KeccakP1600_Permute_12rounds (state : list Z) : list Z :=
  lane_bytes (KeccakP1600OnWords (lanes state) 12).
Definition KeccakP1600_Permute_24rounds (state : list Z) : list Z :=
  lane_bytes (KeccakP1600OnWords (lanes state) 24).

Definition KeccakP1600_Initialize : list Z := replicate (1600 / 8) 0.

Definition KeccakP1600_AddByte (state : list Z) (byte : Z) (offset : nat) : option (list Z) :=
  if (offset <? 200)%nat then Some (<[offset := Z.lxor state.[offset] byte]> state) else None.

Definition KeccakP1600_AddBytes (state data : list Z) (offset length : nat) :
  option (list Z) :=
  if (offset <? 200)%nat && (offset + length <=? 200)%nat then
    Some (fold_left (fun state i =>
      <[(offset + i)%nat := Z.lxor state.[offset + i] data.[i]]> state) (seq 0 length) state)
  else None.

Definition KeccakP1600_OverwriteBytes (state data : list Z) (offset length : nat) :
  option (list Z) :=
  if (offset <? 200)%nat && (offset + length <=? 200)%nat then
    Some (write_at offset (take length data) state)
  else None.

Definition KeccakP1600_OverwriteWithZeroes (state : list Z) (byteCount : nat) :
  option (list Z) :=
  if (byteCount <=? 200)%nat then Some (write_at 0 (replicate byteCount 0) state) else None.

Definition KeccakP1600_ExtractBytes (state : list Z) (offset length : nat) : option (list Z) :=
  if (offset <? 200)%nat && (offset + length <=? 200)%nat then
    Some (take length (drop offset state))
  else None.

Definition KeccakP1600_ExtractAndAddBytes (state input : list Z) (offset length : nat) :
  option (list Z) :=
  if (offset <? 200)%nat && (offset + length <=? 200)%nat then
    Some (map (fun i => Z.lxor input.[i] state.[offset + i]) (seq 0 length))
  else None.

(** ** FIPS 202 *)

Module Fips202.
(** The state array by lanes. *)
Definition build (f : nat -> nat -> Z) : list Z :=
  map (fun i => f (i mod 5) (i / 5))%nat (seq 0 25).
Definition lane (A : list Z) (x y : nat) : Z := A.[x mod 5 + 5 * (y mod 5)].

Definition column (A : list Z) (x : nat) : Z :=
  Z.lxor (Z.lxor (Z.lxor (Z.lxor (lane A x 0) (lane A x 1)) (lane A x 2)) (lane A x 3))
    (lane A x 4).
Definition theta (A : list Z) : list Z :=
  build (fun x y => Z.lxor (lane A x y) (Z.lxor (rotl64 (column A (x + 1)) 1) (column A (x + 4)))).

(** Rotation offsets: the walk (x, y) -> (y, 2x + 3y) visits lane [t + 1] at
    step [t], with the triangular number as its offset. *)
Fixpoint walk (t : nat) : nat * nat :=
  match t with
  | O => (1, 0)
  | S t => let '(x, y) := walk t in (y, (2 * x + 3 * y) mod 5)
  end%nat.
Definition offset (x y : nat) : Z :=
  match find (fun t => bool_decide (walk t = (x, y))) (seq 0 24) with
  | Some t => (Z.of_nat (t + 1) * Z.of_nat (t + 2) / 2) mod 64
  | None => 0
  end.
Definition rho (A : list Z) : list Z :=
  build (fun x y => if offset x y =? 0 then lane A x y else rotl64 (lane A x y) (offset x y)).
Definition pi (A : list Z) : list Z := build (fun x y => lane A (x + 3 * y) x).
Definition chi (A : list Z) : list Z :=
  build (fun x y => Z.lxor (lane A x y) (Z.land (not64 (lane A (x + 1) y)) (lane A (x + 2) y))).

(** The round constants from the shift register with feedback polynomial
    x^8 + x^6 + x^5 + x^4 + 1, bit 8 of [R] being the register's overflow. *)
Definition rc_step (R : Z) : Z :=
  let R := Z.shiftl R 1 in if Z.testbit R 8 then Z.lxor R 0x171 else R.
Definition rc (t : nat) : bool := Z.testbit (Nat.iter t rc_step 1) 0.
Definition RC (ir : nat) : Z :=
  fold_left (fun c j => if rc (j + 7 * ir) then Z.setbit c (2 ^ Z.of_nat j - 1) else c) (seq 0 7) 0.
Definition iota (A : list Z) (ir : nat) : list Z :=
  build (fun x y => if decide (x = 0 /\ y = 0)%nat then Z.lxor (lane A x y) (RC ir) else lane A x y).

Definition round (A : list Z) (ir : nat) : list Z := iota (chi (pi (rho (theta A)))) ir.
(** Keccak-p[1600, nr]: the last [nr] of the 24 rounds. *)
Definition keccak_p (nr : nat) (A : list Z) : list Z := fold_left round (seq (24 - nr) nr) A.
End Fips202.

(** ** The step mappings *)

Lemma ROL64_rotl64 a n : 0 < n < 64 -> word 64 a -> ROL64 a n = rotl64 a n.
Proof.
  intros Hn Ha. unfold ROL64, rotl64. rewrite (proj2 (Z.eqb_neq _ _)) by lia. cbn [negb].
  apply Z.lxor_lor. apply Z.bits_inj'. intros i Hi. rewrite Z.land_spec, Z.bits_0, u64_mod.
  destruct (decide (i < 64)).
  - rewrite Z.mod_pow2_bits_low, Z.shiftl_spec, Z.shiftr_spec by lia. destruct (decide (i < n)).
    + by rewrite Z.testbit_neg_r by lia.
    + by rewrite (word_testbit 64 a (i + _)), andb_false_r by (done || lia).
  - by rewrite Z.mod_pow2_bits_high by lia.
Qed.

Definition state25 (A : list Z) : Prop := length A = 25%nat /\ Forall (word 64) A.

Lemma build_ext f g :
  (forall x y, (x < 5)%nat -> (y < 5)%nat -> f x y = g x y) ->
  Fips202.build f = Fips202.build g.
Proof.
  intros Hfg. unfold Fips202.build. apply map_ext_in. intros i Hi%in_seq.
  apply Hfg; [apply Nat.mod_upper_bound; lia | apply Nat.Div0.div_lt_upper_bound; lia].
Qed.

Lemma build_state25 f :
  (forall x y, (x < 5)%nat -> (y < 5)%nat -> word 64 (f x y)) -> state25 (Fips202.build f).
Proof.
  intros Hf. split; [done |]. unfold Fips202.build. apply Forall_map, List.Forall_forall.
  intros i Hi%in_seq. apply Hf; [apply Nat.mod_upper_bound; lia |].
  apply Nat.Div0.div_lt_upper_bound. lia.
Qed.

Lemma lane_word A x y : state25 A -> word 64 (Fips202.lane A x y).
Proof. intros [_ HA]. unfold Fips202.lane. auto with words. Qed.
#[export] Hint Resolve lane_word rotl64_word not64_word : words.

Lemma column_word A x : state25 A -> word 64 (Fips202.column A x).
Proof. intros. unfold Fips202.column. auto 10 with words. Qed.

Lemma column_mod A x : Fips202.column A x = Fips202.column A (x mod 5).
Proof. unfold Fips202.column, Fips202.lane. by rewrite !Nat.Div0.mod_mod. Qed.

(** The double loop that rewrites every lane in place. *)
Lemma inplace_loop g A :
  length A = 25%nat ->
  fold_left (fun A '(x, y) => <[index x y := g x y A.[index x y]]> A) loop_xy A
  = Fips202.build (fun x y => g x y (Fips202.lane A x y)).
Proof.
  intros Hl. do 25 (destruct A as [| ? A]; [done |]). destruct A; [| done]. reflexivity.
Qed.

Lemma theta_spec A : state25 A -> theta A = Fips202.theta A.
Proof.
  intros HA. unfold theta. rewrite (inplace_loop (fun x _ a => Z.lxor a _)) by apply HA.
  unfold Fips202.theta. apply build_ext. intros x y Hx Hy. f_equal.
  assert (Hc : forall x, fold_left (fun c y => Z.lxor c A.[index x y]) (seq 0 5) 0
    = Fips202.column A x) by (intros; cbn [fold_left seq]; by rewrite Z.lxor_0_l).
  rewrite <- (ROL64_rotl64 _ 1) by (lia || by apply column_word).
  rewrite (column_mod _ (x + 1)), (column_mod _ (x + 4)), <- !Hc.
  do 5 (destruct x as [| x]; [done |]). lia.
Qed.

Lemma offset_table x y :
  (x < 5)%nat -> (y < 5)%nat -> KeccakRhoOffsets.[index x y] = Fips202.offset x y.
Proof.
  intros Hx Hy. do 5 (destruct x as [| x]; [do 5 (destruct y as [| y]; [by vm_compute |]); lia |]).
  lia.
Qed.

Lemma offset_range x y : 0 <= Fips202.offset x y < 64.
Proof.
  unfold Fips202.offset. destruct (find _ _); [apply Z.mod_pos_bound; lia | lia].
Qed.

Lemma rho_spec A : state25 A -> rho A = Fips202.rho A.
Proof.
  intros HA. unfold rho. rewrite (inplace_loop (fun x y a => ROL64 a _)) by apply HA.
  apply build_ext. intros x y Hx Hy. rewrite offset_table by done.
  pose proof (offset_range x y). destruct (Z.eqb_spec (Fips202.offset x y) 0) as [-> |]; [done |].
  apply ROL64_rotl64; [lia | auto with words].
Qed.

Lemma pi_spec A : state25 A -> pi A = Fips202.pi A.
Proof.
  intros [Hl _]. do 25 (destruct A as [| ? A]; [done |]). destruct A; [| done]. reflexivity.
Qed.

Lemma chi_spec A : state25 A -> chi A = Fips202.chi A.
Proof.
  intros [Hl _]. do 25 (destruct A as [| ? A]; [done |]). destruct A; [| done].
  unfold chi, Fips202.chi. generalize (fun a b c => Z.lxor a (Z.land (not64 b) c)).
  unfold Fips202.lane. generalize Z.lxor Z.land not64. intros lx la n. reflexivity.
Qed.

Lemma RC_table ir : (ir < 24)%nat -> KeccakRoundConstants.[ir] = Fips202.RC ir.
Proof. intros Hir. do 24 (destruct ir as [| ir]; [by vm_compute |]). lia. Qed.

Lemma iota_spec A ir : state25 A -> (ir < 24)%nat -> iota A ir = Fips202.iota A ir.
Proof.
  intros [Hl _] Hir. unfold iota. rewrite RC_table by done. unfold Fips202.iota.
  generalize (Fips202.RC ir). intros c.
  do 25 (destruct A as [| ? A]; [done |]). destruct A; [| done]. reflexivity.
Qed.

Lemma RC_word ir : (ir < 24)%nat -> word 64 (Fips202.RC ir).
Proof.
  intros Hir. rewrite <- RC_table by done. apply word_nth; [lia |].
  apply (bool_decide_unpack _). by vm_compute.
Qed.

Lemma theta_state25 A : state25 A -> state25 (Fips202.theta A).
Proof. intros. apply build_state25. intros. pose proof (column_word A). auto 10 with words lia. Qed.

Lemma rho_state25 A : state25 A -> state25 (Fips202.rho A).
Proof.
  intros. apply build_state25. intros x y _ _. pose proof (offset_range x y).
  destruct (_ =? 0); auto 10 with words lia.
Qed.

Lemma pi_state25 A : state25 A -> state25 (Fips202.pi A).
Proof. intros. apply build_state25. auto with words. Qed.

Lemma chi_state25 A : state25 A -> state25 (Fips202.chi A).
Proof.
  intros. apply build_state25. intros. apply word_lxor; [lia | auto with words |].
  apply word_land; [lia | auto with words |]. by apply lane_word.
Qed.

Lemma iota_state25 A ir : state25 A -> (ir < 24)%nat -> state25 (Fips202.iota A ir).
Proof.
  intros HA Hir. pose proof (RC_word ir Hir). apply build_state25. intros.
  destruct (decide _); auto with words.
Qed.

#[export] Hint Resolve theta_state25 rho_state25 pi_state25 chi_state25 iota_state25 : words.

Lemma Round_spec A ir :
  state25 A -> (ir < 24)%nat ->
  KeccakP1600Round A ir = Fips202.round A ir /\ state25 (Fips202.round A ir).
Proof.
  intros HA Hir. unfold KeccakP1600Round, Fips202.round. split; [| auto 10 with words].
  by rewrite theta_spec, rho_spec, pi_spec, chi_spec, iota_spec by auto 10 with words.
Qed.

Lemma Rounds_spec l A :
  state25 A -> Forall (fun ir => ir < 24)%nat l ->
  fold_left KeccakP1600Round l A = fold_left Fips202.round l A /\
  state25 (fold_left Fips202.round l A).
Proof.
  intros HA Hl. by apply (fold_left_agree state25 (fun ir => ir < 24)%nat); [apply Round_spec | |].
Qed.

Lemma OnWords_spec A nr :
  state25 A -> (nr <= 24)%nat ->
  KeccakP1600OnWords A (Z.of_nat nr) = Fips202.keccak_p nr A /\ state25 (Fips202.keccak_p nr A).
Proof.
  intros HA Hnr. unfold KeccakP1600OnWords. rewrite u32_small by (unfold word; lia).
  replace (Z.to_nat (24 - Z.of_nat nr)) with (24 - nr)%nat by lia.
  assert (Hs : Forall (fun ir => ir < 24)%nat (seq (24 - nr) nr))
    by (apply List.Forall_forall; intros ir Hir%in_seq; lia).
  destruct (Rounds_spec _ A HA Hs) as [He Hst].
  destruct (Z.ltb_spec (24 - Z.of_nat nr) 24) as [Hlt | Hge].
  - unfold maxNrRounds. replace (24 - (24 - nr))%nat with nr by lia. done.
  - replace nr with 0%nat in * by lia. done.
Qed.

(** ** States of bytes *)

Definition state200 (s : list Z) : Prop := buffer 200 s.

Lemma lanes_state25 s : state200 s -> state25 (lanes s).
Proof.
  intros [Hl Hb]. unfold lanes. split; [by rewrite length_map, length_pieces |].
  apply Forall_map. eapply List.Forall_impl; [| apply (pieces_Forall 8 25 s); [done | lia]].
  intros p [Hp Hn]. pose proof (le_word_range p Hp) as Hr. by rewrite Hn in Hr.
Qed.

Lemma lane_bytes_state200 A : length A = 25%nat -> state200 (lane_bytes A).
Proof.
  intros Hl. split; [unfold lane_bytes; by rewrite length_concat_le, Hl | apply bytes_concat_le].
Qed.

Lemma pieces_concat_le n l :
  pieces n (length l) (concat (map (le_bytes n) l)) = map (le_bytes n) l.
Proof.
  induction l as [| x l IH]; [done |]. cbn [map concat length pieces].
  rewrite take_app_length' by by rewrite length_le_bytes.
  rewrite drop_app_length' by by rewrite length_le_bytes. by rewrite IH.
Qed.

(** The two views of a state are inverse to each other. *)
Lemma lanes_lane_bytes A : state25 A -> lanes (lane_bytes A) = A.
Proof.
  intros [Hl HA]. unfold lanes, lane_bytes. rewrite <- Hl, pieces_concat_le, map_map. clear Hl.
  induction HA as [| x A Hx _ IH]; [done |]. cbn [map].
  rewrite IH, le_word_le_bytes. f_equal. by apply Z.mod_small.
Qed.

Lemma lane_bytes_lanes s : state200 s -> lane_bytes (lanes s) = s.
Proof.
  intros [Hl Hb]. unfold lanes, lane_bytes. rewrite map_map.
  rewrite <- (concat_pieces 8 25 s) at 2 by lia. f_equal.
  pose proof (pieces_Forall 8 25 s Hb ltac:(lia)) as Hp.
  rewrite <- map_id. apply map_ext_in. intros p Hin.
  rewrite List.Forall_forall in Hp. destruct (Hp p Hin) as [Hpb Hpl].
  rewrite <- Hpl. by apply le_bytes_le_word.
Qed.

Lemma OnWords_bytes n s :
  state200 s -> 0 <= n <= 24 -> state200 (lane_bytes (KeccakP1600OnWords (lanes s) n)).
Proof.
  intros Hs Hn. apply lane_bytes_state200. rewrite <- (Z2Nat.id n) by lia.
  destruct (OnWords_spec _ (Z.to_nat n) (lanes_state25 s Hs)) as [-> [Hl _]]; [lia | done].
Qed.

Lemma Permute_state200 nr s : state200 s -> (nr <= 24)%nat ->
  state200 (KeccakP1600_Permute_Nrounds (Z.of_nat nr) s).
Proof. intros. apply OnWords_bytes; [done | lia]. Qed.

(** C12: the permutation on the 200 bytes is Keccak-p[1600, nr] of FIPS 202 on
    the little-endian lanes, for up to 24 rounds; the result is again a state
    of 200 bytes. *)
Theorem Permute_Nrounds_fips202 nr s :
  state200 s -> (nr <= 24)%nat ->
  lanes (KeccakP1600_Permute_Nrounds (Z.of_nat nr) s) = Fips202.keccak_p nr (lanes s) /\
  state200 (KeccakP1600_Permute_Nrounds (Z.of_nat nr) s).
Proof.
  intros Hs Hnr. split; [| by apply Permute_state200].
  destruct (OnWords_spec _ nr (lanes_state25 s Hs) Hnr) as [He Hst].
  unfold KeccakP1600_Permute_Nrounds. rewrite He. by apply lanes_lane_bytes.
Qed.

Lemma Permute_Nrounds_fips202_witness :
  lanes (KeccakP1600_Permute_Nrounds (Z.of_nat 12) (replicate 200 1))
    = Fips202.keccak_p 12 (lanes (replicate 200 1)) /\
  state200 (KeccakP1600_Permute_Nrounds (Z.of_nat 12) (replicate 200 1)).
Proof.
  apply (Permute_Nrounds_fips202 12 (replicate 200 1)); [| lia].
  split; [done | by apply bytes_replicate].
Defined.

(** the constants of the default build are the ones the [KeccakReference]
    build computes with its shift register and its walk over the lanes. *)
Theorem Keccak_tables :
  InitializeRoundConstants = KeccakRoundConstants /\ InitializeRhoOffsets = KeccakRhoOffsets.
Proof. split; by vm_compute. Qed.

(** Keccak-f[1600] of the all-zero state, as published. *)
Example Keccak_f_zero :
  take 3 (lanes (KeccakP1600_Permute_24rounds KeccakP1600_Initialize))
  = [0xF1258F7940E1DDE7; 0x84D5CCF933C0478A; 0xD598261EA65AA9EE].
Proof. by vm_compute. Qed.

(** ** Byte access *)

Lemma nth_xor_at off n (s d : list Z) i :
  (off + n <= length s)%nat ->
  let s' := fold_left (fun s i => <[(off + i)%nat := Z.lxor s.[off + i] d.[i]]> s) (seq 0 n) s in
  length s' = length s /\
  s'.[i] = if (off <=? i)%nat && (i <? off + n)%nat then Z.lxor s.[i] d.[i - off] else s.[i].
Proof.
  intros Hn. cbv zeta. induction n as [| n IH].
  - split; [done |]. cbn [seq fold_left].
    destruct (Nat.leb_spec off i), (Nat.ltb_spec i (off + 0)); (done || lia).
  - rewrite seq_S, fold_left_app. cbn [fold_left plus]. destruct IH as [IHl IH]; [lia |].
    set (s1 := fold_left _ _ s) in *. split; [by rewrite length_insert |].
    destruct (decide (i = off + n)%nat) as [-> |].
    + rewrite nth_insert_eq by lia. rewrite IH.
      rewrite (proj2 (Nat.leb_le _ _)), (proj2 (Nat.ltb_ge _ _)),
        (proj2 (Nat.ltb_lt _ (_ + S n))) by lia. cbn [andb]. do 2 f_equal. lia.
    + rewrite nth_insert_ne, IH by done.
      destruct (Nat.leb_spec off i), (Nat.ltb_spec i (off + n)), (Nat.ltb_spec i (off + S n));
        (done || lia).
Qed.

(** The bytes [d] added into the state from [off] on. *)
Definition xor_at (off : nat) (d s : list Z) : list Z :=
  fold_left (fun s i => <[(off + i)%nat := Z.lxor s.[off + i] d.[i]]> s) (seq 0 (length d)) s.

Lemma length_xor_at off d s : (off + length d <= length s)%nat -> length (xor_at off d s) = length s.
Proof. intros Hl. by apply (nth_xor_at off (length d) s d 0). Qed.

Lemma nth_xor_at_in off d s i :
  (off + length d <= length s)%nat -> (xor_at off d s).[i]
  = if (off <=? i)%nat && (i <? off + length d)%nat then Z.lxor s.[i] d.[i - off] else s.[i].
Proof. intros Hl. by apply (nth_xor_at off (length d) s d i). Qed.

Lemma xor_at_nil off s : xor_at off [] s = s.
Proof. done. Qed.

Ltac xor_at_cases :=
  repeat match goal with
  | |- context [(?a <=? ?b)%nat] => destruct (Nat.leb_spec a b)
  | |- context [(?a <? ?b)%nat] => destruct (Nat.ltb_spec a b)
  end; cbn [andb]; try lia.

Lemma nth_xor_at_1 off b s i :
  (off < length s)%nat ->
  (xor_at off [b] s).[i] = if (i =? off)%nat then Z.lxor s.[i] b else s.[i].
Proof.
  intros Hl. rewrite nth_xor_at_in by (cbn; lia). cbn [length].
  destruct (Nat.eqb_spec i off) as [-> |]; xor_at_cases; try done.
  by rewrite Nat.sub_diag.
Qed.

Lemma xor_at_app off d e s :
  (off + length (d ++ e) <= length s)%nat ->
  xor_at (off + length d) e (xor_at off d s) = xor_at off (d ++ e) s.
Proof.
  rewrite length_app. intros Hl. apply nth_ext_Z.
  - rewrite !length_xor_at; rewrite ?length_xor_at, ?length_app; lia.
  - intros i _. rewrite !nth_xor_at_in by (rewrite ?length_xor_at, ?length_app; lia).
    rewrite length_app. xor_at_cases; try done.
    + rewrite app_nth2 by lia. do 2 f_equal. lia.
    + by rewrite app_nth1 by lia.
Qed.

Lemma xor_at_zeroes off n s :
  (off + n <= length s)%nat -> xor_at off (replicate n 0) s = s.
Proof.
  intros Hl. apply nth_ext_Z.
  - rewrite length_xor_at; rewrite ?length_replicate; lia.
  - intros i _. rewrite nth_xor_at_in by (rewrite length_replicate; lia).
    rewrite nth_zeroes, Z.lxor_0_r. by destruct (_ && _).
Qed.

Lemma bytes_xor_at off d s :
  bytes s -> bytes d -> (off + length d <= length s)%nat -> bytes (xor_at off d s).
Proof.
  intros Hs Hd Ho. apply Forall_nth_Z. intros i _. rewrite nth_xor_at_in by lia.
  destruct (_ && _); auto with words.
Qed.

Lemma xor_at_state200 off d s :
  state200 s -> bytes d -> (off + length d <= 200)%nat -> state200 (xor_at off d s).
Proof.
  intros [Hl Hb] Hd Ho. split; [rewrite length_xor_at; lia |]. apply bytes_xor_at; (done || lia).
Qed.

Lemma AddBytes_spec s d off n :
  length s = 200%nat -> (off < 200)%nat -> (off + n <= 200)%nat -> (n <= length d)%nat ->
  KeccakP1600_AddBytes s d off n = Some (xor_at off (take n d) s).
Proof.
  intros Hl Ho Hn Hd. unfold KeccakP1600_AddBytes.
  rewrite (proj2 (Nat.ltb_lt _ _)), (proj2 (Nat.leb_le _ _)) by lia. cbn [andb]. f_equal.
  assert (Ht : length (take n d) = n) by (rewrite length_take; lia).
  assert (Hlen := nth_xor_at off n s d 0 ltac:(lia)). cbv zeta in Hlen.
  apply nth_ext_Z.
  - rewrite length_xor_at by lia. apply Hlen.
  - intros i _. rewrite nth_xor_at_in by lia.
    destruct (nth_xor_at off n s d i ltac:(lia)) as [_ ->]. rewrite Ht. xor_at_cases; try done.
    by rewrite nth_take_Z by lia.
Qed.

Lemma AddByte_xor_at s b off :
  (off < 200)%nat -> KeccakP1600_AddByte s b off = Some (xor_at off [b] s).
Proof.
  intros Ho. unfold KeccakP1600_AddByte. rewrite (proj2 (Nat.ltb_lt _ _)) by done.
  unfold xor_at. cbn [length seq fold_left nth]. by rewrite Nat.add_0_r.
Qed.

Lemma ExtractBytes_spec s off n :
  (off < 200)%nat -> (off + n <= 200)%nat ->
  KeccakP1600_ExtractBytes s off n = Some (take n (drop off s)).
Proof.
  intros. unfold KeccakP1600_ExtractBytes.
  by rewrite (proj2 (Nat.ltb_lt _ _)), (proj2 (Nat.leb_le _ _)) by lia.
Qed.

(** Out-of-range accesses are the failed assertions. *)
Lemma AddBytes_out_of_range s d off n :
  (200 <= off)%nat \/ (200 < off + n)%nat -> KeccakP1600_AddBytes s d off n = None.
Proof.
  intros Ho. unfold KeccakP1600_AddBytes.
  destruct (Nat.ltb_spec off 200), (Nat.leb_spec (off + n) 200); (done || lia).
Qed.
