(* ===== verification/KeccakSponge.v ===== *)
(** * The sponge construction: [xmrig/crypto/randomx/panthera/KeccakSponge.inc]

    The file is a template: [SnP_Permute] is a macro parameter, here a section
    variable ([KeccakSpongeWidth1600.c] instantiates it with the 12- and the
    24-round permutation).  [None] is a failed [assert] of the state accessors
    or a loop that does not end.  Lengths handled by [unsigned int] variables
    are truncated as in C. *)

From S2P Require Import Prelude Endian Streaming KeccakP.

(** ** The code *)

Definition SnP_width : Z := 1600.

Record SpongeInstance := {
  state : list Z; rate : Z; byteIOIndex : Z; squeezing : bool
}.

(** [partialBlock] of the message-queue lane: [remaining = dataByteLen - i] is
    cast to [unsigned int] and compared after an [unsigned int] addition. *)
Definition partial_block (remaining byteIOIndex rateInBytes : Z) : Z :=
  let partialBlock := u32 remaining in
  if rateInBytes <? u32 (partialBlock + byteIOIndex) then u32 (rateInBytes - byteIOIndex)
  else partialBlock.

Section Template.
Context (SnP_Permute : list Z -> list Z).

(** [while (len >= rateInBytes)] / [for(j=..; j>=rateInBytes; ..)]: whole blocks. *)
Fixpoint absorb_blocks (fuel : nat) (rateInBytes : Z) (st data : list Z) :
  option (list Z * list Z) :=
  match fuel with
  | O => None
  | S fuel =>
      if rateInBytes <=? Z.of_nat (length data) then
        st ← KeccakP1600_AddBytes st data 0 (Z.to_nat rateInBytes);
        absorb_blocks fuel rateInBytes (SnP_Permute st) (drop (Z.to_nat rateInBytes) data)
      else Some (st, data)
  end.

(** [while(outputByteLen > rateInBytes)] of [Sponge]. *)
Fixpoint output_blocks (fuel : nat) (rateInBytes : Z) (st : list Z) (len : Z) (out : list Z) :
  option (list Z * Z * list Z) :=
  match fuel with
  | O => None
  | S fuel =>
      if rateInBytes <? len then
        b ← KeccakP1600_ExtractBytes st 0 (Z.to_nat rateInBytes);
        output_blocks fuel rateInBytes (SnP_Permute st) (len - rateInBytes) (out ++ b)
      else Some (st, len, out)
  end.

(** The status and the output. *)
Definition Sponge (rate capacity : Z) (input : list Z) (suffix : Z) (outputByteLen : nat) :
  option (Z * list Z) :=
  let rateInBytes := rate / 8 in
  if negb (u32 (rate + capacity) =? SnP_width) then Some (1, [])
  else if (rate <=? 0) || (SnP_width <? rate) || negb (rate mod 8 =? 0) then Some (1, [])
  else if suffix =? 0 then Some (1, [])
  else
    let st := KeccakP1600_Initialize in
    '(st, input) ← absorb_blocks (S (length input)) rateInBytes st input;
    let partialBlock := length input in
    st ← KeccakP1600_AddBytes st input 0 partialBlock;
    st ← KeccakP1600_AddByte st suffix partialBlock;
    let st := if (0x80 <=? suffix) && (Z.of_nat partialBlock =? rateInBytes - 1)
      then SnP_Permute st else st in
    st ← KeccakP1600_AddByte st 0x80 (Z.to_nat (rateInBytes - 1));
    let st := SnP_Permute st in
    '(st, len, out) ← output_blocks (S outputByteLen) rateInBytes st (Z.of_nat outputByteLen) [];
    b ← KeccakP1600_ExtractBytes st 0 (Z.to_nat (u32 len));
    Some (0, out ++ b).

Definition SpongeInitialize (instance : SpongeInstance) (rate capacity : Z) :
  Z * SpongeInstance :=
  if negb (u32 (rate + capacity) =? SnP_width) then (1, instance)
  else if (rate <=? 0) || (SnP_width <? rate) || negb (rate mod 8 =? 0) then (1, instance)
  else (0, {| state := KeccakP1600_Initialize; rate := rate; byteIOIndex := 0;
              squeezing := false |}).

(** The [while(i < dataByteLen)] loop; [data] is what [curData] points to. *)
Fixpoint absorb_loop (fuel : nat) (instance : SpongeInstance) (data : list Z) :
  option SpongeInstance :=
  let rateInBytes := instance.(rate) / 8 in
  let set st idx := {| state := st; rate := instance.(rate); byteIOIndex := idx;
                       squeezing := instance.(squeezing) |} in
  match fuel with
  | O => None
  | S fuel =>
      if (length data =? 0)%nat then Some instance
      else if (instance.(byteIOIndex) =? 0) && (rateInBytes <=? Z.of_nat (length data)) then
        '(st, data) ← absorb_blocks (S (length data)) rateInBytes instance.(state) data;
        absorb_loop fuel (set st instance.(byteIOIndex)) data
      else
        let partialBlock := partial_block (Z.of_nat (length data)) instance.(byteIOIndex)
          rateInBytes in
        st ← KeccakP1600_AddBytes instance.(state) data (Z.to_nat instance.(byteIOIndex))
          (Z.to_nat partialBlock);
        let data := drop (Z.to_nat partialBlock) data in
        let idx := u32 (instance.(byteIOIndex) + partialBlock) in
        if idx =? rateInBytes then absorb_loop fuel (set (SnP_Permute st) 0) data
        else absorb_loop fuel (set st idx) data
  end.

Definition SpongeAbsorb (instance : SpongeInstance) (data : list Z) :
  option (Z * SpongeInstance) :=
  if instance.(squeezing) then Some (1, instance)
  else instance ← absorb_loop (S (length data)) instance data; Some (0, instance).

Definition SpongeAbsorbLastFewBits (instance : SpongeInstance) (delimitedData : Z) :
  option (Z * SpongeInstance) :=
  let rateInBytes := instance.(rate) / 8 in
  if delimitedData =? 0 then Some (1, instance)
  else if instance.(squeezing) then Some (1, instance)
  else
    st ← KeccakP1600_AddByte instance.(state) delimitedData (Z.to_nat instance.(byteIOIndex));
    let st := if (0x80 <=? delimitedData) && (instance.(byteIOIndex) =? rateInBytes - 1)
      then SnP_Permute st else st in
    st ← KeccakP1600_AddByte st 0x80 (Z.to_nat (rateInBytes - 1));
    Some (0, {| state := SnP_Permute st; rate := instance.(rate); byteIOIndex := 0;
                squeezing := true |}).

(** The whole blocks of [SpongeSqueeze]: permute, then extract. *)
Fixpoint squeeze_blocks (fuel : nat) (rateInBytes : Z) (st : list Z) (j : Z) (out : list Z) :
  option (list Z * Z * list Z) :=
  match fuel with
  | O => None
  | S fuel =>
      if rateInBytes <=? j then
        let st := SnP_Permute st in
        b ← KeccakP1600_ExtractBytes st 0 (Z.to_nat rateInBytes);
        squeeze_blocks fuel rateInBytes st (j - rateInBytes) (out ++ b)
      else Some (st, j, out)
  end.

(** The loop of [SpongeSqueeze]; [len] is [dataByteLen - i]. *)
Fixpoint squeeze_loop (fuel : nat) (instance : SpongeInstance) (len : Z) (out : list Z) :
  option (SpongeInstance * list Z) :=
  let rateInBytes := instance.(rate) / 8 in
  let set st idx := {| state := st; rate := instance.(rate); byteIOIndex := idx;
                       squeezing := instance.(squeezing) |} in
  match fuel with
  | O => None
  | S fuel =>
      if len <=? 0 then Some (instance, out)
      else if (instance.(byteIOIndex) =? rateInBytes) && (rateInBytes <=? len) then
        '(st, j, out) ← squeeze_blocks (S (Z.to_nat len)) rateInBytes instance.(state) len out;
        squeeze_loop fuel (set st instance.(byteIOIndex)) j out
      else
        let '(st, idx) := if instance.(byteIOIndex) =? rateInBytes
          then (SnP_Permute instance.(state), 0)
          else (instance.(state), instance.(byteIOIndex)) in
        let partialBlock := partial_block len idx rateInBytes in
        b ← KeccakP1600_ExtractBytes st (Z.to_nat idx) (Z.to_nat partialBlock);
        squeeze_loop fuel (set st (u32 (idx + partialBlock))) (len - partialBlock) (out ++ b)
  end.

(** The status, the instance and the bytes written to [data]. *)
Definition SpongeSqueeze (instance : SpongeInstance) (dataByteLen : nat) :
  option (Z * SpongeInstance * list Z) :=
  instance ← (if instance.(squeezing) then Some instance
              else snd <$> SpongeAbsorbLastFewBits instance 0x01);
  '(instance, out) ← squeeze_loop (S dataByteLen) instance (Z.of_nat dataByteLen) [];
  Some (0, instance, out).
End Template.

(** [KeccakSpongeWidth1600.c]. *)
Definition KeccakWidth1600_Sponge := Sponge KeccakP1600_Permute_24rounds.
Definition KeccakWidth1600_12rounds_SpongeAbsorb := SpongeAbsorb KeccakP1600_Permute_12rounds.
Definition KeccakWidth1600_12rounds_SpongeAbsorbLastFewBits :=
  SpongeAbsorbLastFewBits KeccakP1600_Permute_12rounds.
Definition KeccakWidth1600_12rounds_SpongeSqueeze := SpongeSqueeze KeccakP1600_Permute_12rounds.

(** ** The specification *)

(** The sponge over a permutation, at a rate of [r] bytes: absorb the padded
    message block by block from the zero state, then read off the first [r]
    bytes of the state, permuting between blocks. *)
Section Specification.
Context (P : list Z -> list Z) (r : nat).

Definition sponge_step (s b : list Z) : list Z := P (xor_at 0 b s).
Definition absorbed (m : list Z) : list Z := absorb_all sponge_step r (replicate 200 0) m.

(** The message, the delimited suffix byte [d], zeroes, and a final bit in the
    last byte of the block; when [d] itself ends at that bit, one block more. *)
Definition padded (m : list Z) (d : Z) : list Z :=
  let k := (length m mod r)%nat in
  if (0x80 <=? d) && (k =? r - 1)%nat then m ++ [d] ++ replicate (r - 1) 0 ++ [0x80]
  else m ++ xor_at (r - 1 - k) [0x80] (d :: replicate (r - 1 - k) 0).

(** Byte [i] of the output that starts in state [s]. *)
Definition squeezed (s : list Z) (i : nat) : Z := (Nat.iter (i / r) P s).[i mod r].

Definition sponge_output (m : list Z) (d : Z) (from n : nat) : list Z :=
  map (squeezed (absorbed (padded m d))) (seq from n).
End Specification.

(** ** The streaming sponge refines the specification *)

Section Refinement.
Context (P : list Z -> list Z) (r : nat).
Context (P_state : forall s, state200 s -> state200 (P s)) (r_pos : (0 < r <= 200)%nat).

Abbreviation step := (sponge_step P).
Abbreviation absorbed_ := (absorb_all step r (replicate 200 0)).

Lemma step_state s b : state200 s -> bytes b -> (length b <= 200)%nat -> state200 (step s b).
Proof. intros. apply P_state, xor_at_state200; (done || lia). Qed.

Lemma zero_state200 : state200 (replicate 200 0).
Proof. split; [done | by apply bytes_replicate]. Qed.

Lemma absorbed_state m : bytes m -> state200 (absorbed_ m).
Proof.
  intros Hm. apply absorb_all_inv; [lia | | apply zero_state200 | done].
  intros. apply step_state; (done || lia).
Qed.

Lemma absorb_blocks_spec fuel st data :
  (length data < fuel)%nat -> state200 st -> bytes data ->
  absorb_blocks P fuel (Z.of_nat r) st data
  = Some (absorb_all step r st data, rest r data).
Proof.
  revert st data. induction fuel as [| fuel IH]; intros st data Hf Hs Hd; [lia |].
  cbn [absorb_blocks]. destruct (Z.leb_spec (Z.of_nat r) (Z.of_nat (length data))) as [Hl | Hl].
  - rewrite Nat2Z.id, AddBytes_spec by (apply Hs || lia). cbn [mbind option_bind].
    assert (Ht : length (take r data) = r) by (rewrite length_take; lia).
    rewrite IH; [| rewrite length_drop; lia | | by apply Forall_drop].
    + fold (step st (take r data)).
      rewrite <- (absorb_all_block step r ltac:(lia) st _ (drop r data) Ht).
      rewrite <- (rest_block r ltac:(lia) _ (drop r data) Ht). by rewrite take_drop.
    + apply P_state, xor_at_state200; [done | by apply Forall_take | lia].
  - by rewrite absorb_all_small, rest_small by lia.
Qed.

Record sponge_repr (i : SpongeInstance) (m : list Z) : Prop := {
  sp_bytes : bytes m;
  sp_rate : i.(rate) = 8 * Z.of_nat r;
  sp_state : i.(state) = xor_at 0 (rest r m) (absorbed_ m);
  sp_index : i.(byteIOIndex) = Z.of_nat (length m mod r);
  sp_phase : i.(squeezing) = false
}.

Lemma rate_bytes i m : sponge_repr i m -> i.(rate) / 8 = Z.of_nat r.
Proof. intros Hi. rewrite (sp_rate _ _ Hi), Z.mul_comm. apply Z.div_mul. lia. Qed.

Lemma index_lt n : (n mod r < r)%nat.
Proof. apply Nat.mod_upper_bound. lia. Qed.

Lemma sp_state200 i m : sponge_repr i m -> state200 i.(state).
Proof.
  intros Hi. pose proof (sp_bytes _ _ Hi) as Hm. rewrite (sp_state _ _ Hi).
  pose proof (rest_lt r ltac:(lia) m).
  apply xor_at_state200; [by apply absorbed_state | by apply rest_bytes | lia].
Qed.

(** The queue lane takes what fits into the block, as long as the length does
    not exceed the 32-bit arithmetic. *)
Lemma partial_block_spec n idx :
  (idx < r)%nat -> Z.of_nat n + Z.of_nat r < 2 ^ 32 ->
  partial_block (Z.of_nat n) (Z.of_nat idx) (Z.of_nat r) = Z.of_nat (n `min` (r - idx)).
Proof.
  intros Hi Hn. unfold partial_block. rewrite (u32_small (Z.of_nat n)), !u32_small by (unfold word; lia).
  destruct (Z.ltb_spec (Z.of_nat r) (Z.of_nat n + Z.of_nat idx)); lia.
Qed.

(** One trip through the queue lane. *)
Lemma queue_lane i m d (p := (length d `min` (r - length m mod r))%nat) :
  sponge_repr i m -> bytes d ->
  exists st, KeccakP1600_AddBytes i.(state) d (length m mod r) p = Some st /\
    forall i', i'.(rate) = i.(rate) -> i'.(squeezing) = false ->
    (if (length m mod r + p =? r)%nat then i'.(state) = P st /\ i'.(byteIOIndex) = 0
     else i'.(state) = st /\ i'.(byteIOIndex) = Z.of_nat (length m mod r + p)) ->
    sponge_repr i' (m ++ take p d).
Proof.
  intros Hi Hd. pose proof (index_lt (length m)) as Hlt.
  pose proof (length_rest r ltac:(lia) m) as Hlr. pose proof (sp_bytes _ _ Hi) as Hm.
  rewrite AddBytes_spec by (lia || apply (sp_state200 _ _ Hi)).
  eexists. split; [done |]. intros i' Hrate Hph Hst. rewrite (sp_state _ _ Hi) in Hst.
  assert (Hb : bytes (m ++ take p d)) by (apply bytes_app; [done | by apply Forall_take]).
  assert (Hlp : length (take p d) = p) by (rewrite length_take; lia).
  assert (Hsl : length (absorbed_ m) = 200%nat) by by apply absorbed_state.
  assert (Hx : xor_at (length m mod r) (take p d) (xor_at 0 (rest r m) (absorbed_ m))
    = xor_at 0 (rest r m ++ take p d) (absorbed_ m)).
  { rewrite <- (xor_at_app 0); rewrite ?length_app, ?Hlr, ?Hlp, ?Hsl; (done || lia). }
  rewrite Hx in Hst. clear Hx.
  destruct (Nat.eqb_spec (length m mod r + p) r) as [He | Hne]; destruct Hst as [Hst Hidx].
  - destruct (absorb_all_fill step r ltac:(lia) (replicate 200 0) m (take p d)) as [Ha Hr];
      [lia |].
    rewrite (take_ge (take p d)), (drop_ge (take p d)) in Ha by lia.
    rewrite (drop_ge (take p d)), (rest_small r ltac:(lia) []) in Hr by (cbn; lia). rewrite (absorb_all_small step r ltac:(lia) _ []) in Ha by (cbn; lia).
    split; [done | by rewrite Hrate, (sp_rate _ _ Hi) | | | done].
    + by rewrite Hst, Ha, Hr.
    + by rewrite Hidx, <- (length_rest r), Hr by lia.
  - destruct (absorb_all_nofill step r ltac:(lia) (replicate 200 0) m (take p d)) as [Ha Hr];
      [lia |].
    split; [done | by rewrite Hrate, (sp_rate _ _ Hi) | | | done].
    + by rewrite Hst, Ha, Hr.
    + rewrite Hidx, <- (length_rest r ltac:(lia) (m ++ take p d)), Hr, length_app, Hlp, Hlr. lia.
Qed.

Lemma absorb_loop_spec fuel i m d :
  (length d < fuel)%nat -> sponge_repr i m -> bytes d ->
  Z.of_nat (length d) + Z.of_nat r < 2 ^ 32 ->
  exists i', absorb_loop P fuel i d = Some i' /\ sponge_repr i' (m ++ d).
Proof.
  revert i m d. induction fuel as [| fuel IH]; intros i m d Hf Hi Hd Hn; [lia |].
  cbn [absorb_loop]. rewrite (rate_bytes i m Hi), (sp_index _ _ Hi).
  destruct (Nat.eqb_spec (length d) 0) as [H0 | H0].
  { exists i. destruct d; [| done]. by rewrite app_nil_r. }
  pose proof (index_lt (length m)) as Hlt. pose proof (length_rest r ltac:(lia) m) as Hlr.
  destruct (_ && _) eqn:Hfull.
  - apply andb_true_iff in Hfull as [Hidx%Z.eqb_eq Hlen%Z.leb_le].
    assert (Hr0 : rest r m = []) by (apply nil_length_inv; lia).
    rewrite absorb_blocks_spec by (lia || done || apply (sp_state200 _ _ Hi)).
    cbn [mbind option_bind]. rewrite (sp_state _ _ Hi), Hr0, xor_at_nil.
    assert (Ha := absorb_all_app step r ltac:(lia) (replicate 200 0) m d).
    assert (Hra := rest_app r ltac:(lia) m d). rewrite Hr0 in Ha, Hra. cbn [app] in Ha, Hra.
    rewrite <- Ha, <- Hra.
    set (i1 := {| state := _ |}).
    assert (Hi1 : sponge_repr i1 (m ++ whole r d)).
    { pose proof (rest_app r ltac:(lia) m (whole r d)) as Hw. rewrite Hr0 in Hw. cbn [app] in Hw.
      rewrite rest_whole in Hw by lia. split; cbn [i1 state rate byteIOIndex squeezing].
      - apply bytes_app; [apply (sp_bytes _ _ Hi) | by apply Forall_take].
      - apply (sp_rate _ _ Hi).
      - rewrite Hw, xor_at_nil, Ha.
        pose proof (absorb_all_app step r ltac:(lia) (replicate 200 0) m (whole r d)) as Hb.
        rewrite Hr0 in Hb. cbn [app] in Hb. by rewrite Hb, absorb_all_whole by lia.
      - by rewrite Hidx, <- length_rest, Hw by lia.
      - apply (sp_phase _ _ Hi). }
    destruct (IH i1 (m ++ whole r d) (rest r d)) as (i' & Hi' & Hrep).
    + rewrite length_rest by lia. pose proof (Nat.div_mod_eq (length d) r).
      assert (0 < length d / r)%nat by (apply Nat.div_str_pos; lia). nia.
    + done.
    + by apply rest_bytes.
    + rewrite length_rest by lia. pose proof (index_lt (length d)). lia.
    + exists i'. rewrite <- app_assoc, whole_rest in Hrep. by rewrite Hra.
  - rewrite partial_block_spec, !Nat2Z.id by lia.
    destruct (queue_lane i m d Hi Hd) as (st & -> & Hq). cbn [mbind option_bind].
    set (p := (length d `min` (r - length m mod r))%nat) in *.
    rewrite u32_small by (unfold word; lia).
    assert (Hp : (0 < p)%nat) by (unfold p; lia).
    assert (Hd' : m ++ d = (m ++ take p d) ++ drop p d) by by rewrite <- app_assoc, take_drop.
    rewrite Hd', <- Nat2Z.inj_add.
    assert (Hdrop : (length (drop p d) < fuel)%nat) by (rewrite length_drop; lia).
    destruct (Z.eqb_spec (Z.of_nat (length m mod r + p)) (Z.of_nat r)) as [He | He];
      (eapply IH; [done | | by apply Forall_drop | rewrite length_drop; lia]);
      (apply Hq; [done | apply (sp_phase _ _ Hi) |]); cbn [state byteIOIndex].
    + by rewrite (proj2 (Nat.eqb_eq _ _)) by lia.
    + by rewrite (proj2 (Nat.eqb_neq _ _)) by lia.
Qed.

Lemma SpongeAbsorb_spec i m d :
  sponge_repr i m -> bytes d -> Z.of_nat (length d) + Z.of_nat r < 2 ^ 32 ->
  exists i', SpongeAbsorb P i d = Some (0, i') /\ sponge_repr i' (m ++ d).
Proof.
  intros Hi Hd Hn. unfold SpongeAbsorb. rewrite (sp_phase _ _ Hi).
  destruct (absorb_loop_spec (S (length d)) i m d ltac:(lia) Hi Hd Hn) as (i' & -> & Hi').
  by exists i'.
Qed.

(** The two padding bytes, added one after the other into a partial block. *)
Lemma xor_two_bytes k d s :
  (k < r)%nat -> length s = 200%nat ->
  xor_at (r - 1) [0x80] (xor_at k [d] s)
  = xor_at k (xor_at (r - 1 - k) [0x80] (d :: replicate (r - 1 - k) 0)) s.
Proof.
  intros Hk Hs. set (t := d :: replicate (r - 1 - k) 0).
  assert (Ht : length t = (r - k)%nat) by (unfold t; cbn; rewrite length_replicate; lia).
  assert (Hlt : length (xor_at (r - 1 - k) [0x80] t) = (r - k)%nat)
    by (rewrite length_xor_at; cbn [length]; lia).
  assert (Hti : forall j, t.[j] = if (j =? 0)%nat then d else 0)
    by (intros [| j]; [done | apply nth_zeroes]).
  apply nth_ext_Z; [rewrite !length_xor_at; rewrite ?length_xor_at, ?Hlt; cbn [length]; lia |].
  intros i _. rewrite !nth_xor_at_1, nth_xor_at_in by (rewrite ?length_xor_at; cbn [length]; lia).
  rewrite Hlt, nth_xor_at_1, Hti by lia.
  destruct (Nat.eqb_spec i (r - 1)), (Nat.eqb_spec i k), (Nat.eqb_spec (i - k) (r - 1 - k)),
    (Nat.eqb_spec (i - k) 0); try lia; xor_at_cases; rewrite ?Z.lxor_0_l, ?Z.lxor_0_r; try done.
  by rewrite Z.lxor_assoc.
Qed.

Record squeeze_repr (i : SpongeInstance) (s : list Z) (n : nat) : Prop := {
  sq_rate : i.(rate) = 8 * Z.of_nat r;
  sq_phase : i.(squeezing) = true;
  sq_start : state200 s;
  sq_pos : exists j k, n = (j * r + k)%nat /\ (k <= r)%nat /\
    i.(state) = Nat.iter j P s /\ i.(byteIOIndex) = Z.of_nat k
}.

Lemma SpongeAbsorbLastFewBits_spec i m d :
  sponge_repr i m -> 0 < d < 256 ->
  exists i', SpongeAbsorbLastFewBits P i d = Some (0, i') /\
    squeeze_repr i' (absorbed_ (padded r m d)) 0.
Proof.
  intros Hi Hd. pose proof (index_lt (length m)) as Hlt. pose proof (sp_bytes _ _ Hi) as Hm.
  pose proof (length_rest r ltac:(lia) m) as Hlr. pose proof (sp_state200 _ _ Hi) as Hs200.
  pose proof (absorbed_state m Hm) as HA. pose proof (rest_bytes r m Hm) as Hrb.
  unfold SpongeAbsorbLastFewBits. rewrite (proj2 (Z.eqb_neq d 0)) by lia.
  rewrite (sp_phase _ _ Hi), (rate_bytes i m Hi), (sp_index _ _ Hi), Nat2Z.id.
  rewrite AddByte_xor_at by lia. cbn [mbind option_bind].
  replace (Z.to_nat (Z.of_nat r - 1)) with (r - 1)%nat by lia.
  rewrite AddByte_xor_at by lia. cbn [mbind option_bind]. eexists. split; [done |].
  assert (He : (Z.of_nat (length m mod r) =? Z.of_nat r - 1) = (length m mod r =? r - 1)%nat).
  { destruct (Z.eqb_spec (Z.of_nat (length m mod r)) (Z.of_nat r - 1)),
      (Nat.eqb_spec (length m mod r) (r - 1)); (done || lia). }
  rewrite He. unfold padded. set (k := (length m mod r)%nat) in *.
  assert (Hstate : forall t, length t = (r - k)%nat ->
    absorbed_ (m ++ t) = P (xor_at 0 (rest r m ++ t) (absorbed_ m))).
  { intros t Ht. destruct (absorb_all_fill step r ltac:(lia) (replicate 200 0) m t) as [-> _];
      [lia |]. rewrite take_ge, drop_ge by lia. by apply absorb_all_small; cbn; lia. }
  assert (Hx : forall t, (length t <= 200 - k)%nat ->
    xor_at k t (state i) = xor_at 0 (rest r m ++ t) (absorbed_ m)).
  { intros t Ht. rewrite (sp_state _ _ Hi), <- (xor_at_app 0); [by rewrite Hlr |].
    rewrite length_app, Hlr. destruct HA as [-> _]. lia. }
  assert (Hpos : forall s st, st = s -> exists j k, 0%nat = (j * r + k)%nat /\ (k <= r)%nat /\
    st = Nat.iter j P s /\ 0 = Z.of_nat k).
  { intros s st ->. exists 0%nat, 0%nat. repeat split; lia. }
  destruct ((0x80 <=? d) && (k =? r - 1)%nat) eqn:Hd80.
  - apply andb_true_iff in Hd80 as [_ Hk%Nat.eqb_eq].
    rewrite (app_assoc m), absorb_all_app by lia.
    assert (Hrest : rest r (m ++ [d]) = []).
    { apply nil_length_inv. rewrite length_rest, length_app by lia. cbn [length].
      pose proof (Nat.div_mod_eq (length m) r) as Hdm. fold k in Hdm.
      replace (length m + 1)%nat with ((length m / r + 1) * r)%nat by nia.
      apply Nat.Div0.mod_mul. }
    rewrite Hrest. cbn [app]. rewrite (Hstate [d]) by (cbn; lia).
    rewrite Hx by (cbn; lia). set (A1 := P (xor_at 0 (rest r m ++ [d]) _)).
    assert (HA1 : state200 A1).
    { apply P_state, xor_at_state200; [done | | rewrite length_app; cbn; lia].
      apply bytes_app; [done |]. by forall_words. }
    assert (Hz : absorb_all step r A1 (replicate (r - 1) 0 ++ [0x80])
      = P (xor_at (r - 1) [0x80] A1)).
    { rewrite <- (app_nil_r (_ ++ _)), absorb_all_block by
        (rewrite ?length_app, ?length_replicate; cbn; lia).
      rewrite absorb_all_small by (cbn; lia). unfold step. f_equal.
      destruct HA1 as [Hl1 _].
      rewrite <- (xor_at_app 0) by (rewrite length_app, length_replicate, Hl1; cbn; lia).
      by rewrite xor_at_zeroes, length_replicate by lia. }
    split; cbn [rate squeezing state byteIOIndex]; [apply (sp_rate _ _ Hi) | done | |].
    + rewrite Hz. apply P_state, xor_at_state200; [done | by forall_words | cbn; lia].
    + by apply Hpos.
  - set (t := xor_at (r - 1 - k) [0x80] _).
    assert (Ht : length t = (r - k)%nat).
    { unfold t. rewrite length_xor_at; cbn; rewrite length_replicate; lia. }
    assert (Htb : bytes t).
    { apply bytes_xor_at; [| by forall_words | cbn; rewrite length_replicate; lia].
      apply Forall_cons_2; [unfold word; lia | by apply bytes_replicate]. }
    split; cbn [rate squeezing state byteIOIndex]; [apply (sp_rate _ _ Hi) | done | |].
    + rewrite Hstate by done. apply P_state, xor_at_state200; [done | by apply bytes_app |].
      rewrite length_app. lia.
    + apply Hpos. rewrite Hstate, xor_two_bytes by (done || apply Hs200).
      fold t. by rewrite Hx by lia.
Qed.

(** *** Squeezing *)

Lemma iter_state j s : state200 s -> state200 (Nat.iter j P s).
Proof. intros Hs. induction j; [done |]. rewrite Nat.iter_succ. by apply P_state. Qed.

Lemma squeezed_slice j k p s :
  state200 s -> (k + p <= r)%nat ->
  take p (drop k (Nat.iter j P s)) = map (squeezed P r s) (seq (j * r + k) p).
Proof.
  intros Hs Hk. destruct (iter_state j s Hs) as [Hl _].
  apply nth_ext_Z.
  - rewrite length_take, length_drop, length_map, length_seq. lia.
  - intros i. rewrite length_take, length_drop, Hl. intros Hi.
    rewrite nth_take_Z, nth_drop_Z, nth_map_seq by lia. unfold squeezed.
    rewrite <- Nat.add_assoc, Nat.div_add_l by lia. rewrite Nat.div_small, Nat.add_0_r by lia.
    by rewrite (Nat.add_comm (j * r)), Nat.Div0.mod_add, Nat.mod_small by lia.
Qed.

Lemma seq_split n a b from from' n0 :
  n = from -> from' = (from + a)%nat -> n0 = (a + b)%nat ->
  seq n n0 = seq from a ++ seq from' b.
Proof. intros -> -> ->. apply seq_app. Qed.

Lemma squeeze_blocks_spec fuel j len s out :
  state200 s -> (len < fuel)%nat ->
  exists j' len', squeeze_blocks P fuel (Z.of_nat r) (Nat.iter j P s) (Z.of_nat len) out
    = Some (Nat.iter j' P s, Z.of_nat len',
        out ++ map (squeezed P r s) (seq ((j + 1) * r) (len - len'))) /\
    (len' < r)%nat /\ (len' <= len)%nat /\ ((j' + 1) * r = (j + 1) * r + (len - len'))%nat.
Proof.
  intros Hs. revert j len out. induction fuel as [| fuel IH]; intros j len out Hf; [lia |].
  cbn [squeeze_blocks]. destruct (Z.leb_spec (Z.of_nat r) (Z.of_nat len)) as [Hl | Hl].
  - rewrite Nat2Z.id, ExtractBytes_spec by lia. cbn [mbind option_bind].
    rewrite <- Nat.iter_succ, squeezed_slice by (done || lia).
    rewrite <- Nat2Z.inj_sub by lia.
    destruct (IH (S j) (len - r)%nat (out ++ map (squeezed P r s) (seq (S j * r + 0) r)))
      as (j' & len' & -> & H1 & H2 & H3); [lia |].
    exists j', len'. split; [| lia]. rewrite <- app_assoc, <- map_app.
    by rewrite (seq_split _ r (len - r - len') (S j * r + 0) ((S j + 1) * r) (len - len')) by lia.
  - exists j, len. rewrite Nat.sub_diag, app_nil_r. split; [done | lia].
Qed.

Lemma squeeze_loop_spec fuel i s n len out :
  squeeze_repr i s n -> (len < fuel)%nat -> Z.of_nat len + Z.of_nat r < 2 ^ 32 ->
  exists i', squeeze_loop P fuel i (Z.of_nat len) out
    = Some (i', out ++ map (squeezed P r s) (seq n len)) /\ squeeze_repr i' s (n + len).
Proof.
  revert i n len out. induction fuel as [| fuel IH]; intros i n len out Hi Hf Hn; [lia |].
  destruct Hi as [Hrate Hph Hs (j & k & -> & Hk & Hst & Hidx)]. cbn [squeeze_loop].
  rewrite Hrate, Hst, Hidx, (Z.mul_comm 8), Z.div_mul by lia.
  destruct (Z.leb_spec (Z.of_nat len) 0) as [H0 | H0].
  { replace len with 0%nat by lia. cbn [seq map]. rewrite app_nil_r, Nat.add_0_r.
    exists i. split; [done |]. by split; [| | | exists j, k]. }
  destruct (_ && _) eqn:Hfull.
  - apply andb_true_iff in Hfull as [Hkr%Z.eqb_eq Hlen%Z.leb_le].
    assert (k = r) as -> by lia. rewrite Nat2Z.id.
    destruct (squeeze_blocks_spec (S len) j len s out Hs) as (j' & len' & -> & H1 & H2 & H3);
      [lia |]. cbn [mbind option_bind].
    assert (0 < len - len')%nat as Hprog by (destruct (decide (j' = j)); [subst; lia | nia]).
    set (i1 := Build_SpongeInstance _ _ _ _).
    edestruct (IH i1 ((j' * r + r))%nat len') as (i' & -> & Hi').
    { split; cbn [i1 rate squeezing state byteIOIndex]; [lia | done.. |]. by exists j', r. }
    { lia. } { lia. }
    exists i'. rewrite <- app_assoc, <- map_app. split.
    + by rewrite (seq_split _ (len - len') len' ((j + 1) * r) (j' * r + r) len) by lia.
    + replace (j * r + r + len)%nat with (j' * r + r + len')%nat by lia. done.
  - assert (Hlane : exists st idx j' k', (if Z.of_nat k =? Z.of_nat r
        then (P (Nat.iter j P s), 0) else (Nat.iter j P s, Z.of_nat k)) = (st, idx) /\
        st = Nat.iter j' P s /\ idx = Z.of_nat k' /\ (k' < r)%nat /\
        (j' * r + k' = j * r + k)%nat).
    { destruct (Z.eqb_spec (Z.of_nat k) (Z.of_nat r)).
      - eexists _, _, (S j), 0%nat. rewrite Nat.iter_succ. repeat split; lia.
      - eexists _, _, j, k. repeat split; lia. }
    destruct Hlane as (st & idx & j' & k' & -> & -> & -> & Hk' & Hjk).
    rewrite partial_block_spec by lia. set (p := (len `min` (r - k'))%nat).
    assert (0 < p)%nat by lia. rewrite !Nat2Z.id, ExtractBytes_spec by lia.
    cbn [mbind option_bind]. rewrite squeezed_slice by (done || lia).
    rewrite u32_small by (unfold word; lia). rewrite <- Nat2Z.inj_sub, <- Nat2Z.inj_add by lia.
    set (i1 := Build_SpongeInstance _ _ _ _).
    edestruct (IH i1 (j * r + k + p)%nat (len - p)%nat) as (i' & -> & Hi').
    { split; cbn [i1 rate squeezing state byteIOIndex]; [lia | done.. |].
      exists j', (k' + p)%nat. repeat split; lia. }
    { lia. } { lia. }
    exists i'. rewrite <- app_assoc, <- map_app, Hjk. split.
    + by rewrite (seq_split _ p (len - p) (j * r + k) (j * r + k + p) len) by lia.
    + replace (j * r + k + len)%nat with (j * r + k + p + (len - p))%nat by lia. done.
Qed.

Lemma SpongeSqueeze_spec i s n len :
  squeeze_repr i s n -> Z.of_nat len + Z.of_nat r < 2 ^ 32 ->
  exists i', SpongeSqueeze P i len = Some (0, i', map (squeezed P r s) (seq n len)) /\
    squeeze_repr i' s (n + len).
Proof.
  intros Hi Hn. unfold SpongeSqueeze. rewrite (sq_phase _ _ _ Hi). cbn [mbind option_bind].
  destruct (squeeze_loop_spec (S len) i s n len [] Hi ltac:(lia) Hn) as (i' & -> & Hi').
  by exists i'.
Qed.

(** Squeezing an instance still in the absorbing phase uses the suffix 0x01. *)
Lemma SpongeSqueeze_first i m len :
  sponge_repr i m -> Z.of_nat len + Z.of_nat r < 2 ^ 32 ->
  exists i', SpongeSqueeze P i len = Some (0, i', sponge_output P r m 0x01 0 len) /\
    squeeze_repr i' (absorbed_ (padded r m 0x01)) len.
Proof.
  intros Hi Hn. unfold SpongeSqueeze. rewrite (sp_phase _ _ Hi).
  destruct (SpongeAbsorbLastFewBits_spec i m 0x01 Hi ltac:(lia)) as (i1 & -> & Hi1).
  cbn [mbind option_bind fmap option_fmap option_map snd].
  destruct (squeeze_loop_spec (S len) i1 _ 0 len [] Hi1 ltac:(lia) Hn) as (i' & -> & Hi').
  by exists i'.
Qed.

(** Too late for additional input. *)
Lemma squeeze_repr_absorb i s n d :
  squeeze_repr i s n -> SpongeAbsorb P i d = Some (1, i).
Proof. intros Hi. unfold SpongeAbsorb. by rewrite (sq_phase _ _ _ Hi). Qed.

Lemma SpongeInitialize_spec i :
  let '(code, i') := SpongeInitialize i (8 * Z.of_nat r) (1600 - 8 * Z.of_nat r) in
  code = 0 /\ sponge_repr i' [].
Proof.
  unfold SpongeInitialize. replace (8 * Z.of_nat r + (1600 - 8 * Z.of_nat r)) with 1600 by lia.
  change (negb (u32 1600 =? SnP_width)) with false. cbn [orb].
  rewrite (proj2 (Z.leb_gt _ 0)), (proj2 (Z.ltb_ge SnP_width _)) by (unfold SnP_width; lia).
  rewrite (Z.mul_comm 8), Z.mod_mul by lia. cbn [orb negb Z.eqb].
  split; [done |]. split; cbn [rate squeezing state byteIOIndex]; try done; [lia | |].
  - rewrite rest_small, xor_at_nil, absorb_all_small by (cbn; lia). done.
  - by rewrite Nat.Div0.mod_0_l.
Qed.

(** The portions of an input absorbed one after the other. *)
Fixpoint absorb_portions (i : SpongeInstance) (portions : list (list Z)) :
  option SpongeInstance :=
  match portions with
  | [] => Some i
  | d :: ds => '(code, i) ← SpongeAbsorb P i d;
      if code =? 0 then absorb_portions i ds else None
  end.

(** The outputs of calls of [SpongeSqueeze], concatenated. *)
Fixpoint squeeze_portions (i : SpongeInstance) (lens : list nat) : option (list Z) :=
  match lens with
  | [] => Some []
  | len :: lens => '(code, i, out) ← SpongeSqueeze P i len;
      outs ← squeeze_portions i lens; if code =? 0 then Some (out ++ outs) else None
  end.

Lemma absorb_portions_spec i m portions :
  sponge_repr i m ->
  Forall (fun d => bytes d /\ Z.of_nat (length d) + Z.of_nat r < 2 ^ 32) portions ->
  exists i', absorb_portions i portions = Some i' /\ sponge_repr i' (m ++ concat portions).
Proof.
  intros Hi Hp. revert i m Hi. induction Hp as [| d ds [Hd Hn] _ IH]; intros i m Hi.
  - exists i. by rewrite app_nil_r.
  - cbn [absorb_portions concat].
    destruct (SpongeAbsorb_spec i m d Hi Hd Hn) as (i1 & -> & Hi1).
    cbn [mbind option_bind Z.eqb]. destruct (IH i1 _ Hi1) as (i' & -> & Hi').
    exists i'. by rewrite app_assoc.
Qed.

Lemma squeeze_portions_spec i s n lens :
  squeeze_repr i s n -> Forall (fun len => Z.of_nat len + Z.of_nat r < 2 ^ 32) lens ->
  squeeze_portions i lens = Some (map (squeezed P r s) (seq n (sum_list lens))).
Proof.
  intros Hi Hl. revert i n Hi. induction Hl as [| len lens Hn _ IH]; intros i n Hi; [done |].
  cbn [squeeze_portions sum_list foldr].
  destruct (SpongeSqueeze_spec i s n len Hi Hn) as (i1 & -> & Hi1).
  cbn [mbind option_bind]. rewrite (IH i1 _ Hi1). cbn [mbind option_bind Z.eqb].
  by rewrite seq_app, map_app.
Qed.

Lemma output_blocks_spec fuel j len s out :
  state200 s -> (len < fuel)%nat ->
  exists j' len', output_blocks P fuel (Z.of_nat r) (Nat.iter j P s) (Z.of_nat len) out
    = Some (Nat.iter j' P s, Z.of_nat len',
        out ++ map (squeezed P r s) (seq (j * r) (len - len'))) /\
    (len' <= r)%nat /\ (len' <= len)%nat /\ (j' * r = j * r + (len - len'))%nat.
Proof.
  intros Hs. revert j len out. induction fuel as [| fuel IH]; intros j len out Hf; [lia |].
  cbn [output_blocks]. destruct (Z.ltb_spec (Z.of_nat r) (Z.of_nat len)) as [Hl | Hl].
  - rewrite Nat2Z.id, ExtractBytes_spec by lia. cbn [mbind option_bind].
    rewrite squeezed_slice, <- Nat.iter_succ by (done || lia).
    rewrite <- Nat2Z.inj_sub by lia.
    destruct (IH (S j) (len - r)%nat (out ++ map (squeezed P r s) (seq (j * r + 0) r)))
      as (j' & len' & -> & H1 & H2 & H3); [lia |].
    exists j', len'. split; [| lia]. rewrite <- app_assoc, <- map_app.
    by rewrite (seq_split _ r (len - r - len') (j * r + 0) (S j * r) (len - len')) by lia.
  - exists j, len. rewrite Nat.sub_diag, app_nil_r. split; [done | lia].
Qed.
End Refinement.

(** ** The theorems *)

Section Theorems.
Context (P : list Z -> list Z) (P_state : forall s, state200 s -> state200 (P s)).

Lemma Sponge_spec_aux r m d n :
  (0 < r <= 200)%nat -> bytes m -> 0 < d < 256 ->
  Sponge P (8 * Z.of_nat r) (1600 - 8 * Z.of_nat r) m d n
  = Some (0, sponge_output P r m d 0 n).
Proof.
  intros Hr Hm Hd. unfold Sponge.
  replace (8 * Z.of_nat r + (1600 - 8 * Z.of_nat r)) with 1600 by lia.
  change (negb (u32 1600 =? SnP_width)) with false. cbn [orb].
  rewrite (proj2 (Z.leb_gt _ 0)), (proj2 (Z.ltb_ge SnP_width _)) by (unfold SnP_width; lia).
  rewrite (Z.mul_comm 8), Z.mod_mul, Z.div_mul by lia. cbn [orb negb Z.eqb].
  rewrite (proj2 (Z.eqb_neq d 0)) by lia.
  pose proof (rest_lt r ltac:(lia) m) as Hlt. pose proof (length_rest r ltac:(lia) m) as Hlr.
  change KeccakP1600_Initialize with (replicate 200 0).
  rewrite (absorb_blocks_spec P r) by (done || lia || apply zero_state200).
  cbn [mbind option_bind]. pose proof (absorbed_state P r P_state Hr m Hm) as HA.
  rewrite AddBytes_spec, take_ge by (lia || apply HA). cbn [mbind option_bind].
  set (i := Build_SpongeInstance (xor_at 0 (rest r m) (absorbed P r m)) (8 * Z.of_nat r)
    (Z.of_nat (length m mod r)) false).
  assert (Hi : sponge_repr P r i m) by by split.
  destruct (SpongeAbsorbLastFewBits_spec P r P_state Hr i m d Hi Hd) as (i' & Hl & Hi').
  unfold SpongeAbsorbLastFewBits in Hl. cbn [i rate squeezing state byteIOIndex] in Hl.
  rewrite (proj2 (Z.eqb_neq d 0)), (Z.mul_comm 8), Z.div_mul, Nat2Z.id in Hl by lia.
  rewrite Hlr. fold (absorbed P r m).
  destruct (KeccakP1600_AddByte _ d _) as [st |]; [| done]. cbn [mbind option_bind] in *.
  destruct (KeccakP1600_AddByte _ 0x80 _) as [st2 |]; [| done]. cbn [mbind option_bind] in *.
  injection Hl as <-. destruct Hi' as [_ _ Hs (j & k & Hjk & _ & Hst & _)].
  cbn [state] in Hst. assert (j = 0%nat) as -> by nia. cbn [Nat.iter nat_rect] in Hst.
  rewrite Hst. fold (absorbed P r (padded r m d)) in *. unfold sponge_output.
  set (s := absorbed P r (padded r m d)) in *.
  destruct (output_blocks_spec P r P_state Hr (S n) 0 n s [] Hs ltac:(lia))
    as (j' & len' & Hob & H1 & H2 & H3).
  cbn [Nat.iter nat_rect] in Hob. rewrite Hob. cbn [mbind option_bind]. rewrite u32_small, Nat2Z.id by (unfold word; lia).
  rewrite ExtractBytes_spec by lia. cbn [mbind option_bind].
  rewrite (squeezed_slice P r) by (done || lia).
  rewrite <- app_assoc, <- map_app. cbn [app].
  by rewrite (seq_split 0 (n - len') len' (0 * r) (j' * r + 0) n) by lia.
Qed.
End Theorems.

Lemma Permute12_state200 s : state200 s -> state200 (KeccakP1600_Permute_12rounds s).
Proof. intros Hs. unfold KeccakP1600_Permute_12rounds. apply OnWords_bytes; [done | lia]. Qed.
Lemma Permute24_state200 s : state200 s -> state200 (KeccakP1600_Permute_24rounds s).
Proof. intros Hs. unfold KeccakP1600_Permute_24rounds. apply OnWords_bytes; [done | lia]. Qed.

(** C10: initialising an instance with a valid rate, absorbing an input in any
    number of portions, ending it with a delimited suffix byte and squeezing in
    any number of portions gives, concatenated, the prefix of the sponge output
    of the concatenated input; every portion, of input and of output, is
    shorter than 2^32 - rate bytes (beyond that see [SpongeAbsorb_overflow]). *)
Theorem Sponge_streaming P r i portions d lens :
  (forall s, state200 s -> state200 (P s)) -> (0 < r <= 200)%nat -> 0 < d < 256 ->
  Forall (fun d => bytes d /\ Z.of_nat (length d) + Z.of_nat r < 2 ^ 32) portions ->
  Forall (fun len => Z.of_nat len + Z.of_nat r < 2 ^ 32) lens ->
  exists i1 i2 i3,
    SpongeInitialize i (8 * Z.of_nat r) (1600 - 8 * Z.of_nat r) = (0, i1) /\
    absorb_portions P i1 portions = Some i2 /\
    SpongeAbsorbLastFewBits P i2 d = Some (0, i3) /\
    squeeze_portions P i3 lens = Some (sponge_output P r (concat portions) d 0 (sum_list lens)).
Proof.
  intros HP Hr Hd Hp Hl. pose proof (SpongeInitialize_spec P r Hr i) as Hinit.
  destruct (SpongeInitialize _ _ _) as [code i1]. destruct Hinit as [-> Hi1].
  destruct (absorb_portions_spec P r HP Hr i1 [] portions Hi1 Hp) as (i2 & Ha & Hi2).
  destruct (SpongeAbsorbLastFewBits_spec P r HP Hr i2 _ d Hi2 Hd) as (i3 & Hb & Hi3).
  exists i1, i2, i3. repeat split; try done.
  exact (squeeze_portions_spec P r HP Hr i3 _ 0 lens Hi3 Hl).
Qed.

Lemma Sponge_streaming_witness :
  let P := KeccakP1600_Permute_12rounds in
  let i := Build_SpongeInstance [] 0 0 false in
  exists i1 i2 i3,
    SpongeInitialize i (8 * Z.of_nat 168) (1600 - 8 * Z.of_nat 168) = (0, i1) /\
    absorb_portions P i1 [replicate 100 1; replicate 100 2] = Some i2 /\
    SpongeAbsorbLastFewBits P i2 0x07 = Some (0, i3) /\
    squeeze_portions P i3 [10; 200]%nat
    = Some (sponge_output P 168 (concat [replicate 100 1; replicate 100 2]) 0x07 0
        (sum_list [10; 200]%nat)).
Proof.
  apply (Sponge_streaming KeccakP1600_Permute_12rounds 168 (Build_SpongeInstance [] 0 0 false)
    [replicate 100 1; replicate 100 2] 0x07 [10; 200]%nat); [apply Permute12_state200 | lia | lia | |].
  - repeat apply Forall_cons_2; [.. | apply Forall_nil_2];
      (split; [by apply bytes_replicate | rewrite length_replicate; lia]).
  - repeat apply Forall_cons_2; [lia.. | apply Forall_nil_2].
Defined.

(** the one-call [Sponge] computes the same function, for inputs and
    outputs of any length, and rejects invalid parameters with status 1. *)
Theorem Sponge_oneshot P rate capacity m d n :
  (forall s, state200 s -> state200 (P s)) -> word 32 rate -> word 32 capacity ->
  bytes m -> is_byte d ->
  Sponge P rate capacity m d n
  = if decide (rate + capacity = 1600 /\ 0 < rate /\ rate mod 8 = 0 /\ d <> 0)
    then Some (0, sponge_output P (Z.to_nat (rate / 8)) m d 0 n) else Some (1, []).
Proof.
  intros HP Hr Hc Hm Hd. unfold word in *. destruct (decide _) as [(Hs & Hr0 & Hr8 & Hd0) | Hno].
  - pose proof (Z.div_mod rate 8 ltac:(lia)) as Hdm. rewrite Hr8, Z.add_0_r in Hdm.
    set (r := Z.to_nat (rate / 8)) in *.
    assert (Hrate : rate = 8 * Z.of_nat r) by (unfold r; rewrite Z2Nat.id; lia).
    assert (Hcap : capacity = 1600 - 8 * Z.of_nat r) by lia. rewrite Hcap, Hrate.
    apply Sponge_spec_aux; (done || lia).
  - unfold Sponge, SnP_width.
    destruct (Z.eqb_spec (u32 (rate + capacity)) 1600) as [Hu |]; [| done]. cbn [negb].
    destruct (Z.leb_spec rate 0); [done |]. destruct (Z.ltb_spec 1600 rate); [done |].
    destruct (Z.eqb_spec (rate mod 8) 0); [| done]. cbn [orb negb].
    destruct (Z.eqb_spec d 0); [done |]. exfalso. apply Hno.
    rewrite u32_mod in Hu. assert (rate + capacity = 1600); [| done].
    pose proof (Z.div_mod (rate + capacity) (2 ^ 32) ltac:(lia)) as Hdm. rewrite Hu in Hdm.
    assert (0 <= (rate + capacity) / 2 ^ 32) by (apply Z.div_pos; lia). lia.
Qed.

Lemma Sponge_oneshot_witness :
  let P := KeccakP1600_Permute_24rounds in
  Sponge P 1088 512 [1; 2; 3] 0x06 32
    = Some (0, sponge_output P (Z.to_nat (1088 / 8)) [1; 2; 3] 6 0 32)
  /\ Sponge P 1088 500 [1; 2; 3] 0x06 32 = Some (1, []).
Proof.
  cbv zeta. split.
  - rewrite (Sponge_oneshot _ 1088 512 [1; 2; 3] 6 32);
      [| apply Permute24_state200 | apply (bool_decide_unpack _); by vm_compute ..].
    by rewrite decide_True by (repeat split; lia).
  - rewrite (Sponge_oneshot _ 1088 500 [1; 2; 3] 6 32);
      [| apply Permute24_state200 | apply (bool_decide_unpack _); by vm_compute ..].
    by rewrite decide_False by lia.
Defined.

(** An input of any length. *)
Lemma zero_bytes n : 0 <= n -> exists data, Z.of_nat (length data) = n /\ bytes data.
Proof.
  intros Hn. assert (H0 : is_byte 0) by (unfold word; lia).
  exists (replicate (Z.to_nat n) 0). rewrite length_replicate, Z2Nat.id by exact Hn.
  split; [reflexivity | exact (bytes_replicate _ 0 H0)].
Qed.

(** the queue lane of absorption mixes 64-bit lengths with 32-bit
    arithmetic.  On a well-formed instance with one byte queued, absorbing
    2^32 - 1 bytes makes the length check wrap around, and the accessor is
    asked to add 2^32 - 1 bytes into the 200-byte state (its assertion
    fails). *)
Theorem SpongeAbsorb_overflow :
  exists i data, sponge_repr KeccakP1600_Permute_12rounds 168 i [0] /\ bytes data /\
    partial_block (Z.of_nat (length data)) i.(byteIOIndex) 168 = Z.of_nat (length data) /\
    168 < Z.of_nat (length data) /\
    SpongeAbsorb KeccakP1600_Permute_12rounds i data = None.
Proof.
  set (i := Build_SpongeInstance (xor_at 0 [0] (replicate 200 0)) 1344 1 false).
  destruct (zero_bytes (2 ^ 32 - 1) ltac:(lia)) as (data & Hl & Hb).
  exists i, data. rewrite Hl.
  assert (Hp : partial_block (2 ^ 32 - 1) 1 168 = 2 ^ 32 - 1) by done.
  split; [by split; try (apply (bool_decide_unpack _); by vm_compute) |].
  split; [done |]. split; [done |]. split; [lia |].
  unfold SpongeAbsorb. cbn [i squeezing]. cbn [absorb_loop i rate byteIOIndex state squeezing].
  rewrite (proj2 (Nat.eqb_neq _ _)) by lia. cbn [Z.eqb andb]. rewrite Hl.
  change (1344 / 8) with 168. rewrite Hp.
  rewrite AddBytes_out_of_range; [done |]. right. lia.
Qed.

(** SHA3-256 of the empty message. *)
Example SHA3_256_empty :
  option_map (fun '(code, out) => (code, be_word out))
    (KeccakWidth1600_Sponge 1088 512 [] 0x06 32)
  = Some (0, 0xa7ffc6f8bf1ed76651c14756a061d662f580ff4de43b49fa82d80a4b80f8434a).
Proof. by vm_compute. Qed.
