(* ===== verification/XmrKeccak.v ===== *)
(** * Keccak in [xmrig/base/crypto/keccak.cpp]

    The permutation and the hash that CryptoNight starts and ends with.  A
    state is a list of 25 words.  The permutation is proved to be the one of
    FIPS 202 ([Fips202]), the hash a sponge with the padding of the original
    Keccak submission (suffix byte 1), cut to [mdlen] bytes of the state; with
    [mdlen] of 200 the whole state is returned. *)

From S2P Require Import Prelude Endian Streaming KeccakP KeccakSponge.

(** ** The code *)

Definition HASH_DATA_AREA : Z := 136.
Definition KECCAK_ROUNDS : nat := 24.
Definition ROTL64 (x y : Z) : Z := Z.lor (u64 (Z.shiftl x y)) (Z.shiftr x (64 - y)).

Definition keccakf_rndc : list Z := [
  0x0000000000000001; 0x0000000000008082; 0x800000000000808a; 0x8000000080008000;
  0x000000000000808b; 0x0000000080000001; 0x8000000080008081; 0x8000000000008009;
  0x000000000000008a; 0x0000000000000088; 0x0000000080008009; 0x000000008000000a;
  0x000000008000808b; 0x800000000000008b; 0x8000000000008089; 0x8000000000008003;
  0x8000000000008002; 0x8000000000000080; 0x000000000000800a; 0x800000008000000a;
  0x8000000080008081; 0x8000000000008080; 0x0000000080000001; 0x8000000080008008].

(** The macro [X(i)] of the theta step. *)
Definition theta_X (bc st : list Z) (i : nat) : list Z :=
  let t := Z.lxor bc.[(i + 4) mod 5] (ROTL64 bc.[(i + 1) mod 5] 1) in
  let st := <[i := Z.lxor st.[i] t]> st in
  let st := <[(i + 5)%nat := Z.lxor st.[i + 5] t]> st in
  let st := <[(i + 10)%nat := Z.lxor st.[i + 10] t]> st in
  let st := <[(i + 15)%nat := Z.lxor st.[i + 15] t]> st in
  <[(i + 20)%nat := Z.lxor st.[i + 20] t]> st.
Definition f_theta (st : list Z) : list Z :=
  let sum i := Z.lxor (Z.lxor (Z.lxor (Z.lxor st.[i] st.[i + 5]) st.[i + 10]) st.[i + 15]) st.[i + 20] in
  let bc := [sum 0%nat; sum 1%nat; sum 2%nat; sum 3%nat; sum 4%nat] in
  fold_left (theta_X bc) [0; 1; 2; 3; 4]%nat st.

Definition f_rho_pi (st : list Z) : list Z :=
  let t := st.[1] in
  let st := <[1%nat := ROTL64 st.[6] 44]> st in
  let st := <[6%nat := ROTL64 st.[9] 20]> st in
  let st := <[9%nat := ROTL64 st.[22] 61]> st in
  let st := <[22%nat := ROTL64 st.[14] 39]> st in
  let st := <[14%nat := ROTL64 st.[20] 18]> st in
  let st := <[20%nat := ROTL64 st.[2] 62]> st in
  let st := <[2%nat := ROTL64 st.[12] 43]> st in
  let st := <[12%nat := ROTL64 st.[13] 25]> st in
  let st := <[13%nat := ROTL64 st.[19] 8]> st in
  let st := <[19%nat := ROTL64 st.[23] 56]> st in
  let st := <[23%nat := ROTL64 st.[15] 41]> st in
  let st := <[15%nat := ROTL64 st.[4] 27]> st in
  let st := <[4%nat := ROTL64 st.[24] 14]> st in
  let st := <[24%nat := ROTL64 st.[21] 2]> st in
  let st := <[21%nat := ROTL64 st.[8] 55]> st in
  let st := <[8%nat := ROTL64 st.[16] 45]> st in
  let st := <[16%nat := ROTL64 st.[5] 36]> st in
  let st := <[5%nat := ROTL64 st.[3] 28]> st in
  let st := <[3%nat := ROTL64 st.[18] 21]> st in
  let st := <[18%nat := ROTL64 st.[17] 15]> st in
  let st := <[17%nat := ROTL64 st.[11] 10]> st in
  let st := <[11%nat := ROTL64 st.[7] 6]> st in
  let st := <[7%nat := ROTL64 st.[10] 3]> st in
  <[10%nat := ROTL64 t 1]> st.

(** One row of the chi step; [j] is its first index. *)
Definition f_chi_row (st : list Z) (j : nat) : list Z :=
  let bc0 := st.[j] in let bc1 := st.[j + 1] in
  let st := <[j := Z.lxor st.[j] (Z.land (not64 st.[j + 1]) st.[j + 2])]> st in
  let st := <[(j + 1)%nat := Z.lxor st.[j + 1] (Z.land (not64 st.[j + 2]) st.[j + 3])]> st in
  let st := <[(j + 2)%nat := Z.lxor st.[j + 2] (Z.land (not64 st.[j + 3]) st.[j + 4])]> st in
  let st := <[(j + 3)%nat := Z.lxor st.[j + 3] (Z.land (not64 st.[j + 4]) bc0)]> st in
  <[(j + 4)%nat := Z.lxor st.[j + 4] (Z.land (not64 bc0) bc1)]> st.
(** The last row, with all its words saved first. *)
Definition f_chi_last (st : list Z) (j : nat) : list Z :=
  let bc0 := st.[j] in let bc1 := st.[j + 1] in let bc2 := st.[j + 2] in
  let bc3 := st.[j + 3] in let bc4 := st.[j + 4] in
  let st := <[j := Z.lxor st.[j] (Z.land (not64 bc1) bc2)]> st in
  let st := <[(j + 1)%nat := Z.lxor st.[j + 1] (Z.land (not64 bc2) bc3)]> st in
  let st := <[(j + 2)%nat := Z.lxor st.[j + 2] (Z.land (not64 bc3) bc4)]> st in
  let st := <[(j + 3)%nat := Z.lxor st.[j + 3] (Z.land (not64 bc4) bc0)]> st in
  <[(j + 4)%nat := Z.lxor st.[j + 4] (Z.land (not64 bc0) bc1)]> st.
Definition f_chi (st : list Z) : list Z :=
  f_chi_last (fold_left f_chi_row [0; 5; 10; 15]%nat st) 20.

Definition f_iota (st : list Z) (round : nat) : list Z := <[0%nat := Z.lxor st.[0] keccakf_rndc.[round]]> st.

Definition keccakf_round (st : list Z) (round : nat) : list Z := f_iota (f_chi (f_rho_pi (f_theta st))) round.
Definition keccakf (st : list Z) (rounds : nat) : list Z := fold_left keccakf_round (seq 0 rounds) st.

(** [*(const uint64_t* )(p + off)]. *)
Definition load64 (p : list Z) (off : nat) : option Z :=
  if (off + 8 <=? length p)%nat then Some (le_word (take 8 (drop off p))) else None.

(** [st[i] ^= ((uint64_t* )in)[i]] for the first [rsizw] words; [in] has moved
    [off] bytes into [inp]. *)
Definition xor_words (rsizw : nat) (st inp : list Z) (off : nat) : option (list Z) :=
  fold_left (fun st i => st ← st; x ← load64 inp (off + 8 * i); Some (<[i := Z.lxor st.[i] x]> st)) (seq 0 rsizw) (Some st).

(** [for ( ; inlen >= rsiz; inlen -= rsiz, in += rsiz)]: the state, how far [in]
    has moved and [inlen]. *)
Fixpoint keccak_loop (fuel : nat) (rsiz : Z) (st inp : list Z) (off : nat) (inlen : Z) : option (list Z * nat * Z) :=
  match fuel with
  | O => None
  | S fuel =>
    if rsiz <=? inlen then
      st ← xor_words (Z.to_nat (Z.quot rsiz 8)) st inp off;
      keccak_loop fuel rsiz (keccakf st KECCAK_ROUNDS) inp (off + Z.to_nat rsiz) (inlen - rsiz)
    else Some (st, off, inlen)
  end.

(** [inp] is the array at [in], [inlen] and [mdlen] are [int]s and [temp] is an
    uninitialised array of 144 bytes; the result is what is copied to [md].
    [memcpy] takes a negative [inlen] for a size near 2^64.  The store of 1 and
    the [memset] after it are written as copies of known bytes, which fail
    outside [temp]. *)
Definition keccak (temp inp : list Z) (inlen mdlen : Z) : option (list Z) :=
  let rsiz := if mdlen =? 200 then HASH_DATA_AREA else 200 - 2 * mdlen in
  let rsizw := Z.to_nat (Z.quot rsiz 8) in
  '(st, off, inlen) ← keccak_loop (S (Z.to_nat inlen)) rsiz (replicate 25 0) inp 0 inlen;
  if inlen <? 0 then None else
  let inlen := Z.to_nat inlen in
  temp ← memcpy 0 inlen (drop off inp) temp;
  temp ← memcpy inlen 1 [1] temp;
  let inlen := (inlen + 1)%nat in
  let zeroes := (Z.to_nat rsiz - inlen)%nat in
  temp ← memcpy inlen zeroes (replicate zeroes 0) temp;
  let temp := <[(Z.to_nat rsiz - 1)%nat := Z.lor temp.[Z.to_nat rsiz - 1] 0x80]> temp in
  st ← xor_words rsizw st temp 0;
  let st := keccakf st KECCAK_ROUNDS in
  Some (take (Z.to_nat mdlen) (concat (map (le_bytes 8) st))).

(** [keccak(in, inlen, md)] of [keccak.h], where [size_t inlen] is converted to
    [int]. *)
Definition keccak_size (temp inp : list Z) : option (list Z) :=
  keccak temp inp (signed32 (u32 (Z.of_nat (length inp)))) 200.

(** ** The permutation *)

Ltac state_cases A :=
  do 25 (destruct A as [| ? A]; [done |]); destruct A; [| done].

Lemma f_theta_spec A : length A = 25%nat -> f_theta A = Fips202.theta A.
Proof.
  intros Hl. state_cases A. unfold f_theta, Fips202.theta. cbn -[Z.lxor rotl64 ROTL64].
  change ROTL64 with rotl64. repeat (f_equal; try apply Z.lxor_comm).
Qed.

Lemma f_rho_pi_spec A : length A = 25%nat -> f_rho_pi A = Fips202.pi (Fips202.rho A).
Proof.
  intros Hl. state_cases A. cbv delta [f_rho_pi Fips202.pi Fips202.rho]. change ROTL64 with rotl64.
  generalize rotl64. intros R. vm_compute. reflexivity.
Qed.

Lemma f_chi_spec A : length A = 25%nat -> f_chi A = Fips202.chi A.
Proof. 
  intros Hl. state_cases A. cbv delta [f_chi f_chi_last f_chi_row Fips202.chi].
  generalize not64 Z.land Z.lxor. intros. vm_compute. reflexivity.
Qed.

Lemma f_iota_spec A ir : (ir < 24)%nat -> length A = 25%nat -> f_iota A ir = Fips202.iota A ir.
Proof.
  intros Hir Hl. unfold f_iota. change keccakf_rndc with KeccakRoundConstants. rewrite RC_table by done.
  state_cases A. unfold Fips202.iota. generalize (Fips202.RC ir). intros c. reflexivity.
Qed.

Abbreviation P24 := KeccakP1600_Permute_24rounds.

Lemma keccakf_spec A : state25 A -> keccakf A 24 = Fips202.keccak_p 24 A /\ state25 (Fips202.keccak_p 24 A).
Proof.
  intros HA. unfold keccakf. change (Fips202.keccak_p 24 A) with (fold_left Fips202.round (seq 0 24) A).
  apply (fold_left_agree state25 (fun ir => ir < 24)%nat).
  - intros B ir HB Hir. destruct (Round_spec B ir HB Hir) as [_ Hs]. split; [| done].
    unfold keccakf_round, Fips202.round.
    pose proof (theta_state25 B HB) as HT. pose proof (rho_state25 _ HT) as HR.
    pose proof (pi_state25 _ HR) as HP. pose proof (chi_state25 _ HP) as HC.
    rewrite f_theta_spec by apply HB. rewrite f_rho_pi_spec by apply HT. rewrite f_chi_spec by apply HP.
    apply f_iota_spec; [done | apply HC].
  - done.
  - apply List.Forall_forall. intros ir Hir%in_seq. lia.
Qed.

(** On the bytes of the state it is the permutation of the other files. *)
Lemma keccakf_bytes A : state25 A -> lane_bytes (keccakf A 24) = P24 (lane_bytes A) /\ state25 (keccakf A 24).
Proof.
  intros HA. destruct (keccakf_spec A HA) as [-> Hs]. split; [| done].
  unfold KeccakP1600_Permute_24rounds. rewrite lanes_lane_bytes by done.
  destruct (OnWords_spec A 24 HA ltac:(lia)) as [E _]. change (Z.of_nat 24) with 24 in E. by rewrite E.
Qed.

(** ** Words into the state *)

Definition input_words (n : nat) (inp : list Z) : list Z := map (fun i => le_word (take 8 (drop (8 * i) inp))) (seq 0 n).

(** The words xored without checks. *)
Definition with_words (n : nat) (st inp : list Z) : list Z := xor_loop n st (input_words n inp).

Lemma load64_ok p off : (off + 8 <= length p)%nat -> load64 p off = Some (le_word (take 8 (drop off p))).
Proof. intros H. unfold load64. by rewrite (proj2 (Nat.leb_le _ _)). Qed.

Lemma xor_words_ok n st inp off :
  (off + 8 * n <= length inp)%nat -> xor_words n st inp off = Some (with_words n st (drop off inp)).
Proof.
  intros Hl. unfold xor_words, with_words, xor_loop.
  assert (H : forall l st, Forall (fun i => i < n)%nat l ->
    fold_left (fun st i => st ← st; x ← load64 inp (off + 8 * i); Some (<[i := Z.lxor st.[i] x]> st)) l (Some st) =
    Some (fold_left (fun st i => <[i := Z.lxor st.[i] (input_words n (drop off inp)).[i]]> st) l st)).
  { induction l as [| i l IH]; intros st' Hf; [done |]. apply Forall_cons_1 in Hf as [Hi Hf]. cbn [fold_left].
    next. rewrite load64_ok by lia. next. rewrite IH by done. do 3 f_equal.
    unfold input_words. by rewrite nth_map_seq, drop_drop by lia. }
  apply H, List.Forall_forall. intros i Hi%in_seq. lia.
Qed.

Lemma input_words_pieces n inp : input_words n inp = map le_word (pieces 8 n inp).
Proof.
  unfold input_words. revert inp. induction n as [| n IH]; intros inp; [done |]. cbn [seq map pieces]. f_equal.
  rewrite <- seq_shift, map_map, <- IH. apply map_ext. intros i. rewrite drop_drop. do 3 f_equal. lia.
Qed.

Lemma input_words_bytes n inp : bytes inp -> (8 * n <= length inp)%nat ->
  Forall (word 64) (input_words n inp) /\ concat (map (le_bytes 8) (input_words n inp)) = take (8 * n) inp.
Proof.
  intros Hb Hl. rewrite input_words_pieces. pose proof (pieces_Forall 8 n inp Hb Hl) as Hp. split.
  - apply Forall_map. eapply List.Forall_impl; [| exact Hp]. intros p [Hpb Hpl].
    pose proof (le_word_range p Hpb) as Hr. by rewrite Hpl in Hr.
  - rewrite <- (concat_pieces 8 n (take (8 * n) inp)) by (rewrite length_take; lia). rewrite pieces_take, map_map.
    f_equal. rewrite <- map_id. apply map_ext_in. intros p Hin. rewrite List.Forall_forall in Hp.
    destruct (Hp p Hin) as [Hpb Hpl]. rewrite <- Hpl. by apply le_bytes_le_word.
Qed.

(** Only the first [n] words of the input are looked at. *)
Lemma with_words_take n st inp : with_words n st inp = with_words n st (take (8 * n) inp).
Proof. unfold with_words. by rewrite !input_words_pieces, pieces_take. Qed.

Lemma with_words_spec n st inp :
  state25 st -> bytes inp -> (8 * n <= length inp)%nat -> (n <= 25)%nat ->
  state25 (with_words n st inp) /\ lane_bytes (with_words n st inp) = xor_at 0 (take (8 * n) inp) (lane_bytes st).
Proof.
  intros [Hl Hs] Hb Hn H25. unfold with_words. destruct (input_words_bytes n inp Hb Hn) as [Hw Hc].
  assert (Hlw : length (input_words n inp) = n) by (unfold input_words; by rewrite length_map, length_seq).
  assert (Hst : state25 (xor_loop n st (input_words n inp))).
  { split; [by rewrite length_xor_loop |]. apply Forall_nth_Z. intros i _. rewrite nth_xor_loop by lia.
    destruct (_ <? _)%nat; auto with words. }
  split; [done |]. rewrite <- Hc. set (w := input_words n inp) in *.
  pose proof (lane_bytes_state200 st Hl) as [HL _].
  assert (HLc : length (concat (map (le_bytes 8) w)) = (8 * n)%nat) by (rewrite length_concat_le, Hlw; done).
  apply nth_ext_Z.
  - rewrite length_xor_at by lia. rewrite HL. apply lane_bytes_state200, Hst.
  - intros k Hk. destruct (lane_bytes_state200 _ (proj1 Hst)) as [HL' _]. rewrite HL' in Hk.
    rewrite nth_xor_at_in by lia. rewrite HLc. cbn [Nat.leb andb Nat.add]. rewrite Nat.sub_0_r.
    pose proof (Nat.div_mod_eq k 8) as Hd. pose proof (Nat.mod_upper_bound k 8 ltac:(lia)) as Hm.
    set (q := (k / 8)%nat) in *. set (i := (k mod 8)%nat) in *.
    unfold lane_bytes. rewrite Hd. rewrite !nth_concat_le by (rewrite ?length_xor_loop; lia).
    rewrite nth_xor_loop by lia.
    destruct (Nat.ltb_spec q n), (Nat.ltb_spec (8 * q + i) (8 * n)); try lia.
    rewrite nth_concat_le by lia. rewrite le_bytes_lxor. rewrite nth_xor_bytes by by rewrite !length_le_bytes. done.
Qed.

(** ** The hash *)

(** One block absorbed, on words and on bytes. *)
Lemma keccak_absorb_words n st m :
  (0 < n <= 25)%nat -> state25 st -> bytes m ->
  let f := fun st block => keccakf (with_words n st block) 24 in
  state25 (absorb_all f (8 * n) st m) /\
  lane_bytes (absorb_all f (8 * n) st m) = absorb_all (sponge_step P24) (8 * n) (lane_bytes st) m.
Proof.
  intros Hn Hst Hm f. unfold absorb_all. assert (Hk : ((8 * n) * (length m / (8 * n)) <= length m)%nat)
    by (apply Nat.Div0.mul_div_le). revert Hk. generalize (length m / (8 * n))%nat. intros k. revert st m Hst Hm.
  induction k as [| k IH]; intros st m Hst Hm Hk; [done |]. cbn [absorb].
  assert (Ht : length (take (8 * n) m) = (8 * n)%nat) by (rewrite length_take; lia).
  destruct (with_words_spec n st (take (8 * n) m) Hst) as [Hs E]; [by apply Forall_take | lia | lia |].
  destruct (keccakf_bytes _ Hs) as [Ek Hk25].
  destruct (IH (f st (take (8 * n) m)) (drop (8 * n) m)) as [H1 H2];
    [done | by apply Forall_drop | rewrite length_drop; lia |].
  split; [done |]. rewrite H2. f_equal. unfold f, sponge_step. rewrite Ek, E.
  rewrite (take_ge (take (8 * n) m)) by lia. reflexivity.
Qed.

Lemma quot_8 n : Z.to_nat (Z.quot (Z.of_nat (8 * n)) 8) = n.
Proof. rewrite Nat2Z.inj_mul, Z.mul_comm, Z.quot_mul by lia. apply Nat2Z.id. Qed.

(** The loop absorbs the whole blocks of the [inlen] bytes at [off]. *)
Lemma keccak_loop_ok n inp fuel : forall st off inlen,
  (0 < n)%nat -> (off + inlen <= length inp)%nat -> (inlen < fuel)%nat ->
  let f := fun st block => keccakf (with_words n st block) 24 in
  let m := take inlen (drop off inp) in
  exists off', keccak_loop fuel (Z.of_nat (8 * n)) st inp off (Z.of_nat inlen)
      = Some (absorb_all f (8 * n) st m, off', Z.of_nat (length (rest (8 * n) m))) /\
    (off' + length (rest (8 * n) m) <= length inp)%nat /\ take (length (rest (8 * n) m)) (drop off' inp) = rest (8 * n) m.
Proof.
  induction fuel as [| fuel IH]; intros st off inlen Hn Hl Hf f m; [lia |]. cbn [keccak_loop].
  assert (Hm : length m = inlen) by (subst m; rewrite length_take, length_drop; lia).
  destruct (Z.leb_spec (Z.of_nat (8 * n)) (Z.of_nat inlen)) as [Hle | Hlt].
  - rewrite quot_8.
    rewrite xor_words_ok by lia. next. rewrite Nat2Z.id, <- Nat2Z.inj_sub by lia.
    destruct (IH (keccakf (with_words n st (drop off inp)) KECCAK_ROUNDS) (off + 8 * n)%nat (inlen - 8 * n)%nat) as (off' & -> & H1 & H2); [done | lia | lia |].
    exists off'. assert (E : m = take (8 * n) m ++ take (inlen - 8 * n) (drop (off + 8 * n) inp)).
    { rewrite <- (take_drop (8 * n) m) at 1. f_equal. subst m. by rewrite skipn_firstn_comm, drop_drop. }
    assert (Ht : length (take (8 * n) m) = (8 * n)%nat) by (rewrite length_take; lia).
    rewrite E, rest_block, absorb_all_block by (done || lia).
    replace (f st (take (8 * n) m)) with (keccakf (with_words n st (drop off inp)) KECCAK_ROUNDS);
      [split; [unfold f; reflexivity | split; [exact H1 | exact H2]] |].
    unfold f. rewrite (with_words_take n st (drop off inp)). subst m. rewrite take_take, Nat.min_l by lia. reflexivity.
  - rewrite absorb_all_small, rest_small by lia. exists off. rewrite Hm. done.
Qed.

(** The last block as it is left in [temp]. *)
Lemma keccak_last_block temp m r (k := length m) :
  length temp = 144%nat -> (0 < r <= 144)%nat -> (k < r)%nat ->
  let t := write_at (k + 1) (replicate (r - (k + 1)) 0) (<[k := 1]> (write_at 0 m temp)) in
  take r (<[(r - 1)%nat := Z.lor t.[r - 1] 0x80]> t) = m ++ xor_at (r - 1 - k) [0x80] (1 :: replicate (r - 1 - k) 0).
Proof.
  intros Hl Hr Hk t.
  assert (Hw : length (write_at 0 m temp) = 144%nat) by (rewrite length_write_at; lia).
  assert (Ht : take r t = m ++ 1 :: replicate (r - 1 - k) 0).
  { subst t. rewrite (take_write_at' r (k + 1)) by (rewrite ?length_replicate, ?length_insert; lia).
    rewrite take_insert_last by lia. rewrite (take_write_at' k 0 m) by lia. cbn [take app].
    rewrite <- app_assoc. cbn [app]. do 3 f_equal. lia. }
  assert (Hlt : length t = 144%nat) by (subst t; rewrite length_write_at; rewrite length_insert, ?length_replicate; lia).
  assert (Hn : forall i, (i < r)%nat -> t.[i] = (m ++ 1 :: replicate (r - 1 - k) 0).[i])
    by (intros i Hi; by rewrite <- Ht, nth_take_Z).
  set (z := 1 :: replicate (r - 1 - k) 0) in *.
  assert (Hz : length z = (r - k)%nat) by (subst z; cbn; rewrite length_replicate; lia).
  apply nth_ext_Z.
  - rewrite length_take, length_insert, length_app, length_xor_at; cbn [length]; lia.
  - intros i Hi. rewrite length_take, length_insert in Hi. rewrite nth_take_Z by lia.
    destruct (decide (i = r - 1)%nat) as [-> |].
    + rewrite nth_insert_eq, Hn by lia. rewrite !app_nth2 by lia. fold k. rewrite nth_xor_at_1 by lia.
      rewrite Nat.eqb_refl. subst z. destruct (r - 1 - k)%nat as [| n]; [done |].
      cbn [nth]. by rewrite nth_zeroes.
    + rewrite nth_insert_ne, Hn by lia. destruct (decide (i < k)%nat).
      * by rewrite !app_nth1 by lia.
      * rewrite !app_nth2 by lia. fold k. rewrite nth_xor_at_1 by lia.
        by rewrite (proj2 (Nat.eqb_neq _ _)) by lia.
Qed.

Lemma write_at_1 k x (buf : list Z) : (k < length buf)%nat -> write_at k [x] buf = <[k := x]> buf.
Proof. intros Hk. rewrite <- write_at_cons by done. unfold write_at. cbn [length app]. by rewrite Nat.add_0_r, take_drop. Qed.

(** The rate for an output of [mdlen] bytes. *)
Definition rate_of (mdlen : Z) : nat := Z.to_nat (if mdlen =? 200 then HASH_DATA_AREA else 200 - 2 * mdlen).
(** The lengths the buffer of 144 bytes is large enough for. *)
Definition mdlen_ok (mdlen : Z) : Prop := mdlen = 200 \/ (28 <= mdlen <= 64 /\ mdlen mod 4 = 0).

Lemma keccak_state temp inp inlen mdlen (r := rate_of mdlen) (m := take (Z.to_nat inlen) inp) :
  length temp = 144%nat -> bytes inp -> mdlen_ok mdlen -> 0 <= inlen <= Z.of_nat (length inp) ->
  keccak temp inp inlen mdlen = Some (take (Z.to_nat mdlen) (absorbed P24 r (padded r m 1))).
Proof.
  intros Ht Hinp Hmd Hi. assert (Hm : bytes m) by by apply Forall_take.
  assert (Hr : exists n, r = (8 * n)%nat /\ (0 < n <= 18)%nat).
  { subst r. unfold rate_of. destruct Hmd as [-> | [Hb Hmod]]; [exists 17%nat; split; [done | lia] |].
    rewrite (proj2 (Z.eqb_neq _ _)) by lia. exists (Z.to_nat (25 - mdlen / 4)). pose proof (Z.div_mod mdlen 4 ltac:(lia)). lia. }
  destruct Hr as (n & Hrn & Hn). unfold keccak.
  assert (Er : (if mdlen =? 200 then HASH_DATA_AREA else 200 - 2 * mdlen) = Z.of_nat (8 * n)) by (revert Hrn; unfold r, rate_of; lia).
  rewrite Er. clear Er. clearbody r. subst r. cbv zeta. rewrite Nat2Z.id.
  rewrite quot_8.
  pose proof (keccak_loop_ok n inp (S (Z.to_nat inlen)) (replicate 25 0) 0 (Z.to_nat inlen) ltac:(lia) ltac:(lia) ltac:(lia)) as HL.
  cbv zeta in HL. rewrite drop_0, Z2Nat.id in HL by lia. fold m in HL. destruct HL as (off & -> & Hoff & Erest). next.
  rewrite (proj2 (Z.ltb_ge _ 0)) by lia. rewrite Nat2Z.id.
  pose proof (rest_lt (8 * n) ltac:(lia) m) as Hlt.
  rewrite memcpy_ok by (rewrite ?length_drop; lia). next. rewrite Erest.
  assert (Hl0 : length (write_at 0 (rest (8 * n) m) temp) = 144%nat) by (rewrite length_write_at; lia).
  rewrite memcpy_ok by (rewrite ?Hl0; cbn [length]; lia). next. change (take 1 [1]) with [1]. rewrite write_at_1 by lia.
  rewrite memcpy_ok by (rewrite ?length_insert, ?length_replicate; lia). next. rewrite (take_ge (replicate _ 0)) by (rewrite length_replicate; lia).
  assert (H0 : state25 (replicate 25 0)) by (split; [done | apply Forall_replicate; unfold word; lia]).
  destruct (keccak_absorb_words n (replicate 25 0) m ltac:(lia) H0 Hm) as [Hs E]. cbv zeta in Hs, E.
  set (st := absorb_all _ _ _ m) in *.
  pose proof (keccak_last_block temp (rest (8 * n) m) (8 * n) Ht ltac:(lia) Hlt) as Hb. cbv zeta in Hb.
  set (t := <[_ := _]> (write_at _ _ _)) in *.
  assert (Hlt' : length t = 144%nat) by (subst t; rewrite length_insert, length_write_at; rewrite ?length_insert, ?length_replicate; lia).
  rewrite xor_words_ok by lia. next. do 2 f_equal. rewrite drop_0. rewrite (length_rest (8 * n) ltac:(lia)) in Hb.
  unfold absorbed, padded. change (0x80 <=? 1) with false. cbn [andb].
  set (x := xor_at _ _ _) in *. rewrite absorb_all_app by lia.
  assert (Hlx : length (rest (8 * n) m ++ x) = (8 * n)%nat) by (rewrite <- Hb, length_take; lia).
  rewrite <- (app_nil_r (rest (8 * n) m ++ x)), absorb_all_block, absorb_all_small by (done || cbn; lia).
  change (replicate 200 0) with (lane_bytes (replicate 25 0)). rewrite <- E, <- Hb.
  rewrite with_words_take.
  assert (Hlb : forall x, concat (map (le_bytes 8) x) = lane_bytes x) by (intros; reflexivity). rewrite Hlb. clear Hlb.
  assert (Hbt : bytes (take (8 * n) t)).
  { rewrite Hb. apply bytes_app; [by apply rest_bytes |]. apply bytes_xor_at.
    - apply Forall_cons_2; [unfold word; lia |]. apply bytes_replicate. unfold word; lia.
    - forall_words.
    - cbn [length]. rewrite length_replicate. lia. }
  destruct (with_words_spec n st (take (8 * n) t) Hs Hbt) as [Hx Ex]; [rewrite Hb; lia | lia |].
  change KECCAK_ROUNDS with 24%nat. destruct (keccakf_bytes _ Hx) as [-> _]. rewrite Ex, take_take, Nat.min_id. unfold sponge_step. reflexivity.
Qed.

Lemma padded_absorbed r m : bytes m -> (0 < r <= 144)%nat -> state200 (absorbed P24 r (padded r m 1)).
Proof.
  intros Hm Hr. apply absorbed_state; [apply Permute24_state200 | lia |]. unfold padded.
  change (0x80 <=? 1) with false. cbn [andb]. apply bytes_app; [done |]. apply bytes_xor_at.
  - apply Forall_cons_2; [unfold word; lia |]. apply bytes_replicate. unfold word; lia.
  - forall_words.
  - cbn [length]. rewrite length_replicate. pose proof (Nat.mod_upper_bound (length m) r ltac:(lia)). lia.
Qed.

(** The state after the first call of CryptoNight. *)
Lemma keccak_state200 m : bytes m -> state200 (absorbed P24 136 (padded 136 m 1)).
Proof. intros Hm. by apply padded_absorbed; [| lia]. Qed.
Lemma keccak_200 temp inp inlen (m := take (Z.to_nat inlen) inp) :
  length temp = 144%nat -> bytes inp -> 0 <= inlen <= Z.of_nat (length inp) ->
  keccak temp inp inlen 200 = Some (absorbed P24 136 (padded 136 m 1)).
Proof.
  intros Ht Hinp Hi. rewrite keccak_state by (done || by left). change (rate_of 200) with 136%nat. change (Z.to_nat 200) with 200%nat.
  fold m. assert (Hm : bytes m) by by apply Forall_take. by rewrite take_ge by (destruct (keccak_state200 m Hm); lia).
Qed.

(** A negative [inlen]. *)
Lemma keccak_negative temp inp inlen : inlen < 0 -> keccak temp inp inlen 200 = None.
Proof.
  intros Hi. unfold keccak. change (200 =? 200) with true. cbv iota zeta. cbn [keccak_loop]. unfold HASH_DATA_AREA.
  rewrite (proj2 (Z.leb_gt 136 inlen)) by lia. next. by rewrite (proj2 (Z.ltb_lt inlen 0)).
Qed.
Lemma keccak_size_state temp m K : length temp = 144%nat -> bytes m -> keccak_size temp m = Some K -> state200 K.
Proof.
  intros Ht Hm. unfold keccak_size, signed32. set (len := u32 _).
  assert (Hle : 0 <= len <= Z.of_nat (length m)) by (subst len; rewrite u32_mod; split; [apply Z.mod_pos_bound; lia | apply Z.mod_le; lia]).
  destruct (Z.ltb_spec len (2 ^ 31)).
  - rewrite keccak_200 by done. intros [= <-]. by apply keccak_state200, Forall_take.
  - rewrite keccak_negative; [done |]. pose proof (u32_word (Z.of_nat (length m))) as Hw. unfold word in Hw. lia.
Qed.
Lemma keccak_size_int temp m : length temp = 144%nat -> bytes m -> Z.of_nat (length m) < 2 ^ 31 ->
  keccak_size temp m = Some (absorbed P24 136 (padded 136 m 1)).
Proof.
  intros Ht Hb Hm. unfold keccak_size, signed32. rewrite u32_small by (unfold word; lia). rewrite (proj2 (Z.ltb_lt _ (2 ^ 31))) by done.
  rewrite keccak_200 by (done || lia). by rewrite Nat2Z.id, take_ge by lia.
Qed.
(** Lengths that [int] cannot hold. *)
Example keccak_size_negative temp m : Z.of_nat (length m) = 2 ^ 31 -> keccak_size temp m = None.
Proof. intros Hm. unfold keccak_size. rewrite Hm. by apply keccak_negative. Qed.

(** C20: [keccak] is the sponge of the original Keccak: the first [inlen] bytes
    of the input with a 1 byte, zeroes and the last bit of the block, absorbed
    by Keccak-f[1600] at a rate of [200 - 2 mdlen] bytes (136 when the state
    itself is wanted), and the first [mdlen] bytes of the state, whatever the
    buffer held before; nothing behind these bytes or behind the buffer is
    accessed. *)
Theorem keccak_sponge temp inp inlen mdlen (m := take (Z.to_nat inlen) inp) :
  length temp = 144%nat -> bytes inp -> mdlen_ok mdlen -> 0 <= inlen <= Z.of_nat (length inp) ->
  keccak temp inp inlen mdlen = Some (take (Z.to_nat mdlen) (absorbed P24 (rate_of mdlen) (padded (rate_of mdlen) m 1))) /\
  (mdlen <= 64 -> keccak temp inp inlen mdlen = Some (sponge_output P24 (rate_of mdlen) m 1 0 (Z.to_nat mdlen))).
Proof.
  intros Ht Hinp Hmd Hi. rewrite keccak_state by done. fold m. split; [done |]. intros Hlt. f_equal.
  assert (Hm : bytes m) by by apply Forall_take.
  destruct Hmd as [-> | [Hb Hmod]]; [lia |].
  assert (Hr : (28 <= Z.to_nat mdlen <= rate_of mdlen)%nat /\ (rate_of mdlen <= 144)%nat)
    by (unfold rate_of; rewrite (proj2 (Z.eqb_neq _ _)) by lia; lia).
  set (r := rate_of mdlen) in *. set (k := Z.to_nat mdlen) in *. unfold sponge_output. set (s := absorbed _ _ _).
  assert (Hs : state200 s) by (apply padded_absorbed; [done | lia]).
  apply nth_ext_Z; rewrite length_take, ?length_map, ?length_seq; destruct Hs as [Hls _]; [lia |].
  intros i Hi'. rewrite nth_take_Z, nth_map_seq by lia. unfold squeezed. cbn [Nat.add].
  rewrite Nat.div_small, Nat.mod_small by lia. done.
Qed.

(** Keccak-256 of the empty message. *)
Lemma keccak_sponge_witness :
  let temp := replicate 144 0xEE in
  keccak temp [] 0 32 = Some [0xc5; 0xd2; 0x46; 0x01; 0x86; 0xf7; 0x23; 0x3c; 0x92; 0x7e; 0x7d; 0xb2; 0xdc; 0xc7; 0x03; 0xc0;
    0xe5; 0x00; 0xb6; 0x53; 0xca; 0x82; 0x27; 0x3b; 0x7b; 0xfa; 0xd8; 0x04; 0x5d; 0x85; 0xa4; 0x70] /\
  keccak temp [] 0 32 = Some (sponge_output P24 (rate_of 32) [] 1 0 (Z.to_nat 32)).
Proof.
  cbv zeta. split; [vm_compute; reflexivity |].
  apply (keccak_sponge (replicate 144 0xEE) [] 0 32); [done | apply Forall_nil_2 | right; done | done | lia].
Defined.
