(* ===== verification/CnMath.v ===== *)
(** * The arithmetic of CryptoNight

    The integer functions of the main loops: the product of two words
    ([xmrig/base/tools/cryptonote/umul128.h]), the tweak of variant 1 and the
    division and square root of variant 2 ([CryptoNight_monero.h],
    [CryptoNight_x86.h]).  The square root is one floating-point instruction,
    rounded downwards, and a correction; it is proved to be exact. *)

From S2P Require Import Prelude Endian SoftAes.

(** ** [umul128.h]: the low and the high word of the product *)

(** The version on [unsigned __int128]. *)
Definition _umul128 (a b : Z) : Z * Z := let r := a * b in (u64 r, Z.shiftr r 64).

(** The version for 32-bit machines. *)
Definition __umul128 (multiplier multiplicand : Z) : Z * Z :=
  let a := Z.shiftr multiplier 32 in
  let b := Z.land multiplier 0xFFFFFFFF in
  let c := Z.shiftr multiplicand 32 in
  let d := Z.land multiplicand 0xFFFFFFFF in
  let ad := u64 (a * d) in
  let bd := u64 (b * d) in
  let adbc := u64 (ad + u64 (b * c)) in
  let adbc_carry := if adbc <? ad then 1 else 0 in
  let product_lo := u64 (bd + u64 (Z.shiftl adbc 32)) in
  let product_lo_carry := if product_lo <? bd then 1 else 0 in
  let product_hi := u64 (u64 (u64 (u64 (a * c) + Z.shiftr adbc 32) + u64 (Z.shiftl adbc_carry 32)) + product_lo_carry) in
  (product_lo, product_hi).

(** ** Variant 1 *)

(** [VARIANT1_1(p)], on the 16 bytes at [p]. *)
Definition VARIANT1_1 (p : list Z) : list Z :=
  let tmp := p.[11] in
  let table := 0x75310 in
  let index := u8 (Z.shiftl (Z.lor (Z.land (Z.shiftr tmp 3) 6) (Z.land tmp 1)) 1) in
  <[11%nat := u8 (Z.lxor tmp (Z.land (Z.shiftr table index) 0x30))]> p.

Definition tweak1_table : list Z := [
  268435456; 0; 268435456; 0; 268435456; 0; 268435456; 0; 268435456; 0; 268435456; 0; 268435456; 0; 268435456; 0;
  805306368; 0; 805306368; 0; 805306368; 0; 805306368; 0; 805306368; 0; 805306368; 0; 805306368; 0; 805306368; 0;
  268435456; 268435456; 268435456; 268435456; 268435456; 268435456; 268435456; 268435456; 268435456; 268435456; 268435456; 268435456; 268435456; 268435456; 268435456; 268435456;
  805306368; 268435456; 805306368; 268435456; 805306368; 268435456; 805306368; 268435456; 805306368; 268435456; 805306368; 268435456; 805306368; 268435456; 805306368; 268435456;
  268435456; 0; 268435456; 0; 268435456; 0; 268435456; 0; 268435456; 0; 268435456; 0; 268435456; 0; 268435456; 0;
  805306368; 0; 805306368; 0; 805306368; 0; 805306368; 0; 805306368; 0; 805306368; 0; 805306368; 0; 805306368; 0;
  268435456; 268435456; 268435456; 268435456; 268435456; 268435456; 268435456; 268435456; 268435456; 268435456; 268435456; 268435456; 268435456; 268435456; 268435456; 268435456;
  805306368; 268435456; 805306368; 268435456; 805306368; 268435456; 805306368; 268435456; 805306368; 268435456; 805306368; 268435456; 805306368; 268435456; 805306368; 268435456;
  268435456; 0; 268435456; 0; 268435456; 0; 268435456; 0; 268435456; 0; 268435456; 0; 268435456; 0; 268435456; 0;
  805306368; 0; 805306368; 0; 805306368; 0; 805306368; 0; 805306368; 0; 805306368; 0; 805306368; 0; 805306368; 0;
  268435456; 268435456; 268435456; 268435456; 268435456; 268435456; 268435456; 268435456; 268435456; 268435456; 268435456; 268435456; 268435456; 268435456; 268435456; 268435456;
  805306368; 268435456; 805306368; 268435456; 805306368; 268435456; 805306368; 268435456; 805306368; 268435456; 805306368; 268435456; 805306368; 268435456; 805306368; 268435456;
  268435456; 0; 268435456; 0; 268435456; 0; 268435456; 0; 268435456; 0; 268435456; 0; 268435456; 0; 268435456; 0;
  805306368; 0; 805306368; 0; 805306368; 0; 805306368; 0; 805306368; 0; 805306368; 0; 805306368; 0; 805306368; 0;
  268435456; 268435456; 268435456; 268435456; 268435456; 268435456; 268435456; 268435456; 268435456; 268435456; 268435456; 268435456; 268435456; 268435456; 268435456; 268435456;
  805306368; 268435456; 805306368; 268435456; 805306368; 268435456; 805306368; 268435456; 805306368; 268435456; 805306368; 268435456; 805306368; 268435456; 805306368; 268435456].

(** The high word stored by [cryptonight_monero_tweak] in variant 1. *)
Definition tweak1 (vh : Z) : Z := Z.lxor vh tweak1_table.[Z.to_nat (Z.shiftr (u32 vh) 24)].

(** ** Variant 2 *)

(** [_mm_sqrt_sd] on the bits of a positive normal double, in the rounding mode
    [FE_DOWNWARD] that [VARIANT2_SET_ROUNDING_MODE] selects: the exponent is
    made even, and the integer root of the mantissa taken at full precision. *)
Definition _mm_sqrt_sd (x : Z) : Z :=
  let E := Z.shiftr x 52 in
  let M := 2 ^ 52 + x mod 2 ^ 52 in
  let e := E - 1075 in
  let '(m, e') := if Z.even e then (Z.sqrt (M * 2 ^ 52), (e - 52) / 2) else (Z.sqrt (M * 2 ^ 53), (e - 53) / 2) in
  Z.shiftl (e' + 1075) 52 + (m - 2 ^ 52).

(** The low word of the result; the high one is 0. *)
Definition int_sqrt_v2 (n0 : Z) : Z :=
  let x := u64 (Z.shiftr n0 12 + Z.shiftl 1023 52) in
  let x := _mm_sqrt_sd x in
  let r := x in
  let s := Z.shiftr r 20 in
  let r := Z.shiftr r 19 in
  let x2 := u64 (u64 (s - Z.shiftl 1022 32) * u64 (u64 (u64 (r - s) - Z.shiftl 1022 32) + 1)) in
  if x2 <? n0 then u64 (r + 1) else r.

(** [VARIANT2_INTEGER_MATH(part, cl, cx)]: the new [cl], [division_result] and
    [sqrt_result].  A division by zero would be [None]. *)
Definition VARIANT2_INTEGER_MATH (division_result sqrt_result cl : Z) (cx : m128i) : option (Z * Z * Z) :=
  let cx_0 := cx.(lo64) in
  let cl := Z.lxor cl (Z.lxor division_result (u64 (Z.shiftl sqrt_result 32))) in
  let d := Z.lor (u32 (cx_0 + u64 (Z.shiftl sqrt_result 1))) 0x80000001 in
  let cx_1 := cx.(hi64) in
  if d =? 0 then None else
  let division_result := u64 (u32 (cx_1 / d) + u64 (Z.shiftl (cx_1 mod d) 32)) in
  let sqrt_result := int_sqrt_v2 (u64 (cx_0 + division_result)) in
  Some (cl, division_result, sqrt_result).

(** ** Products *)

(** A sum modulo 2^64 and the carry that its comparison with an operand shows. *)
Lemma add_carry x y :
  word 64 x -> word 64 y ->
  u64 (x + y) + (if u64 (x + y) <? x then 1 else 0) * 2 ^ 64 = x + y.
Proof.
  intros Hx Hy. rewrite u64_mod. unfold word in *. destruct (decide (x + y < 2 ^ 64)).
  - rewrite Z.mod_small by lia. destruct (Z.ltb_spec (x + y) x); lia.
  - replace ((x + y) mod 2 ^ 64) with (x + y - 2 ^ 64) by (apply (Z.mod_unique_pos _ _ 1); lia).
    destruct (Z.ltb_spec (x + y - 2 ^ 64) x); lia.
Qed.

Lemma halves x : word 64 x ->
  0 <= x / 2 ^ 32 < 2 ^ 32 /\ 0 <= x mod 2 ^ 32 < 2 ^ 32 /\ x = (x / 2 ^ 32) * 2 ^ 32 + x mod 2 ^ 32.
Proof.
  intros [H0 H1]. pose proof (Z.mod_pos_bound x (2 ^ 32) ltac:(lia)). pose proof (Z.div_mod x (2 ^ 32) ltac:(lia)).
  split; [split; [apply Z.div_pos; lia | apply Z.div_lt_upper_bound; lia] | lia].
Qed.

Lemma mul_word x y : 0 <= x < 2 ^ 32 -> 0 <= y < 2 ^ 32 -> 0 <= x * y <= (2 ^ 32 - 1) * (2 ^ 32 - 1).
Proof. intros. nia. Qed.

(** Schoolbook multiplication of the halves, carry by carry. *)
Lemma umul128_sum a b :
  word 64 a -> word 64 b ->
  let '(lo, hi) := __umul128 a b in word 64 lo /\ word 64 hi /\ hi * 2 ^ 64 + lo = a * b.
Proof.
  intros Ha Hb. unfold __umul128. change 0xFFFFFFFF with (Z.ones 32).
  rewrite !Z.land_ones, !Z.shiftr_div_pow2 by lia. rewrite !Z.shiftl_mul_pow2 by lia.
  destruct (halves a Ha) as (A1 & A0 & EA). destruct (halves b Hb) as (B1 & B0 & EB).
  set (a1 := a / 2 ^ 32) in *. set (a0 := a mod 2 ^ 32) in *. set (b1 := b / 2 ^ 32) in *. set (b0 := b mod 2 ^ 32) in *.
  pose proof (mul_word _ _ A1 B0) as P10. pose proof (mul_word _ _ A0 B1) as P01.
  pose proof (mul_word _ _ A0 B0) as P00. pose proof (mul_word _ _ A1 B1) as P11.
  assert (Ep : a * b = a1 * b1 * 2 ^ 64 + (a1 * b0 + a0 * b1) * 2 ^ 32 + a0 * b0) by (rewrite EA, EB; ring).
  assert (Hab : a * b < 2 ^ 128) by (unfold word in *; nia).
  rewrite (u64_small (a1 * b0)), (u64_small (a0 * b1)), (u64_small (a0 * b0)), (u64_small (a1 * b1)) by (unfold word; lia).
  pose proof (add_carry (a1 * b0) (a0 * b1) ltac:(unfold word; lia) ltac:(unfold word; lia)) as C1.
  pose proof (u64_word (a1 * b0 + a0 * b1)) as W1. set (m := u64 (a1 * b0 + a0 * b1)) in *.
  set (c1 := if m <? a1 * b0 then 1 else 0) in *. assert (Hc1 : c1 = 0 \/ c1 = 1) by (subst c1; destruct (m <? _); lia).
  destruct (halves m W1) as (M1 & M0 & EM).
  assert (Em : u64 (m * 2 ^ 32) = (m mod 2 ^ 32) * 2 ^ 32).
  { rewrite u64_mod. change (2 ^ 64) with (2 ^ 32 * 2 ^ 32). by rewrite Z.mul_mod_distr_r by lia. }
  rewrite Em. set (m1 := m / 2 ^ 32) in *. set (m0 := m mod 2 ^ 32) in *.
  pose proof (add_carry (a0 * b0) (m0 * 2 ^ 32) ltac:(unfold word; lia) ltac:(unfold word; lia)) as C2.
  pose proof (u64_word (a0 * b0 + m0 * 2 ^ 32)) as W2. set (l := u64 (a0 * b0 + m0 * 2 ^ 32)) in *.
  set (c2 := if l <? a0 * b0 then 1 else 0) in *. assert (Hc2 : c2 = 0 \/ c2 = 1) by (subst c2; destruct (l <? _); lia).
  rewrite (u64_small (c1 * 2 ^ 32)) by (unfold word; lia). rewrite !u64_add_l, <- (Z.add_assoc (u64 _)), u64_add_l, (Z.add_assoc (a1 * b1 + m1)).
  assert (Eh : (a1 * b1 + m1 + c1 * 2 ^ 32 + c2) * 2 ^ 64 + l = a * b) by (rewrite Ep; lia).
  assert (H0 : 0 <= a1 * b1 + m1 + c1 * 2 ^ 32 + c2) by lia.
  set (h := a1 * b1 + m1 + c1 * 2 ^ 32 + c2) in *. clearbody h l.
  assert (Hh : word 64 h) by (unfold word in *; lia). rewrite u64_small by done.
  split; [exact W2 |]. split; [exact Hh | exact Eh].
Qed.

(** Both versions give the two words of the exact product. *)
Theorem umul128_exact a b :
  word 64 a -> word 64 b ->
  __umul128 a b = _umul128 a b /\
  (let '(lo, hi) := _umul128 a b in word 64 lo /\ word 64 hi /\ hi * 2 ^ 64 + lo = a * b).
Proof.
  intros Ha Hb. pose proof (umul128_sum a b Ha Hb) as H. destruct (__umul128 a b) as [lo hi].
  destruct H as (Hl & Hh & E).
  assert (Eu : _umul128 a b = (lo, hi)).
  { unfold _umul128. rewrite u64_mod, Z.shiftr_div_pow2, <- E by lia. unfold word in *. f_equal.
    - symmetry. apply (Z.mod_unique_pos _ _ hi); lia.
    - symmetry. apply (Z.div_unique_pos _ _ _ lo); lia. }
  by rewrite Eu.
Qed.

Lemma umul128_exact_witness (a := 0xFFFFFFFFFFFFFFFF) (b := 0xFEDCBA9876543210) :
  __umul128 a b = _umul128 a b /\
  (let '(lo, hi) := _umul128 a b in word 64 lo /\ word 64 hi /\ hi * 2 ^ 64 + lo = a * b).
Proof. apply (umul128_exact a b); unfold a, b, word; lia. Defined.

Lemma umul128_words a b : word 64 a -> word 64 b ->
  exists lo hi, _umul128 a b = (lo, hi) /\ word 64 lo /\ word 64 hi.
Proof.
  intros Ha Hb. eexists _, _. split; [reflexivity |]. split; [apply u64_word |].
  unfold word in *. rewrite Z.shiftr_div_pow2 by lia. split; [apply Z.div_pos; nia |].
  apply Z.div_lt_upper_bound; [lia |]. change (2 ^ 64 * 2 ^ 64) with (2 ^ 64 * 2 ^ 64). nia.
Qed.

(** ** The tweak of variant 1 *)

Lemma tweak1_value lo hi :
  word 64 lo -> word 64 hi ->
  le_bytes 8 lo ++ le_bytes 8 (tweak1 hi) = VARIANT1_1 (le_bytes 8 lo ++ le_bytes 8 hi) /\ word 64 (tweak1 hi).
Proof.
  intros Hlo Hhi. set (t := byte_of hi 3).
  assert (Et : Z.shiftr (u32 hi) 24 = t).
  { rewrite byte_of_top by apply u32_word. subst t. unfold byte_of, u8, u32.
    apply Z.bits_inj'. intros i Hi. rewrite !Z.land_spec, !Z.shiftr_spec, Z.land_spec by lia.
    change 0xff with (Z.ones 8). change 0xffffffff with (Z.ones 32). destruct (decide (i < 8)).
    - by rewrite (Z.ones_spec_low 32), andb_true_r by lia.
    - by rewrite (Z.ones_spec_high 8), !andb_false_r by lia. }
  assert (Hv : tweak1_table.[Z.to_nat t] = Z.shiftl (Z.land (Z.shiftr 0x75310
      (u8 (Z.shiftl (Z.lor (Z.land (Z.shiftr t 3) 6) (Z.land t 1)) 1))) 0x30) 24).
  { apply (bytes_forall (fun t => tweak1_table.[Z.to_nat t] = Z.shiftl (Z.land (Z.shiftr 0x75310
      (u8 (Z.shiftl (Z.lor (Z.land (Z.shiftr t 3) 6) (Z.land t 1)) 1))) 0x30) 24));
      [vm_compute; reflexivity | apply byte_of_byte]. }
  unfold tweak1. rewrite Et, Hv. set (m := Z.land (Z.shiftr _ _) 0x30).
  assert (Hm : is_byte m) by (apply word_of_bits; [lia | apply Z.land_nonneg; lia |]; intros i Hi; subst m; rewrite Z.land_spec, (word_testbit 8 0x30 i), andb_false_r by (unfold word; lia); done).
  split.
  - unfold VARIANT1_1. assert (Eb : (le_bytes 8 lo ++ le_bytes 8 hi).[11] = t) by (subst t; rewrite app_nth2; rewrite length_le_bytes; [by rewrite nth_le_bytes by lia | lia]).
    rewrite Eb. fold m. rewrite insert_app_r_alt by (rewrite length_le_bytes; lia). f_equal.
    rewrite length_le_bytes. change (11 - 8)%nat with 3%nat. rewrite le_bytes_lxor.
    assert (Es : le_bytes 8 (Z.shiftl m 24) = [0; 0; 0; m; 0; 0; 0; 0]).
    { rewrite <- (le_bytes_le_word [0; 0; 0; m; 0; 0; 0; 0]) by forall_words. cbn [length]. f_equal.
      rewrite Z.shiftl_mul_pow2 by lia. cbn [le_word]. lia. }
    rewrite Es, <- !store_bytes. cbn [seq map xor_bytes zip_with insert list_insert]. rewrite !Z.lxor_0_r.
    change (u8 (Z.shiftr hi (8 * Z.of_nat 3))) with t.
    rewrite (u8_small (Z.lxor t m)) by (apply word_lxor; [lia | apply byte_of_byte | done]). reflexivity.
  - apply word_lxor; [lia | done |]. unfold word in *. rewrite Z.shiftl_mul_pow2 by lia. lia.
Qed.

(** The look-up in [tweak1_table] is the bit trick of [VARIANT1_1]: byte 11 of
    a block, byte 3 of its high word, has bits 4 and 5 changed. *)
Theorem tweak1_VARIANT1_1 lo hi :
  word 64 lo -> word 64 hi ->
  le_bytes 8 lo ++ le_bytes 8 (tweak1 hi) = VARIANT1_1 (le_bytes 8 lo ++ le_bytes 8 hi) /\ word 64 (tweak1 hi).
Proof. apply tweak1_value. Qed.

Lemma tweak1_VARIANT1_1_witness (lo := 0x0123456789ABCDEF) (hi := 0xFEDCBA9876543210) :
  le_bytes 8 lo ++ le_bytes 8 (tweak1 hi) = VARIANT1_1 (le_bytes 8 lo ++ le_bytes 8 hi) /\ word 64 (tweak1 hi).
Proof. apply (tweak1_VARIANT1_1 lo hi); unfold lo, hi, word; lia. Defined.

(** ** The square root *)

(** What variant 2 asks for: [floor(2 sqrt(2^64 + n)) - 2^33]. *)
Definition sqrt33 (n : Z) : Z := Z.sqrt (4 * (n + 2 ^ 64)) - 2 ^ 33.

(** From here on the product [x2] overflows and the correction is wrong. *)
Definition sqrt_limit : Z := 18446744068217450496.

(** A root of a number scaled by an even power of two. *)
Lemma sqrt_scaled a k : 0 <= a -> 0 <= k -> Z.sqrt (a * 2 ^ (2 * k)) / 2 ^ k = Z.sqrt a.
Proof.
  intros Ha Hk. set (S := Z.sqrt _). pose proof (Z.sqrt_spec (a * 2 ^ (2 * k)) ltac:(lia)) as [L U]. fold S in L, U.
  assert (HS : 0 <= S) by apply Z.sqrt_nonneg. assert (Hp : 0 < 2 ^ k) by lia.
  assert (E2 : 2 ^ (2 * k) = 2 ^ k * 2 ^ k) by (rewrite <- Z.pow_add_r by lia; f_equal; lia).
  rewrite E2 in L, U. set (p := 2 ^ k) in *. pose proof (Z.div_mod S p ltac:(lia)) as D.
  pose proof (Z.mod_pos_bound S p Hp) as B. set (q := S / p) in *. set (r := S mod p) in *.
  assert (Hq : 0 <= q) by (apply Z.div_pos; lia). symmetry. apply Z.sqrt_unique. rewrite D in L, U. split.
  - assert (q * q * (p * p) <= a * (p * p)); [| nia]. nia.
  - assert (a * (p * p) < Z.succ q * Z.succ q * (p * p)); [| nia].
    assert (Z.succ (p * q + r) <= p * Z.succ q) by lia. nia.
Qed.

(** The double keeps all but the last 12 bits of [n0 + 2^64]; its root to 33 bits. *)
Definition kept (n0 : Z) : Z := (n0 + 2 ^ 64) / 2 ^ 12 * 2 ^ 12.
Definition root33 (n0 : Z) : Z := Z.sqrt (4 * kept n0).

Section Sqrt.
Context (n0 : Z) (Hn : word 64 n0).
Abbreviation N := (n0 + 2 ^ 64).
Abbreviation N0 := (kept n0).
Abbreviation r := (root33 n0).

Lemma N0_range : N0 <= N < N0 + 2 ^ 12 /\ 2 ^ 64 <= N0 <= 2 ^ 65 - 2 ^ 12.
Proof using Hn.
  unfold kept. unfold word in Hn. pose proof (Z.div_mod (n0 + 2 ^ 64) (2 ^ 12) ltac:(lia)).
  pose proof (Z.mod_pos_bound (n0 + 2 ^ 64) (2 ^ 12) ltac:(lia)). lia.
Qed.

Lemma r_range : r * r <= 4 * N0 < Z.succ r * Z.succ r /\ 2 ^ 33 <= r <= 12148001999.
Proof using Hn.
  destruct N0_range as (_ & H64 & H65). pose proof (Z.sqrt_spec (4 * N0) ltac:(lia)) as [L U]. fold r in L, U.
  split; [done |]. assert (0 <= r) by apply Z.sqrt_nonneg. nia.
Qed.

Lemma sqrt_bits :
  _mm_sqrt_sd (u64 (Z.shiftr n0 12 + Z.shiftl 1023 52)) = 1022 * 2 ^ 52 + Z.sqrt (N / 2 ^ 12 * 2 ^ 52).
Proof using Hn.
  rewrite Z.shiftr_div_pow2, Z.shiftl_mul_pow2 by lia. unfold word in Hn.
  assert (Hm : 0 <= n0 / 2 ^ 12 < 2 ^ 52) by (split; [apply Z.div_pos; lia | apply Z.div_lt_upper_bound; lia]).
  assert (EN : N / 2 ^ 12 = 2 ^ 52 + n0 / 2 ^ 12) by (replace (n0 + 2 ^ 64) with (n0 + 2 ^ 52 * 2 ^ 12) by lia; rewrite Z.div_add by lia; lia).
  rewrite EN. set (m := n0 / 2 ^ 12) in *. rewrite u64_small by (unfold word; lia). unfold _mm_sqrt_sd.
  rewrite Z.shiftr_div_pow2, Z.div_add, (Z.div_small m), Z.mod_add, (Z.mod_small m) by lia.
  change (Z.even (0 + 1023 - 1075)) with true. cbv iota beta. rewrite Z.shiftl_mul_pow2 by lia.
  change ((0 + 1023 - 1075 - 52) / 2 + 1075) with 1023. lia.
Qed.

(** The root of the double, cut to 33 bits. *)
Lemma sqrt_top (X := Z.sqrt (N / 2 ^ 12 * 2 ^ 52)) :
  (1022 * 2 ^ 52 + X) / 2 ^ 20 = 1022 * 2 ^ 32 + r / 2 /\ (1022 * 2 ^ 52 + X) / 2 ^ 19 = 1022 * 2 ^ 33 + r.
Proof using Hn.
  assert (HX : X / 2 ^ 19 = r).
  { subst X. unfold root33, kept. replace (N / 2 ^ 12 * 2 ^ 52) with (4 * (N / 2 ^ 12 * 2 ^ 12) * 2 ^ (2 * 19)) by lia.
    apply sqrt_scaled; [| lia]. destruct N0_range as (_ & H & _). unfold kept in H. lia. }
  replace (1022 * 2 ^ 52 + X) with (X + 1022 * 2 ^ 33 * 2 ^ 19) by lia. split.
  - change (2 ^ 20) with (2 ^ 19 * 2). rewrite <- Z.div_div, Z.div_add, HX by lia.
    replace (r + 1022 * 2 ^ 33) with (r + 1022 * 2 ^ 32 * 2) by lia. rewrite Z.div_add by lia. lia.
  - rewrite Z.div_add, HX by lia. lia.
Qed.

(** The result, before the comparison is analysed. *)
Lemma int_sqrt_v2_unfold :
  int_sqrt_v2 n0 = 1022 * 2 ^ 33 + r + (if u64 (r / 2 * (r - r / 2 + 1)) <? n0 then 1 else 0).
Proof using Hn.
  unfold int_sqrt_v2. rewrite sqrt_bits, (Z.shiftr_div_pow2 _ 20), (Z.shiftr_div_pow2 _ 19) by lia.
  destruct sqrt_top as [-> ->]. destruct r_range as [_ Hr]. rewrite !Z.shiftl_mul_pow2 by lia.
  assert (Hs : 2 * (r / 2) <= r <= 2 * (r / 2) + 1)
    by (pose proof (Z.div_mod r 2 ltac:(lia)); pose proof (Z.mod_pos_bound r 2 ltac:(lia)); lia).
  set (s := r / 2) in *.
  replace (u64 (1022 * 2 ^ 32 + s - 1022 * 2 ^ 32)) with s by (rewrite u64_small; [lia | unfold word; lia]).
  rewrite (u64_small (1022 * 2 ^ 33 + r - (1022 * 2 ^ 32 + s))) by (unfold word; lia).
  replace (u64 (1022 * 2 ^ 33 + r - (1022 * 2 ^ 32 + s) - 1022 * 2 ^ 32)) with (r - s) by (rewrite u64_small; [lia | unfold word; lia]).
  rewrite (u64_small (r - s + 1)) by (unfold word; lia).
  destruct (_ <? n0); [rewrite u64_small by (unfold word; lia) |]; lia.
Qed.

(** Below the limit the comparison decides between the two candidates. *)
Lemma sqrt_correction :
  r <= 12148001998 -> r + (if u64 (r / 2 * (r - r / 2 + 1)) <? n0 then 1 else 0) = Z.sqrt (4 * N).
Proof using Hn.
  intros Hmax. destruct r_range as [[L U] Hr]. destruct N0_range as [HN H64].
  assert (Hs : r = 2 * (r / 2) \/ r = 2 * (r / 2) + 1)
    by (pose proof (Z.div_mod r 2 ltac:(lia)); pose proof (Z.mod_pos_bound r 2 ltac:(lia)); lia).
  set (s := r / 2) in *. set (x := s * (r - s + 1)).
  assert (Hx : 2 ^ 64 <= x < 2 ^ 65) by (subst x; destruct Hs as [E | E]; nia).
  assert (Eu : u64 x = x - 2 ^ 64) by (rewrite u64_mod; symmetry; apply (Z.mod_unique_pos _ _ 1); lia).
  rewrite Eu. symmetry. apply Z.sqrt_unique.
  assert (E : Z.succ r * Z.succ r = 4 * x + (if Z.even r then 1 else 4)).
  { subst x. destruct Hs as [E | E].
    - replace (Z.even r) with true by (rewrite E, Z.even_mul; done). nia.
    - replace (Z.even r) with false by (rewrite E, Z.add_comm, Z.even_add_mul_2; done). nia. }
  destruct (Z.ltb_spec (x - 2 ^ 64) n0) as [Hlt | Hge].
  - split; [destruct (Z.even r); lia |]. nia.
  - rewrite Z.add_0_r. split; [lia |]. destruct (Z.even r); lia.
Qed.

Lemma r_limit : r <= 12148001998 <-> n0 < sqrt_limit.
Proof using Hn.
  destruct r_range as [[L U] Hr]. destruct N0_range as [HN H64]. unfold sqrt_limit.
  assert (HNd : N0 = N / 2 ^ 12 * 2 ^ 12) by reflexivity. split; intros H.
  - assert (4 * N0 < 12148001999 * 12148001999) by nia. lia.
  - destruct (decide (r <= 12148001998)) as [| Hc]; [done | exfalso].
    assert (12148001999 * 12148001999 <= 4 * N0) by nia. lia.
Qed.
End Sqrt.

Lemma int_sqrt_v2_value n0 :
  word 64 n0 ->
  int_sqrt_v2 n0 = 1023 * 2 ^ 33 + sqrt33 n0 + (if n0 <? sqrt_limit then 0 else 1) /\ 0 <= sqrt33 n0 < 2 ^ 32.
Proof.
  intros Hn. rewrite int_sqrt_v2_unfold by done. unfold sqrt33.
  pose proof (r_limit n0 Hn) as Hlim.
  destruct (N0_range n0 Hn) as [HN H64].
  destruct (r_range n0 Hn) as [[L U] Hr].
  assert (HR : 2 ^ 33 <= Z.sqrt (4 * (n0 + 2 ^ 64)) < 2 ^ 33 + 2 ^ 32).
  { pose proof (Z.sqrt_spec (4 * (n0 + 2 ^ 64)) ltac:(lia)) as [L' U'].
    assert (0 <= Z.sqrt (4 * (n0 + 2 ^ 64))) by apply Z.sqrt_nonneg. unfold word in Hn. nia. }
  split; [| lia]. destruct (Z.ltb_spec n0 sqrt_limit) as [Hlt | Hge].
  - pose proof (sqrt_correction n0 Hn ltac:(by apply Hlim)) as E. lia.
  - assert (root33 n0 = 12148001999) as Er by (destruct (decide (root33 n0 <= 12148001998)); [apply Hlim in l; lia | lia]).
    rewrite Er. change (12148001999 / 2) with 6074000999.
    assert (ER : Z.sqrt (4 * (n0 + 2 ^ 64)) = 12148001999).
    { apply Z.sqrt_unique. rewrite Er in L. unfold word in Hn. lia. }
    rewrite ER. change (u64 _) with 581896767. unfold sqrt_limit in Hge.
    rewrite (proj2 (Z.ltb_lt _ _)) by lia. lia.
Qed.

(** C28: The float trick is the exact root, except for the last 5,492,101,120 words:
    there [x2] is 2^64 too small and the result one too large. *)
Theorem int_sqrt_v2_exact n0 :
  word 64 n0 ->
  int_sqrt_v2 n0 = 1023 * 2 ^ 33 + sqrt33 n0 + (if n0 <? sqrt_limit then 0 else 1) /\ 0 <= sqrt33 n0 < 2 ^ 32.
Proof. apply int_sqrt_v2_value. Qed.

(** Two words around the limit; the second root is one too large. *)
Lemma int_sqrt_v2_exact_witness :
  (int_sqrt_v2 (sqrt_limit - 1) = 1023 * 2 ^ 33 + sqrt33 (sqrt_limit - 1) +
     (if sqrt_limit - 1 <? sqrt_limit then 0 else 1) /\ 0 <= sqrt33 (sqrt_limit - 1) < 2 ^ 32) /\
  int_sqrt_v2 (2 ^ 64 - 1) - 1023 * 2 ^ 33 = 3558067408 /\ sqrt33 (2 ^ 64 - 1) = 3558067407.
Proof.
  split; [apply (int_sqrt_v2_exact (sqrt_limit - 1)); unfold sqrt_limit, word; lia |].
  split; vm_compute; reflexivity.
Defined.

(** ** The integer mathematics of variant 2 *)

Lemma u64_shl32 x : u64 (Z.shiftl x 32) = Z.shiftl (u32 x) 32.
Proof.
  rewrite u64_mod, u32_mod, !Z.shiftl_mul_pow2 by lia.
  change (2 ^ 64) with (2 ^ 32 * 2 ^ 32). by rewrite Z.mul_mod_distr_r by lia.
Qed.

Lemma divisor_range x : word 32 x -> 2 ^ 31 <= Z.lor x 0x80000001 < 2 ^ 32.
Proof.
  intros Hx. assert (Hw : word 32 (Z.lor x 0x80000001)) by (apply word_lor; [lia | done | unfold word; lia]).
  split; [| apply Hw]. destruct (decide (2 ^ 31 <= Z.lor x 0x80000001)) as [| Hn]; [done | exfalso].
  assert (Ht : Z.testbit (Z.lor x 0x80000001) 31 = true) by (rewrite Z.lor_spec; apply orb_true_r).
  rewrite (word_testbit 31) in Ht; [done | lia | unfold word in *; lia | lia].
Qed.

(** The step of the reference: [sq] is the root of the last round, an exact
    32-bit number. *)
Definition integer_math (div sq cl cx0 cx1 : Z) : Z * Z * Z :=
  let d := Z.lor (u32 (cx0 + 2 * sq)) 0x80000001 in
  let div' := (cx1 / d) mod 2 ^ 32 + cx1 mod d * 2 ^ 32 in
  (Z.lxor cl (Z.lxor div (sq * 2 ^ 32)), div', sqrt33 (u64 (cx0 + div'))).

Lemma integer_math_value div sq cl cx :
  word 64 div -> word 64 cl -> vec cx ->
  exists sq',
    let '(cl1, div1, sq1) := integer_math div (u32 sq) cl cx.(lo64) cx.(hi64) in
    VARIANT2_INTEGER_MATH div sq cl cx = Some (cl1, div1, sq') /\
    word 64 cl1 /\ word 64 div1 /\ word 64 sq' /\
    (u64 (cx.(lo64) + div1) < sqrt_limit -> u32 sq' = sq1).
Proof.
  intros Hd Hc [H0 H1]. unfold integer_math, VARIANT2_INTEGER_MATH. rewrite u64_shl32.
  assert (Es : u32 (lo64 cx + u64 (Z.shiftl sq 1)) = u32 (lo64 cx + 2 * u32 sq)).
  { rewrite !u32_mod, u64_mod, Z.shiftl_mul_pow2 by lia. change (2 ^ 1) with 2.
    rewrite (Z.mod_eq (sq * 2)), (Z.mod_eq sq (2 ^ 32)) by lia.
    replace (lo64 cx + (sq * 2 - 2 ^ 64 * (sq * 2 / 2 ^ 64)))
      with (lo64 cx + sq * 2 + - (2 ^ 32 * (sq * 2 / 2 ^ 64)) * 2 ^ 32) by lia.
    replace (lo64 cx + 2 * (sq - 2 ^ 32 * (sq / 2 ^ 32)))
      with (lo64 cx + sq * 2 + - (2 * (sq / 2 ^ 32)) * 2 ^ 32) by lia. by rewrite !Z.mod_add by lia. }
  rewrite Es. pose proof (divisor_range _ (u32_word (lo64 cx + 2 * u32 sq))) as Hr.
  set (d := Z.lor _ _) in *. rewrite (proj2 (Z.eqb_neq d 0)) by lia. cbv zeta.
  pose proof (Z.mod_pos_bound (hi64 cx) d ltac:(lia)) as Hm.
  pose proof (Z.mod_pos_bound (hi64 cx / d) (2 ^ 32) ltac:(lia)) as Hq.
  set (v := (hi64 cx / d) mod 2 ^ 32 + hi64 cx mod d * 2 ^ 32). assert (Hv : word 64 v) by (subst v; unfold word; lia).
  assert (Ev : u64 (u32 (hi64 cx / d) + u64 (Z.shiftl (hi64 cx mod d) 32)) = v).
  { rewrite u64_shl32, (u32_small (hi64 cx mod d)), Z.shiftl_mul_pow2, u32_mod by (unfold word; lia). by apply u64_small. }
  rewrite Ev, Z.shiftl_mul_pow2 by lia.
  destruct (int_sqrt_v2_value (u64 (lo64 cx + v)) (u64_word _)) as [E R].
  eexists. split; [reflexivity |]. split; [| split; [done | split]].
  - pose proof (u32_word sq) as W. unfold word in W. apply word_lxor; [lia | done |].
    apply word_lxor; [lia | done | unfold word; lia].
  - rewrite E. destruct (_ <? sqrt_limit); unfold word; lia.
  - intros Hlt. rewrite E, (proj2 (Z.ltb_lt _ _)) by done. rewrite u32_mod, Z.add_0_r.
    replace (1023 * 2 ^ 33 + sqrt33 (u64 (lo64 cx + v))) with (sqrt33 (u64 (lo64 cx + v)) + 2046 * 2 ^ 32) by lia.
    rewrite Z.mod_add by lia. apply Z.mod_small. lia.
Qed.

(** The macro never divides by zero, computes the quotient and the remainder
    into one word, and its root is that of the reference in the 32 bits which
    are ever used, as long as the sum below the root is under the limit. *)
Theorem VARIANT2_INTEGER_MATH_spec div sq cl cx :
  word 64 div -> word 64 cl -> vec cx ->
  exists sq',
    let '(cl1, div1, sq1) := integer_math div (u32 sq) cl cx.(lo64) cx.(hi64) in
    VARIANT2_INTEGER_MATH div sq cl cx = Some (cl1, div1, sq') /\
    word 64 cl1 /\ word 64 div1 /\ word 64 sq' /\
    (u64 (cx.(lo64) + div1) < sqrt_limit -> u32 sq' = sq1).
Proof. apply integer_math_value. Qed.

Lemma VARIANT2_INTEGER_MATH_spec_witness (div := 0x0123456789ABCDEF) (sq := 0xFEDCBA9876543210) (cl := 7)
    (cx := M128 0x0F1E2D3C4B5A6978 0x8877665544332211) :
  exists sq',
    let '(cl1, div1, sq1) := integer_math div (u32 sq) cl cx.(lo64) cx.(hi64) in
    VARIANT2_INTEGER_MATH div sq cl cx = Some (cl1, div1, sq') /\
    word 64 cl1 /\ word 64 div1 /\ word 64 sq' /\
    (u64 (cx.(lo64) + div1) < sqrt_limit -> u32 sq' = sq1).
Proof.
  apply (VARIANT2_INTEGER_MATH_spec div sq cl cx); unfold div, cl, cx, vec, word; cbn [lo64 hi64]; lia.
Defined.
