(* ===== verification/KangarooTwelve.v ===== *)
(** * KangarooTwelve: [xmrig/crypto/randomx/panthera/KangarooTwelve.c]

    The tree hash over the 12-round sponge: streaming contexts with one node
    being filled ([queueNode]) and the final node that absorbs the chaining
    values.  The parallel back ends are macros of code that is not in the
    repository and are not compiled; the sequential path is modelled whole.
    [None] is a failed assertion of the sponge (proved not to happen). *)

From S2P Require Import Prelude Endian Streaming KeccakP KeccakSponge.

(** ** The code *)

Definition chunkSize : nat := Z.to_nat 8192.
Definition suffixLeaf : Z := 0x0B.
Definition k12_capacity : Z := 2 * 128.
Definition capacityInBytes : nat := 32.
Definition k12_rate : Z := 1600 - k12_capacity.

Inductive KCP_Phases := NOT_INITIALIZED | ABSORBING | FINAL | SQUEEZING.

#[export] Instance KCP_Phases_eq_dec : EqDecision KCP_Phases.
Proof. solve_decision. Defined.

Record KangarooTwelve_Instance := {
  queueNode : SpongeInstance; finalNode : SpongeInstance;
  fixedOutputLength : nat; blockNumber : Z; queueAbsorbedLen : Z; phase : KCP_Phases
}.

(** The first loop: the number of significant bytes, at most [sizeof(size_t)]. *)
Fixpoint significant_bytes (fuel : nat) (v : Z) : nat :=
  match fuel with
  | O => O
  | S fuel => if v =? 0 then O else S (significant_bytes fuel (Z.shiftr v 8))
  end.

Definition right_encode (value : Z) : list Z :=
  let n := significant_bytes 8 value in
  map (fun i => u8 (Z.shiftr value (8 * Z.of_nat (n - i)))) (seq 1 n) ++ [Z.of_nat n].

Section Setters.
Context (kt : KangarooTwelve_Instance).
Definition set_queue (node : SpongeInstance) : KangarooTwelve_Instance :=
  {| queueNode := node; finalNode := kt.(finalNode);
     fixedOutputLength := kt.(fixedOutputLength); blockNumber := kt.(blockNumber);
     queueAbsorbedLen := kt.(queueAbsorbedLen); phase := kt.(phase) |}.
Definition set_final (node : SpongeInstance) : KangarooTwelve_Instance :=
  {| queueNode := kt.(queueNode); finalNode := node;
     fixedOutputLength := kt.(fixedOutputLength); blockNumber := kt.(blockNumber);
     queueAbsorbedLen := kt.(queueAbsorbedLen); phase := kt.(phase) |}.
Definition set_counters (block queue : Z) : KangarooTwelve_Instance :=
  {| queueNode := kt.(queueNode); finalNode := kt.(finalNode);
     fixedOutputLength := kt.(fixedOutputLength); blockNumber := block;
     queueAbsorbedLen := queue; phase := kt.(phase) |}.
Definition set_phase (p : KCP_Phases) : KangarooTwelve_Instance :=
  {| queueNode := kt.(queueNode); finalNode := kt.(finalNode);
     fixedOutputLength := kt.(fixedOutputLength); blockNumber := kt.(blockNumber);
     queueAbsorbedLen := kt.(queueAbsorbedLen); phase := p |}.
End Setters.

(** [if (call(&node) != 0) return 1;] *)
Definition checked {A} (call : option (Z * SpongeInstance))
    (set : SpongeInstance -> KangarooTwelve_Instance)
    (fail : KangarooTwelve_Instance -> A) (next : KangarooTwelve_Instance -> option A) :
    option A :=
  '(code, node) ← call; if code =? 0 then next (set node) else Some (fail (set node)).

Section Update.
Context {A : Type} (fail : KangarooTwelve_Instance -> A).

(** The queue node is complete: its chaining value goes to the final node. *)
Definition finish_leaf (kt : KangarooTwelve_Instance)
    (next : KangarooTwelve_Instance -> option A) : option A :=
  checked (KeccakWidth1600_12rounds_SpongeAbsorbLastFewBits kt.(queueNode) suffixLeaf)
    (set_queue kt) fail (fun kt =>
  '(code, node, intermediate) ←
    KeccakWidth1600_12rounds_SpongeSqueeze kt.(queueNode) capacityInBytes;
  if code =? 0 then
    let kt := set_queue kt node in
    checked (KeccakWidth1600_12rounds_SpongeAbsorb kt.(finalNode) intermediate)
      (set_final kt) fail next
  else Some (fail (set_queue kt node))).

(** [while (inLen > 0)]: one chunk per iteration. *)
Fixpoint chunk_loop (fuel : nat) (kt : KangarooTwelve_Instance) (input : list Z)
    (next : KangarooTwelve_Instance -> option A) : option A :=
  match fuel with
  | O => None
  | S fuel =>
      if (length input =? 0)%nat then next kt
      else
        let len := if (length input <? chunkSize)%nat then length input else chunkSize in
        checked (Some (SpongeInitialize kt.(queueNode) k12_rate k12_capacity))
          (set_queue kt) fail (fun kt =>
        checked (KeccakWidth1600_12rounds_SpongeAbsorb kt.(queueNode) (take len input))
          (set_queue kt) fail (fun kt =>
        let input := drop len input in
        if (len =? chunkSize)%nat then
          finish_leaf (set_counters kt (u64 (kt.(blockNumber) + 1)) kt.(queueAbsorbedLen))
            (fun kt => chunk_loop fuel kt input next)
        else
          chunk_loop fuel (set_counters kt kt.(blockNumber) (Z.of_nat len)) input next))
  end.

(** What is left of the current node: [(inLen < space) ? inLen : space]. *)
Definition node_part (kt : KangarooTwelve_Instance) (input : list Z) : nat :=
  let space := u32 (Z.of_nat chunkSize - kt.(queueAbsorbedLen)) in
  if Z.of_nat (length input) <? space then length input else Z.to_nat space.

Definition update_body (kt : KangarooTwelve_Instance) (input : list Z)
    (next : KangarooTwelve_Instance -> option A) : option A :=
  let chunks kt input := chunk_loop (S (length input)) kt input next in
  if negb (bool_decide (kt.(phase) = ABSORBING)) then Some (fail kt)
  else if kt.(blockNumber) =? 0 then
    let len := node_part kt input in
    checked (KeccakWidth1600_12rounds_SpongeAbsorb kt.(finalNode) (take len input))
      (set_final kt) fail (fun kt =>
    let input := drop len input in
    let queue := u32 (kt.(queueAbsorbedLen) + Z.of_nat len) in
    if (queue =? Z.of_nat chunkSize) && negb (length input =? 0)%nat then
      let kt := set_counters kt 1 0 in
      checked (KeccakWidth1600_12rounds_SpongeAbsorb kt.(finalNode) [0x03])
        (set_final kt) fail (fun kt =>
      let node := kt.(finalNode) in
      chunks (set_final kt
        {| state := node.(state); rate := node.(rate);
           byteIOIndex := Z.land (u32 (node.(byteIOIndex) + 7)) (not32 7);
           squeezing := node.(squeezing) |}) input)
    else chunks (set_counters kt kt.(blockNumber) queue) input)
  else if negb (kt.(queueAbsorbedLen) =? 0) then
    let len := node_part kt input in
    checked (KeccakWidth1600_12rounds_SpongeAbsorb kt.(queueNode) (take len input))
      (set_queue kt) fail (fun kt =>
    let input := drop len input in
    let queue := u32 (kt.(queueAbsorbedLen) + Z.of_nat len) in
    if queue =? Z.of_nat chunkSize then
      finish_leaf (set_counters kt (u64 (kt.(blockNumber) + 1)) 0)
        (fun kt => chunks kt input)
    else chunks (set_counters kt kt.(blockNumber) queue) input)
  else chunks kt input.
End Update.

Definition KangarooTwelve_Initialize (kt : KangarooTwelve_Instance) (outputLen : nat) :
  Z * KangarooTwelve_Instance :=
  let '(code, node) := SpongeInitialize kt.(finalNode) k12_rate k12_capacity in
  (code, {| queueNode := kt.(queueNode); finalNode := node;
            fixedOutputLength := outputLen; blockNumber := 0; queueAbsorbedLen := 0;
            phase := ABSORBING |}).

(** The status and the instance. *)
Definition KangarooTwelve_Update (kt : KangarooTwelve_Instance) (input : list Z) :
  option (Z * KangarooTwelve_Instance) :=
  update_body (fun kt => (1, kt)) kt input (fun kt => Some (0, kt)).

(** The status, the instance and the bytes written to [output]. *)
Definition KangarooTwelve_Final (kt : KangarooTwelve_Instance) (customization : list Z) :
  option (Z * KangarooTwelve_Instance * list Z) :=
  let fail kt := (1, kt, []) in
  let customLen := length customization in
  if negb (bool_decide (kt.(phase) = ABSORBING)) then Some (fail kt)
  else
    let absorb kt input next :=
      '(code, kt) ← KangarooTwelve_Update kt input;
      if code =? 0 then next kt else Some (fail kt) in
    let pad kt padding :=
      checked (KeccakWidth1600_12rounds_SpongeAbsorbLastFewBits kt.(finalNode) padding)
        (set_final kt) fail (fun kt =>
      if negb (kt.(fixedOutputLength) =? 0)%nat then
        let kt := set_phase kt FINAL in
        '(code, node, output) ←
          KeccakWidth1600_12rounds_SpongeSqueeze kt.(finalNode) kt.(fixedOutputLength);
        Some (code, set_final kt node, output)
      else Some (0, set_phase kt SQUEEZING, [])) in
    let encode kt :=
      let kt := set_counters kt (u64 (kt.(blockNumber) - 1)) kt.(queueAbsorbedLen) in
      let encbuf := right_encode kt.(blockNumber) ++ [0xFF; 0xFF] in
      checked (KeccakWidth1600_12rounds_SpongeAbsorb kt.(finalNode) encbuf)
        (set_final kt) fail (fun kt => pad kt 0x06) in
    let encoded kt :=
      absorb kt (right_encode (Z.of_nat customLen)) (fun kt =>
      if kt.(blockNumber) =? 0 then pad kt 0x07
      else if negb (kt.(queueAbsorbedLen) =? 0) then
        finish_leaf fail (set_counters kt (u64 (kt.(blockNumber) + 1)) kt.(queueAbsorbedLen)) encode
      else encode kt) in
    if negb (customLen =? 0)%nat then absorb kt customization encoded else encoded kt.

Definition KangarooTwelve_Squeeze (kt : KangarooTwelve_Instance) (outputLen : nat) :
  option (Z * KangarooTwelve_Instance * list Z) :=
  if negb (bool_decide (kt.(phase) = SQUEEZING)) then Some (1, kt, [])
  else
    '(code, node, output) ← KeccakWidth1600_12rounds_SpongeSqueeze kt.(finalNode) outputLen;
    Some (code, set_final kt node, output).

(** The one-call function starts from an uninitialised instance [kt]. *)
Definition KangarooTwelve (kt : KangarooTwelve_Instance) (input : list Z) (outLen : nat)
    (customization : list Z) : option (Z * list Z) :=
  if (outLen =? 0)%nat then Some (1, [])
  else
    let '(code, kt) := KangarooTwelve_Initialize kt outLen in
    if negb (code =? 0) then Some (1, [])
    else
      '(code, kt) ← KangarooTwelve_Update kt input;
      if negb (code =? 0) then Some (1, [])
      else
        '(code, _, output) ← KangarooTwelve_Final kt customization;
        Some (code, output).

(** ** The specification *)

Module K12.
Abbreviation P := KeccakP1600_Permute_12rounds.
(** TurboSHAKE-like sponge at a rate of 168 bytes. *)
Definition F (m : list Z) (d : Z) (from n : nat) : list Z := sponge_output P 168 m d from n.

Definition byte_length (x : Z) : nat := if x =? 0 then O else Z.to_nat (Z.log2 x / 8 + 1).
Definition encode (x : Z) : list Z :=
  be_bytes (byte_length x) x ++ [Z.of_nat (byte_length x)].

Definition ceil_chunks (n : nat) : nat := ((n + chunkSize - 1) / chunkSize)%nat.
Definition chaining_value (chunk : list Z) : list Z := F chunk suffixLeaf 0 capacityInBytes.

(** The node hop of a message longer than one chunk. *)
Definition final_node (S : list Z) : list Z :=
  let leaves := drop chunkSize S in
  let n := ceil_chunks (length leaves) in
  take chunkSize S ++ [0x03; 0; 0; 0; 0; 0; 0; 0]
  ++ concat (map chaining_value (pieces chunkSize n leaves))
  ++ encode (Z.of_nat n) ++ [0xFF; 0xFF].

(** Output bytes [from .. from + n) of KangarooTwelve(M, C). *)
Definition k12 (M C : list Z) (from n : nat) : list Z :=
  let S := M ++ C ++ encode (Z.of_nat (length C)) in
  if (length S <=? chunkSize)%nat then F S 0x07 from n else F (final_node S) 0x06 from n.
End K12.

(** ** The length encoding *)

Lemma log2_shiftr8 v : 0 < v -> 256 <= v -> Z.log2 v / 8 = Z.log2 (Z.shiftr v 8) / 8 + 1.
Proof.
  intros Hv H256. rewrite Z.log2_shiftr by lia.
  assert (8 <= Z.log2 v) by (apply (Z.log2_le_mono 256); lia).
  rewrite Z.max_r by lia. replace (Z.log2 v) with (Z.log2 v - 8 + 1 * 8) at 1 by lia.
  rewrite Z.div_add by lia. done.
Qed.

Lemma significant_bytes_spec fuel v :
  0 <= v < 2 ^ (8 * Z.of_nat fuel) -> significant_bytes fuel v = K12.byte_length v.
Proof.
  revert v. induction fuel as [| fuel IH]; intros v Hv.
  - assert (v = 0) as -> by (cbn in Hv; lia). done.
  - cbn [significant_bytes]. unfold K12.byte_length.
    destruct (Z.eqb_spec v 0) as [| Hv0]; [done |].
    assert (0 <= Z.shiftr v 8 < 2 ^ (8 * Z.of_nat fuel)) as Hs.
    { rewrite Z.shiftr_div_pow2 by lia. split; [apply Z.div_pos; lia |].
      apply Z.div_lt_upper_bound; [lia |]. rewrite <- Z.pow_add_r by lia.
      replace (8 + 8 * Z.of_nat fuel) with (8 * Z.of_nat (S fuel)) by lia. lia. }
    rewrite IH by done. unfold K12.byte_length.
    destruct (Z.eqb_spec (Z.shiftr v 8) 0) as [H0 | H0].
    + assert (v < 256) as Hlt.
      { rewrite Z.shiftr_div_pow2 in H0 by lia. apply Z.div_small_iff in H0; lia. }
      assert (0 <= Z.log2 v < 8) by (split; [apply Z.log2_nonneg | apply Z.log2_lt_pow2; lia]).
      by rewrite Z.div_small by lia.
    + assert (256 <= v) as Hge.
      { destruct (Z.lt_ge_cases v 256); [| done]. exfalso. apply H0.
        rewrite Z.shiftr_div_pow2 by lia. apply Z.div_small. lia. }
      rewrite (log2_shiftr8 v) by lia.
      assert (0 <= Z.log2 (Z.shiftr v 8) / 8) by (apply Z.div_pos; [apply Z.log2_nonneg | lia]).
      lia.
Qed.

Lemma byte_length_le v fuel : 0 <= v < 2 ^ (8 * Z.of_nat fuel) -> (K12.byte_length v <= fuel)%nat.
Proof.
  intros Hv. rewrite <- (significant_bytes_spec fuel) by done. clear Hv. revert v.
  induction fuel as [| fuel IH]; intros v; cbn; [lia |]. destruct (v =? 0); [lia |].
  specialize (IH (Z.shiftr v 8)). lia.
Qed.

Lemma be_bytes_shifts n x :
  map (fun i => u8 (Z.shiftr x (8 * Z.of_nat (n - i)))) (seq 1 n) = be_bytes n x.
Proof.
  unfold be_bytes. revert x. induction n as [| n IH]; intros x; [done |].
  cbn [le_bytes rev]. rewrite seq_S, map_app, <- IH. f_equal.
  - apply map_ext_in. intros i Hi%in_seq. f_equal.
    change 256 with (2 ^ 8). rewrite <- Z.shiftr_div_pow2, Z.shiftr_shiftr by lia.
    f_equal. lia.
  - cbn [map]. replace (S n - (1 + n))%nat with 0%nat by lia. rewrite Z.shiftr_0_r.
    by rewrite u8_mod.
Qed.

Lemma right_encode_spec x : 0 <= x < 2 ^ 64 -> right_encode x = K12.encode x.
Proof.
  intros Hx. unfold right_encode. rewrite significant_bytes_spec by done.
  by rewrite be_bytes_shifts.
Qed.

(** The encoding is uniquely decodable from the right: the last byte is the
    length of the number before it. *)
Lemma encode_inj x y s t :
  0 <= x < 2 ^ 64 -> 0 <= y < 2 ^ 64 -> s ++ K12.encode x = t ++ K12.encode y -> s = t /\ x = y.
Proof.
  intros Hx Hy. unfold K12.encode. rewrite !app_assoc. intros [Hn Hl]%app_inj_tail.
  apply Nat2Z.inj in Hl. rewrite Hl in Hn.
  apply app_inj_2 in Hn as [-> Hb]; [| by rewrite !length_be_bytes].
  split; [done |]. assert (Hw : forall z, 0 <= z < 2 ^ 64 -> z = be_word (be_bytes (K12.byte_length z) z)).
  { intros z Hz. rewrite be_word_be_bytes. symmetry. apply Z.mod_small. split; [lia |].
    unfold K12.byte_length. destruct (Z.eqb_spec z 0) as [-> | Hz0]; [done |].
    assert (0 <= Z.log2 z / 8) by (apply Z.div_pos; [apply Z.log2_nonneg | lia]).
    rewrite Z2Nat.id by lia. eapply Z.lt_le_trans; [apply Z.log2_spec; lia |].
    apply Z.pow_le_mono_r; [lia |]. pose proof (Z.mod_pos_bound (Z.log2 z) 8).
    pose proof (Z.div_mod (Z.log2 z) 8). lia. }
  rewrite (Hw x Hx), (Hw y Hy), Hl. by rewrite Hb.
Qed.

(** ** The nodes *)

Abbreviation node_repr := (sponge_repr KeccakP1600_Permute_12rounds 168).
Abbreviation output_repr := (squeeze_repr KeccakP1600_Permute_12rounds 168).

Lemma rate168 : (0 < 168 <= 200)%nat.
Proof. lia. Qed.

Lemma node_init i :
  exists i', SpongeInitialize i k12_rate k12_capacity = (0, i') /\ node_repr i' [].
Proof.
  pose proof (SpongeInitialize_spec KeccakP1600_Permute_12rounds 168 rate168 i) as H.
  change (8 * Z.of_nat 168) with k12_rate in H. change (1600 - k12_rate) with k12_capacity in H.
  destruct (SpongeInitialize i k12_rate k12_capacity) as [code i']. destruct H as [-> H].
  by exists i'.
Qed.

Lemma node_absorb i m d :
  node_repr i m -> bytes d -> Z.of_nat (length d) < 2 ^ 31 ->
  exists i', KeccakWidth1600_12rounds_SpongeAbsorb i d = Some (0, i') /\ node_repr i' (m ++ d).
Proof.
  intros Hi Hd Hl. apply SpongeAbsorb_spec; [apply Permute12_state200 | lia | done.. | lia].
Qed.

Lemma node_last i m d :
  node_repr i m -> 0 < d < 256 ->
  exists i', KeccakWidth1600_12rounds_SpongeAbsorbLastFewBits i d = Some (0, i') /\
    output_repr i' (absorbed KeccakP1600_Permute_12rounds 168 (padded 168 m d)) 0.
Proof. apply SpongeAbsorbLastFewBits_spec; [apply Permute12_state200 | lia]. Qed.

Lemma node_squeeze i m d n len :
  output_repr i (absorbed KeccakP1600_Permute_12rounds 168 (padded 168 m d)) n ->
  Z.of_nat len < 2 ^ 31 ->
  exists i', KeccakWidth1600_12rounds_SpongeSqueeze i len = Some (0, i', K12.F m d n len) /\
    output_repr i' (absorbed KeccakP1600_Permute_12rounds 168 (padded 168 m d)) (n + len).
Proof.
  intros Hi Hl. apply SpongeSqueeze_spec; [apply Permute12_state200 | lia | done | lia].
Qed.

#[local] Opaque KeccakP1600_Permute_12rounds KeccakWidth1600_12rounds_SpongeAbsorb
  KeccakWidth1600_12rounds_SpongeAbsorbLastFewBits KeccakWidth1600_12rounds_SpongeSqueeze.

Lemma squeezed_byte s i : state200 s -> is_byte (squeezed KeccakP1600_Permute_12rounds 168 s i).
Proof.
  intros Hs. unfold squeezed. apply word_nth; [lia |].
  apply (iter_state KeccakP1600_Permute_12rounds Permute12_state200 (i / 168) s Hs).
Qed.

Lemma F_bytes m d from n :
  bytes m -> is_byte d -> bytes (K12.F m d from n).
Proof.
  intros Hm Hd. unfold K12.F, sponge_output. apply Forall_map, List.Forall_forall. intros i _.
  apply squeezed_byte.
  apply (absorbed_state _ 168 Permute12_state200 rate168). unfold padded.
  destruct (_ && _).
  - repeat apply bytes_app; auto using bytes_replicate; by forall_words.
  - apply bytes_app; [done |]. apply bytes_xor_at.
    + apply Forall_cons_2; [done | by apply bytes_replicate].
    + by forall_words.
    + pose proof (Nat.mod_upper_bound (length m) 168). cbn [length]. rewrite length_replicate. lia.
Qed.

Lemma F_length m d from n : length (K12.F m d from n) = n.
Proof. unfold K12.F, sponge_output. by rewrite length_map, length_seq. Qed.

Lemma F_app m d from a b : K12.F m d from a ++ K12.F m d (from + a) b = K12.F m d from (a + b).
Proof. unfold K12.F, sponge_output. by rewrite seq_app, map_app. Qed.

Lemma chunkSize_Z : Z.of_nat chunkSize = 8192.
Proof. done. Qed.
#[local] Opaque chunkSize.

Lemma chaining_value_bytes chunk : bytes chunk -> bytes (K12.chaining_value chunk).
Proof. intros Hc. unfold K12.chaining_value. apply F_bytes; [exact Hc | unfold suffixLeaf, word; lia]. Qed.

Lemma chaining_value_F chunk : K12.F chunk suffixLeaf 0 capacityInBytes = K12.chaining_value chunk.
Proof. reflexivity. Qed.

Lemma length_chaining_value chunk : length (K12.chaining_value chunk) = 32%nat.
Proof. unfold K12.chaining_value. apply F_length. Qed.

#[local] Opaque K12.chaining_value K12.F absorbed sponge_output.

(** ** The tree of a message longer than a chunk, incrementally *)

(** What the final node holds once the complete chunks of [leaves] are hashed. *)
Definition absorb_leaf (node chunk : list Z) : list Z := node ++ K12.chaining_value chunk.
Definition first_node (S0 : list Z) : list Z := S0 ++ [0x03; 0; 0; 0; 0; 0; 0; 0].
Definition tree_node (S0 leaves : list Z) : list Z :=
  absorb_all absorb_leaf chunkSize (first_node S0) leaves.

(** The instance after the first chunk [S0] and the bytes [leaves]. *)
Record tree_repr (kt : KangarooTwelve_Instance) (o : nat) (S0 leaves : list Z) : Prop := {
  tr_fixed : kt.(fixedOutputLength) = o;
  tr_S0 : bytes S0 /\ length S0 = chunkSize;
  tr_leaves : bytes leaves;
  tr_phase : kt.(phase) = ABSORBING;
  tr_final : node_repr kt.(finalNode) (tree_node S0 leaves);
  tr_block : kt.(blockNumber) = u64 (1 + Z.of_nat (length leaves / chunkSize));
  tr_count : kt.(queueAbsorbedLen) = Z.of_nat (length (rest chunkSize leaves));
  tr_queue : rest chunkSize leaves <> [] -> node_repr kt.(queueNode) (rest chunkSize leaves)
}.

Lemma chunk_pos : (0 < chunkSize)%nat.
Proof. pose proof chunkSize_Z. lia. Qed.

Lemma tree_node_bytes S0 leaves : bytes S0 -> bytes leaves -> bytes (tree_node S0 leaves).
Proof.
  intros HS Hl. apply (absorb_all_inv (Forall is_byte)); [apply chunk_pos | | | done].
  - intros node chunk Hn Hc _. apply bytes_app; [done | by apply chaining_value_bytes].
  - apply bytes_app; [done |]. by forall_words.
Qed.

Section Steps.
Context {A : Type} (fail : KangarooTwelve_Instance -> A).

Lemma checked_ok call set next node :
  call = Some (0, node) -> checked call set fail next = next (set node).
Proof. by intros ->. Qed.

Lemma finish_leaf_spec kt chunk m next :
  node_repr kt.(queueNode) chunk -> node_repr kt.(finalNode) m ->
  exists q f, finish_leaf fail kt next = next (set_final (set_queue kt q) f) /\
    node_repr f (m ++ K12.chaining_value chunk).
Proof.
  intros Hq Hf. unfold finish_leaf.
  destruct (node_last _ chunk suffixLeaf Hq ltac:(done)) as (q1 & Hq1 & Hr1).
  rewrite (checked_ok _ _ _ q1) by done. cbn [set_queue queueNode finalNode].
  destruct (node_squeeze q1 chunk suffixLeaf 0 capacityInBytes Hr1 ltac:(done)) as (q2 & -> & _).
  cbn [mbind option_bind Z.eqb]. rewrite chaining_value_F.
  destruct (node_absorb (finalNode kt) m (K12.chaining_value chunk) Hf) as (f & Hf1 & Hf2);
    [apply chaining_value_bytes, (sp_bytes _ _ _ _ Hq) | by rewrite length_chaining_value |].
  rewrite (checked_ok _ _ _ f) by done. by exists q2, f.
Qed.

(** A complete node: [d] fills the last chunk of [leaves]. *)
Lemma fill_chunk leaves d :
  length (rest chunkSize leaves ++ d) = chunkSize ->
  (length (leaves ++ d) / chunkSize = length leaves / chunkSize + 1)%nat /\
  rest chunkSize (leaves ++ d) = [] /\
  forall S0, tree_node S0 (leaves ++ d)
    = absorb_leaf (tree_node S0 leaves) (rest chunkSize leaves ++ d).
Proof.
  intros Hc. pose proof chunk_pos as Hpos. rewrite length_app, length_rest in Hc by lia.
  pose proof (Nat.div_mod_eq (length leaves) chunkSize) as Hdm. split.
  { symmetry. apply (Nat.div_unique _ _ _ 0); [lia |]. rewrite length_app. nia. }
  assert (Hsmall : rest chunkSize [] = []) by (apply rest_small; [lia | cbn; lia]).
  assert (Hfill : forall S0, tree_node S0 (leaves ++ d)
      = absorb_leaf (tree_node S0 leaves) (rest chunkSize leaves ++ d) /\
      rest chunkSize (leaves ++ d) = []).
  { intros S0. unfold tree_node.
    destruct (absorb_all_fill absorb_leaf chunkSize Hpos (first_node S0) leaves d) as [-> ->];
      rewrite length_rest by lia; [lia |].
    rewrite take_ge, drop_ge by lia. rewrite Hsmall, absorb_all_small by (cbn; lia).
    split; reflexivity. }
  split; [apply (Hfill []) | intros; apply Hfill].
Qed.

Lemma whole_app leaves d :
  rest chunkSize leaves = [] -> rest chunkSize (leaves ++ d) = rest chunkSize d /\
  forall S0, tree_node S0 (leaves ++ d)
    = absorb_all absorb_leaf chunkSize (tree_node S0 leaves) d.
Proof.
  intros Hr. pose proof chunk_pos. rewrite rest_app, Hr by lia. split; [done |]. intros S0.
  unfold tree_node. by rewrite absorb_all_app, Hr by lia.
Qed.

(** A complete leaf was hashed into the final node. *)
Lemma leaf_complete kt o S0 leaves d :
  tree_repr kt o S0 leaves -> bytes d -> length (rest chunkSize leaves ++ d) = chunkSize ->
  forall kt', kt'.(fixedOutputLength) = kt.(fixedOutputLength) ->
  kt'.(phase) = kt.(phase) -> kt'.(blockNumber) = u64 (kt.(blockNumber) + 1) ->
  kt'.(queueAbsorbedLen) = 0 ->
  node_repr kt'.(finalNode)
    (tree_node S0 leaves ++ K12.chaining_value (rest chunkSize leaves ++ d)) ->
  tree_repr kt' o S0 (leaves ++ d) /\ rest chunkSize (leaves ++ d) = [].
Proof.
  intros [Hfix HS Hlv Hph Hfin Hblk Hcnt Hque] Hd Hl kt' H1 H2 H3 H4 H5.
  destruct (fill_chunk leaves d Hl) as (Hc & Hra & Htn). split; [| done].
  split; rewrite ?Hra; try assumption; try congruence.
  - by apply bytes_app.
  - rewrite Htn. exact H5.
  - rewrite H3, Hblk, u64_add_l, Hc. f_equal. lia.
Qed.

Lemma chunk_loop_spec fuel kt o S0 leaves input next :
  (length input < fuel)%nat -> tree_repr kt o S0 leaves -> rest chunkSize leaves = [] ->
  bytes input ->
  exists kt', chunk_loop fail fuel kt input next = next kt' /\
    tree_repr kt' o S0 (leaves ++ input).
Proof.
  revert kt leaves input. induction fuel as [| fuel IH]; intros kt leaves input Hf Ht Hr Hb; [lia |].
  cbn [chunk_loop]. destruct (Nat.eqb_spec (length input) 0) as [H0 | H0].
  { exists kt. destruct input; [| done]. by rewrite app_nil_r. }
  pose proof chunk_pos. pose proof chunkSize_Z.
  destruct (node_init (queueNode kt)) as (q0 & -> & Hq0).
  rewrite (checked_ok _ _ _ q0) by done. cbn [set_queue queueNode].
  set (len := if (length input <? chunkSize)%nat then length input else chunkSize).
  assert (Hlen : (len <= length input /\ len <= chunkSize)%nat)
    by (unfold len; destruct (Nat.ltb_spec (length input) chunkSize); lia).
  destruct (node_absorb q0 [] (take len input) Hq0) as (q1 & Hq1 & Hr1);
    [by apply Forall_take | rewrite length_take; lia |]. cbn [app] in Hr1.
  rewrite (checked_ok _ _ _ q1) by done. set (kt1 := set_queue _ q1).
  destruct (Nat.eqb_spec len chunkSize) as [He | He].
  - set (kt2 := set_counters kt1 _ _).
    destruct (finish_leaf_spec kt2 (take len input) (tree_node S0 leaves)
      (fun kt => chunk_loop fail fuel kt (drop len input) next)) as (q & f & -> & Hf2);
      [done | apply (tr_final _ _ _ _ Ht) |].
    set (kt3 := set_final _ f).
    assert (Ht3 : tree_repr kt3 o S0 (leaves ++ take len input) /\
      rest chunkSize (leaves ++ take len input) = []).
    { apply (leaf_complete kt); rewrite ?Hr; try assumption; try reflexivity.
      - by apply Forall_take.
      - cbn [app]. rewrite length_take. lia.
      - change (queueAbsorbedLen kt = 0). by rewrite (tr_count _ _ _ _ Ht), Hr. }
    destruct Ht3 as [Ht3 Hr3].
    destruct (IH kt3 (leaves ++ take len input) (drop len input)) as (kt' & -> & Hkt').
    + rewrite length_drop. lia.
    + exact Ht3.
    + exact Hr3.
    + by apply Forall_drop.
    + exists kt'. rewrite <- app_assoc, take_drop in Hkt'. split; [reflexivity | exact Hkt'].
  - assert (Hs : len = length input /\ (length input < chunkSize)%nat)
      by (unfold len in *; destruct (Nat.ltb_spec (length input) chunkSize); lia).
    destruct Hs as [Hs Hlt]. rewrite Hs, take_ge, drop_ge in * by lia.
    destruct fuel as [| fuel']; [lia |]. cbn [chunk_loop length Nat.eqb].
    eexists. split; [done |]. destruct (whole_app leaves input Hr) as [Hra Htn].
    destruct Ht as [Hfix HS Hlv Hph Hfin Hblk Hcnt Hque].
    rewrite (rest_small _ chunk_pos input) in Hra by lia. split; rewrite ?Hra;
      cbn [set_counters set_queue kt1 queueNode finalNode fixedOutputLength blockNumber
        queueAbsorbedLen phase]; try assumption; try reflexivity.
    + by apply bytes_app.
    + by rewrite Htn, absorb_all_small by lia.
    + rewrite Hblk. do 3 f_equal. rewrite length_app.
      assert (length leaves = chunkSize * (length leaves / chunkSize))%nat as Hl.
      { pose proof (length_rest chunkSize ltac:(lia) leaves) as Hlr. rewrite Hr in Hlr. cbn in Hlr.
        pose proof (Nat.div_mod_eq (length leaves) chunkSize). lia. }
      rewrite Hl at 2. rewrite Nat.mul_comm, Nat.div_add_l by lia.
      rewrite (Nat.div_small (length input)) by lia. lia.
    + intros _. exact Hr1.
Qed.

(** ** [KangarooTwelve_Update] *)

(** The instance stands for the input string [S] absorbed so far. *)
Definition k12_repr (kt : KangarooTwelve_Instance) (o : nat) (S : list Z) : Prop :=
  ((length S <= chunkSize)%nat /\ kt.(fixedOutputLength) = o /\ kt.(phase) = ABSORBING /\
   kt.(blockNumber) = 0 /\ kt.(queueAbsorbedLen) = Z.of_nat (length S) /\
   node_repr kt.(finalNode) S) \/
  ((chunkSize < length S)%nat /\ tree_repr kt o (take chunkSize S) (drop chunkSize S)).

Lemma node_part_spec kt input q :
  kt.(queueAbsorbedLen) = Z.of_nat q -> (q <= chunkSize)%nat ->
  node_part kt input = (length input `min` (chunkSize - q))%nat.
Proof.
  intros Hq Hle. pose proof chunkSize_Z. unfold node_part.
  rewrite Hq, u32_small by (unfold word; lia).
  destruct (Z.ltb_spec (Z.of_nat (length input)) (Z.of_nat chunkSize - Z.of_nat q)); lia.
Qed.

(** Moving [byteIOIndex] over seven bytes is absorbing seven zeroes. *)
Lemma node_skip i m :
  node_repr i m -> (length m mod 168 = 129)%nat ->
  node_repr {| state := i.(state); rate := i.(rate);
    byteIOIndex := Z.land (u32 (i.(byteIOIndex) + 7)) (not32 7);
    squeezing := i.(squeezing) |} (m ++ replicate 7 0).
Proof.
  intros Hi Hl. pose proof (sp_bytes _ _ _ _ Hi) as Hm.
  destruct (absorb_all_nofill (sponge_step KeccakP1600_Permute_12rounds) 168 ltac:(lia)
    (replicate 200 0) m (replicate 7 0)) as [Ha Hr];
    [rewrite length_rest, length_replicate by lia; lia |].
  pose proof (absorbed_state _ 168 Permute12_state200 rate168 m Hm) as [Hsl _].
  split; cbn [state rate byteIOIndex squeezing].
  - apply bytes_app; [done | by apply bytes_replicate].
  - apply (sp_rate _ _ _ _ Hi).
  - rewrite Ha, Hr, (sp_state _ _ _ _ Hi).
    rewrite <- (xor_at_app 0);
      rewrite ?length_app, ?length_rest, ?length_replicate, ?Hsl by lia; [| lia].
    rewrite xor_at_zeroes; [done |].
    rewrite length_xor_at; rewrite ?length_rest, Hsl by lia; lia.
  - rewrite (sp_index _ _ _ _ Hi), Hl, length_app, length_replicate.
    rewrite <- Nat.Div0.add_mod_idemp_l, Hl. done.
  - apply (sp_phase _ _ _ _ Hi).
Qed.
End Steps.

Section UpdateSpec.
Context {A : Type} (fail : KangarooTwelve_Instance -> A).

Lemma chunk_loop_nil fuel kt next : chunk_loop fail (S fuel) kt [] next = next kt.
Proof. reflexivity. Qed.

(** The first chunk is complete and there is more input: the marker goes in,
    and the tree starts with no leaves. *)
Lemma start_tree kt o S0 next input :
  kt.(fixedOutputLength) = o -> kt.(phase) = ABSORBING ->
  node_repr kt.(finalNode) S0 -> length S0 = chunkSize -> bytes input ->
  exists kt', checked (KeccakWidth1600_12rounds_SpongeAbsorb
        (set_counters kt 1 0).(finalNode) [0x03]) (set_final (set_counters kt 1 0)) fail
      (fun kt => let node := kt.(finalNode) in
       chunk_loop fail (S (length input)) (set_final kt
         {| state := node.(state); rate := node.(rate);
            byteIOIndex := Z.land (u32 (node.(byteIOIndex) + 7)) (not32 7);
            squeezing := node.(squeezing) |}) input next) = next kt' /\
    tree_repr kt' o S0 input.
Proof.
  intros Hfix Hph Hn Hl Hb. pose proof chunkSize_Z as Hcz. pose proof chunk_pos as Hpos.
  destruct (node_absorb (finalNode kt) S0 [0x03] Hn ltac:(by forall_words) ltac:(done))
    as (f & Hf & Hrf).
  rewrite (checked_ok fail _ _ _ f) by exact Hf. cbv zeta.
  assert (Hmod : (length (S0 ++ [0x03%Z]) mod 168 = 129)%nat).
  { rewrite length_app, Hl. cbn [length]. apply Nat2Z.inj.
    rewrite Nat2Z.inj_mod, Nat2Z.inj_add, Hcz. done. }
  pose proof (node_skip f _ Hrf Hmod) as Hskip. rewrite <- app_assoc in Hskip.
  set (kt1 := set_final _ _). apply (chunk_loop_spec fail _ kt1 o S0 [] input);
    [lia | | apply rest_small; [lia | cbn; lia] | exact Hb].
  assert (Hr0 : rest chunkSize [] = []) by (apply rest_small; [lia | cbn; lia]).
  split; rewrite ?Hr0; try assumption; try reflexivity.
  - split; [apply (sp_bytes _ _ _ _ Hn) | exact Hl].
  - apply Forall_nil_2.
  - intros H. by destruct H.
Qed.

Lemma update_first kt o S d next :
  (length S <= chunkSize)%nat -> kt.(fixedOutputLength) = o -> kt.(phase) = ABSORBING ->
  kt.(blockNumber) = 0 -> kt.(queueAbsorbedLen) = Z.of_nat (length S) ->
  node_repr kt.(finalNode) S -> bytes d ->
  exists kt', update_body fail kt d next = next kt' /\ k12_repr kt' o (S ++ d).
Proof.
  intros Hl Hfix Hph Hblk Hq Hn Hd. pose proof chunkSize_Z as Hcz. unfold update_body.
  rewrite bool_decide_eq_true_2, Hblk by done. cbn [negb Z.eqb].
  rewrite (node_part_spec kt d (length S)) by done.
  set (len := (length d `min` (chunkSize - length S))%nat).
  assert (Ht : length (take len d) = len) by (rewrite length_take; lia).
  destruct (node_absorb (finalNode kt) S (take len d) Hn) as (f & Hf & Hrf);
    [by apply Forall_take | rewrite Ht; lia |].
  rewrite (checked_ok fail _ _ _ f) by exact Hf.
  cbn [set_final queueAbsorbedLen blockNumber]. rewrite Hq, u32_small by (unfold word; lia).
  destruct (_ && _) eqn:Hcond.
  - apply andb_true_iff in Hcond as [Hfull%Z.eqb_eq Hmore].
    apply negb_true_iff, Nat.eqb_neq in Hmore. rewrite length_drop in Hmore.
    destruct (start_tree (set_final kt f) o (S ++ take len d) next (drop len d))
      as (kt' & He & Hkt'); try assumption; [rewrite length_app; lia | by apply Forall_drop |].
    exists kt'. split; [exact He |]. right. rewrite length_app. split; [lia |].
    replace (S ++ d) with ((S ++ take len d) ++ drop len d) by by rewrite <- app_assoc, take_drop.
    rewrite take_app_length' by (rewrite length_app; lia).
    by rewrite drop_app_length' by (rewrite length_app; lia).
  - assert (Hall : len = length d).
    { apply andb_false_iff in Hcond as [Hc%Z.eqb_neq | Hc%negb_false_iff%Nat.eqb_eq];
        [lia |]. rewrite length_drop in Hc. lia. }
    rewrite Hall, drop_ge, take_ge in * by lia. rewrite chunk_loop_nil. eexists.
    split; [done |]. left. rewrite length_app.
    cbn [set_counters set_final finalNode fixedOutputLength blockNumber queueAbsorbedLen phase].
    repeat (split; [first [assumption | lia] |]). assumption.
Qed.

Lemma tree_aligned kt o S0 leaves :
  tree_repr kt o S0 leaves -> kt.(queueAbsorbedLen) = 0 -> rest chunkSize leaves = [].
Proof.
  intros Ht Hq. apply nil_length_inv. pose proof (tr_count _ _ _ _ Ht) as Hc. lia.
Qed.

(** The queue node is being filled. *)
Lemma update_queue kt o S0 leaves d next :
  tree_repr kt o S0 leaves -> kt.(queueAbsorbedLen) <> 0 -> bytes d ->
  let len := node_part kt d in
  exists kt', checked (KeccakWidth1600_12rounds_SpongeAbsorb kt.(queueNode) (take len d))
      (set_queue kt) fail (fun kt =>
    let input := drop len d in
    let queue := u32 (kt.(queueAbsorbedLen) + Z.of_nat len) in
    if queue =? Z.of_nat chunkSize then
      finish_leaf fail (set_counters kt (u64 (kt.(blockNumber) + 1)) 0)
        (fun kt => chunk_loop fail (S (length input)) kt input next)
    else chunk_loop fail (S (length input)) (set_counters kt kt.(blockNumber) queue) input next)
    = next kt' /\ tree_repr kt' o S0 (leaves ++ d).
Proof.
  intros Ht Hq0 Hd len. pose proof chunkSize_Z as Hcz. pose proof chunk_pos as Hpos.
  pose proof (tr_count _ _ _ _ Ht) as Hq. set (q := length (rest chunkSize leaves)) in *.
  assert (Hqlt : (q < chunkSize)%nat) by (apply rest_lt; lia).
  assert (Hlen : len = (length d `min` (chunkSize - q))%nat) by (apply node_part_spec; [exact Hq | lia]).
  assert (Htl : length (take len d) = len) by (rewrite length_take; lia).
  assert (Hne : rest chunkSize leaves <> []) by (intros He; unfold q in *; rewrite He in *; cbn in *; lia).
  destruct (node_absorb (queueNode kt) _ (take len d) (tr_queue _ _ _ _ Ht Hne)) as (n & Hn & Hrn);
    [by apply Forall_take | rewrite Htl; lia |].
  rewrite (checked_ok fail _ _ _ n) by exact Hn. cbv zeta.
  cbn [set_queue queueAbsorbedLen blockNumber]. rewrite Hq, u32_small by (unfold word; lia).
  destruct (Z.eqb_spec (Z.of_nat q + Z.of_nat len) (Z.of_nat chunkSize)) as [Hfull | Hpart].
  - set (kt1 := set_counters _ _ _).
    destruct (finish_leaf_spec fail kt1 (rest chunkSize leaves ++ take len d) (tree_node S0 leaves)
      (fun kt => chunk_loop fail (S (length (drop len d))) kt (drop len d) next))
      as (q' & f & -> & Hf2); [exact Hrn | exact (tr_final _ _ _ _ Ht) |].
    set (kt2 := set_final _ f).
    destruct (leaf_complete kt o S0 leaves (take len d) Ht) with (kt' := kt2) as [Ht2 Hr2];
      try reflexivity; try assumption; [by apply Forall_take | rewrite length_app; fold q; lia |].
    destruct (chunk_loop_spec fail (S (length (drop len d))) kt2 o S0 _ (drop len d) next
      ltac:(lia) Ht2 Hr2) as (kt' & -> & Hkt'); [by apply Forall_drop |].
    exists kt'. split; [reflexivity |]. by rewrite <- app_assoc, take_drop in Hkt'.
  - assert (Hall : len = length d) by lia. rewrite Hall, drop_ge, take_ge in * by lia.
    cbn [length]. rewrite chunk_loop_nil. eexists. split; [reflexivity |].
    destruct (absorb_all_nofill absorb_leaf chunkSize Hpos (first_node S0) leaves d)
      as [Ha Hr]; [fold q; lia |]. fold (tree_node S0 (leaves ++ d)) (tree_node S0 leaves) in Ha.
    destruct Ht as [Hfix HS Hlv Hph Hfin Hblk Hcnt Hque].
    split; rewrite ?Ha, ?Hr; cbn [set_counters set_queue finalNode fixedOutputLength
      blockNumber queueAbsorbedLen phase queueNode]; try assumption.
    + by apply bytes_app.
    + rewrite Hblk. do 3 f_equal. rewrite length_app. unfold q in *.
      rewrite length_rest in * by lia. pose proof (Nat.div_mod_eq (length leaves) chunkSize).
      apply (Nat.div_unique _ _ _ (length leaves mod chunkSize + length d)); lia.
    + rewrite length_app. fold q. lia.
    + intros _. exact Hrn.
Qed.

Lemma update_body_spec kt o S d next :
  k12_repr kt o S -> bytes d -> Z.of_nat (length S) < 2 ^ 64 ->
  exists kt', update_body fail kt d next = next kt' /\ k12_repr kt' o (S ++ d).
Proof.
  intros [(Hl & Hfix & Hph & Hblk & Hq & Hn) | [Hl Ht]] Hd Hb; [by apply update_first |].
  pose proof chunkSize_Z as Hcz. pose proof chunk_pos as Hpos.
  assert (Hrep : forall kt', tree_repr kt' o (take chunkSize S) (drop chunkSize S ++ d) ->
    k12_repr kt' o (S ++ d)).
  { intros kt' Hkt'. right. rewrite length_app, take_app_le, drop_app_le by lia.
    split; [lia | done]. }
  unfold update_body. rewrite (bool_decide_eq_true_2 _ (tr_phase _ _ _ _ Ht)). cbn [negb].
  assert (Hblk : kt.(blockNumber) <> 0).
  { rewrite (tr_block _ _ _ _ Ht), length_drop, u64_small; [lia |].
    unfold word. pose proof (Nat.Div0.div_le_upper_bound (length S - chunkSize) chunkSize
      (length S - chunkSize)). nia. }
  rewrite (proj2 (Z.eqb_neq _ _) Hblk).
  destruct (Z.eqb_spec (queueAbsorbedLen kt) 0) as [Hq | Hq]; cbn [negb].
  - destruct (chunk_loop_spec fail (Datatypes.S (length d)) kt o _ _ d next ltac:(lia) Ht
      (tree_aligned _ _ _ _ Ht Hq) Hd) as (kt' & -> & Hkt').
    exists kt'. split; [reflexivity | by apply Hrep].
  - destruct (update_queue kt o _ _ d next Ht Hq Hd) as (kt' & He & Hkt').
    exists kt'. split; [exact He | by apply Hrep].
Qed.
End UpdateSpec.

(** ** The final node *)

Lemma absorb_leaves k N m :
  absorb absorb_leaf chunkSize k N m
  = N ++ concat (map K12.chaining_value (pieces chunkSize k m)).
Proof.
  revert N m. induction k as [| k IH]; intros N m; cbn [absorb pieces map concat].
  - by rewrite app_nil_r.
  - rewrite IH. unfold absorb_leaf. by rewrite <- app_assoc.
Qed.

Lemma pieces_S n k l : pieces n (S k) l = pieces n k l ++ [take n (drop (n * k) l)].
Proof.
  revert l. induction k as [| k IH]; intros l.
  - by rewrite Nat.mul_0_r.
  - change (pieces n (S (S k)) l) with (take n l :: pieces n (S k) (drop n l)).
    rewrite IH, drop_drop. replace (n * S k)%nat with (n + n * k)%nat by lia. done.
Qed.

Lemma tree_pieces S0 leaves (r := rest chunkSize leaves) (n := K12.ceil_chunks (length leaves)) :
  first_node S0 ++ concat (map K12.chaining_value (pieces chunkSize n leaves))
  = tree_node S0 leaves ++ (if decide (r = []) then [] else K12.chaining_value r) /\
  n = (length leaves / chunkSize + if decide (r = []) then 0 else 1)%nat.
Proof.
  pose proof chunk_pos as Hpos. pose proof (length_rest chunkSize Hpos leaves) as Hlr.
  pose proof (Nat.div_mod_eq (length leaves) chunkSize) as Hdm. fold r in Hlr.
  assert (Hn : n = (length leaves / chunkSize + if decide (r = []) then 0 else 1)%nat).
  { unfold n, K12.ceil_chunks. symmetry. destruct (decide (r = [])) as [He | He].
    - rewrite He in Hlr. cbn in Hlr. rewrite Nat.add_0_r.
      apply (Nat.div_unique _ _ _ (chunkSize - 1)); lia.
    - assert (length r <> 0)%nat by (intros H; by apply nil_length_inv in H).
      assert (length leaves mod chunkSize < chunkSize)%nat by (apply Nat.mod_upper_bound; lia).
      apply (Nat.div_unique _ _ _ (length leaves mod chunkSize - 1)); [lia |].
      rewrite Nat.mul_add_distr_l, Nat.mul_1_r. lia. }
  split; [| exact Hn]. rewrite Hn. unfold tree_node, absorb_all. rewrite absorb_leaves.
  destruct (decide (r = [])) as [He | He]; [by rewrite Nat.add_0_r, app_nil_r |].
  rewrite Nat.add_1_r, pieces_S, map_app, concat_app. fold (rest chunkSize leaves). fold r.
  rewrite take_ge by (rewrite Hlr; apply Nat.lt_le_incl, Nat.mod_upper_bound; lia).
  cbn [map concat]. by rewrite app_nil_r, app_assoc.
Qed.

(** ** [KangarooTwelve_Final] *)

(** What an instance of output length [o] yields when the final node stands
    for [m] and is closed with the suffix [d]: the digest, or an instance
    ready for squeezing. *)
Definition final_ok (o : nat) (m : list Z) (d : Z)
    (result : option (Z * KangarooTwelve_Instance * list Z)) : Prop :=
  exists kt', result = Some (0, kt', if (o =? 0)%nat then [] else K12.F m d 0 o) /\
    kt'.(phase) = (if (o =? 0)%nat then SQUEEZING else FINAL) /\
    output_repr kt'.(finalNode) (absorbed KeccakP1600_Permute_12rounds 168 (padded 168 m d)) o.

Definition input_string (M C : list Z) : list Z := M ++ C ++ K12.encode (Z.of_nat (length C)).

(** The node and the suffix of the specification. *)
Definition spec_node (S : list Z) : list Z :=
  if (length S <=? chunkSize)%nat then S else K12.final_node S.
Definition spec_suffix (S : list Z) : Z := if (length S <=? chunkSize)%nat then 0x07 else 0x06.

Lemma k12_nodes M C from n :
  K12.k12 M C from n
  = K12.F (spec_node (input_string M C)) (spec_suffix (input_string M C)) from n.
Proof.
  unfold K12.k12, spec_node, spec_suffix, input_string. by destruct (_ <=? _)%nat.
Qed.

Lemma encode_bytes x : 0 <= x < 2 ^ 64 -> bytes (K12.encode x) /\ (length (K12.encode x) <= 9)%nat.
Proof.
  intros Hx. pose proof (byte_length_le x 8 Hx) as Hl. unfold K12.encode. split.
  - apply bytes_app; [apply bytes_be_bytes |]. apply Forall_cons_2; [unfold word; lia | done].
  - rewrite length_app, length_be_bytes. cbn [length]. lia.
Qed.

(** The closing steps of the function, named. *)
Definition final_pad (kt : KangarooTwelve_Instance) (padding : Z) :
  option (Z * KangarooTwelve_Instance * list Z) :=
  checked (KeccakWidth1600_12rounds_SpongeAbsorbLastFewBits kt.(finalNode) padding)
    (set_final kt) (fun kt => (1, kt, [])) (fun kt =>
  if negb (kt.(fixedOutputLength) =? 0)%nat then
    let kt := set_phase kt FINAL in
    '(code, node, output) ←
      KeccakWidth1600_12rounds_SpongeSqueeze kt.(finalNode) kt.(fixedOutputLength);
    Some (code, set_final kt node, output)
  else Some (0, set_phase kt SQUEEZING, [])).

Definition final_encode (kt : KangarooTwelve_Instance) :
  option (Z * KangarooTwelve_Instance * list Z) :=
  let kt := set_counters kt (u64 (kt.(blockNumber) - 1)) kt.(queueAbsorbedLen) in
  let encbuf := right_encode kt.(blockNumber) ++ [0xFF; 0xFF] in
  checked (KeccakWidth1600_12rounds_SpongeAbsorb kt.(finalNode) encbuf)
    (set_final kt) (fun kt => (1, kt, [])) (fun kt => final_pad kt 0x06).

Definition final_close (kt : KangarooTwelve_Instance) :
  option (Z * KangarooTwelve_Instance * list Z) :=
  if kt.(blockNumber) =? 0 then final_pad kt 0x07
  else if negb (kt.(queueAbsorbedLen) =? 0) then
    finish_leaf (fun kt => (1, kt, []))
      (set_counters kt (u64 (kt.(blockNumber) + 1)) kt.(queueAbsorbedLen)) final_encode
  else final_encode kt.

Lemma final_pad_spec kt m d :
  node_repr kt.(finalNode) m -> 0 < d < 256 -> Z.of_nat kt.(fixedOutputLength) < 2 ^ 31 ->
  final_ok kt.(fixedOutputLength) m d (final_pad kt d).
Proof.
  intros Hn Hd Ho. unfold final_pad, final_ok.
  destruct (node_last _ m d Hn Hd) as (f & Hf & Hrf).
  rewrite (checked_ok _ _ _ _ f) by exact Hf. cbn [set_final fixedOutputLength finalNode].
  destruct (Nat.eqb_spec (fixedOutputLength kt) 0) as [H0 | H0]; cbn [negb].
  - eexists. split; [reflexivity |]. split; [reflexivity |]. rewrite H0. exact Hrf.
  - cbn [set_phase finalNode fixedOutputLength set_final].
    destruct (node_squeeze f m d 0 (fixedOutputLength kt) Hrf Ho) as (f' & -> & Hrf').
    eexists. split; [reflexivity |]. split; [reflexivity | exact Hrf'].
Qed.

Lemma final_encode_spec kt m n :
  node_repr kt.(finalNode) m -> kt.(blockNumber) = u64 (Z.of_nat n + 1) -> Z.of_nat n < 2 ^ 64 ->
  Z.of_nat kt.(fixedOutputLength) < 2 ^ 31 ->
  final_ok kt.(fixedOutputLength) (m ++ K12.encode (Z.of_nat n) ++ [0xFF; 0xFF]) 0x06
    (final_encode kt).
Proof.
  intros Hn Hb Hlt Ho. unfold final_encode. cbn [set_counters blockNumber].
  rewrite Hb, u64_sub_add by (unfold word; lia). rewrite right_encode_spec by lia.
  destruct (encode_bytes (Z.of_nat n)) as [Heb Hel]; [lia |].
  destruct (node_absorb kt.(finalNode) m (K12.encode (Z.of_nat n) ++ [0xFF; 0xFF]) Hn)
    as (f & Hf & Hrf); [apply bytes_app; [done |]; by forall_words |
    rewrite length_app; cbn [length]; lia |].
  rewrite (checked_ok _ _ _ _ f) by exact Hf.
  match goal with |- context [final_pad ?k _] => apply (final_pad_spec k) end;
    [exact Hrf | lia | exact Ho].
Qed.

Lemma tree_fixed kt o S : k12_repr kt o S -> kt.(fixedOutputLength) = o.
Proof. intros [(_ & H & _) | [_ H]]; [exact H | exact (tr_fixed _ _ _ _ H)]. Qed.

Lemma final_close_tree kt o S0 leaves :
  tree_repr kt o S0 leaves -> Z.of_nat (length leaves) < 2 ^ 64 - 1 -> Z.of_nat o < 2 ^ 31 ->
  let n := K12.ceil_chunks (length leaves) in
  final_ok o (first_node S0 ++ concat (map K12.chaining_value (pieces chunkSize n leaves))
    ++ K12.encode (Z.of_nat n) ++ [0xFF; 0xFF]) 0x06 (final_close kt).
Proof.
  intros Ht Hb Ho n. pose proof chunkSize_Z as Hcz. pose proof chunk_pos as Hpos.
  destruct (tree_pieces S0 leaves) as [Htp Hn]. fold n in Htp, Hn.
  assert (Hdiv : (length leaves / chunkSize <= length leaves)%nat).
  { apply Nat.Div0.div_le_upper_bound. nia. }
  assert (Hblk : kt.(blockNumber) <> 0)
    by (rewrite (tr_block _ _ _ _ Ht), u64_small by (unfold word; lia); lia).
  rewrite app_assoc, Htp. unfold final_close. rewrite (proj2 (Z.eqb_neq _ _) Hblk).
  rewrite (tr_count _ _ _ _ Ht). rewrite <- (tr_fixed _ _ _ _ Ht) in Ho |- *.
  destruct (decide (rest chunkSize leaves = [])) as [He | He].
  - rewrite He. cbn [length Z.of_nat Z.eqb negb]. rewrite app_nil_r.
    apply final_encode_spec; [exact (tr_final _ _ _ _ Ht) | | lia | exact Ho].
    rewrite (tr_block _ _ _ _ Ht). f_equal. lia.
  - assert (Hlen : Z.of_nat (length (rest chunkSize leaves)) <> 0)
      by (intros H; apply He, nil_length_inv; lia).
    rewrite (proj2 (Z.eqb_neq _ _) Hlen). cbn [negb].
    set (kt1 := set_counters kt _ _).
    destruct (finish_leaf_spec (fun kt => (1, kt, [])) kt1 (rest chunkSize leaves)
      (tree_node S0 leaves) final_encode) as (q & f & -> & Hf);
      [exact (tr_queue _ _ _ _ Ht He) | exact (tr_final _ _ _ _ Ht) |].
    set (kt2 := set_final _ f). apply (final_encode_spec kt2); [exact Hf | | lia | exact Ho].
    change (blockNumber kt2) with (u64 (blockNumber kt + 1)).
    rewrite (tr_block _ _ _ _ Ht), u64_add_l. f_equal. lia.
Qed.

Lemma final_close_spec kt o S :
  k12_repr kt o S -> Z.of_nat (length S) < 2 ^ 64 - 1 -> Z.of_nat o < 2 ^ 31 ->
  final_ok o (spec_node S) (spec_suffix S) (final_close kt).
Proof.
  intros [(Hl & Hfix & Hph & Hblk & Hq & Hn) | [Hl Ht]] Hb Ho; unfold spec_node, spec_suffix.
  - rewrite (proj2 (Nat.leb_le _ _) Hl). unfold final_close. rewrite Hblk. cbn [Z.eqb].
    rewrite <- Hfix in Ho |- *. apply final_pad_spec; [exact Hn | lia | exact Ho].
  - rewrite (proj2 (Nat.leb_gt _ _) Hl). unfold K12.final_node.
    pose proof (final_close_tree kt o _ _ Ht ltac:(rewrite length_drop; lia) Ho) as Hc.
    unfold first_node in Hc. rewrite <- app_assoc in Hc. exact Hc.
Qed.

Lemma Update_spec kt o S d :
  k12_repr kt o S -> bytes d -> Z.of_nat (length S) < 2 ^ 64 ->
  exists kt', KangarooTwelve_Update kt d = Some (0, kt') /\ k12_repr kt' o (S ++ d).
Proof.
  intros Hk Hd Hb. unfold KangarooTwelve_Update.
  destruct (update_body_spec (fun kt => (1, kt)) kt o S d (fun kt => Some (0, kt)) Hk Hd Hb)
    as (kt' & -> & Hkt'). by exists kt'.
Qed.

Lemma k12_phase kt o S : k12_repr kt o S -> kt.(phase) = ABSORBING.
Proof. intros [(_ & _ & H & _) | [_ H]]; [exact H | exact (tr_phase _ _ _ _ H)]. Qed.

Lemma Final_spec kt o M C :
  k12_repr kt o M -> bytes C -> Z.of_nat (length (input_string M C)) < 2 ^ 64 - 1 ->
  Z.of_nat o < 2 ^ 31 ->
  final_ok o (spec_node (input_string M C)) (spec_suffix (input_string M C))
    (KangarooTwelve_Final kt C).
Proof.
  intros Hk HC Hb Ho. unfold KangarooTwelve_Final. cbv zeta.
  rewrite (bool_decide_eq_true_2 _ (k12_phase _ _ _ Hk)). cbn [negb].
  unfold input_string in Hb. rewrite !length_app in Hb.
  assert (HlC : 0 <= Z.of_nat (length C) < 2 ^ 64) by lia. rewrite right_encode_spec by exact HlC.
  destruct (encode_bytes _ HlC) as [Heb _].
  assert (Hclose : forall kt1, k12_repr kt1 o (M ++ C) ->
    final_ok o (spec_node (input_string M C)) (spec_suffix (input_string M C))
      ('(code, kt2) ← KangarooTwelve_Update kt1 (K12.encode (Z.of_nat (length C)));
       if code =? 0 then final_close kt2 else Some (1, kt2, []))).
  { intros kt1 Hk1. destruct (Update_spec kt1 o (M ++ C) (K12.encode (Z.of_nat (length C))) Hk1 Heb)
      as (kt2 & -> & Hk2); [rewrite length_app; lia |].
    cbn [mbind option_bind Z.eqb]. unfold input_string. rewrite app_assoc.
    apply final_close_spec; [exact Hk2 | rewrite !length_app; lia | exact Ho]. }
  destruct (Nat.eqb_spec (length C) 0) as [H0 | H0]; cbn [negb].
  - assert (C = []) as -> by (by apply nil_length_inv). apply Hclose. by rewrite app_nil_r.
  - destruct (Update_spec kt o M C Hk HC) as (kt1 & -> & Hk1); [lia |].
    cbn [mbind option_bind Z.eqb]. apply Hclose, Hk1.
Qed.

Lemma Initialize_spec kt o :
  exists kt', KangarooTwelve_Initialize kt o = (0, kt') /\ k12_repr kt' o [].
Proof.
  unfold KangarooTwelve_Initialize. destruct (node_init (finalNode kt)) as (f & -> & Hf).
  eexists. split; [reflexivity |]. left. cbn [length fixedOutputLength phase blockNumber
    queueAbsorbedLen finalNode]. repeat (split; [first [reflexivity | lia] |]). exact Hf.
Qed.

(** ** The theorems *)

(** C13: the one-call function computes KangarooTwelve of the message and the
    customization string (the tree over 8192-byte chunks when the input is
    longer than one chunk), and refuses an empty output; the output is shorter
    than 2^31 bytes. *)
Theorem KangarooTwelve_spec kt M o C :
  bytes M -> bytes C -> Z.of_nat (length (input_string M C)) < 2 ^ 64 - 1 ->
  Z.of_nat o < 2 ^ 31 ->
  KangarooTwelve kt M o C
  = if (o =? 0)%nat then Some (1, []) else Some (0, K12.k12 M C 0 o).
Proof.
  intros HM HC Hb Ho. unfold KangarooTwelve. destruct (Nat.eqb_spec o 0) as [| H0]; [done |].
  destruct (Initialize_spec kt o) as (kt1 & -> & Hk1). cbn [Z.eqb negb].
  destruct (Update_spec kt1 o [] M Hk1 HM ltac:(done)) as (kt2 & -> & Hk2).
  cbn [mbind option_bind Z.eqb negb].
  destruct (Final_spec kt2 o M C Hk2 HC Hb Ho) as (kt3 & -> & _ & _).
  cbn [mbind option_bind]. rewrite (proj2 (Nat.eqb_neq _ _) H0). by rewrite k12_nodes.
Qed.

Definition fresh_node : SpongeInstance := Build_SpongeInstance [] 0 0 false.
Definition fresh_k12 : KangarooTwelve_Instance :=
  Build_KangarooTwelve_Instance fresh_node fresh_node 0 0 0 NOT_INITIALIZED.

Lemma KangarooTwelve_spec_witness :
  KangarooTwelve fresh_k12 [1; 2; 3] 32 [9] = Some (0, K12.k12 [1; 2; 3] [9] 0 32).
Proof.
  apply (KangarooTwelve_spec fresh_k12 [1; 2; 3] 32 [9]);
    apply (bool_decide_unpack _); by vm_compute.
Defined.

(** Calls of [KangarooTwelve_Update], and of [KangarooTwelve_Squeeze]. *)
Fixpoint update_portions (kt : KangarooTwelve_Instance) (portions : list (list Z)) :
  option KangarooTwelve_Instance :=
  match portions with
  | [] => Some kt
  | d :: ds => '(code, kt) ← KangarooTwelve_Update kt d;
      if code =? 0 then update_portions kt ds else None
  end.

Fixpoint squeeze_calls (kt : KangarooTwelve_Instance) (lens : list nat) : option (list Z) :=
  match lens with
  | [] => Some []
  | len :: lens => '(code, kt, out) ← KangarooTwelve_Squeeze kt len;
      outs ← squeeze_calls kt lens; if code =? 0 then Some (out ++ outs) else None
  end.

Lemma update_portions_spec kt o S portions :
  k12_repr kt o S -> Forall (Forall is_byte) portions ->
  Z.of_nat (length (S ++ concat portions)) < 2 ^ 64 ->
  exists kt', update_portions kt portions = Some kt' /\ k12_repr kt' o (S ++ concat portions).
Proof.
  intros Hk Hp. revert kt S Hk. induction Hp as [| d ds Hd _ IH]; intros kt S Hk Hb.
  - exists kt. by rewrite app_nil_r.
  - cbn [update_portions concat] in *. rewrite !length_app in Hb.
    destruct (Update_spec kt o S d Hk Hd ltac:(lia)) as (kt1 & -> & Hk1).
    cbn [mbind option_bind Z.eqb]. rewrite app_assoc.
    apply IH; [exact Hk1 | rewrite !length_app; lia].
Qed.

Lemma squeeze_calls_spec kt m d n lens :
  kt.(phase) = SQUEEZING ->
  output_repr kt.(finalNode) (absorbed KeccakP1600_Permute_12rounds 168 (padded 168 m d)) n ->
  Forall (fun len => Z.of_nat len < 2 ^ 31) lens ->
  squeeze_calls kt lens = Some (K12.F m d n (sum_list lens)).
Proof.
  intros Hph Hr Hl. revert kt n Hph Hr. induction Hl as [| len lens Hlen _ IH];
    intros kt n Hph Hr; [reflexivity |].
  cbn [squeeze_calls sum_list foldr]. unfold KangarooTwelve_Squeeze.
  rewrite bool_decide_eq_true_2 by exact Hph. cbn [negb].
  destruct (node_squeeze _ m d n len Hr Hlen) as (f & -> & Hf). cbn [mbind option_bind].
  rewrite (IH (set_final kt f) (n + len)%nat Hph Hf). cbn [mbind option_bind Z.eqb].
  by rewrite F_app.
Qed.

(** C37: with an output length of 0 the extendable output of any portions of
    the message (which has, with the customisation string, less than 2^64 - 1
    bytes) can be read in portions of less than 2^31 bytes each; afterwards the
    instance refuses more input (status 1). *)
Theorem KangarooTwelve_streaming kt portions C lens :
  Forall (Forall is_byte) portions -> bytes C ->
  Z.of_nat (length (input_string (concat portions) C)) < 2 ^ 64 - 1 ->
  Forall (fun len => Z.of_nat len < 2 ^ 31) lens ->
  exists kt1 kt2 kt3,
    KangarooTwelve_Initialize kt 0 = (0, kt1) /\ update_portions kt1 portions = Some kt2 /\
    KangarooTwelve_Final kt2 C = Some (0, kt3, []) /\
    squeeze_calls kt3 lens = Some (K12.k12 (concat portions) C 0 (sum_list lens)) /\
    forall d, KangarooTwelve_Update kt3 d = Some (1, kt3) /\
      KangarooTwelve_Final kt3 d = Some (1, kt3, []).
Proof.
  intros Hp HC Hb Hl. destruct (Initialize_spec kt 0) as (kt1 & Hi & Hk1).
  destruct (update_portions_spec kt1 0 [] portions Hk1 Hp) as (kt2 & Hu & Hk2).
  { unfold input_string in Hb. rewrite length_app in Hb. cbn [app]. lia. }
  destruct (Final_spec kt2 0 (concat portions) C Hk2 HC Hb ltac:(done)) as (kt3 & Hf & Hph & Hr).
  cbn [Nat.eqb] in *. exists kt1, kt2, kt3. repeat (split; [assumption |]). split.
  - rewrite k12_nodes. by apply squeeze_calls_spec.
  - intros d. unfold KangarooTwelve_Update, update_body, KangarooTwelve_Final.
    by rewrite bool_decide_eq_false_2 by (rewrite Hph; discriminate).
Qed.

Lemma KangarooTwelve_streaming_witness :
  exists kt1 kt2 kt3,
    KangarooTwelve_Initialize fresh_k12 0 = (0, kt1) /\
    update_portions kt1 [[1; 2]; [3]] = Some kt2 /\
    KangarooTwelve_Final kt2 [9] = Some (0, kt3, []) /\
    squeeze_calls kt3 [3; 50]%nat
      = Some (K12.k12 (concat [[1; 2]; [3]]) [9] 0 (sum_list [3; 50]%nat)) /\
    forall d, KangarooTwelve_Update kt3 d = Some (1, kt3) /\
      KangarooTwelve_Final kt3 d = Some (1, kt3, []).
Proof.
  apply (KangarooTwelve_streaming fresh_k12 [[1; 2]; [3]] [9] [3; 50]%nat);
    apply (bool_decide_unpack _); by vm_compute.
Defined.

(** the length encoding identifies the number and the string before it,
    so the parts of the tree's input cannot be confused; the code computes it
    for every [size_t]. *)
Theorem right_encode_injective x y s t :
  word 64 x -> word 64 y -> s ++ right_encode x = t ++ right_encode y -> s = t /\ x = y.
Proof.
  intros Hx Hy. rewrite !right_encode_spec by (unfold word in *; lia). by apply encode_inj.
Qed.

Lemma right_encode_injective_witness : [1] = [1] /\ 300 = 300.
Proof.
  apply (right_encode_injective 300 300 [1] [1]); [done | done | reflexivity].
Defined.

(** KT128 of the empty message, first bytes as published. *)
Example KangarooTwelve_empty :
  option_map (fun '(code, out) => (code, be_word out)) (KangarooTwelve fresh_k12 [] 32 [])
  = Some (0, 0x1ac2d450fc3b4205d19da7bfca1b37513c0803577ac7167f06fe2ce1f0ef39e5).
Proof. by vm_compute. Qed.
