(* ===== verification/Salsa20.v ===== *)
(** * Salsa20 in yespower: [xmrig/crypto/randomx/panthera/yespower-opt.c]

    A 64-byte block ([salsa20_blk_t]) is its 16 words; [d] views pairs of
    words as 64-bit integers and [q] groups of four as SSE2 vectors.  Both
    builds of the file are modelled: the SSE2 macros on shuffled vectors and
    the scalar routine.  They are proved equal, and equal to the Salsa20 core
    ([Module Salsa]) under the shuffle. *)

From S2P Require Import Prelude Endian.

(** ** Views of a block *)

(** [Bin->d[i]] and the words of a list of 64-bit integers. *)
Definition get_d (B : list Z) (i : nat) : Z := Z.lor B.[2 * i] (Z.shiftl B.[2 * i + 1] 32).
Definition words_of_d (d : list Z) : list Z :=
  concat (map (fun x => [u32 x; Z.shiftr x 32]) d).
(** [(in).q[i]]. *)
Definition get_q (B : list Z) (i : nat) : list Z := take 4 (drop (4 * i) B).

(** ** The code: shuffling *)

Definition COMBINE (Bin : list Z) (in1 in2 : nat) : Z :=
  Z.lor Bin.[in1 * 2] (Z.shiftl Bin.[in2 * 2 + 1] 32).

Definition salsa20_simd_shuffle (Bin : list Z) : list Z :=
  words_of_d [ COMBINE Bin 0 2; COMBINE Bin 5 7; COMBINE Bin 2 4; COMBINE Bin 7 1;
               COMBINE Bin 4 6; COMBINE Bin 1 3; COMBINE Bin 6 0; COMBINE Bin 3 5 ].

Definition UNCOMBINE (Bin : list Z) (in1 in2 : nat) : list Z :=
  [ u32 (get_d Bin in1); Z.shiftr (get_d Bin in2) 32 ].

Definition salsa20_simd_unshuffle (Bin : list Z) : list Z :=
  UNCOMBINE Bin 0 6 ++ UNCOMBINE Bin 5 3 ++ UNCOMBINE Bin 2 0 ++ UNCOMBINE Bin 7 5 ++
  UNCOMBINE Bin 4 2 ++ UNCOMBINE Bin 1 7 ++ UNCOMBINE Bin 6 4 ++ UNCOMBINE Bin 3 1.

(** ** The code: SSE2 *)

Definition mm_add_epi32 : list Z -> list Z -> list Z := zip_with (fun x y => u32 (x + y)).
Definition mm_xor_si128 : list Z -> list Z -> list Z := zip_with Z.lxor.
Definition mm_slli_epi32 (a : list Z) (s : Z) : list Z := map (fun x => u32 (Z.shiftl x s)) a.
Definition mm_srli_epi32 (a : list Z) (s : Z) : list Z := map (fun x => Z.shiftr x s) a.
Definition mm_shuffle_epi32 (a : list Z) (imm : Z) : list Z :=
  map (fun k => a.[Z.to_nat (Z.land (Z.shiftr imm k) 3)]) [0; 2; 4; 6].

(** The four registers [X0 .. X3]. *)
Abbreviation XREG := (list (list Z)).
Definition reg (X : XREG) (i : nat) : list Z := nth i X [].
Definition READ_X (blk : list Z) : XREG := map (get_q blk) (seq 0 4).
Definition WRITE_X (X : XREG) : list Z := reg X 0 ++ reg X 1 ++ reg X 2 ++ reg X 3.

Definition arx_vec (out in1 in2 : list Z) (s : Z) : list Z :=
  let tmp := mm_add_epi32 in1 in2 in
  let out := mm_xor_si128 out (mm_slli_epi32 tmp s) in
  mm_xor_si128 out (mm_srli_epi32 tmp (32 - s)).

(** The statements of the rounds, on register numbers. *)
Inductive salsa_stmt := ARX (out in1 in2 : nat) (s : Z) | SHUFFLE (out : nat) (imm : Z).

Definition salsa_exec (X : XREG) (c : salsa_stmt) : XREG :=
  match c with
  | ARX out in1 in2 s => <[out := arx_vec (reg X out) (reg X in1) (reg X in2) s]> X
  | SHUFFLE out imm => <[out := mm_shuffle_epi32 (reg X out) imm]> X
  end.

Definition SALSA20_2ROUNDS : list salsa_stmt := [
  ARX 1 0 3 7; ARX 2 1 0 9; ARX 3 2 1 13; ARX 0 3 2 18;
  SHUFFLE 1 0x93; SHUFFLE 2 0x4E; SHUFFLE 3 0x39;
  ARX 3 0 1 7; ARX 2 3 0 9; ARX 1 2 3 13; ARX 0 1 2 18;
  SHUFFLE 1 0x39; SHUFFLE 2 0x4E; SHUFFLE 3 0x93 ].

(** The registers afterwards, which are also what is written to [out]. *)
Definition SALSA20_wrapper (rounds : list salsa_stmt) (X : XREG) : XREG :=
  let Z := X in
  let X := fold_left salsa_exec rounds X in
  [ mm_add_epi32 (reg X 0) (reg Z 0); mm_add_epi32 (reg X 1) (reg Z 1);
    mm_add_epi32 (reg X 2) (reg Z 2); mm_add_epi32 (reg X 3) (reg Z 3) ].

Definition SALSA20_2 : XREG -> XREG := SALSA20_wrapper SALSA20_2ROUNDS.
Definition SALSA20_8ROUNDS : list salsa_stmt :=
  SALSA20_2ROUNDS ++ SALSA20_2ROUNDS ++ SALSA20_2ROUNDS ++ SALSA20_2ROUNDS.
Definition SALSA20_8 : XREG -> XREG := SALSA20_wrapper SALSA20_8ROUNDS.

(** ** The code: scalar *)

(** [x[a] ^= R(x[b] + x[c], s)]. *)
Definition salsa20_step (x : list Z) '((a, b, c, s) : nat * nat * nat * nat) : list Z :=
  let t := u32 (x.[b] + x.[c]) in
  let s := Z.of_nat s in
  <[a := Z.lxor x.[a] (Z.lor (u32 (Z.shiftl t s)) (Z.shiftr t (32 - s)))]> x.

Definition salsa20_columns : list (nat * nat * nat * nat) := [
  ( 4,  0, 12,  7); ( 8,  4,  0,  9); (12,  8,  4, 13); ( 0, 12,  8, 18);
  ( 9,  5,  1,  7); (13,  9,  5,  9); ( 1, 13,  9, 13); ( 5,  1, 13, 18);
  (14, 10,  6,  7); ( 2, 14, 10,  9); ( 6,  2, 14, 13); (10,  6,  2, 18);
  ( 3, 15, 11,  7); ( 7,  3, 15,  9); (11,  7,  3, 13); (15, 11,  7, 18) ]%nat.
Definition salsa20_rows : list (nat * nat * nat * nat) := [
  ( 1,  0,  3,  7); ( 2,  1,  0,  9); ( 3,  2,  1, 13); ( 0,  3,  2, 18);
  ( 6,  5,  4,  7); ( 7,  6,  5,  9); ( 4,  7,  6, 13); ( 5,  4,  7, 18);
  (11, 10,  9,  7); ( 8, 11, 10,  9); ( 9,  8, 11, 13); (10,  9,  8, 18);
  (12, 15, 14,  7); (13, 12, 15,  9); (14, 13, 12, 13); (15, 14, 13, 18) ]%nat.

Definition salsa20_doubleround (x : list Z) : list Z :=
  fold_left salsa20_step salsa20_rows (fold_left salsa20_step salsa20_columns x).

(** The new contents of [B], which are also those of [Bout]; the do-while
    loop runs [doublerounds >= 1] times. *)
Definition salsa20 (B : list Z) (doublerounds : nat) : list Z :=
  let X := salsa20_simd_unshuffle B in
  let X := Nat.iter doublerounds salsa20_doubleround X in
  let Bout := salsa20_simd_shuffle X in
  map (fun i => u32 (Bout.[i] + B.[i])) (seq 0 16).

(** ** The Salsa20 core *)

Module Salsa.
Definition quarterround (y0 y1 y2 y3 : Z) : Z * Z * Z * Z :=
  let z1 := Z.lxor y1 (rotl32 (u32 (y0 + y3)) 7) in
  let z2 := Z.lxor y2 (rotl32 (u32 (z1 + y0)) 9) in
  let z3 := Z.lxor y3 (rotl32 (u32 (z2 + z1)) 13) in
  let z0 := Z.lxor y0 (rotl32 (u32 (z3 + z2)) 18) in
  (z0, z1, z2, z3).

Definition rowround (y : list Z) : list Z :=
  let '(z0, z1, z2, z3) := quarterround y.[0] y.[1] y.[2] y.[3] in
  let '(z5, z6, z7, z4) := quarterround y.[5] y.[6] y.[7] y.[4] in
  let '(z10, z11, z8, z9) := quarterround y.[10] y.[11] y.[8] y.[9] in
  let '(z15, z12, z13, z14) := quarterround y.[15] y.[12] y.[13] y.[14] in
  [z0; z1; z2; z3; z4; z5; z6; z7; z8; z9; z10; z11; z12; z13; z14; z15].

(** The transpose of a 4x4 matrix. *)
Definition transpose (y : list Z) : list Z :=
  map (fun i => y.[4 * (i mod 4) + i / 4]) (seq 0 16).
Definition columnround (x : list Z) : list Z := transpose (rowround (transpose x)).
Definition doubleround (x : list Z) : list Z := rowround (columnround x).

(** Salsa20 with [n] double rounds, on words. *)
Definition core (n : nat) (x : list Z) : list Z :=
  zip_with (fun a b => u32 (a + b)) (Nat.iter n doubleround x) x.
End Salsa.

(** ** The shuffle is a permutation of the words *)

Definition block16 (B : list Z) : Prop := length B = 16%nat /\ Forall (word 32) B.

Ltac explode16 B :=
  do 16 (destruct B as [| ? B]; [discriminate |]); destruct B; [| discriminate].

(** The two halves of a 64-bit word. *)
Lemma d_halves lo hi :
  word 32 lo -> word 32 hi ->
  u32 (Z.lor lo (Z.shiftl hi 32)) = lo /\ Z.shiftr (Z.lor lo (Z.shiftl hi 32)) 32 = hi.
Proof.
  intros Hlo Hhi. rewrite lor_shift_add by (lia || done).
  rewrite u32_mod, Z.shiftl_mul_pow2, Z.shiftr_div_pow2 by lia. unfold word in *. split.
  - rewrite Z.mod_add by lia. by apply Z.mod_small.
  - rewrite Z.div_add, Z.div_small by lia. lia.
Qed.

Lemma words_of_d_pairs l :
  Forall (fun '(lo, hi) => word 32 lo /\ word 32 hi) l ->
  words_of_d (map (fun '(lo, hi) => Z.lor lo (Z.shiftl hi 32)) l)
  = concat (map (fun '(lo, hi) => [lo; hi]) l).
Proof.
  induction 1 as [| [lo hi] l [Hlo Hhi] _ IH]; [done |].
  unfold words_of_d in *. cbn [map concat]. rewrite IH.
  by destruct (d_halves lo hi Hlo Hhi) as [-> ->].
Qed.

(** Word [i] of the shuffled block is word [shuffle_index i]. *)
Definition shuffle_index : list nat := [0; 5; 10; 15; 4; 9; 14; 3; 8; 13; 2; 7; 12; 1; 6; 11]%nat.
Definition unshuffle_index : list nat :=
  [0; 13; 10; 7; 4; 1; 14; 11; 8; 5; 2; 15; 12; 9; 6; 3]%nat.

Lemma shuffle_words B :
  block16 B -> salsa20_simd_shuffle B = map (fun i => B.[i]) shuffle_index.
Proof.
  intros [_ HB]. unfold salsa20_simd_shuffle, COMBINE.
  change [?a; ?b] with [a; b].
  pose proof (words_of_d_pairs [(B.[0], B.[5]); (B.[10], B.[15]); (B.[4], B.[9]);
    (B.[14], B.[3]); (B.[8], B.[13]); (B.[2], B.[7]); (B.[12], B.[1]); (B.[6], B.[11])]) as Hw.
  apply Hw. repeat apply Forall_cons_2; try apply Forall_nil_2; split; auto with words.
Qed.

Lemma get_d_halves B i :
  block16 B -> u32 (get_d B i) = B.[2 * i] /\ Z.shiftr (get_d B i) 32 = B.[2 * i + 1].
Proof. intros [_ HB]. unfold get_d. apply d_halves; auto with words. Qed.

Lemma unshuffle_words B :
  block16 B -> salsa20_simd_unshuffle B = map (fun i => B.[i]) unshuffle_index.
Proof.
  intros HB. unfold salsa20_simd_unshuffle, UNCOMBINE.
  rewrite !(proj1 (get_d_halves B _ HB)), !(proj2 (get_d_halves B _ HB)). done.
Qed.

Lemma block16_map B l : block16 B -> length l = 16%nat -> block16 (map (fun i => B.[i]) l).
Proof.
  intros [_ HB] Hl. split; [by rewrite length_map |].
  apply Forall_map, List.Forall_forall. intros i _. by apply word_nth.
Qed.

Lemma shuffle_block B : block16 B -> block16 (salsa20_simd_shuffle B).
Proof. intros HB. rewrite shuffle_words by done. by apply block16_map. Qed.
Lemma unshuffle_block B : block16 B -> block16 (salsa20_simd_unshuffle B).
Proof. intros HB. rewrite unshuffle_words by done. by apply block16_map. Qed.

Lemma unshuffle_shuffle_l B :
  block16 B -> salsa20_simd_unshuffle (salsa20_simd_shuffle B) = B.
Proof.
  intros HB. rewrite unshuffle_words, shuffle_words by auto using shuffle_block.
  destruct HB as [Hl _]. by explode16 B.
Qed.
Lemma shuffle_unshuffle_r B :
  block16 B -> salsa20_simd_shuffle (salsa20_simd_unshuffle B) = B.
Proof.
  intros HB. rewrite shuffle_words, unshuffle_words by auto using unshuffle_block.
  destruct HB as [Hl _]. by explode16 B.
Qed.

(** shuffling and unshuffling are inverse to each other, both ways. *)
Theorem shuffle_unshuffle B :
  block16 B ->
  salsa20_simd_unshuffle (salsa20_simd_shuffle B) = B /\
  salsa20_simd_shuffle (salsa20_simd_unshuffle B) = B.
Proof. intros HB. split; [by apply unshuffle_shuffle_l | by apply shuffle_unshuffle_r]. Qed.

Lemma shuffle_unshuffle_witness :
  salsa20_simd_unshuffle (salsa20_simd_shuffle (seqZ 5 16)) = seqZ 5 16 /\
  salsa20_simd_shuffle (salsa20_simd_unshuffle (seqZ 5 16)) = seqZ 5 16.
Proof. apply (shuffle_unshuffle (seqZ 5 16)). split; [done | by forall_words]. Defined.

(** ** The rounds *)

(** The operation all three versions of the rounds are made of. *)
Definition arx (out in1 in2 : Z) (s : Z) : Z := Z.lxor out (rotl32 (u32 (in1 + in2)) s).

Lemma arx_word a b c s : 0 <= s <= 32 -> word 32 a -> word 32 (arx a b c s).
Proof. intros. unfold arx. apply word_lxor; [lia | done |]. apply rotl32_word; auto with words. Qed.

Lemma doubleround_scalar x :
  length x = 16%nat -> salsa20_doubleround x = Salsa.doubleround x.
Proof.
  intros Hl. explode16 x. unfold salsa20_doubleround.
  change salsa20_step with (fun (x : list Z) '((a, b, c, s) : nat * nat * nat * nat) =>
    <[a := arx x.[a] x.[b] x.[c] (Z.of_nat s)]> x).
  unfold Salsa.doubleround, Salsa.columnround, Salsa.rowround.
  change Salsa.quarterround with (fun y0 y1 y2 y3 =>
    let z1 := arx y1 y0 y3 7 in let z2 := arx y2 z1 y0 9 in
    let z3 := arx y3 z2 z1 13 in let z0 := arx y0 z3 z2 18 in (z0, z1, z2, z3)).
  generalize arx. intros f. vm_compute. reflexivity.
Qed.

(** A vector of four [arx] operations. *)
Definition vec_arx (out in1 in2 : list Z) (s : Z) : list Z :=
  zip_with (fun o bc => arx o (fst bc) (snd bc) s) out (combine in1 in2).

Lemma lxor_rotl32 a t s :
  0 < s < 32 -> word 32 t ->
  Z.lxor (Z.lxor a (u32 (Z.shiftl t s))) (Z.shiftr t (32 - s)) = Z.lxor a (rotl32 t s).
Proof.
  intros Hs Ht. rewrite Z.lxor_assoc. f_equal. unfold rotl32. apply Z.lxor_lor.
  apply Z.bits_inj'. intros i Hi. rewrite Z.land_spec, Z.bits_0, u32_mod.
  destruct (decide (i < 32)).
  - rewrite Z.mod_pow2_bits_low, Z.shiftl_spec, Z.shiftr_spec by lia. destruct (decide (i < s)).
    + by rewrite Z.testbit_neg_r by lia.
    + by rewrite (word_testbit 32 t (i + _)), andb_false_r by (done || lia).
  - by rewrite Z.mod_pow2_bits_high by lia.
Qed.

Lemma arx_vec_eq out in1 in2 s : 0 < s < 32 -> arx_vec out in1 in2 s = vec_arx out in1 in2 s.
Proof.
  intros Hs. unfold arx_vec, vec_arx, mm_xor_si128, mm_slli_epi32, mm_srli_epi32, mm_add_epi32.
  revert in1 in2. induction out as [| o out IH]; intros [| b in1] [| c in2]; cbn; try done.
  rewrite IH, lxor_rotl32 by (lia || apply u32_word). done.
Qed.

(** The same statements with [vec_arx] for the macro. *)
Definition salsa_exec_arx (X : XREG) (c : salsa_stmt) : XREG :=
  match c with
  | ARX out in1 in2 s => <[out := vec_arx (reg X out) (reg X in1) (reg X in2) s]> X
  | SHUFFLE out imm => <[out := mm_shuffle_epi32 (reg X out) imm]> X
  end.

Lemma salsa_exec_2ROUNDS X :
  fold_left salsa_exec SALSA20_2ROUNDS X = fold_left salsa_exec_arx SALSA20_2ROUNDS X.
Proof.
  apply (fold_left_agree (fun _ => True)
    (fun c => match c with ARX _ _ _ s => 0 < s < 32 | SHUFFLE _ _ => True end)); [| done |].
  - intros Y [out in1 in2 s | out imm] _ Hc; cbn; [| done]. by rewrite arx_vec_eq.
  - repeat apply Forall_cons_2; try apply Forall_nil_2; (done || lia).
Qed.

Definition shuffled (x : list Z) : list Z := map (fun i => x.[i]) shuffle_index.

Lemma SIMD_2ROUNDS x :
  length x = 16%nat ->
  fold_left salsa_exec SALSA20_2ROUNDS (READ_X (shuffled x))
  = READ_X (shuffled (Salsa.doubleround x)).
Proof.
  intros Hl. rewrite salsa_exec_2ROUNDS. explode16 x. unfold salsa_exec_arx, vec_arx.
  unfold Salsa.doubleround, Salsa.columnround, Salsa.rowround.
  change Salsa.quarterround with (fun y0 y1 y2 y3 =>
    let z1 := arx y1 y0 y3 7 in let z2 := arx y2 z1 y0 9 in
    let z3 := arx y3 z2 z1 13 in let z0 := arx y0 z3 z2 18 in (z0, z1, z2, z3)).
  generalize arx. intros f. vm_compute. reflexivity.
Qed.

(** ** Words stay words *)

#[export] Hint Resolve arx_word : words.

Lemma quarterround_word a b c d :
  word 32 a -> word 32 b -> word 32 c -> word 32 d ->
  let '(z0, z1, z2, z3) := Salsa.quarterround a b c d in
  word 32 z0 /\ word 32 z1 /\ word 32 z2 /\ word 32 z3.
Proof.
  intros Ha Hb Hc Hd. unfold Salsa.quarterround.
  repeat split; apply arx_word; done || lia.
Qed.

Lemma rowround_block y : block16 y -> block16 (Salsa.rowround y).
Proof.
  intros [Hl Hy]. assert (Hw : forall i, word 32 y.[i]) by auto with words.
  unfold Salsa.rowround.
  pose proof (quarterround_word y.[0] y.[1] y.[2] y.[3]) as H0.
  pose proof (quarterround_word y.[5] y.[6] y.[7] y.[4]) as H1.
  pose proof (quarterround_word y.[10] y.[11] y.[8] y.[9]) as H2.
  pose proof (quarterround_word y.[15] y.[12] y.[13] y.[14]) as H3.
  destruct (Salsa.quarterround y.[0] _ _ _) as [[[? ?] ?] ?].
  destruct (Salsa.quarterround y.[5] _ _ _) as [[[? ?] ?] ?].
  destruct (Salsa.quarterround y.[10] _ _ _) as [[[? ?] ?] ?].
  destruct (Salsa.quarterround y.[15] _ _ _) as [[[? ?] ?] ?].
  destruct H0 as (? & ? & ? & ?), H1 as (? & ? & ? & ?), H2 as (? & ? & ? & ?),
    H3 as (? & ? & ? & ?); try apply Hw.
  split; [done |]. by repeat apply Forall_cons_2.
Qed.

Lemma transpose_block y : block16 y -> block16 (Salsa.transpose y).
Proof.
  intros [Hl Hy]. split; [done |]. unfold Salsa.transpose.
  apply Forall_map, List.Forall_forall. intros i _. by apply word_nth.
Qed.

Lemma doubleround_block x : block16 x -> block16 (Salsa.doubleround x).
Proof. intros. unfold Salsa.doubleround, Salsa.columnround. auto using rowround_block, transpose_block. Qed.

Lemma iter_doubleround_block n x : block16 x -> block16 (Nat.iter n Salsa.doubleround x).
Proof. intros Hx. induction n; [done |]. rewrite Nat.iter_succ. by apply doubleround_block. Qed.

Lemma core_block n x : block16 x -> block16 (Salsa.core n x).
Proof.
  intros Hx. pose proof (iter_doubleround_block n x Hx) as Hy. unfold Salsa.core.
  destruct Hx as [Hlx _], Hy as [Hly _]. split; [rewrite length_zip_with; lia |].
  revert Hlx Hly. generalize (Nat.iter n Salsa.doubleround x). clear. revert x.
  assert (H : forall x y, Forall (word 32) (zip_with (fun a b => u32 (a + b)) x y)); [| auto].
  induction x as [| a x IH]; intros [| b y]; cbn; constructor; auto with words.
Qed.

(** ** Both builds compute the Salsa20 core of the unshuffled block *)

Fixpoint copies (n : nat) : list salsa_stmt :=
  match n with O => [] | S n => SALSA20_2ROUNDS ++ copies n end.

Lemma salsa20_scalar B n :
  block16 B -> salsa20 B n = salsa20_simd_shuffle (Salsa.core n (salsa20_simd_unshuffle B)).
Proof.
  intros HB. unfold salsa20. set (x := salsa20_simd_unshuffle B).
  assert (Hx : block16 x) by by apply unshuffle_block.
  assert (HBx : B = shuffled x).
  { unfold shuffled. rewrite <- shuffle_words by done. symmetry. by apply shuffle_unshuffle_r. }
  assert (Hit : Nat.iter n salsa20_doubleround x = Nat.iter n Salsa.doubleround x).
  { clear -Hx. induction n as [| n IH]; [done |]. rewrite !Nat.iter_succ, IH.
    apply doubleround_scalar, iter_doubleround_block, Hx. }
  rewrite Hit, !shuffle_words by auto using core_block, iter_doubleround_block.
  rewrite HBx. unfold Salsa.core. pose proof (iter_doubleround_block n x Hx) as [Hly _].
  destruct Hx as [Hlx _]. revert Hlx Hly. generalize (Nat.iter n Salsa.doubleround x).
  clearbody x. clear. intros y Hlx Hly. explode16 x. explode16 y. reflexivity.
Qed.

Lemma salsa20_simd B n :
  block16 B -> WRITE_X (SALSA20_wrapper (copies n) (READ_X B)) = salsa20 B n.
Proof.
  intros HB. unfold salsa20, SALSA20_wrapper. set (x := salsa20_simd_unshuffle B).
  assert (Hx : block16 x) by by apply unshuffle_block.
  assert (HBx : B = shuffled x).
  { unfold shuffled. rewrite <- shuffle_words by done. symmetry. by apply shuffle_unshuffle_r. }
  rewrite HBx. clearbody x. clear B HB HBx.
  assert (Hr : forall x, block16 x -> fold_left salsa_exec (copies n) (READ_X (shuffled x))
    = READ_X (shuffled (Nat.iter n Salsa.doubleround x))).
  { clear x Hx. induction n as [| n IH]; intros x Hx; [done |]. cbn [copies].
    rewrite fold_left_app, SIMD_2ROUNDS by apply Hx. rewrite IH by by apply doubleround_block.
    do 2 f_equal. by rewrite Nat.iter_swap. }
  rewrite Hr by done.
  assert (Hit : Nat.iter n salsa20_doubleround x = Nat.iter n Salsa.doubleround x).
  { clear -Hx. induction n as [| n IH]; [done |]. rewrite !Nat.iter_succ, IH.
    apply doubleround_scalar, iter_doubleround_block, Hx. }
  rewrite Hit, shuffle_words by auto using iter_doubleround_block.
  pose proof (iter_doubleround_block n x Hx) as [Hly _].
  destruct Hx as [Hlx _]. revert Hlx Hly. generalize (Nat.iter n Salsa.doubleround x).
  clear. intros y Hlx Hly. explode16 x. explode16 y. reflexivity.
Qed.

(** the SSE2 macros and the scalar routine give the same block, which is
    the Salsa20/2 or Salsa20/8 core of the unshuffled block, shuffled again. *)
Theorem salsa20_builds_agree B :
  block16 B ->
  WRITE_X (SALSA20_2 (READ_X B)) = salsa20 B 1 /\
  WRITE_X (SALSA20_8 (READ_X B)) = salsa20 B 4 /\
  forall n, salsa20 B n = salsa20_simd_shuffle (Salsa.core n (salsa20_simd_unshuffle B)).
Proof.
  intros HB. split; [| split]; [| | intros; by apply salsa20_scalar].
  - unfold SALSA20_2. rewrite <- (salsa20_simd B 1) by done. cbn [copies].
    by rewrite app_nil_r.
  - unfold SALSA20_8, SALSA20_8ROUNDS. rewrite <- (salsa20_simd B 4) by done. cbn [copies].
    by rewrite app_nil_r.
Qed.

Lemma salsa20_builds_agree_witness :
  let B := seqZ 5 16 in
  WRITE_X (SALSA20_2 (READ_X B)) = salsa20 B 1 /\
  WRITE_X (SALSA20_8 (READ_X B)) = salsa20 B 4 /\
  forall n, salsa20 B n = salsa20_simd_shuffle (Salsa.core n (salsa20_simd_unshuffle B)).
Proof. apply (salsa20_builds_agree (seqZ 5 16)). split; [done | by forall_words]. Defined.

Lemma salsa20_block B n : block16 B -> block16 (salsa20 B n).
Proof.
  intros HB. rewrite salsa20_scalar by done.
  apply shuffle_block, core_block. by apply unshuffle_block.
Qed.
