(* ===== verification/Pwxform.v ===== *)
(** * pwxform and BlockMix in yespower: [xmrig/crypto/randomx/panthera/yespower-opt.c]

    The file includes itself to be compiled twice: pass 1 (yespower 0.5) and
    pass 2 (yespower 1.0) differ in the Salsa20 round count, in the S-box
    geometry and in whether pwxform writes to its S-boxes.  The S-boxes are
    one array of 32-bit words; [S0], [S1], [S2] are byte offsets into it, and
    an access outside the array is [None]. *)

From S2P Require Import Prelude Endian Salsa20.

(** ** The code: parameters *)

Inductive pass := Pass1 | Pass2.

Definition Swidth_0_5 : Z := 8.
Definition Swidth_1_0 : Z := 11.
Definition PWXsimple : Z := 2.
Definition PWXgather : Z := 4.
Definition Swidth_to_Sbytes1 (Swidth : Z) : Z := Z.shiftl 1 Swidth * PWXsimple * 8.
Definition Swidth_to_Smask (Swidth : Z) : Z := (Z.shiftl 1 Swidth - 1) * PWXsimple * 8.
Definition Smask_to_Smask2 (Smask : Z) : Z := Z.lor (Z.shiftl Smask 32) Smask.
Definition Swidth (p : pass) : Z := match p with Pass1 => Swidth_0_5 | Pass2 => Swidth_1_0 end.
Definition Smask2 (p : pass) : Z := Smask_to_Smask2 (Swidth_to_Smask (Swidth p)).
Definition SALSA20 (p : pass) (X : list Z) : list Z :=
  match p with Pass1 => salsa20 X 4 | Pass2 => salsa20 X 1 end.

Record pwxform_ctx_t := {
  S : list Z; S0 : Z; S1 : Z; S2 : Z; w : Z; Sbytes : Z
}.

(** ** The code: pwxform *)

(** [*(uint64_t * )(S + off)] of the word array. *)
Definition read64 (S : list Z) (off : Z) : option Z :=
  lo ← S !! Z.to_nat (off / 4); hi ← S !! Z.to_nat (off / 4 + 1);
  Some (Z.lor lo (Z.shiftl hi 32)).
Definition write64 (S : list Z) (off x : Z) : option (list Z) :=
  if bool_decide (0 <= off /\ off / 4 + 1 < Z.of_nat (length S)) then
    Some (<[Z.to_nat (off / 4 + 1) := Z.shiftr x 32]> (<[Z.to_nat (off / 4) := u32 x]> S))
  else None.

(** The state of the macros: the block [X.d], the S-boxes and the pointers. *)
Record pwx := { Xd : list Z; pctx : pwxform_ctx_t }.

Definition set_S (ctx : pwxform_ctx_t) (S : list Z) : pwxform_ctx_t :=
  {| S := S; S0 := ctx.(S0); S1 := ctx.(S1); S2 := ctx.(S2); w := ctx.(w);
     Sbytes := ctx.(Sbytes) |}.
Definition set_w (ctx : pwxform_ctx_t) (w : Z) : pwxform_ctx_t :=
  {| S := ctx.(S); S0 := ctx.(S0); S1 := ctx.(S1); S2 := ctx.(S2); w := w;
     Sbytes := ctx.(Sbytes) |}.

(** [PWXFORM_SIMD(x0, x1)]. *)
Definition PWXFORM_SIMD (p : pass) (ctx : pwxform_ctx_t) (x0 x1 : Z) : option (Z * Z) :=
  let x := Z.land x0 (Smask2 p) in
  let p0 := ctx.(S0) + u32 x in
  let p1 := ctx.(S1) + Z.shiftr x 32 in
  a0 ← read64 ctx.(S) p0; b0 ← read64 ctx.(S) p1;
  a1 ← read64 ctx.(S) (p0 + 8); b1 ← read64 ctx.(S) (p1 + 8);
  let x0 := Z.lxor (u64 (Z.shiftr x0 32 * u32 x0 + a0)) b0 in
  let x1 := Z.lxor (u64 (Z.shiftr x1 32 * u32 x1 + a1)) b1 in
  Some (x0, x1).

(** The statements of the macros; [k] is the pair [X.d[2k], X.d[2k+1]]. *)
Inductive pwx_stmt := SIMD (k : nat) | SIMD_WRITE (k : nat) (Sw : pwxform_ctx_t -> Z) | W16.

Definition pwx_exec (p : pass) (s : pwx) (c : pwx_stmt) : option pwx :=
  let simd k :=
    '(x0, x1) ← PWXFORM_SIMD p s.(pctx) s.(Xd).[2 * k] s.(Xd).[2 * k + 1];
    Some (x0, x1, <[(2 * k + 1)%nat := x1]> (<[(2 * k)%nat := x0]> s.(Xd))) in
  match c with
  | SIMD k => '(_, X) ← simd k; Some {| Xd := X; pctx := s.(pctx) |}
  | SIMD_WRITE k Sw =>
      '(x0, x1, X) ← simd k;
      let ctx := s.(pctx) in
      S' ← write64 ctx.(S) (Sw ctx + ctx.(w)) x0;
      S' ← write64 S' (Sw ctx + ctx.(w) + 8) x1;
      Some {| Xd := X; pctx := set_S ctx S' |}
  | W16 => Some {| Xd := s.(Xd); pctx := set_w s.(pctx) (s.(pctx).(w) + 16) |}
  end.

Fixpoint pwx_run (p : pass) (s : pwx) (cs : list pwx_stmt) : option pwx :=
  match cs with [] => Some s | c :: cs => s ← pwx_exec p s c; pwx_run p s cs end.

Definition PWXFORM_ROUND : list pwx_stmt := [SIMD 0; SIMD 1; SIMD 2; SIMD 3].
Definition PWXFORM_ROUND_WRITE4 : list pwx_stmt :=
  [SIMD_WRITE 0 S0; SIMD_WRITE 1 S1; W16; SIMD_WRITE 2 S0; SIMD_WRITE 3 S1; W16].
Definition PWXFORM_ROUND_WRITE2 : list pwx_stmt :=
  [SIMD_WRITE 0 S0; SIMD_WRITE 1 S1; W16; SIMD 2; SIMD 3].

(** [w &= Smask2] and the rotation of the three S-boxes. *)
Definition rotate_S (p : pass) (ctx : pwxform_ctx_t) : pwxform_ctx_t :=
  {| S := ctx.(S); S0 := ctx.(S2); S1 := ctx.(S0); S2 := ctx.(S1);
     w := Z.land ctx.(w) (Smask2 p); Sbytes := ctx.(Sbytes) |}.

(** [PWXFORM] on the block and the context. *)
Definition PWXFORM (p : pass) (X : list Z) (ctx : pwxform_ctx_t) :
  option (list Z * pwxform_ctx_t) :=
  let start := {| Xd := map (get_d X) (seq 0 8); pctx := ctx |} in
  match p with
  | Pass1 =>
      s ← pwx_run p start (PWXFORM_ROUND ++ PWXFORM_ROUND ++ PWXFORM_ROUND ++
        PWXFORM_ROUND ++ PWXFORM_ROUND ++ PWXFORM_ROUND);
      Some (words_of_d s.(Xd), s.(pctx))
  | Pass2 =>
      s ← pwx_run p start
        (PWXFORM_ROUND_WRITE4 ++ PWXFORM_ROUND_WRITE2 ++ PWXFORM_ROUND_WRITE2);
      Some (words_of_d s.(Xd), rotate_S p s.(pctx))
  end.

(** ** The code: the SSE2 build of one step *)

Definition mm_mul_epu32 (a b : list Z) : list Z :=
  words_of_d [a.[0] * b.[0]; a.[2] * b.[2]].
Definition mm_add_epi64 (a b : list Z) : list Z :=
  words_of_d [u64 (get_d a 0 + get_d b 0); u64 (get_d a 1 + get_d b 1)].
(** [_mm_shuffle_epi32((X), _MM_SHUFFLE(2,3,0,1))]. *)
Definition HI32 (X : list Z) : list Z := mm_shuffle_epi32 X 0xB1.
(** [EXTRACT64(X)] of the 32-bit variants; [_mm_cvtsi128_si64] agrees. *)
Definition EXTRACT64 (X : list Z) : Z := Z.lor X.[0] (Z.shiftl (HI32 X).[0] 32).
Definition load128 (S : list Z) (off : Z) : option (list Z) :=
  a ← read64 S off; b ← read64 S (off + 8); Some (words_of_d [a; b]).

Definition PWXFORM_SIMD_sse2 (p : pass) (ctx : pwxform_ctx_t) (X : list Z) : option (list Z) :=
  let x := Z.land (EXTRACT64 X) (Smask2 p) in
  s0 ← load128 ctx.(S) (ctx.(S0) + u32 x);
  s1 ← load128 ctx.(S) (ctx.(S1) + Z.shiftr x 32);
  let X := mm_mul_epu32 (HI32 X) X in
  let X := mm_add_epi64 X s0 in
  Some (mm_xor_si128 X s1).

(** ** The code: BlockMix *)

Definition xor_blk : list Z -> list Z -> list Z := zip_with Z.lxor.
Abbreviation blocks := (list (list Z)).
Definition blk (B : blocks) (i : nat) : list Z := nth i B [].

(** The two output blocks. *)
Definition blockmix_salsa (p : pass) (Bin : blocks) : blocks :=
  let X := blk Bin 1 in
  let X := SALSA20 p (xor_blk X (blk Bin 0)) in
  let Bout0 := X in
  let X := SALSA20 p (xor_blk X (blk Bin 1)) in
  [Bout0; X].

(** The result of [INTEGERIFY] and the output blocks. *)
Definition blockmix_salsa_xor (p : pass) (Bin1 Bin2 : blocks) : Z * blocks :=
  let X := xor_blk (blk Bin1 1) (blk Bin2 1) in
  let X := xor_blk X (blk Bin1 0) in
  let X := SALSA20 p (xor_blk X (blk Bin2 0)) in
  let Bout0 := X in
  let X := xor_blk X (blk Bin1 1) in
  let X := SALSA20 p (xor_blk X (blk Bin2 1)) in
  (X.[0], [Bout0; X]).

(** The do-while loop of [blockmix]: the register, the blocks written so far
    and the context when [i >= r] breaks out. *)
Fixpoint blockmix_loop (p : pass) (fuel : nat) (Bin : blocks) (r i : nat) (X : list Z)
    (Bout : blocks) (ctx : pwxform_ctx_t) : option (list Z * blocks * pwxform_ctx_t) :=
  match fuel with
  | O => None
  | Datatypes.S fuel =>
      '(X, ctx) ← PWXFORM p (xor_blk X (blk Bin i)) ctx;
      if (r <=? i)%nat then Some (X, Bout, ctx)
      else blockmix_loop p fuel Bin r (i + 1) X (Bout ++ [X]) ctx
  end.

Definition blockmix (p : pass) (Bin : blocks) (r : nat) (ctx : option pwxform_ctx_t) :
  option (blocks * option pwxform_ctx_t) :=
  match ctx with
  | None => Some (blockmix_salsa p Bin, None)
  | Some ctx =>
      let r := (r * 2 - 1)%nat in
      '(X, Bout, ctx) ← blockmix_loop p (r + 1) Bin r 0 (blk Bin r) [] ctx;
      Some (Bout ++ [SALSA20 p X], Some ctx)
  end.

Fixpoint blockmix_xor_loop (p : pass) (fuel : nat) (Bin1 Bin2 : blocks) (r i : nat)
    (X : list Z) (Bout : blocks) (ctx : pwxform_ctx_t) :
    option (list Z * blocks * pwxform_ctx_t) :=
  match fuel with
  | O => None
  | Datatypes.S fuel =>
      let X := xor_blk (xor_blk X (blk Bin1 i)) (blk Bin2 i) in
      '(X, ctx) ← PWXFORM p X ctx;
      let Bout := Bout ++ [X] in
      let X := xor_blk (xor_blk X (blk Bin1 (i + 1))) (blk Bin2 (i + 1)) in
      '(X, ctx) ← PWXFORM p X ctx;
      if (r <=? i)%nat then Some (X, Bout, ctx)
      else blockmix_xor_loop p fuel Bin1 Bin2 r (i + 2) X (Bout ++ [X]) ctx
  end.

(** [INTEGERIFY], the output and the context. *)
Definition blockmix_xor (p : pass) (Bin1 Bin2 : blocks) (r : nat)
    (ctx : option pwxform_ctx_t) : option (Z * blocks * option pwxform_ctx_t) :=
  match ctx with
  | None => let '(j, Bout) := blockmix_salsa_xor p Bin1 Bin2 in Some (j, Bout, None)
  | Some ctx =>
      let r := (r * 2 - 1)%nat in
      let X := xor_blk (blk Bin1 r) (blk Bin2 r) in
      '(X, Bout, ctx) ← blockmix_xor_loop p (r + 1) Bin1 Bin2 (r - 1) 0 X [] ctx;
      let X := SALSA20 p X in
      Some (X.[0], Bout ++ [X], Some ctx)
  end.

(** [XOR_X_WRITE_XOR_Y_2(Bin2[i], Bin1out[i])]: the new register and [Bin2]. *)
Definition XOR_X_WRITE_XOR_Y_2 (X : list Z) (Bin2 Bin1out : blocks) (i : nat) :
  list Z * blocks :=
  let Y := xor_blk (blk Bin2 i) (blk Bin1out i) in
  (xor_blk X Y, <[i := Y]> Bin2).

Fixpoint blockmix_xor_save_loop (p : pass) (fuel : nat) (Bin1out Bin2 : blocks) (r i : nat)
    (X : list Z) (ctx : pwxform_ctx_t) :
    option (list Z * nat * blocks * blocks * pwxform_ctx_t) :=
  match fuel with
  | O => None
  | Datatypes.S fuel =>
      let '(X, Bin2) := XOR_X_WRITE_XOR_Y_2 X Bin2 Bin1out i in
      '(X, ctx) ← PWXFORM p X ctx;
      let Bin1out := <[i := X]> Bin1out in
      let '(X, Bin2) := XOR_X_WRITE_XOR_Y_2 X Bin2 Bin1out (i + 1) in
      '(X, ctx) ← PWXFORM p X ctx;
      if (r <=? i)%nat then Some (X, (i + 1)%nat, Bin1out, Bin2, ctx)
      else blockmix_xor_save_loop p fuel (<[(i + 1)%nat := X]> Bin1out) Bin2 r (i + 2) X ctx
  end.

(** [INTEGERIFY] and the new contents of both arrays. *)
Definition blockmix_xor_save (p : pass) (Bin1out Bin2 : blocks) (r : nat)
    (ctx : pwxform_ctx_t) : option (Z * blocks * blocks * pwxform_ctx_t) :=
  let r := (r * 2 - 1)%nat in
  let X := xor_blk (blk Bin1out r) (blk Bin2 r) in
  '(X, i, Bin1out, Bin2, ctx) ← blockmix_xor_save_loop p (r + 1) Bin1out Bin2 (r - 1) 0 X ctx;
  let X := SALSA20 p X in
  Some (X.[0], <[i := X]> Bin1out, Bin2, ctx).

(** ** The xor variants of BlockMix *)

Lemma xor_blk_assoc a b c : xor_blk (xor_blk a b) c = xor_blk a (xor_blk b c).
Proof.
  revert b c. induction a as [| x a IH]; intros [| y b] [| z c]; cbn; try done.
  f_equal; [apply Z.lxor_assoc | apply IH].
Qed.
Lemma xor_blk_comm a b : xor_blk a b = xor_blk b a.
Proof.
  revert b. induction a as [| x a IH]; intros [| y b]; cbn; try done.
  f_equal; [apply Z.lxor_comm | apply IH].
Qed.

(** The xor of two arrays of blocks. *)
Definition xor_blocks : blocks -> blocks -> blocks := zip_with xor_blk.

Lemma blk_xor_blocks B1 B2 i :
  length B1 = length B2 -> blk (xor_blocks B1 B2) i = xor_blk (blk B1 i) (blk B2 i).
Proof.
  revert B2 i. induction B1 as [| a B1 IH]; intros [| b B2] [| i] Hl; cbn in *; try done.
  apply IH. lia.
Qed.

Lemma blockmix_xor_loop_eq p B1 B2 k i fuel fuel' X Bout ctx :
  length B1 = length B2 -> (k + 1 <= fuel)%nat -> (2 * k + 2 <= fuel')%nat ->
  blockmix_xor_loop p fuel B1 B2 (i + 2 * k) i X Bout ctx
  = blockmix_loop p fuel' (xor_blocks B1 B2) (i + 2 * k + 1) i X Bout ctx.
Proof.
  intros Hl. revert i fuel fuel' X Bout ctx. induction k as [| k IH];
    intros i fuel fuel' X Bout ctx Hf Hf'.
  - destruct fuel as [| fuel]; [lia |]. do 2 (destruct fuel' as [| fuel']; [lia |]).
    cbn [blockmix_xor_loop blockmix_loop]. rewrite xor_blk_assoc, <- blk_xor_blocks by done.
    destruct (PWXFORM p _ ctx) as [[X1 ctx1] |]; [| done]. cbn [mbind option_bind].
    rewrite (proj2 (Nat.leb_gt (i + 2 * 0 + 1) i)) by lia.
    rewrite xor_blk_assoc, <- blk_xor_blocks by done.
    destruct (PWXFORM p _ ctx1) as [[X2 ctx2] |]; [| done]. cbn [mbind option_bind].
    rewrite (proj2 (Nat.leb_le (i + 2 * 0) i)), (proj2 (Nat.leb_le (i + 2 * 0 + 1) (i + 1))) by lia.
    done.
  - destruct fuel as [| fuel]; [lia |]. do 2 (destruct fuel' as [| fuel']; [lia |]).
    cbn [blockmix_xor_loop blockmix_loop]. rewrite xor_blk_assoc, <- blk_xor_blocks by done.
    destruct (PWXFORM p _ ctx) as [[X1 ctx1] |]; [| done]. cbn [mbind option_bind].
    rewrite (proj2 (Nat.leb_gt (i + 2 * Datatypes.S k + 1) i)) by lia.
    rewrite xor_blk_assoc, <- blk_xor_blocks by done.
    destruct (PWXFORM p _ ctx1) as [[X2 ctx2] |]; [| done]. cbn [mbind option_bind].
    rewrite (proj2 (Nat.leb_gt (i + 2 * Datatypes.S k) i)),
      (proj2 (Nat.leb_gt (i + 2 * Datatypes.S k + 1) (i + 1))) by lia.
    replace (i + 2 * Datatypes.S k)%nat with (i + 2 + 2 * k)%nat by lia.
    replace (i + 1 + 1)%nat with (i + 2)%nat by lia. apply IH; lia.
Qed.

(** [INTEGERIFY] of an output, and the last block. *)
Definition integerified (out : blocks) : Z := (List.last out []).[0].

Lemma blockmix_xor_eq p B1 B2 r ctx :
  length B1 = length B2 -> (1 <= r)%nat -> (ctx = None -> r = 1)%nat ->
  blockmix_xor p B1 B2 r ctx
  = ('(out, ctx) ← blockmix p (xor_blocks B1 B2) r ctx; Some (integerified out, out, ctx)).
Proof.
  intros Hl Hr Hnone. destruct ctx as [ctx |]; cbn [blockmix_xor blockmix].
  - rewrite <- blk_xor_blocks by done.
    pose proof (blockmix_xor_loop_eq p B1 B2 (r - 1) 0 (r * 2 - 1 + 1) (r * 2 - 1 + 1)
      (blk (xor_blocks B1 B2) (r * 2 - 1)) [] ctx Hl ltac:(lia) ltac:(lia)) as He.
    replace (0 + 2 * (r - 1))%nat with (r * 2 - 1 - 1)%nat in He by lia.
    replace (r * 2 - 1 - 1 + 1)%nat with (r * 2 - 1)%nat in He by lia. rewrite He.
    destruct (blockmix_loop _ _ _ _ _ _ _ _) as [[[X Bout] ctx'] |]; [| done].
    cbn [mbind option_bind]. unfold integerified. by rewrite List.last_last.
  - unfold blockmix_salsa_xor, blockmix_salsa. cbn [mbind option_bind].
    rewrite !blk_xor_blocks by done. unfold integerified. cbn [List.last].
    by rewrite !xor_blk_assoc.
Qed.

(** An array of which the first [length out] blocks have been replaced. *)
Lemma insert_consumed (out B : blocks) X :
  (length out < length B)%nat ->
  <[length out := X]> (out ++ drop (length out) B) = (out ++ [X]) ++ drop (length out + 1) B.
Proof.
  intros Hl. replace (length out) with (length out + 0)%nat at 1 by lia.
  rewrite insert_app_r, <- app_assoc. f_equal.
  destruct (drop (length out) B) as [| b l] eqn:Hd.
  - apply (f_equal length) in Hd. rewrite length_drop in Hd. cbn in Hd. lia.
  - cbn [app]. by rewrite <- drop_drop, Hd.
Qed.

Lemma blk_consumed (out B : blocks) : blk (out ++ drop (length out) B) (length out) = blk B (length out).
Proof. unfold blk. rewrite app_nth2, Nat.sub_diag, nth_lookup, lookup_drop, Nat.add_0_r by lia. by rewrite nth_lookup. Qed.

Lemma length_xor_blocks B1 B2 : length B1 = length B2 -> length (xor_blocks B1 B2) = length B2.
Proof. intros. unfold xor_blocks. rewrite length_zip_with. lia. Qed.

Lemma take_blk (B : blocks) i : (i < length B)%nat -> take i B ++ [blk B i] = take (i + 1) B.
Proof.
  intros Hi. rewrite Nat.add_1_r. symmetry. apply take_S_r. unfold blk.
  destruct (nth_lookup_or_length B i []); [done | lia].
Qed.

(** One [XOR_X_WRITE_XOR_Y_2] of the in-place loop. *)
Lemma save_step B1 B2 out X (i := length out) :
  length B1 = length B2 -> (i < length B1)%nat ->
  XOR_X_WRITE_XOR_Y_2 X (take i (xor_blocks B1 B2) ++ drop i B2) (out ++ drop i B1) i
  = (xor_blk X (blk (xor_blocks B1 B2) i),
     take (i + 1) (xor_blocks B1 B2) ++ drop (i + 1) B2).
Proof.
  intros Hl Hi. pose proof (length_xor_blocks B1 B2 Hl) as Hx.
  assert (Ht : length (take i (xor_blocks B1 B2)) = i) by (rewrite length_take; lia).
  unfold XOR_X_WRITE_XOR_Y_2. subst i. rewrite blk_consumed.
  pose proof (blk_consumed (take (length out) (xor_blocks B1 B2)) B2) as Hb.
  pose proof (insert_consumed (take (length out) (xor_blocks B1 B2)) B2
    (blk (xor_blocks B1 B2) (length out))) as Hc.
  rewrite Ht in Hb, Hc. rewrite Hb. rewrite (xor_blk_comm (blk B2 _)), <- blk_xor_blocks by done.
  rewrite Hc, take_blk by lia. done.
Qed.

(** In-place: [Bin1out] receives the output in the place of its own blocks as
    they are consumed, [Bin2] the xor. *)
Lemma blockmix_xor_save_loop_eq p B1 B2 k fuel fuel' X out ctx (i := length out) :
  length B1 = length B2 -> (i + 2 * k + 1 < length B1)%nat ->
  (k + 1 <= fuel)%nat -> (2 * k + 2 <= fuel')%nat ->
  blockmix_xor_save_loop p fuel (out ++ drop i B1) (take i (xor_blocks B1 B2) ++ drop i B2)
    (i + 2 * k) i X ctx
  = ('(X, Bout, ctx) ← blockmix_loop p fuel' (xor_blocks B1 B2) (i + 2 * k + 1) i X out ctx;
     Some (X, (i + 2 * k + 1)%nat, Bout ++ drop (i + 2 * k + 1) B1,
       take (i + 2 * k + 2) (xor_blocks B1 B2) ++ drop (i + 2 * k + 2) B2, ctx)).
Proof.
  intros Hl. subst i. revert fuel fuel' X out ctx.
  induction k as [| k IH]; intros fuel fuel' X out ctx Hi Hf Hf';
    (destruct fuel as [| fuel]; [lia |]); do 2 (destruct fuel' as [| fuel']; [lia |]);
    cbn [blockmix_xor_save_loop blockmix_loop]; rewrite save_step by lia;
    (destruct (PWXFORM p _ ctx) as [[X1 ctx1] |]; [| done]); cbn [mbind option_bind];
    rewrite insert_consumed by lia;
    pose proof (save_step B1 B2 (out ++ [X1]) X1 Hl) as Hs;
    rewrite length_app in Hs; cbn [length] in Hs; rewrite Hs by lia; clear Hs.
  - rewrite (proj2 (Nat.leb_gt (length out + 2 * 0 + 1) (length out))) by lia.
    destruct (PWXFORM p _ ctx1) as [[X2 ctx2] |]; [| done]. cbn [mbind option_bind].
    rewrite (proj2 (Nat.leb_le (length out + 2 * 0) _)),
      (proj2 (Nat.leb_le (length out + 2 * 0 + 1) (length out + 1))) by lia.
    cbn [mbind option_bind].
    replace (length out + 2 * 0 + 1)%nat with (length out + 1)%nat by lia.
    by replace (length out + 2 * 0 + 2)%nat with (length out + 1 + 1)%nat by lia.
  - rewrite (proj2 (Nat.leb_gt (length out + 2 * Datatypes.S k + 1) (length out))) by lia.
    destruct (PWXFORM p _ ctx1) as [[X2 ctx2] |]; [| done]. cbn [mbind option_bind].
    rewrite (proj2 (Nat.leb_gt (length out + 2 * Datatypes.S k) (length out))),
      (proj2 (Nat.leb_gt (length out + 2 * Datatypes.S k + 1) (length out + 1))) by lia.
    pose proof (insert_consumed (out ++ [X1]) B1 X2) as Hc.
    pose proof (IH fuel fuel' X2 ((out ++ [X1]) ++ [X2]) ctx2) as Hi'.
    assert (Hlo : length ((out ++ [X1]) ++ [X2]) = (length out + 1 + 1)%nat)
      by (rewrite !length_app; done).
    rewrite Hlo in Hi'. rewrite length_app in Hc. cbn [length] in Hc. rewrite Hc by lia.
    replace (length out + 2 * Datatypes.S k)%nat with (length out + 1 + 1 + 2 * k)%nat by lia.
    replace (length out + 2)%nat with (length out + 1 + 1)%nat by lia.
    apply Hi'; lia.
Qed.

Lemma blockmix_loop_length p fuel B r i X out ctx X' out' ctx' :
  (i <= r)%nat -> blockmix_loop p fuel B r i X out ctx = Some (X', out', ctx') ->
  length out' = (length out + (r - i))%nat.
Proof.
  revert i X out ctx. induction fuel as [| fuel IH]; intros i X out ctx Hi H; [done |].
  cbn [blockmix_loop] in H. destruct (PWXFORM p _ ctx) as [[X1 ctx1] |]; [| done].
  cbn [mbind option_bind] in H. destruct (Nat.leb_spec r i).
  - simplify_eq. lia.
  - apply IH in H; [| lia]. rewrite length_app in H. cbn in H. lia.
Qed.

(** The in-place version on the block array [X] and the superblock [V_j]. *)
Lemma blockmix_xor_save_eq p B1 B2 r ctx :
  length B1 = (2 * r)%nat -> length B2 = (2 * r)%nat -> (1 <= r)%nat ->
  blockmix_xor_save p B1 B2 r ctx
  = ('(out, ctx') ← blockmix p (xor_blocks B1 B2) r (Some ctx);
     ctx' ← ctx'; Some (integerified out, out, xor_blocks B1 B2, ctx')).
Proof.
  intros H1 H2 Hr. unfold blockmix_xor_save, blockmix.
  assert (Hx : length (xor_blocks B1 B2) = (2 * r)%nat) by (rewrite length_xor_blocks; lia).
  rewrite <- blk_xor_blocks by lia.
  pose proof (blockmix_xor_save_loop_eq p B1 B2 (r - 1) (r * 2 - 1 + 1) (r * 2 - 1 + 1)
    (blk (xor_blocks B1 B2) (r * 2 - 1)) [] ctx ltac:(lia)) as He.
  cbn [length] in He. rewrite !drop_0 in He. cbn [app] in He. rewrite take_0 in He.
  cbn [app] in He.
  replace (0 + 2 * (r - 1))%nat with (r * 2 - 1 - 1)%nat in He by lia.
  rewrite He by lia. clear He. replace (r * 2 - 1 - 1 + 1)%nat with (r * 2 - 1)%nat by lia.
  destruct (blockmix_loop _ _ _ _ _ _ _ _) as [[[X Bout] ctx'] |] eqn:Hb; [| reflexivity].
  cbn [mbind option_bind]. unfold integerified. rewrite List.last_last.
  rewrite take_ge, (drop_ge B2), app_nil_r by lia.
  apply blockmix_loop_length in Hb; [| lia]. cbn [length] in Hb.
  pose proof (insert_consumed Bout B1 (SALSA20 p X)) as Hc.
  replace (length Bout) with (r * 2 - 1)%nat in Hc by lia. rewrite Hc by lia.
  rewrite drop_ge, app_nil_r by lia. done.
Qed.

(** ** Accesses to the S-boxes stay inside *)

Lemma land_le a m : 0 <= m -> 0 <= Z.land a m <= m.
Proof.
  intros Hm. split; [apply Z.land_nonneg; by right |].
  assert (Hs : Z.land a m + Z.ldiff m a = m).
  { rewrite Z.add_nocarry_lor; bitwise; rewrite ?Z.bits_0; btauto. }
  assert (0 <= Z.ldiff m a) by (apply Z.ldiff_nonneg; by left). lia.
Qed.

Definition Smask (p : pass) : Z := Swidth_to_Smask (Swidth p).
Definition Sbytes1 (p : pass) : Z := Swidth_to_Sbytes1 (Swidth p).
Lemma Smask_Sbytes1 p : Smask p = Sbytes1 p - 16.
Proof. by destruct p. Qed.
Lemma Sbytes1_val p : Sbytes1 p = match p with Pass1 => 4096 | Pass2 => 32768 end.
Proof. by destruct p. Qed.

Lemma mask_halves p x (m := Z.land x (Smask2 p)) :
  0 <= u32 m <= Sbytes1 p - 16 /\ 0 <= Z.shiftr m 32 <= Sbytes1 p - 16.
Proof.
  rewrite <- Smask_Sbytes1. subst m. unfold u32. rewrite Z.shiftr_land, <- Z.land_assoc.
  assert (Z.land (Smask2 p) 0xffffffff = Smask p /\ Z.shiftr (Smask2 p) 32 = Smask p /\ 0 <= Smask p)
    as (-> & -> & ?) by by destruct p.
  split; by apply land_le.
Qed.

(** One S-box of [Sbytes1] bytes lies in the array. *)
Definition in_S (p : pass) (S : list Z) (off : Z) : Prop :=
  0 <= off /\ off + Sbytes1 p <= 4 * Z.of_nat (length S) /\ off mod 16 = 0.

Lemma read64_some S off :
  Forall (word 32) S -> 0 <= off -> off + 8 <= 4 * Z.of_nat (length S) ->
  exists x, read64 S off = Some x /\ word 64 x.
Proof.
  intros HS H0 H8. unfold read64.
  assert (0 <= off / 4) by (apply Z.div_pos; lia).
  assert (off / 4 + 1 < Z.of_nat (length S)).
  { pose proof (Z.mul_div_le off 4). lia. }
  rewrite !lookup_nth_Z by lia. eexists. split; [reflexivity |].
  apply word_lor; [lia | apply (word_mono 32); [lia |]; auto with words |].
  pose proof (word_nth 32 S (Z.to_nat (off / 4 + 1)) ltac:(lia) HS).
  unfold word in *. rewrite Z.shiftl_mul_pow2 by lia. lia.
Qed.

Lemma write64_some S off x :
  Forall (word 32) S -> word 64 x -> 0 <= off -> off + 8 <= 4 * Z.of_nat (length S) ->
  exists S', write64 S off x = Some S' /\ Forall (word 32) S' /\ length S' = length S /\
    forall i, Z.of_nat i <> off / 4 -> Z.of_nat i <> off / 4 + 1 -> S'.[i] = S.[i].
Proof.
  intros HS Hx H0 H8. unfold write64.
  assert (0 <= off / 4) by (apply Z.div_pos; lia).
  assert (off / 4 + 1 < Z.of_nat (length S)).
  { pose proof (Z.mul_div_le off 4). lia. }
  rewrite bool_decide_true by lia. eexists. split; [reflexivity |]. split; [| split].
  - apply Forall_insert; [apply Forall_insert; [done | apply u32_word] |].
    unfold word in *. rewrite Z.shiftr_div_pow2 by lia. split; [apply Z.div_pos; lia |].
    apply Z.div_lt_upper_bound; lia.
  - by rewrite !length_insert.
  - intros i Hi1 Hi2. rewrite !nth_insert_ne by lia. done.
Qed.

Lemma PWXFORM_SIMD_some p ctx x0 x1 :
  Forall (word 32) ctx.(S) -> in_S p ctx.(S) ctx.(S0) -> in_S p ctx.(S) ctx.(S1) ->
  exists y0 y1, PWXFORM_SIMD p ctx x0 x1 = Some (y0, y1) /\ word 64 y0 /\ word 64 y1.
Proof.
  intros HS (H0 & H0' & _) (H1 & H1' & _). unfold PWXFORM_SIMD.
  destruct (mask_halves p x0) as [Hlo Hhi].
  destruct (read64_some ctx.(S) (ctx.(S0) + u32 (Z.land x0 (Smask2 p)))) as (a0 & -> & Ha0);
    [done | lia | lia |].
  destruct (read64_some ctx.(S) (ctx.(S1) + Z.shiftr (Z.land x0 (Smask2 p)) 32)) as (b0 & -> & Hb0);
    [done | lia | lia |].
  destruct (read64_some ctx.(S) (ctx.(S0) + u32 (Z.land x0 (Smask2 p)) + 8)) as (a1 & -> & Ha1);
    [done | lia | lia |].
  destruct (read64_some ctx.(S) (ctx.(S1) + Z.shiftr (Z.land x0 (Smask2 p)) 32 + 8))
    as (b1 & -> & Hb1); [done | lia | lia |].
  cbn [mbind option_bind]. do 2 eexists. split; [reflexivity |].
  split; (apply word_lxor; [lia | apply u64_word | done]).
Qed.

(** *** The invariant of the statements of one [PWXFORM]

    [ctx0] is the context it started from; the S-box [S2] is not written. *)
Record pwx_ok (p : pass) (ctx0 : pwxform_ctx_t) (w' : Z) (s : pwx) : Prop := {
  ok_X : length s.(Xd) = 8%nat /\ Forall (word 64) s.(Xd);
  ok_S : Forall (word 32) s.(pctx).(S);
  ok_len : length s.(pctx).(S) = length ctx0.(S);
  ok_ctx : s.(pctx) = set_w (set_S ctx0 s.(pctx).(S)) w';
  ok_rest i : (forall off, off = ctx0.(S0) \/ off = ctx0.(S1) ->
      ~ off <= 4 * Z.of_nat i < off + Sbytes1 p) -> s.(pctx).(S).[i] = ctx0.(S).[i]
}.

(** The statements a macro may contain when [w] is at a given place, and the
    place afterwards. *)
Fixpoint stmts_ok (p : pass) (w : Z) (cs : list pwx_stmt) (w' : Z) : Prop :=
  match cs with
  | [] => w' = w
  | SIMD k :: cs => (k < 4)%nat /\ stmts_ok p w cs w'
  | SIMD_WRITE k Sw :: cs =>
      (k < 4)%nat /\ (Sw = S0 \/ Sw = S1) /\ 0 <= w <= Sbytes1 p - 16 /\ stmts_ok p w cs w'
  | W16 :: cs => stmts_ok p (w + 16) cs w'
  end.

Lemma set_w_set_S ctx S1' w1 w2 : set_w (set_w (set_S ctx S1') w1) w2 = set_w (set_S ctx S1') w2.
Proof. done. Qed.

Section Exec.
Variables (p : pass) (ctx0 : pwxform_ctx_t).
Hypotheses (HS0 : in_S p ctx0.(S) ctx0.(S0)) (HS1 : in_S p ctx0.(S) ctx0.(S1)).

Lemma in_S_len S' off : length S' = length ctx0.(S) -> in_S p ctx0.(S) off -> in_S p S' off.
Proof. intros Hl. unfold in_S. by rewrite Hl. Qed.

Lemma simd_ok w' s k :
  pwx_ok p ctx0 w' s -> (k < 4)%nat ->
  exists y0 y1, PWXFORM_SIMD p s.(pctx) (s.(Xd).[2 * k]) (s.(Xd).[2 * k + 1]) = Some (y0, y1) /\
    word 64 y0 /\ word 64 y1 /\
    forall X, X = <[(2 * k + 1)%nat := y1]> (<[(2 * k)%nat := y0]> s.(Xd)) ->
      pwx_ok p ctx0 w' {| Xd := X; pctx := s.(pctx) |}.
Proof.
  intros [[HX HXw] HS Hl Hc Hr] Hk.
  destruct (PWXFORM_SIMD_some p s.(pctx) s.(Xd).[2 * k] s.(Xd).[2 * k + 1])
    as (y0 & y1 & Hy & Hy0 & Hy1); [done | rewrite Hc; by apply in_S_len | rewrite Hc; by apply in_S_len |].
  exists y0, y1. repeat (split; [done |]). intros X ->. split; cbn [Xd pctx]; try done.
  split; [by rewrite !length_insert | by repeat apply Forall_insert].
Qed.

Lemma write_ok w' s Sw off x :
  pwx_ok p ctx0 w' s -> word 64 x -> Sw = ctx0.(S0) \/ Sw = ctx0.(S1) ->
  Sw <= off -> off + 8 <= Sw + Sbytes1 p ->
  exists S', write64 s.(pctx).(S) off x = Some S' /\
    pwx_ok p ctx0 w' {| Xd := s.(Xd); pctx := set_S s.(pctx) S' |}.
Proof.
  intros [HX HS Hl Hc Hr] Hx HSw H0 H1.
  assert (0 <= Sw /\ Sw + Sbytes1 p <= 4 * Z.of_nat (length s.(pctx).(S)) /\ Sw mod 16 = 0)
    as (HSw0 & HSwl & Hal) by (rewrite Hl; by destruct HSw as [-> | ->]).
  destruct (write64_some s.(pctx).(S) off x) as (S' & HS' & Hw & Hlen & Hrest);
    [done | done | lia | lia |].
  exists S'. split; [done |]. split; cbn [Xd pctx set_S S]; try done.
  - by rewrite Hlen.
  - by rewrite Hc.
  - intros i Hi. pose proof (Hi Sw HSw).
    pose proof (Z.div_mod off 4) as Hd. pose proof (Z.mod_pos_bound off 4) as Hm.
    pose proof (Z.div_mod Sw 16) as Hd'. pose proof (Sbytes1_val p) as Hb.
    assert (Hq : Sbytes1 p = 4 * (Sbytes1 p / 4)) by by destruct p.
    rewrite Hrest; [by apply Hr | lia | lia].
Qed.

Lemma pwx_run_ok cs w w' s :
  pwx_ok p ctx0 w s -> stmts_ok p w cs w' ->
  exists s', pwx_run p s cs = Some s' /\ pwx_ok p ctx0 w' s'.
Proof.
  revert w s. induction cs as [| [k | k Sw |] cs IH]; intros w s Hs Hcs; cbn [pwx_run stmts_ok] in *.
  - subst w'. by exists s.
  - destruct Hcs as [Hk Hcs]. destruct (simd_ok w s k Hs Hk) as (y0 & y1 & Hy & _ & _ & Hn).
    unfold pwx_exec. rewrite Hy. cbn [mbind option_bind].
    eapply IH; [by apply Hn | done].
  - destruct Hcs as (Hk & HSw & Hw & Hcs).
    destruct (simd_ok w s k Hs Hk) as (y0 & y1 & Hy & Hy0 & Hy1 & Hn).
    unfold pwx_exec. rewrite Hy. cbn [mbind option_bind].
    pose proof (Hn _ eq_refl) as Hs1. pose proof (ok_ctx _ _ _ _ Hs) as Hc.
    assert (Hoff : Sw s.(pctx) = Sw ctx0 /\ w = s.(pctx).(Pwxform.w)).
    { rewrite Hc. split; [by destruct HSw as [-> | ->] | done]. }
    destruct Hoff as [Ho Hw']. rewrite <- Hw', Ho.
    assert (HSw' : Sw ctx0 = ctx0.(S0) \/ Sw ctx0 = ctx0.(S1)) by (destruct HSw as [-> | ->]; auto).
    destruct (write_ok _ _ (Sw ctx0) (Sw ctx0 + w) y0 Hs1 Hy0 HSw') as (S' & HS' & Hs2); [lia | lia |].
    cbn [pctx] in HS'. rewrite HS'. cbn [mbind option_bind].
    destruct (write_ok _ _ (Sw ctx0) (Sw ctx0 + w + 8) y1 Hs2 Hy1 HSw') as (S'' & HS'' & Hs3);
      [lia | lia |].
    cbn [pctx set_S S] in HS''. rewrite HS''. cbn [mbind option_bind].
    eapply IH; [| exact Hcs]. exact Hs3.
  - unfold pwx_exec. cbn [mbind option_bind]. eapply IH; [| exact Hcs].
    destruct Hs as [HX HS Hl Hc Hr]. split; cbn [Xd pctx set_w S]; try done.
    by rewrite Hc at 1 2.
Qed.
Lemma pwx_run_app s cs1 cs2 : pwx_run p s (cs1 ++ cs2) = (s ← pwx_run p s cs1; pwx_run p s cs2).
Proof.
  revert s. induction cs1 as [| c cs1 IH]; intros s; [done |]. cbn [pwx_run app].
  destruct (pwx_exec p s c); [| done]. cbn [mbind option_bind]. apply IH.
Qed.

(** A sequence without writes leaves the context as it is. *)
Lemma pwx_run_readonly cs s s' :
  Forall (fun c => exists k, c = SIMD k) cs -> pwx_run p s cs = Some s' -> s'.(pctx) = s.(pctx).
Proof.
  intros Hcs. revert s. induction Hcs as [| c cs [k ->] _ IH]; intros s; cbn [pwx_run].
  - intros. by simplify_eq.
  - unfold pwx_exec. destruct (PWXFORM_SIMD p _ _ _) as [[x0 x1] |]; [| done].
    cbn [mbind option_bind]. intros Hr. apply IH in Hr. by rewrite Hr.
Qed.
End Exec.

(** *** Contexts between calls *)

Definition ctx_shape (p : pass) (ctx : pwxform_ctx_t) : Prop :=
  4 * Z.of_nat (length ctx.(S)) = ctx.(Sbytes) /\
  match p with
  | Pass1 => ctx.(S0) = 0 /\ ctx.(S1) = Sbytes1 p /\ ctx.(Sbytes) = 2 * Sbytes1 p
  | Pass2 => Permutation [ctx.(S0); ctx.(S1); ctx.(S2)] [0; Sbytes1 p; 2 * Sbytes1 p] /\
      ctx.(Sbytes) = 3 * Sbytes1 p /\ 0 <= ctx.(w) <= Sbytes1 p - 64 /\ ctx.(w) mod 64 = 0
  end.
Definition ctx_ok (p : pass) (ctx : pwxform_ctx_t) : Prop :=
  Forall (word 32) ctx.(S) /\ ctx_shape p ctx.

(** Word [i] lies in the S-box at [off]. *)
Definition in_box (p : pass) (off : Z) (i : nat) : Prop := off <= 4 * Z.of_nat i < off + Sbytes1 p.

Lemma ctx_ok_boxes p ctx :
  ctx_ok p ctx ->
  in_S p ctx.(S) ctx.(S0) /\ in_S p ctx.(S) ctx.(S1) /\
  (p = Pass2 -> forall i off, in_box p ctx.(S2) i -> off = ctx.(S0) \/ off = ctx.(S1) ->
    ~ in_box p off i).
Proof.
  intros (HS & Hl & Hp). unfold in_S, in_box. pose proof (Sbytes1_val p) as Hb.
  destruct p; rewrite Hb in *.
  - destruct Hp as (-> & -> & Hp). repeat split; done || lia.
  - destruct Hp as (Hperm & Hp & _).
    assert (Hnd : List.NoDup [ctx.(S0); ctx.(S1); ctx.(S2)]).
    { eapply Permutation_NoDup; [symmetry; exact Hperm |].
      apply NoDup_ListNoDup. apply (bool_decide_unpack _). by vm_compute. }
    assert (Hin : forall a, In a [ctx.(S0); ctx.(S1); ctx.(S2)] -> In a [0; 32768; 2 * 32768])
      by (intros a; apply Permutation_in, Hperm).
    pose proof (Hin ctx.(S0)) as H0. pose proof (Hin ctx.(S1)) as H1.
    pose proof (Hin ctx.(S2)) as H2. cbn [In] in H0, H1, H2.
    rewrite !NoDup_cons_iff in Hnd. cbn [In] in Hnd.
    assert (ctx.(S0) = 0 \/ ctx.(S0) = 32768 \/ ctx.(S0) = 65536) as H0' by lia.
    assert (ctx.(S1) = 0 \/ ctx.(S1) = 32768 \/ ctx.(S1) = 65536) as H1' by lia.
    assert (ctx.(S2) = 0 \/ ctx.(S2) = 32768 \/ ctx.(S2) = 65536) as H2' by lia.
    split; [| split]; [| | intros _ i off Hi [-> | ->]]; try lia.
    + split; [lia | split; [lia |]]. by destruct H0' as [-> | [-> | ->]].
    + split; [lia | split; [lia |]]. by destruct H1' as [-> | [-> | ->]].
Qed.

Lemma word64_get_d X i : Forall (word 32) X -> word 64 (get_d X i).
Proof.
  intros HX. unfold get_d. pose proof (word_nth 32 X (2 * i) ltac:(lia) HX).
  pose proof (word_nth 32 X (2 * i + 1) ltac:(lia) HX).
  apply word_lor; [lia | by apply (word_mono 32) |].
  unfold word in *. rewrite Z.shiftl_mul_pow2 by lia. lia.
Qed.

Lemma words_of_d_block d :
  length d = 8%nat -> Forall (word 64) d -> block16 (words_of_d d).
Proof.
  intros Hl Hd. unfold words_of_d. split.
  - do 8 (destruct d as [| ? d]; [done |]). by destruct d.
  - clear Hl. induction Hd as [| x d Hx _ IH]; cbn [map concat app]; [done |].
    constructor; [apply u32_word | constructor; [| done]].
    unfold word in *. rewrite Z.shiftr_div_pow2 by lia.
    split; [apply Z.div_pos; lia | apply Z.div_lt_upper_bound; lia].
Qed.

Lemma PWXFORM_start_ok p X ctx :
  block16 X -> Forall (word 32) ctx.(S) ->
  pwx_ok p ctx ctx.(w) {| Xd := map (get_d X) (seq 0 8); pctx := ctx |}.
Proof.
  intros [_ HX] HS. split; cbn [Xd pctx]; try done; [| by destruct ctx].
  split; [done |]. apply Forall_map, List.Forall_forall. intros i _. by apply word64_get_d.
Qed.

(** [w &= Smask2] wraps [w] back into the S-box. *)
Lemma land_w w' :
  64 <= w' <= Sbytes1 Pass2 -> w' mod 64 = 0 ->
  0 <= Z.land w' (Smask2 Pass2) <= Sbytes1 Pass2 - 64 /\ Z.land w' (Smask2 Pass2) mod 64 = 0.
Proof.
  rewrite Sbytes1_val. intros Hw H64. destruct (decide (w' = 32768)) as [-> |]; [done |].
  assert (Hall : forallb (fun q => Z.land (64 * q) (Smask2 Pass2) =? 64 * q) (seqZ 1 511) = true)
    by by vm_compute.
  rewrite forallb_forall in Hall. pose proof (Z.div_mod w' 64 ltac:(lia)) as Hd.
  rewrite H64, Z.add_0_r in Hd. generalize dependent (w' / 64). intros q ->.
  specialize (Hall q). rewrite <- list_elem_of_In, elem_of_seqZ, Z.eqb_eq in Hall.
  rewrite Hall by lia. lia.
Qed.

(** The pointers, the bounds and the frame of one [PWXFORM]. *)
Lemma PWXFORM_frame p X ctx :
  block16 X -> ctx_ok p ctx ->
  exists X' ctx', PWXFORM p X ctx = Some (X', ctx') /\ block16 X' /\ ctx_ok p ctx' /\
    match p with
    | Pass1 => ctx' = ctx
    | Pass2 => [ctx'.(S0); ctx'.(S1); ctx'.(S2)] = [ctx.(S2); ctx.(S0); ctx.(S1)] /\
        forall i, in_box p ctx.(S2) i -> ctx'.(S).[i] = ctx.(S).[i]
    end.
Proof.
  intros HX Hctx. destruct (ctx_ok_boxes p ctx Hctx) as (Hb0 & Hb1 & Hb2).
  destruct Hctx as (HS & Hl & Hp).
  pose proof (PWXFORM_start_ok p X ctx HX HS) as Hs. unfold PWXFORM. destruct p.
  - match goal with |- context [pwx_run _ ?s ?cs] =>
      destruct (pwx_run_ok Pass1 ctx Hb0 Hb1 cs ctx.(w) ctx.(w) s Hs) as (s' & Hr & Hs') end.
    { cbn. repeat split; lia. }
    rewrite Hr. cbn [mbind option_bind]. apply pwx_run_readonly in Hr.
    2: { repeat apply Forall_cons_2; try apply Forall_nil_2; by eexists. }
    cbn [pctx] in Hr. do 2 eexists. split; [reflexivity |]. rewrite Hr.
    split; [| done]. destruct (ok_X _ _ _ _ Hs'). by apply words_of_d_block.
  - destruct Hp as (Hperm & Hsb & Hw & Hw64). pose proof (Sbytes1_val Pass2) as Hb.
    match goal with |- context [pwx_run _ ?s ?cs] =>
      destruct (pwx_run_ok Pass2 ctx Hb0 Hb1 cs ctx.(w) (ctx.(w) + 64) s Hs) as (s' & Hr & Hs') end.
    { cbn. repeat split; try lia; auto. }
    rewrite Hr. cbn [mbind option_bind]. do 2 eexists. split; [reflexivity |].
    destruct Hs' as [[HX8 HX64] HS' Hlen Hc Hrest].
    split; [by apply words_of_d_block |].
    assert (Hrot : rotate_S Pass2 s'.(pctx) = {| S := s'.(pctx).(S); S0 := ctx.(S2);
      S1 := ctx.(S0); S2 := ctx.(S1); w := Z.land (ctx.(w) + 64) (Smask2 Pass2);
      Sbytes := ctx.(Sbytes) |}) by by rewrite Hc.
    rewrite Hrot. cbn [S S0 S1 S2]. split; [| split; [done |]].
    + unfold ctx_ok, ctx_shape. cbn [S S0 S1 S2 w Sbytes]. rewrite Hlen.
      split; [done |]. split; [done |]. split; [| split; [done |]].
      * rewrite <- Hperm. apply (Permutation_cons_append [ctx.(S0); ctx.(S1)]).
      * apply land_w; [lia |]. by rewrite Z.add_mod, Hw64 by lia.
    + intros i Hi. apply Hrest. intros off Ho. by apply (Hb2 eq_refl i off).
Qed.

(** on a block and a context whose S-boxes are in place, [PWXFORM] never
    reads or writes outside the S-box array, gives a block and a context in
    which the S-boxes are in place again, and leaves the S-box that is not in
    turn as it was (in yespower 0.5, all of them). *)
Theorem PWXFORM_safe p X ctx :
  block16 X -> ctx_ok p ctx ->
  exists X' ctx', PWXFORM p X ctx = Some (X', ctx') /\ block16 X' /\ ctx_ok p ctx' /\
    match p with
    | Pass1 => ctx' = ctx
    | Pass2 => [ctx'.(S0); ctx'.(S1); ctx'.(S2)] = [ctx.(S2); ctx.(S0); ctx.(S1)] /\
        forall i, in_box p ctx.(S2) i -> ctx'.(S).[i] = ctx.(S).[i]
    end.
Proof. apply PWXFORM_frame. Qed.

Lemma PWXFORM_safe_witness :
  let ctx := {| S := replicate 2048 7; S0 := 0; S1 := 4096; S2 := 0; w := 0; Sbytes := 8192 |} in
  exists X' ctx', PWXFORM Pass1 (seqZ 5 16) ctx = Some (X', ctx') /\ block16 X' /\
    ctx_ok Pass1 ctx' /\ ctx' = ctx.
Proof.
  apply (PWXFORM_safe Pass1 (seqZ 5 16)
    {| S := replicate 2048 7; S0 := 0; S1 := 4096; S2 := 0; w := 0; Sbytes := 8192 |}).
  - split; [done | by forall_words].
  - split; [by apply Forall_replicate | split; [reflexivity | by split; [| split]]].
Defined.

(** ** The SSE2 step is the scalar one *)

Lemma get_d_words x0 x1 :
  word 64 x0 -> word 64 x1 ->
  get_d (words_of_d [x0; x1]) 0 = x0 /\ get_d (words_of_d [x0; x1]) 1 = x1.
Proof.
  intros H0 H1. unfold get_d, words_of_d. cbn.
  assert (He : forall x, word 64 x -> Z.lor (u32 x) (Z.shiftl (Z.shiftr x 32) 32) = x); [| by auto].
  intros x Hx. rewrite lor_shift_add by (lia || apply u32_word).
  rewrite u32_mod, Z.shiftr_div_pow2, Z.shiftl_mul_pow2 by lia. pose proof (Z.div_mod x (2 ^ 32)). lia.
Qed.

Lemma words_of_d_xor x0 x1 y0 y1 :
  mm_xor_si128 (words_of_d [x0; x1]) (words_of_d [y0; y1])
  = words_of_d [Z.lxor x0 y0; Z.lxor x1 y1].
Proof.
  unfold mm_xor_si128, words_of_d. cbn. unfold u32. rewrite !Z.shiftr_lxor.
  assert (Hl : forall a b m, Z.land (Z.lxor a b) m = Z.lxor (Z.land a m) (Z.land b m))
    by (intros; bitblast). by rewrite !Hl.
Qed.

(** one pwxform step of the SSE2 build computes what the scalar build
    does, on the same two lanes, S-boxes and pointers. *)
Theorem PWXFORM_SIMD_builds_agree p ctx x0 x1 :
  word 64 x0 -> word 64 x1 -> Forall (word 32) ctx.(S) ->
  in_S p ctx.(S) ctx.(S0) -> in_S p ctx.(S) ctx.(S1) ->
  PWXFORM_SIMD_sse2 p ctx (words_of_d [x0; x1])
  = ('(y0, y1) ← PWXFORM_SIMD p ctx x0 x1; Some (words_of_d [y0; y1])).
Proof.
  intros H0 H1 HS [HS0 [HS0' _]] [HS1 [HS1' _]]. unfold PWXFORM_SIMD_sse2, PWXFORM_SIMD, load128.
  assert (Hx : EXTRACT64 (words_of_d [x0; x1]) = x0) by apply (get_d_words x0 x1 H0 H1).
  rewrite Hx. destruct (mask_halves p x0) as [Hlo Hhi].
  set (m := Z.land x0 (Smask2 p)) in *.
  destruct (read64_some ctx.(S) (ctx.(S0) + u32 m)) as (a0 & -> & Ha0); [done | lia | lia |].
  destruct (read64_some ctx.(S) (ctx.(S0) + u32 m + 8)) as (a1 & -> & Ha1); [done | lia | lia |].
  destruct (read64_some ctx.(S) (ctx.(S1) + Z.shiftr m 32)) as (b0 & -> & _); [done | lia | lia |].
  destruct (read64_some ctx.(S) (ctx.(S1) + Z.shiftr m 32 + 8)) as (b1 & -> & _); [done | lia | lia |].
  cbn [mbind option_bind]. f_equal. rewrite <- words_of_d_xor. f_equal.
  unfold mm_add_epi64, mm_mul_epu32.
  assert (Hp : forall a b, word 64 a -> word 64 b -> word 64 (Z.shiftr a 32 * u32 a)).
  { intros a _ Ha _. pose proof (u32_word a) as Hu. unfold word in *.
    rewrite Z.shiftr_div_pow2 by lia.
    assert (0 <= a / 2 ^ 32 < 2 ^ 32) by (split; [apply Z.div_pos; lia | apply Z.div_lt_upper_bound; lia]).
    nia. }
  change (words_of_d [x0; x1]) with [u32 x0; Z.shiftr x0 32; u32 x1; Z.shiftr x1 32].
  destruct (get_d_words a0 a1 Ha0 Ha1) as [-> ->].
  change (HI32 [u32 x0; Z.shiftr x0 32; u32 x1; Z.shiftr x1 32])
    with [Z.shiftr x0 32; u32 x0; Z.shiftr x1 32; u32 x1]. cbn [nth].
  destruct (get_d_words (Z.shiftr x0 32 * u32 x0) (Z.shiftr x1 32 * u32 x1)) as [-> ->]; eauto.
Qed.

Lemma PWXFORM_SIMD_builds_agree_witness :
  let ctx := {| S := replicate 2048 7; S0 := 0; S1 := 4096; S2 := 0; w := 0; Sbytes := 8192 |} in
  PWXFORM_SIMD_sse2 Pass1 ctx (words_of_d [2 ^ 40 + 3; 5])
  = ('(y0, y1) ← PWXFORM_SIMD Pass1 ctx (2 ^ 40 + 3) 5; Some (words_of_d [y0; y1])).
Proof.
  apply (PWXFORM_SIMD_builds_agree Pass1
    {| S := replicate 2048 7; S0 := 0; S1 := 4096; S2 := 0; w := 0; Sbytes := 8192 |}).
  - by apply (bool_decide_unpack _).
  - by apply (bool_decide_unpack _).
  - by apply Forall_replicate.
  - by split; [| split].
  - by split; [| split].
Defined.

(** ** BlockMix is total and keeps blocks and contexts well-formed *)

Definition blocks_ok (r : nat) (B : blocks) : Prop := length B = (2 * r)%nat /\ Forall block16 B.

Lemma xor_blk_block a b : block16 a -> block16 b -> block16 (xor_blk a b).
Proof.
  intros [Ha Hwa] [Hb Hwb]. split; [unfold xor_blk; rewrite length_zip_with; lia |].
  clear Ha Hb. revert b Hwb. induction Hwa as [| x a Hx _ IH]; intros b Hb; [constructor |].
  destruct Hb; constructor; [by apply word_lxor | by apply IH].
Qed.

Lemma blocks_ok_blk r B i : blocks_ok r B -> (i < 2 * r)%nat -> block16 (blk B i).
Proof.
  intros [Hl HB] Hi. rewrite List.Forall_forall in HB. apply HB, nth_In. lia.
Qed.

Lemma xor_blocks_ok r B1 B2 : blocks_ok r B1 -> blocks_ok r B2 -> blocks_ok r (xor_blocks B1 B2).
Proof.
  intros [H1 HB1] [H2 HB2]. split; [rewrite length_xor_blocks; lia |].
  clear H1 H2. revert B2 HB2. induction HB1 as [| a B1 Ha _ IH]; intros B2 HB2; [constructor |].
  destruct HB2; constructor; [by apply xor_blk_block | by apply IH].
Qed.

Lemma SALSA20_block p X : block16 X -> block16 (SALSA20 p X).
Proof. destruct p; apply salsa20_block. Qed.

Lemma PWXFORM_ok p X ctx :
  block16 X -> ctx_ok p ctx ->
  exists X' ctx', PWXFORM p X ctx = Some (X', ctx') /\ block16 X' /\ ctx_ok p ctx'.
Proof.
  intros HX Hc. destruct (PWXFORM_frame p X ctx HX Hc) as (X' & c' & ? & ? & ? & _). by exists X', c'.
Qed.

Lemma blockmix_loop_ok p r B fuel i X out ctx :
  blocks_ok r B -> (1 <= r)%nat -> (i + fuel = 2 * r)%nat -> (1 <= fuel)%nat ->
  block16 X -> Forall block16 out -> ctx_ok p ctx ->
  exists X' out' ctx', blockmix_loop p fuel B (r * 2 - 1) i X out ctx = Some (X', out', ctx') /\
    block16 X' /\ Forall block16 out' /\ ctx_ok p ctx'.
Proof.
  intros HB Hr. revert i X out ctx. induction fuel as [| fuel IH]; intros i X out ctx Hi Hf HX Ho Hc; [lia |].
  cbn [blockmix_loop]. destruct (PWXFORM_ok p (xor_blk X (blk B i)) ctx) as (X1 & c1 & -> & HX1 & Hc1);
    [apply xor_blk_block; [done |]; apply (blocks_ok_blk r); [done | lia] | done |].
  cbn [mbind option_bind]. destruct (Nat.leb_spec (r * 2 - 1) i).
  - by exists X1, out, c1.
  - apply IH; [lia | lia | done | apply Forall_app_2; [done | by apply Forall_singleton] | done].
Qed.

Definition opt_ctx_ok (p : pass) (r : nat) (ctx : option pwxform_ctx_t) : Prop :=
  match ctx with None => r = 1%nat | Some ctx => ctx_ok p ctx end.

Lemma blockmix_ok p B r ctx :
  blocks_ok r B -> (1 <= r)%nat -> opt_ctx_ok p r ctx ->
  exists out ctx', blockmix p B r ctx = Some (out, ctx') /\ blocks_ok r out /\ opt_ctx_ok p r ctx' /\
    (ctx = None <-> ctx' = None).
Proof.
  intros HB Hr Hc. destruct ctx as [ctx |]; cbn [blockmix opt_ctx_ok] in *.
  - destruct (blockmix_loop_ok p r B (r * 2 - 1 + 1) 0 (blk B (r * 2 - 1)) [] ctx)
      as (X & out & c & Hl & HX & Ho & Hc'); try done; [lia | lia | apply (blocks_ok_blk r); [done | lia] |].
    rewrite Hl. cbn [mbind option_bind]. do 2 eexists. split; [reflexivity |].
    apply blockmix_loop_length in Hl; [| lia]. cbn [length] in Hl.
    split; [| done]. split; [rewrite length_app, Hl; cbn; lia |].
    apply Forall_app_2; [done |]. constructor; [by apply SALSA20_block | constructor].
  - subst r. do 2 eexists. split; [reflexivity |]. split; [| done].
    assert (H0 := blocks_ok_blk 1 B 0 HB ltac:(lia)). assert (H1 := blocks_ok_blk 1 B 1 HB ltac:(lia)).
    unfold blockmix_salsa. split; [done |].
    repeat apply Forall_cons_2; try apply Forall_nil_2; repeat (apply SALSA20_block || apply xor_blk_block || done).
Qed.
