(* ===== verification/Smix.v ===== *)
(** * SMix in yespower: [smix1], [smix2] and [smix] of yespower-opt.c

    [V], [XY] and the S-boxes are arrays of 64-byte blocks, as in the code;
    [X], [Y] and [V_j] are offsets into them, in blocks.  A load or a store
    outside an array is [None].  The results are compared with the two loops
    of SMix in the yescrypt description ([Module SMix]).  Words are stored in
    memory in little-endian order (the host's, on x86). *)

From S2P Require Import Prelude Endian Salsa20 Pwxform.

(** ** Arrays of blocks *)

Definition load_at (A : blocks) (off n : nat) : option blocks :=
  if (off + n <=? length A)%nat then Some (take n (drop off A)) else None.
Definition store_at (A : blocks) (off : nat) (src : blocks) : option blocks :=
  if (off + length src <=? length A)%nat then Some (write_at off src A) else None.

Fixpoint fold_opt {A B} (f : A -> B -> option A) (l : list B) (a : A) : option A :=
  match l with [] => Some a | b :: l => a ← f a b; fold_opt f l a end.

(** ** The code: blocks from and to bytes *)

(** [tmp->w[k] = le32dec(&src->w[k])] for the block [src] at [&B[i * 64]]. *)
Definition block_words (B : list Z) (i : nat) : list Z :=
  map (fun k => le32dec (take 4 (drop (i * 64 + 4 * k) B))) (seq 0 16).
(** The words a little-endian host reads back after [le32enc], and the bytes
    of the words it stores. *)
Definition tmp_words (src : list Z) : list Z := map (fun x => le32dec (le32enc x)) src.
Definition words_bytes (w : list Z) : list Z := concat (map le32enc w).

(** The body of the first loop of [smix1] and [smix2]: block [i] of [B] to [A]
    at [X], with [tmp] at [Y]; and the loop. *)
Definition load_block (B : list Z) (X Y : nat) (A : blocks) (i : nat) : option blocks :=
  let tmp := block_words B i in
  A ← store_at A Y [tmp]; store_at A (X + i) [salsa20_simd_shuffle tmp].
Definition load_blocks (B : list Z) (A : blocks) (X Y cnt : nat) : option blocks :=
  fold_opt (load_block B X Y) (seq 0 cnt) A.

(** The body of the last loop: block [i] of [A] at [X] to [B]; and the loop. *)
Definition store_block (X tmp_at : nat) '((A, B) : blocks * list Z) (i : nat) :
  option (blocks * list Z) :=
  src ← load_at A (X + i) 1;
  let tmp := tmp_words (blk src 0) in
  A ← store_at A tmp_at [tmp];
  Some (A, write_at (i * 64) (words_bytes (salsa20_simd_unshuffle tmp)) B).
Definition store_blocks (A : blocks) (X tmp_at cnt : nat) (B : list Z) : option (blocks * list Z) :=
  fold_opt (store_block X tmp_at) (seq 0 cnt) (A, B).

(** ** The code: smix1 *)

Definition integerify (B : blocks) (r : nat) : Z := u32 (get_d (blk B (2 * r - 1)) 0).

Section Calls.
Variables (p : pass) (r : nat).

(** [blockmix(&A[src], &A[dst], n, ctx)] inside one array. *)
Definition call_blockmix (n : nat) (A : blocks) (src dst : nat) (ctx : option pwxform_ctx_t) :
  option (blocks * option pwxform_ctx_t) :=
  Bin ← load_at A src (2 * n);
  '(Bout, ctx) ← blockmix p Bin n ctx;
  A ← store_at A dst Bout; Some (A, ctx).

(** [for (i = 1; i < r; i++) blockmix(&X[(i - 1) * 2], &X[i * 2], 1, ctx)], [t]
    iterations of it. *)
Definition smix1_expand (t : nat) (V : blocks) (ctx : option pwxform_ctx_t) :=
  fold_opt (fun '(V, ctx) i => call_blockmix 1 V ((i - 1) * 2) (i * 2) ctx) (seq 1 t) (V, ctx).

(** The state of the loops: [V], the offset [X], [j] and the context. *)
Record smix1_state := { mV : blocks; mX : nat; mj : Z; mctx : option pwxform_ctx_t }.

(** [j &= n - 1; j += d; V_j = &V[j * s]; Y = X + s; j = blockmix_xor(X, V_j, Y)],
    after which [Y] is the current block. *)
Definition smix1_step (n d : Z) (st : smix1_state) : option smix1_state :=
  let s := (2 * r)%nat in
  let j := u32 (Z.land st.(mj) (n - 1) + d) in
  let Y := (st.(mX) + s)%nat in
  X ← load_at st.(mV) st.(mX) s;
  Vj ← load_at st.(mV) (Z.to_nat j * s) s;
  '(j, out, ctx) ← blockmix_xor p X Vj r st.(mctx);
  V ← store_at st.(mV) Y out;
  Some {| mV := V; mX := Y; mj := j; mctx := ctx |}.

(** [for (i = 1; i < m; i += 2)]: the body for [i = 2 t + 1], and the loop. *)
Definition smix1_pair (n : Z) (st : smix1_state) (t : Z) : option smix1_state :=
  let i := 2 * t + 1 in
  st ← smix1_step n (i - 1) st; smix1_step n i st.
Definition smix1_inner (n m : Z) (st : smix1_state) : option smix1_state :=
  fold_opt (smix1_pair n) (seqZ 0 (m / 2)) st.

(** [for (n = 2; n < N; n <<= 1)]: the last [n] as well. *)
Fixpoint smix1_outer (fuel : nat) (n N : Z) (st : smix1_state) : option (smix1_state * Z) :=
  match fuel with
  | O => None
  | Datatypes.S fuel =>
      if n <? N then
        let m := if n <? N / 2 then n else N - 1 - n in
        st ← smix1_inner n m st; smix1_outer fuel (u32 (Z.shiftl n 1)) N st
      else Some (st, n)
  end.

(** The new [B], [V], [XY] and context. *)
Definition smix1 (B : list Z) (N : Z) (V XY : blocks) (ctx : option pwxform_ctx_t) :
  option (list Z * blocks * blocks * option pwxform_ctx_t) :=
  let s := (2 * r)%nat in
  V ← load_blocks B V 0 s (match p with Pass1 => 2 * r | Pass2 => 2 end);
  '(V, ctx) ← match p with
    | Pass1 => Some (V, ctx)
    | Pass2 => smix1_expand (r - 1) V ctx
    end;
  '(V, ctx) ← call_blockmix r V 0 s ctx;
  '(V, ctx) ← call_blockmix r V s (s + s) ctx;
  X ← load_at V (s + s) s;
  '(st, n) ← smix1_outer 32 2 N {| mV := V; mX := s + s; mj := integerify X r; mctx := ctx |};
  let n := Z.shiftr n 1 in
  st ← smix1_step n (N - 2 - n) st;
  let j := u32 (Z.land st.(mj) (n - 1) + (N - 1 - n)) in
  Y ← load_at st.(mV) st.(mX) s;
  Vj ← load_at st.(mV) (Z.to_nat j * s) s;
  '(_, out, ctx) ← blockmix_xor p Y Vj r st.(mctx);
  XY ← store_at XY 0 out;
  '(XY, B) ← store_blocks XY 0 s (2 * r) B;
  Some (B, st.(mV), XY, ctx).

(** ** The code: smix2 *)

(** [V_j = &V[j * s]; j = blockmix_xor_save(X, V_j, r, ctx) & (N - 1)]. *)
Definition smix2_save (N : Z) '((V, XY, j, ctx) : blocks * blocks * Z * pwxform_ctx_t) :
  option (blocks * blocks * Z * pwxform_ctx_t) :=
  let s := (2 * r)%nat in
  X ← load_at XY 0 s;
  Vj ← load_at V (Z.to_nat j * s) s;
  '(j', X, Vj, ctx) ← blockmix_xor_save p X Vj r ctx;
  XY ← store_at XY 0 X; V ← store_at V (Z.to_nat j * s) Vj;
  Some (V, XY, Z.land j' (N - 1), ctx).

(** [do { .. } while (Nloop -= 2)]. *)
Fixpoint smix2_loop (fuel : nat) (N Nloop : Z) (st : blocks * blocks * Z * pwxform_ctx_t) :
  option (blocks * blocks * Z * pwxform_ctx_t) :=
  match fuel with
  | O => None
  | Datatypes.S fuel =>
      st ← smix2_save N st; st ← smix2_save N st;
      let Nloop := u32 (Nloop - 2) in
      if Nloop =? 0 then Some st else smix2_loop fuel N Nloop st
  end.

(** The branch of pass 1 for [Nloop <= 2]. *)
Definition smix2_read (N : Z) '((V, XY, j, ctx) : blocks * blocks * Z * pwxform_ctx_t) :
  option (blocks * blocks * Z * pwxform_ctx_t) :=
  let s := (2 * r)%nat in
  X ← load_at XY 0 s; Vj ← load_at V (Z.to_nat j * s) s;
  '(j, Y, ctx) ← blockmix_xor p X Vj r (Some ctx);
  let j := Z.land j (N - 1) in
  XY ← store_at XY s Y; Y ← load_at XY s s; Vj ← load_at V (Z.to_nat j * s) s;
  '(_, X, ctx) ← blockmix_xor p Y Vj r ctx;
  XY ← store_at XY 0 X; ctx ← ctx; Some (V, XY, j, ctx).

Definition smix2 (B : list Z) (N Nloop : Z) (V XY : blocks) (ctx : pwxform_ctx_t) :
  option (list Z * blocks * blocks * pwxform_ctx_t) :=
  let s := (2 * r)%nat in
  XY ← load_blocks B XY 0 s (2 * r);
  X ← load_at XY 0 s;
  let j := Z.land (integerify X r) (N - 1) in
  let save := smix2_loop (Z.to_nat Nloop) N Nloop (V, XY, j, ctx) in
  '(V, XY, _, ctx) ← match p with
    | Pass1 => if 2 <? Nloop then save else smix2_read N (V, XY, j, ctx)
    | Pass2 => save
    end;
  '(XY, B) ← store_blocks XY 0 s (2 * r) B;
  Some (B, V, XY, ctx).
End Calls.

(** ** The code: smix *)

(** The S-boxes as [(salsa20_blk_t * )ctx->S0]. *)
Definition S_blocks (ctx : pwxform_ctx_t) : blocks :=
  let S := drop (Z.to_nat (ctx.(S0) / 4)) ctx.(S) in pieces 16 (length S / 16) S.
Definition put_S_blocks (ctx : pwxform_ctx_t) (V : blocks) : pwxform_ctx_t :=
  set_S ctx (write_at (Z.to_nat (ctx.(S0) / 4)) (concat V) ctx.(S)).

(** [Nloop_all] (pass 1 only) and [Nloop_rw]. *)
Definition Nloop_all (N : Z) : Z := Z.land (u32 ((N + 2) / 3 + 1)) (not32 1).
Definition Nloop_rw (p : pass) (N : Z) : Z :=
  match p with
  | Pass1 => Z.land ((N + 2) / 3) (not32 1)
  | Pass2 => Z.land (u32 ((N + 2) / 3 + 1)) (not32 1)
  end.

Definition smix (p : pass) (B : list Z) (r : nat) (N : Z) (V XY : blocks) (ctx : pwxform_ctx_t) :
  option (list Z * blocks * blocks * pwxform_ctx_t) :=
  '(B, Sv, XY, _) ← smix1 p 1 B (ctx.(Sbytes) / 128) (S_blocks ctx) XY None;
  let ctx := put_S_blocks ctx Sv in
  '(B, V, XY, ctx) ← smix1 p r B N V XY (Some ctx);
  ctx ← ctx;
  '(B, V, XY, ctx) ← smix2 p r B N (Nloop_rw p N) V XY ctx;
  match p with
  | Pass1 =>
      if Nloop_rw p N <? Nloop_all N then smix2 p r B N 2 V XY ctx
      else Some (B, V, XY, ctx)
  | Pass2 => Some (B, V, XY, ctx)
  end.

(** ** SMix *)

Fixpoint iter_opt {A} (n : nat) (f : A -> option A) (a : A) : option A :=
  match n with O => Some a | Datatypes.S n => a ← iter_opt n f a; f a end.

Module SMix.
(** The largest power of two not above [i], and the reference into the rows
    written so far. *)
Definition p2floor (i : Z) : Z := 2 ^ Z.log2 i.
Definition Wrap (x i : Z) : Z := x mod p2floor i + (i - p2floor i).

(** The block array the loops start from: all of [B] in yespower 0.5, two
    blocks of [B] extended by BlockMix in yespower 1.0. *)
Definition block_of (B : list Z) (i : nat) : list Z := salsa20_simd_shuffle (block_words B i).
Definition expand (p : pass) '((X, ctx) : blocks * option pwxform_ctx_t) :
  option (blocks * option pwxform_ctx_t) :=
  '(out, ctx) ← blockmix p (drop (length X - 2) X) 1 ctx; Some (X ++ out, ctx).
Definition start (p : pass) (r : nat) (B : list Z) (ctx : option pwxform_ctx_t) :
  option (blocks * option pwxform_ctx_t) :=
  match p with
  | Pass1 => Some (map (block_of B) (seq 0 (2 * r)), ctx)
  | Pass2 => iter_opt (r - 1) (expand p) (map (block_of B) (seq 0 2), ctx)
  end.
Definition finish (X : blocks) : list Z :=
  concat (map (fun b => words_bytes (salsa20_simd_unshuffle b)) X).

(** One step of the first loop: store the row, and mix one of the rows
    written so far into the next. *)
Definition fill1 (p : pass) (r : nat) '((V, X, ctx) : list blocks * blocks * option pwxform_ctx_t) :
  option (list blocks * blocks * option pwxform_ctx_t) :=
  let i := Z.of_nat (length V) in
  let V := V ++ [X] in
  let X := if 1 <? i then xor_blocks X (nth (Z.to_nat (Wrap (integerified X) i)) V []) else X in
  '(X, ctx) ← blockmix p X r ctx; Some (V, X, ctx).

(** One step of the second loop, writing the row back or not. *)
Definition mix1 (p : pass) (r : nat) (N : Z) (save : bool)
    '((V, X, ctx) : list blocks * blocks * option pwxform_ctx_t) :
  option (list blocks * blocks * option pwxform_ctx_t) :=
  let j := Z.to_nat (integerified X mod N) in
  let X := xor_blocks X (nth j V []) in
  let V := if save then <[j := X]> V else V in
  '(X, ctx) ← blockmix p X r ctx; Some (V, X, ctx).

(** The two loops on bytes. *)
Definition loop1 (p : pass) (r : nat) (B : list Z) (N : Z) (ctx : option pwxform_ctx_t) :=
  '(X, ctx) ← start p r B ctx;
  '(V, X, ctx) ← iter_opt (Z.to_nat N) (fill1 p r) ([], X, ctx);
  Some (finish X, V, ctx).
Definition loop2 (p : pass) (r : nat) (B : list Z) (N Nloop : Z) (save : bool) (V : list blocks)
    (ctx : option pwxform_ctx_t) :=
  '(V, X, ctx) ← iter_opt (Z.to_nat Nloop) (mix1 p r N save)
    (V, map (block_of B) (seq 0 (2 * r)), ctx);
  Some (finish X, V, ctx).

(** Numbers of iterations: about [N / 3], rounded to even numbers. *)
Definition third (N : Z) : Z := (N + 2) / 3.
Definition Nloop_all (N : Z) : Z := 2 * ((third N + 1) / 2).
Definition Nloop_rw (p : pass) (N : Z) : Z :=
  match p with Pass1 => 2 * (third N / 2) | Pass2 => Nloop_all N end.

(** The S-boxes are the rows of a first SMix on 128 bytes; then the two loops
    on the whole of [B]. *)
Definition run (p : pass) (r : nat) (B : list Z) (N : Z) (ctx : pwxform_ctx_t) :
  option (list Z * pwxform_ctx_t) :=
  '(out, Ws, _) ← loop1 p 1 B (ctx.(Sbytes) / 128) None;
  let B := write_at 0 out B in
  '(B, V, ctx) ← loop1 p r B N (Some (set_S ctx (concat (concat Ws))));
  '(B, V, ctx) ← loop2 p r B N (Nloop_rw p N) true V ctx;
  '(B, V, ctx) ← match p with
    | Pass1 => if Nloop_rw p N =? Nloop_all N then Some (B, V, ctx) else
        loop2 p r B N (Nloop_all N - Nloop_rw p N) false V ctx
    | Pass2 => Some (B, V, ctx)
    end;
  ctx ← ctx; Some (B, ctx).
End SMix.

(** ** Loads and stores *)

Lemma load_at_some A off n :
  (off + n <= length A)%nat -> load_at A off n = Some (take n (drop off A)).
Proof. intros H. unfold load_at. by rewrite (proj2 (Nat.leb_le _ _)). Qed.
Lemma store_at_some A off src :
  (off + length src <= length A)%nat -> store_at A off src = Some (write_at off src A).
Proof. intros H. unfold store_at. by rewrite (proj2 (Nat.leb_le _ _)). Qed.

Lemma take_write_at_before {A} n off (src l : list A) :
  (n <= off)%nat -> (off <= length l)%nat -> take n (write_at off src l) = take n l.
Proof.
  intros. unfold write_at. rewrite take_app_le by (rewrite length_take; lia).
  rewrite take_take. f_equal. lia.
Qed.

Lemma fold_opt_app {A B} (f : A -> B -> option A) l k a :
  fold_opt f (l ++ k) a = (a ← fold_opt f l a; fold_opt f k a).
Proof.
  revert a. induction l as [| b l IH]; intros a; [done |]. cbn [fold_opt app].
  destruct (f a b); [| done]. cbn [mbind option_bind]. apply IH.
Qed.

Lemma fold_opt_snoc {A B} (f : A -> B -> option A) l b a a' :
  fold_opt f l a = Some a' -> fold_opt f (l ++ [b]) a = f a' b.
Proof. intros H. rewrite fold_opt_app, H. cbn. by destruct (f a' b). Qed.

Lemma Forall_write_at {A} (P : A -> Prop) off (src l : list A) :
  Forall P src -> Forall P l -> Forall P (write_at off src l).
Proof. intros. unfold write_at. auto using Forall_app_2, Forall_take, Forall_drop. Qed.

Lemma block_words_block B i : block16 (block_words B i).
Proof.
  split; [done |]. unfold block_words.
  apply Forall_map, List.Forall_forall. intros k _. apply le32dec_word.
Qed.

Lemma block_of_block B i : block16 (SMix.block_of B i).
Proof. apply shuffle_block, block_words_block. Qed.

Lemma load_blocks_ok B A s cnt :
  (cnt <= s)%nat -> (s + 1 <= length A)%nat ->
  exists A', load_blocks B A 0 s cnt = Some A' /\ length A' = length A /\
    take cnt A' = map (SMix.block_of B) (seq 0 cnt) /\ (Forall block16 A -> Forall block16 A').
Proof.
  intros Hc Hs. unfold load_blocks. induction cnt as [| cnt IH].
  - exists A. by rewrite take_0.
  - destruct IH as (A' & HA & Hl & Ht & Hw); [lia |]. rewrite seq_S. erewrite fold_opt_snoc by exact HA.
    unfold load_block. cbn [Nat.add]. rewrite store_at_some by (cbn; lia). cbn [mbind option_bind].
    assert (Hl' : forall b, length (write_at s [b] A') = length A)
      by (intros; rewrite length_write_at; cbn; lia).
    rewrite store_at_some by (rewrite Hl'; cbn; lia). eexists. split; [reflexivity |].
    split; [rewrite length_write_at; rewrite ?Hl'; cbn; lia |].
    split; [| intros HA'; apply Forall_write_at; [apply Forall_singleton, block_of_block |];
      apply Forall_write_at; [apply Forall_singleton, block_words_block | by apply Hw]].
    rewrite <- Nat.add_1_r.
    change 1%nat with (length [SMix.block_of B cnt]) at 1.
    unfold SMix.block_of at 1 2. rewrite take_write_at by (rewrite Hl'; cbn; lia).
    rewrite take_write_at_before by lia. by rewrite Ht, map_app.
Qed.

Lemma tmp_words_id b : block16 b -> tmp_words b = b.
Proof.
  intros [_ Hb]. unfold tmp_words. induction Hb as [| x b Hx _ IH]; [done |].
  cbn [map]. by rewrite IH, le32dec_enc.
Qed.

Lemma length_words_bytes w : length (words_bytes w) = (4 * length w)%nat.
Proof.
  unfold words_bytes. induction w as [| x w IH]; [done |].
  cbn [map concat]. rewrite length_app, IH, le32enc_spec, length_le_bytes. cbn [length]. lia.
Qed.

Lemma length_finish X : Forall block16 X -> length (SMix.finish X) = (64 * length X)%nat.
Proof.
  intros HX. unfold SMix.finish. induction HX as [| b X Hb _ IH]; [done |].
  cbn [map concat]. rewrite length_app, IH, length_words_bytes.
  destruct (unshuffle_block b Hb) as [-> _]. cbn [length]. lia.
Qed.

Lemma write_at_write_at {A} off (a b l : list A) :
  (off + length a + length b <= length l)%nat ->
  write_at (off + length a) b (write_at off a l) = write_at off (a ++ b) l.
Proof.
  intros H. unfold write_at at 1. rewrite take_write_at by lia.
  rewrite drop_write_at by lia. unfold write_at. rewrite length_app, <- !app_assoc.
  do 4 f_equal. lia.
Qed.

Lemma write_at_nil {A} off (l : list A) : write_at off [] l = l.
Proof. unfold write_at. cbn. by rewrite Nat.add_0_r, take_drop. Qed.

Lemma finish_snoc X b :
  SMix.finish (X ++ [b]) = SMix.finish X ++ words_bytes (salsa20_simd_unshuffle b).
Proof. unfold SMix.finish. rewrite map_app, concat_app. cbn [map concat]. by rewrite app_nil_r. Qed.

Lemma Forall_take_le {A} (P : A -> Prop) (l : list A) k n :
  (k <= n)%nat -> Forall P (take n l) -> Forall P (take k l).
Proof. intros Hk Hl. replace k with (k `min` n)%nat by lia. rewrite <- take_take. by apply Forall_take. Qed.

Lemma blk_prefix A n k :
  Forall block16 (take n A) -> (k < n)%nat -> (k < length A)%nat ->
  block16 (blk A k) /\ take (Datatypes.S k) A = take k A ++ [blk A k].
Proof.
  intros HA Hk Hl. split.
  - rewrite List.Forall_forall in HA. apply HA. unfold blk.
    assert (Hn : nth k A [] = nth k (take n A) []) by by rewrite !nth_lookup, lookup_take_lt by lia.
    rewrite Hn. apply nth_In. rewrite length_take. lia.
  - rewrite take_blk by done. f_equal. lia.
Qed.

Lemma store_blocks_ok A s cnt B :
  (cnt <= s)%nat -> (s + 1 <= length A)%nat -> (64 * cnt <= length B)%nat ->
  Forall block16 (take cnt A) ->
  exists A', store_blocks A 0 s cnt B = Some (A', write_at 0 (SMix.finish (take cnt A)) B) /\
    length A' = length A /\ (Forall block16 A -> Forall block16 A').
Proof.
  intros Hc Hs HB HA. unfold store_blocks.
  assert (Hi : forall k, (k <= cnt)%nat -> exists A',
    fold_opt (store_block 0 s) (seq 0 k) (A, B)
    = Some (A', write_at 0 (SMix.finish (take k A)) B) /\
    length A' = length A /\ take s A' = take s A /\ (Forall block16 A -> Forall block16 A')).
  2: { destruct (Hi cnt) as (A' & HA' & Hl & _ & Hw); [lia |]. by exists A'. }
  induction k as [| k IH]; intros Hk.
  { exists A. rewrite take_0. change (SMix.finish []) with (@nil Z). by rewrite write_at_nil. }
  destruct IH as (A' & HA' & Hl & Ht & Hw); [lia |]. rewrite seq_S. erewrite fold_opt_snoc by exact HA'.
  destruct (blk_prefix A cnt k HA) as [Hbk Htk]; [lia | lia |].
  assert (Hb : blk (take 1 (drop k A')) 0 = blk A k).
  { unfold blk. rewrite !nth_lookup, lookup_take_lt, lookup_drop, Nat.add_0_r by lia.
    rewrite <- (lookup_take_lt A' s), Ht, lookup_take_lt by lia. done. }
  unfold store_block. cbn [Nat.add]. rewrite load_at_some by lia. cbn [mbind option_bind].
  rewrite Hb, tmp_words_id by done. rewrite store_at_some by (cbn; lia). cbn [mbind option_bind].
  eexists. split; [| split; [| split]].
  - do 2 f_equal. rewrite Htk, finish_snoc.
    assert (Hlf : length (SMix.finish (take k A)) = (k * 64)%nat).
    { rewrite length_finish, length_take; [lia |]. eapply Forall_take_le; [| exact HA]. lia. }
    replace (k * 64)%nat with (0 + length (SMix.finish (take k A)))%nat by lia.
    apply write_at_write_at. rewrite Hlf, length_words_bytes.
    destruct (unshuffle_block _ Hbk) as [-> _]. lia.
  - rewrite length_write_at; cbn; lia.
  - by rewrite take_write_at_before by lia.
  - intros HA1. apply Forall_write_at; [by apply Forall_singleton | by apply Hw].
Qed.

Lemma iter_opt_add {A} (f : A -> option A) m n a :
  iter_opt (m + n) f a = (a ← iter_opt m f a; iter_opt n f a).
Proof.
  induction n as [| n IH].
  - rewrite Nat.add_0_r. by destruct (iter_opt m f a).
  - rewrite Nat.add_succ_r. cbn [iter_opt]. rewrite IH. by destruct (iter_opt m f a).
Qed.

(** ** The rows inside [V] *)

Definition holds (V : blocks) (Ws : list blocks) : Prop := exists rest, V = concat Ws ++ rest.
Abbreviation rows_ok r := (Forall (blocks_ok r)).

Lemma length_rows r Ws : rows_ok r Ws -> length (concat Ws) = (length Ws * (2 * r))%nat.
Proof.
  induction 1 as [| X Ws [HX _] _ IH]; [done |]. cbn [concat length]. rewrite length_app, IH. lia.
Qed.

Lemma rows_ok_nth r Ws j : rows_ok r Ws -> (j < length Ws)%nat -> blocks_ok r (nth j Ws []).
Proof. intros HW Hj. rewrite List.Forall_forall in HW. by apply HW, nth_In. Qed.

Lemma take_drop_row r Ws rest j :
  rows_ok r Ws -> (j < length Ws)%nat ->
  take (2 * r) (drop (j * (2 * r)) (concat Ws ++ rest)) = nth j Ws [].
Proof.
  intros HW. revert j. induction HW as [| X Ws [HX HXb] HW IH]; intros j Hj; cbn [length] in *; [lia |].
  cbn [concat]. rewrite <- app_assoc. destruct j as [| j]; cbn [nth].
  - change (0 * (2 * r))%nat with 0%nat. rewrite drop_0. by apply take_app_length'.
  - rewrite drop_app_ge by lia. rewrite HX.
    replace (Datatypes.S j * (2 * r) - 2 * r)%nat with (j * (2 * r))%nat by lia. apply IH. lia.
Qed.

Lemma rows_ok_last r V X : rows_ok r (V ++ [X]) -> blocks_ok r X.
Proof. rewrite Forall_app. intros [_ HX]. inversion HX. assumption. Qed.

Lemma holds_length r V Ws : holds V Ws -> rows_ok r Ws -> (length Ws * (2 * r) <= length V)%nat.
Proof. intros [rest ->] HW. rewrite length_app, (length_rows r) by done. lia. Qed.

Lemma load_row r V Ws j :
  holds V Ws -> rows_ok r Ws -> (j < length Ws)%nat ->
  load_at V (j * (2 * r)) (2 * r) = Some (nth j Ws []).
Proof.
  intros HV HW Hj. pose proof (holds_length r V Ws HV HW). rewrite load_at_some by nia.
  destruct HV as [rest ->]. by rewrite (take_drop_row r).
Qed.

Lemma store_row r V Ws X :
  holds V Ws -> rows_ok r Ws -> blocks_ok r X -> ((length Ws + 1) * (2 * r) <= length V)%nat ->
  exists V', store_at V (length Ws * (2 * r)) X = Some V' /\ holds V' (Ws ++ [X]) /\
    length V' = length V.
Proof.
  intros [rest ->] HW [HX _] Hl. rewrite store_at_some by lia. eexists. split; [reflexivity |].
  split; [| rewrite length_write_at; lia].
  exists (drop (2 * r) rest). unfold write_at. rewrite length_app, (length_rows r) in Hl by done.
  rewrite take_app_length' by (by rewrite (length_rows r)).
  rewrite concat_app. cbn [concat]. rewrite app_nil_r, <- app_assoc. do 2 f_equal.
  rewrite drop_app_ge by (rewrite (length_rows r) by done; lia).
  f_equal. rewrite (length_rows r) by done. lia.
Qed.

Lemma update_row r V Ws X j :
  holds V Ws -> rows_ok r Ws -> blocks_ok r X -> (j < length Ws)%nat ->
  exists V', store_at V (j * (2 * r)) X = Some V' /\ holds V' (<[j := X]> Ws) /\
    length V' = length V.
Proof.
  intros HV HW HX Hj. pose proof (holds_length r V Ws HV HW) as Hl.
  rewrite store_at_some by (destruct HX as [-> _]; nia). eexists. split; [reflexivity |].
  split; [| rewrite length_write_at; [done | destruct HX as [-> _]; nia]].
  destruct HV as [rest ->]. clear Hl. exists rest. revert j Hj.
  induction HW as [| Y Ws [HY _] HW IH]; intros j Hj; cbn [length] in *; [lia |].
  destruct HX as [HX HXb]. destruct j as [| j]; cbn [concat list_insert insert].
  - unfold write_at. change (0 * (2 * r))%nat with 0%nat. rewrite take_0, HX. cbn [Nat.add app].
    rewrite <- !app_assoc. f_equal. rewrite drop_app_length'; done.
  - rewrite <- !app_assoc. rewrite <- IH by lia. unfold write_at.
    replace (Datatypes.S j * (2 * r))%nat with (length Y + j * (2 * r))%nat by lia.
    rewrite take_app_add, <- !app_assoc. do 3 f_equal.
    replace (length Y + j * (2 * r) + length X)%nat with (length Y + (j * (2 * r) + length X))%nat by lia.
    by rewrite drop_app_add.
Qed.

(** ** The first loop *)

Lemma integerified_blk r X :
  blocks_ok r X -> (1 <= r)%nat -> integerified X = (blk X (2 * r - 1)).[0].
Proof.
  intros [Hl _] Hr. unfold integerified, blk. f_equal. revert Hl.
  pattern X. apply rev_ind; cbn [length]; [lia |]. intros b X' _ Hl.
  rewrite length_app in Hl. cbn in Hl. rewrite List.last_last, app_nth2 by lia.
  by replace (2 * r - 1 - length X')%nat with 0%nat by lia.
Qed.

Lemma integerified_word r X : blocks_ok r X -> (1 <= r)%nat -> word 32 (integerified X).
Proof.
  intros HX Hr. rewrite (integerified_blk r) by done.
  destruct (blocks_ok_blk r X (2 * r - 1) HX ltac:(lia)). auto with words.
Qed.

Lemma integerify_eq r X : blocks_ok r X -> (1 <= r)%nat -> integerify X r = integerified X.
Proof.
  intros HX Hr. pose proof (blocks_ok_blk r X (2 * r - 1) HX ltac:(lia)) as Hb.
  unfold integerify. destruct (get_d_halves _ 0 Hb) as [-> _].
  by rewrite (integerified_blk r).
Qed.

Lemma p2floor_bounds i : 0 < i -> 0 < SMix.p2floor i /\ SMix.p2floor i <= i < 2 * SMix.p2floor i.
Proof.
  intros Hi. unfold SMix.p2floor. pose proof (Z.log2_spec i Hi) as Hs.
  rewrite Z.pow_succ_r in Hs by apply Z.log2_nonneg. lia.
Qed.

Lemma Wrap_range x i : 0 < i -> 0 <= SMix.Wrap x i < i.
Proof.
  intros Hi. pose proof (p2floor_bounds i Hi). unfold SMix.Wrap.
  pose proof (Z.mod_pos_bound x (SMix.p2floor i)). lia.
Qed.

(** The masked index of the code. *)
Lemma Wrap_land x i :
  0 < i < 2 ^ 32 -> u32 (Z.land x (SMix.p2floor i - 1) + (i - SMix.p2floor i)) = SMix.Wrap x i.
Proof.
  intros Hi. pose proof (Wrap_range x i ltac:(lia)) as Hw.
  assert (Hl : Z.land x (SMix.p2floor i - 1) = x mod SMix.p2floor i).
  { unfold SMix.p2floor. rewrite <- Z.land_ones by apply Z.log2_nonneg.
    f_equal. rewrite Z.ones_equiv. lia. }
  rewrite Hl. apply u32_small. unfold SMix.Wrap, word in *. lia.
Qed.

Lemma p2floor_pow n i : 0 <= n -> 2 ^ n <= i < 2 * 2 ^ n -> SMix.p2floor i = 2 ^ n.
Proof.
  intros Hn Hi. unfold SMix.p2floor. f_equal. apply Z.log2_unique; [done |].
  rewrite Z.pow_succ_r; lia.
Qed.

Section Loop1.
Variables (p : pass) (r : nat).
Hypothesis Hr : (1 <= r)%nat.

(** The row a step of the first loop mixes in. *)
Definition fill_in (V : list blocks) (X : blocks) : blocks :=
  let i := Z.of_nat (length V) in
  if 1 <? i then xor_blocks X (nth (Z.to_nat (SMix.Wrap (integerified X) i)) (V ++ [X]) []) else X.

Lemma fill_in_ok V X : rows_ok r (V ++ [X]) -> blocks_ok r (fill_in V X).
Proof.
  intros HW. pose proof (rows_ok_last r V X HW) as HX. unfold fill_in. destruct (Z.ltb_spec 1 (Z.of_nat (length V))); [| done].
  apply xor_blocks_ok; [done |]. apply rows_ok_nth; [done |].
  pose proof (Wrap_range (integerified X) (Z.of_nat (length V)) ltac:(lia)).
  rewrite length_app. cbn. lia.
Qed.

Lemma fill1_eq V X c :
  SMix.fill1 p r (V, X, c)
  = ('(X', c) ← blockmix p (fill_in V X) r c; Some (V ++ [X], X', c)).
Proof. done. Qed.

(** What the code's state has to do with [k] steps of the loop. *)
Definition inv (L k : nat) (Vs : list blocks) (X : blocks) (st : smix1_state) : Prop :=
  length Vs = k /\ rows_ok r (Vs ++ [X]) /\ holds st.(mV) (Vs ++ [X]) /\ length st.(mV) = L /\
  st.(mX) = (k * (2 * r))%nat /\ st.(mj) = integerified X /\ opt_ctx_ok p r st.(mctx).

(** The masked index, the load of the two rows and [blockmix_xor] do one step
    of the reference. *)
Lemma smix1_mix L k Vs X st n d j
    (Hj : j = u32 (Z.land st.(mj) (n - 1) + d)) :
  inv L k Vs X st -> (2 <= k)%nat -> Z.of_nat k < 2 ^ 32 ->
  n = SMix.p2floor (Z.of_nat k) -> d = Z.of_nat k - n ->
  load_at st.(mV) st.(mX) (2 * r) = Some X /\
  exists Vj out c', load_at st.(mV) (Z.to_nat j * (2 * r)) (2 * r) = Some Vj /\
    blockmix_xor p X Vj r st.(mctx) = Some (integerified out, out, c') /\
    SMix.fill1 p r (Vs, X, st.(mctx)) = Some (Vs ++ [X], out, c') /\
    blocks_ok r out /\ opt_ctx_ok p r c'.
Proof.
  intros (Hk & HW & HV & HL & HX & Hmj & Hc) H2 Hk32 -> ->.
  rewrite Hmj, Wrap_land in Hj by lia. subst j.
  pose proof (Wrap_range (integerified X) (Z.of_nat k) ltac:(lia)) as Hw.
  assert (HlW : length (Vs ++ [X]) = Datatypes.S k) by (rewrite length_app, Hk; cbn; lia).
  split.
  { rewrite HX, (load_row r _ _ k HV HW) by lia. f_equal. by rewrite app_nth2, Hk, Nat.sub_diag by lia. }
  set (j := Z.to_nat (SMix.Wrap (integerified X) (Z.of_nat k))).
  assert (Hjk : (j < k)%nat) by (unfold j; lia).
  destruct (blockmix_ok p (fill_in Vs X) r st.(mctx)) as (out & c' & Hb & Ho & Hc' & _);
    [by apply fill_in_ok | done | done |].
  exists (nth j (Vs ++ [X]) []), out, c'. split; [by apply (load_row r); [done | done | lia] |].
  split; [| split; [| done]].
  - rewrite blockmix_xor_eq.
    + assert (Hfi : fill_in Vs X = xor_blocks X (nth j (Vs ++ [X]) [])).
      { unfold fill_in. rewrite Hk. by rewrite (proj2 (Z.ltb_lt 1 (Z.of_nat k))) by lia. }
      rewrite <- Hfi, Hb. done.
    + destruct (rows_ok_nth r _ j HW ltac:(lia)) as [-> _].
      by destruct (rows_ok_last r Vs X HW) as [-> _].
    + done.
    + intros Hn. by rewrite Hn in Hc.
  - by rewrite fill1_eq, Hb.
Qed.

Lemma smix1_step_ok L k Vs X st n d :
  inv L k Vs X st -> (2 <= k)%nat -> Z.of_nat k < 2 ^ 32 -> ((k + 2) * (2 * r) <= L)%nat ->
  n = SMix.p2floor (Z.of_nat k) -> d = Z.of_nat k - n ->
  exists st' out, smix1_step p r n d st = Some st' /\
    SMix.fill1 p r (Vs, X, st.(mctx)) = Some (Vs ++ [X], out, st'.(mctx)) /\
    inv L (k + 1) (Vs ++ [X]) out st'.
Proof.
  intros Hinv H2 Hk32 HkL Hn Hd.
  destruct (smix1_mix L k Vs X st n d _ eq_refl Hinv H2 Hk32 Hn Hd)
    as (HlX & Vj & out & c' & HlV & Hb & Hf & Ho & Hc').
  destruct Hinv as (Hk & HW & HV & HL & HX & Hmj & Hc).
  unfold smix1_step. rewrite HlX. cbn [mbind option_bind]. rewrite HlV.
  cbn [mbind option_bind]. rewrite Hb. cbn [mbind option_bind].
  assert (HlW : length (Vs ++ [X]) = (k + 1)%nat) by (rewrite length_app, Hk; cbn; lia).
  destruct (store_row r st.(mV) (Vs ++ [X]) out HV HW Ho) as (V' & HV' & Hh & Hl); [lia |].
  replace (mX st + 2 * r)%nat with (length (Vs ++ [X]) * (2 * r))%nat by lia.
  rewrite HV'. cbn [mbind option_bind]. do 2 eexists. split; [reflexivity |].
  cbn [mctx]. split; [exact Hf |]. unfold inv. cbn [mV mX mj mctx].
  split; [done |]. split; [apply Forall_app_2; [done | by apply Forall_singleton] |].
  split; [done |]. split; [lia |]. by rewrite HlW.
Qed.

(** *** The loops of smix1 *)

Variable s0 : list blocks * blocks * option pwxform_ctx_t.
Definition at_step (L k : nat) (st : smix1_state) : Prop :=
  exists Vs X, iter_opt k (SMix.fill1 p r) s0 = Some (Vs, X, st.(mctx)) /\ inv L k Vs X st.

Lemma at_step_next L k st n d :
  at_step L k st -> (2 <= k)%nat -> Z.of_nat k < 2 ^ 32 -> ((k + 2) * (2 * r) <= L)%nat ->
  n = SMix.p2floor (Z.of_nat k) -> d = Z.of_nat k - n ->
  exists st', smix1_step p r n d st = Some st' /\ at_step L (k + 1) st'.
Proof.
  intros (Vs & X & Hit & Hinv) H2 Hk HkL Hn Hd.
  destruct (smix1_step_ok L k Vs X st n d Hinv H2 Hk HkL Hn Hd) as (st' & out & Hs & Hf & Hinv').
  exists st'. split; [done |]. exists (Vs ++ [X]), out. split; [| done].
  rewrite Nat.add_1_r. cbn [iter_opt]. by rewrite Hit.
Qed.

Lemma pow2_ge_2 a : 1 <= a -> 2 <= 2 ^ a.
Proof. intros. change 2 with (2 ^ 1) at 1. apply Z.pow_le_mono_r; lia. Qed.

Lemma smix1_inner_ok L a T st (n := 2 ^ a) :
  1 <= a -> n < 2 ^ 31 -> 0 <= T -> 2 * T <= n ->
  ((Z.to_nat (n + 2 * T) + 1) * (2 * r) <= L)%nat -> at_step L (Z.to_nat n) st ->
  exists st', fold_opt (smix1_pair p r n) (seqZ 0 T) st = Some st' /\
    at_step L (Z.to_nat (n + 2 * T)) st'.
Proof.
  intros Ha Hn31 HT. pose proof (pow2_ge_2 a Ha) as Hn2. fold n in Hn2. pattern T.
  apply natlike_ind; [| clear T HT; intros T HT IH | done]; intros HTn HL Hst.
  { exists st. split; [done |]. by replace (n + 2 * 0) with n by lia. }
  destruct IH as (st1 & Hf & Hat); [lia | nia | done |].
  unfold Z.succ. rewrite seqZ_app, fold_opt_app, Hf by lia. cbn [mbind option_bind].
  change (seqZ (0 + T) 1) with [0 + T]. cbn [fold_opt].
  assert (Hp : forall i, 0 <= i < n -> SMix.p2floor (n + i) = n)
    by (intros; apply p2floor_pow; lia).
  unfold smix1_pair.
  destruct (at_step_next L (Z.to_nat (n + 2 * T)) st1 n (2 * (0 + T) + 1 - 1)) as (st2 & H2 & Hat2);
    [done | lia | lia | nia | rewrite Z2Nat.id, Hp by lia; done | lia |].
  rewrite H2. cbn [mbind option_bind].
  destruct (at_step_next L (Z.to_nat (n + 2 * T) + 1) st2 n (2 * (0 + T) + 1)) as (st3 & H3 & Hat3);
    [done | lia | lia | nia | | lia |].
  { replace (Z.of_nat (Z.to_nat (n + 2 * T) + 1)) with (n + (2 * T + 1)) by lia. rewrite Hp; lia. }
  rewrite H3. cbn [mbind option_bind]. exists st3. split; [done |].
  by replace (Z.to_nat (n + 2 * (T + 1))) with (Z.to_nat (n + 2 * T) + 1 + 1)%nat by lia.
Qed.

Lemma smix1_outer_ok L N fuel a st :
  1 <= a -> 31 < Z.of_nat fuel + a -> 2 ^ a < N <= 2 ^ 31 -> N mod 2 = 0 ->
  (Z.to_nat N * (2 * r) <= L)%nat -> at_step L (Z.to_nat (2 ^ a)) st ->
  exists st' b, smix1_outer p r fuel (2 ^ a) N st = Some (st', 2 ^ (b + 1)) /\
    1 <= b /\ 2 ^ b <= N - 2 /\ N <= 2 ^ (b + 1) <= 2 ^ 31 /\
    at_step L (Z.to_nat (N - 2)) st'.
Proof.
  revert a st. induction fuel as [| fuel IH]; intros a st Ha Hf HN Heven HL Hst.
  { exfalso. assert (2 ^ 32 <= 2 ^ a) by (apply Z.pow_le_mono_r; lia). lia. }
  cbn [smix1_outer]. rewrite (proj2 (Z.ltb_lt (2 ^ a) N)) by lia.
  pose proof (pow2_ge_2 a Ha) as H2a.
  assert (Hp : 2 ^ (a + 1) = 2 * 2 ^ a) by (rewrite Z.pow_add_r; lia).
  assert (Hpe : 2 ^ a = 2 * 2 ^ (a - 1)) by (rewrite <- Z.pow_succ_r by lia; f_equal; lia).
  assert (Ha30 : a < 31) by (apply (Z.pow_lt_mono_r_iff 2); lia).
  assert (Hp31 : 2 ^ (a + 1) <= 2 ^ 31) by (apply Z.pow_le_mono_r; lia).
  assert (Hsh : u32 (Z.shiftl (2 ^ a) 1) = 2 ^ (a + 1)).
  { rewrite Z.shiftl_mul_pow2, u32_small by (lia || unfold word; lia). lia. }
  rewrite Hsh. pose proof (Z.div_mod N 2 ltac:(lia)) as HNd. unfold smix1_inner.
  assert (Hd2 : 2 ^ a / 2 = 2 ^ (a - 1)) by (symmetry; apply (Z.div_unique_pos _ _ _ 0); lia).
  destruct (Z.ltb_spec (2 ^ a) (N / 2)) as [Hlt | Hge].
  - destruct (smix1_inner_ok L a (2 ^ a / 2) st) as (st1 & Hi & Hat); try done; try lia.
    + nia.
    + rewrite Hi. cbn [mbind option_bind].
      replace (2 ^ a + 2 * (2 ^ a / 2)) with (2 ^ (a + 1)) in Hat by lia. apply IH; try done; lia.
  - assert (HT : (N - 1 - 2 ^ a) / 2 = N / 2 - 2 ^ (a - 1) - 1).
    { symmetry. apply (Z.div_unique_pos _ _ _ 1); lia. }
    destruct (smix1_inner_ok L a ((N - 1 - 2 ^ a) / 2) st) as (st1 & Hi & Hat); try done; try lia.
    rewrite Hi. cbn [mbind option_bind].
    replace (2 ^ a + 2 * ((N - 1 - 2 ^ a) / 2)) with (N - 2) in Hat by lia.
    destruct fuel as [| fuel]; [lia |]. cbn [smix1_outer].
    rewrite (proj2 (Z.ltb_ge (2 ^ (a + 1)) N)) by lia.
    exists st1, a. split; [done |]. repeat split; try done; lia.
Qed.

Lemma call_blockmix_row V Vs X c :
  (length Vs <= 1)%nat -> rows_ok r (Vs ++ [X]) -> holds V (Vs ++ [X]) -> opt_ctx_ok p r c ->
  ((length Vs + 2) * (2 * r) <= length V)%nat ->
  exists V' out c',
    call_blockmix p r V (length Vs * (2 * r)) ((length Vs + 1) * (2 * r)) c = Some (V', c') /\
    SMix.fill1 p r (Vs, X, c) = Some (Vs ++ [X], out, c') /\
    rows_ok r (Vs ++ [X] ++ [out]) /\ holds V' (Vs ++ [X] ++ [out]) /\ opt_ctx_ok p r c' /\
    length V' = length V.
Proof.
  intros Hk HW HV Hc HL. pose proof (rows_ok_last r Vs X HW) as HX.
  assert (Hf : fill_in Vs X = X).
  { unfold fill_in. by rewrite (proj2 (Z.ltb_ge 1 (Z.of_nat (length Vs)))) by lia. }
  destruct (blockmix_ok p X r c HX Hr Hc) as (out & c' & Hb & Ho & Hc' & _).
  assert (HlW : length (Vs ++ [X]) = (length Vs + 1)%nat) by by rewrite length_app.
  destruct (store_row r V (Vs ++ [X]) out HV HW Ho) as (V' & HV' & Hh & Hl); [lia |].
  exists V', out, c'. unfold call_blockmix. split; [| split; [| split; [| split; [| split]]]]; try done.
  - rewrite (load_row r V (Vs ++ [X])) by (done || lia). cbn [mbind option_bind].
    rewrite app_nth2, Nat.sub_diag by lia. cbn [nth]. rewrite Hb. cbn [mbind option_bind].
    rewrite HlW in HV'. by rewrite HV'.
  - by rewrite fill1_eq, Hf, Hb.
  - rewrite app_assoc. apply Forall_app_2; [done | by apply Forall_singleton].
  - by rewrite app_assoc.
Qed.

Lemma blocks_of_ok B n : blocks_ok n (map (SMix.block_of B) (seq 0 (2 * n))).
Proof.
  split; [by rewrite length_map, length_seq |].
  apply Forall_map, List.Forall_forall. intros i _. apply block_of_block.
Qed.
End Loop1.

(** *** Where the loops start *)

Lemma smix1_expand_ok p t V X0 c :
  blocks_ok 1 X0 -> opt_ctx_ok p 1 c -> holds V [X0] -> (2 * (t + 1) <= length V)%nat ->
  exists V' Ws c', smix1_expand p t V c = Some (V', c') /\
    iter_opt t (SMix.expand p) (X0, c) = Some (concat Ws, c') /\ opt_ctx_ok p 1 c' /\
    length Ws = (t + 1)%nat /\ rows_ok 1 Ws /\ holds V' Ws /\ length V' = length V /\
    (c <> None -> c' <> None).
Proof.
  intros HX Hc HV. unfold smix1_expand. induction t as [| t IH]; intros HL.
  { exists V, [X0], c. cbn [seq fold_opt iter_opt concat]. rewrite app_nil_r.
    repeat (split; [done |]). split; [by apply Forall_singleton | done]. }
  destruct IH as (V1 & Ws & c1 & Hf & Hi & Hc1 & HlW & HW & HV1 & Hl1 & Hn); [lia |].
  rewrite seq_S. erewrite fold_opt_snoc by exact Hf. cbn [iter_opt]. rewrite Hi.
  cbn [mbind option_bind]. unfold SMix.expand.
  pose proof (length_rows 1 Ws HW) as Hlc.
  assert (Hlast : drop (length (concat Ws) - 2) (concat Ws) = nth t Ws []).
  { rewrite Hlc, HlW. pose proof (take_drop_row 1 Ws [] t HW ltac:(lia)) as Ht.
    rewrite app_nil_r in Ht. rewrite <- Ht, take_ge by (rewrite length_drop; lia). f_equal. lia. }
  rewrite Hlast. unfold call_blockmix.
  replace ((1 + t - 1) * 2)%nat with (t * (2 * 1))%nat by lia.
  rewrite (load_row 1 V1 Ws) by (done || lia). cbn [mbind option_bind].
  destruct (blockmix_ok p (nth t Ws []) 1 c1) as (out & c2 & Hb & Ho & Hc2 & Hn2);
    [apply rows_ok_nth; [done | lia] | lia | done |].
  rewrite Hb. cbn [mbind option_bind].
  destruct (store_row 1 V1 Ws out HV1 HW Ho) as (V2 & HV2 & Hh2 & Hl2); [lia |].
  replace ((1 + t) * 2)%nat with (length Ws * (2 * 1))%nat by lia. rewrite HV2.
  cbn [mbind option_bind]. exists V2, (Ws ++ [out]), c2. split; [done |].
  split; [by rewrite concat_app; cbn [concat]; rewrite app_nil_r |].
  split; [done |]. split; [rewrite length_app; cbn; lia |].
  split; [apply Forall_app_2; [done | by apply Forall_singleton] |].
  split; [done |]. split; [lia |]. tauto.
Qed.

Lemma start_ok p r B V ctx :
  (1 <= r)%nat -> opt_ctx_ok p r ctx -> (2 * r + 1 <= length V)%nat ->
  exists V1 V2 X0 c0,
    load_blocks B V 0 (2 * r) (match p with Pass1 => 2 * r | Pass2 => 2 end)%nat = Some V1 /\
    match p with Pass1 => Some (V1, ctx) | Pass2 => smix1_expand p (r - 1) V1 ctx end = Some (V2, c0) /\
    SMix.start p r B ctx = Some (X0, c0) /\ blocks_ok r X0 /\ opt_ctx_ok p r c0 /\
    holds V2 [X0] /\ length V2 = length V.
Proof.
  intros Hr Hc HL. destruct p.
  - destruct (load_blocks_ok B V (2 * r) (2 * r)) as (V1 & -> & Hl & Ht & _); [lia | lia |].
    do 4 eexists. split; [reflexivity |]. split; [reflexivity |]. split; [reflexivity |].
    split; [apply blocks_of_ok |]. split; [done |]. split; [| done].
    exists (drop (2 * r) V1). cbn [concat]. by rewrite app_nil_r, <- Ht, take_drop.
  - destruct (load_blocks_ok B V (2 * r) 2) as (V1 & -> & Hl & Ht & _); [lia | lia |].
    pose proof (blocks_of_ok B 1) as HX. change (2 * 1)%nat with 2%nat in HX. rewrite <- Ht in HX.
    destruct (smix1_expand_ok Pass2 (r - 1) V1 (take 2 V1) ctx)
      as (V2 & Ws & c & He & Hi & Hc' & HlW & HW & [rest HV2] & Hl2 & Hn); try done.
    + by destruct ctx.
    + exists (drop 2 V1). cbn [concat]. by rewrite app_nil_r, take_drop.
    + lia.
    + exists V1, V2, (concat Ws), c. split; [done |]. split; [done |].
      split; [unfold SMix.start; rewrite <- Ht; exact Hi |].
      split; [| split; [| split]].
      * split; [rewrite (length_rows 1) by done; lia |].
        apply Forall_concat. eapply List.Forall_impl; [| exact HW]. by intros X [_ ?].
      * destruct c, ctx; try done. by destruct (Hn ltac:(done)).
      * exists rest. cbn [concat]. by rewrite app_nil_r.
      * lia.
Qed.

(** The state before the loop on [n]. *)
Lemma smix1_begin p r B V ctx :
  (1 <= r)%nat -> opt_ctx_ok p r ctx -> (3 * (2 * r) <= length V)%nat ->
  exists V1 V2 V3 V4 c2 c3 c4 X0 c0 X,
    load_blocks B V 0 (2 * r) (match p with Pass1 => 2 * r | Pass2 => 2 end)%nat = Some V1 /\
    match p with Pass1 => Some (V1, ctx) | Pass2 => smix1_expand p (r - 1) V1 ctx end = Some (V2, c2) /\
    call_blockmix p r V2 0 (2 * r) c2 = Some (V3, c3) /\
    call_blockmix p r V3 (2 * r) (2 * r + 2 * r) c3 = Some (V4, c4) /\
    load_at V4 (2 * r + 2 * r) (2 * r) = Some X /\
    SMix.start p r B ctx = Some (X0, c0) /\
    at_step p r ([], X0, c0) (length V) 2
      {| mV := V4; mX := 2 * r + 2 * r; mj := integerify X r; mctx := c4 |}.
Proof.
  intros Hr Hc HL. destruct (start_ok p r B V ctx) as (V1 & V2 & X0 & c0 & Hl & He & Hs & HX0 & Hc0 & HV2 & Hl2);
    [done | done | lia |].
  destruct (call_blockmix_row p r Hr V2 [] X0 c0) as (V3 & X1 & c3 & Hb3 & Hf3 & HW3 & HV3 & Hc3 & Hl3);
    [cbn; lia | by apply Forall_singleton | done | done | cbn [length]; lia |].
  destruct (call_blockmix_row p r Hr V3 [X0] X1 c3) as (V4 & X2 & c4 & Hb4 & Hf4 & HW4 & HV4 & Hc4 & Hl4);
    [done | done | done | done | cbn [length]; lia |].
  cbn [app length] in *.
  exists V1, V2, V3, V4, c0, c3, c4, X0, c0, X2. split; [done |]. split; [done |].
  split; [rewrite <- Hb3; f_equal; lia |]. split; [rewrite <- Hb4; f_equal; lia |].
  assert (Hload := load_row r V4 _ 2 HV4 HW4 ltac:(cbn; lia)). cbn [nth] in Hload.
  replace (2 * r + 2 * r)%nat with (2 * (2 * r))%nat by lia.
  split; [done |]. split; [done |]. exists [X0; X1], X2. cbn [mctx].
  split; [cbn [iter_opt mbind option_bind]; by rewrite Hf3 |].
  unfold inv. cbn [mV mX mj mctx app]. repeat (split; [done || lia |]).
  split; [| done]. apply (integerify_eq r); [| done]. by apply (rows_ok_last r [X0; X1]).
Qed.

(** The last two steps, the second of which goes to [XY]. *)
Lemma smix1_end p r s0 L N b st :
  (1 <= r)%nat -> 4 <= N <= 2 ^ 31 -> 2 ^ b <= N - 2 -> N <= 2 ^ (b + 1) -> 1 <= b ->
  (Z.to_nat N * (2 * r) <= L)%nat -> at_step p r s0 L (Z.to_nat (N - 2)) st ->
  exists st1 Ws X Vj out c',
    smix1_step p r (2 ^ b) (N - 2 - 2 ^ b) st = Some st1 /\
    load_at st1.(mV) st1.(mX) (2 * r) = Some X /\
    load_at st1.(mV) (Z.to_nat (u32 (Z.land st1.(mj) (2 ^ b - 1) + (N - 1 - 2 ^ b))) * (2 * r)) (2 * r)
    = Some Vj /\
    blockmix_xor p X Vj r st1.(mctx) = Some (integerified out, out, c') /\
    iter_opt (Z.to_nat N) (SMix.fill1 p r) s0 = Some (Ws, out, c') /\
    holds st1.(mV) Ws /\ length Ws = Z.to_nat N /\ rows_ok r Ws /\ blocks_ok r out /\
    opt_ctx_ok p r c' /\ length st1.(mV) = L.
Proof.
  intros Hr HN HbN HNb Hb HL Hat.
  assert (Hb1 : 2 ^ (b + 1) = 2 * 2 ^ b) by (rewrite Z.pow_add_r; lia).
  assert (Hp2 : forall i, N - 2 <= i < N -> SMix.p2floor i = 2 ^ b) by (intros; apply p2floor_pow; lia).
  destruct (at_step_next p r Hr s0 L (Z.to_nat (N - 2)) st (2 ^ b) (N - 2 - 2 ^ b))
    as (st1 & E6 & Hat1); [done | lia | lia | nia | rewrite Hp2; lia | lia |].
  replace (Z.to_nat (N - 2) + 1)%nat with (Z.to_nat (N - 1)) in Hat1 by lia.
  destruct Hat1 as (Vs & Xl & Hit & Hinv).
  destruct (smix1_mix p r Hr L (Z.to_nat (N - 1)) Vs Xl st1 (2 ^ b) (N - 1 - 2 ^ b) _ eq_refl Hinv)
    as (HlX & Vj & out & c' & HlV & Hbx & Hf & Ho & Hc'); [lia | lia | rewrite Hp2; lia | lia |].
  destruct Hinv as (Hk & HW & HhV & HlV' & _).
  exists st1, (Vs ++ [Xl]), Xl, Vj, out, c'. do 4 (split; [done |]).
  split; [| split; [done |]; split; [rewrite length_app, Hk; cbn; lia |]; done].
  replace (Z.to_nat N) with (Datatypes.S (Z.to_nat (N - 1))) by lia. cbn [iter_opt]. by rewrite Hit.
Qed.

(** The first loop: the code's [smix1] succeeds and does what SMix says. *)
Lemma smix1_loop1 p r B N V XY ctx :
  (1 <= r)%nat -> 4 <= N <= 2 ^ 31 -> N mod 2 = 0 -> opt_ctx_ok p r ctx ->
  (Z.to_nat N * (2 * r) <= length V)%nat -> (2 * r + 1 <= length XY)%nat ->
  (128 * r <= length B)%nat ->
  exists out Ws V' XY' ctx',
    SMix.loop1 p r B N ctx = Some (out, Ws, ctx') /\
    smix1 p r B N V XY ctx = Some (write_at 0 out B, V', XY', ctx') /\
    holds V' Ws /\ length Ws = Z.to_nat N /\ rows_ok r Ws /\ opt_ctx_ok p r ctx' /\
    length out = (128 * r)%nat /\ length V' = length V /\ length XY' = length XY /\
    (Forall block16 XY -> Forall block16 XY').
Proof.
  intros Hr HN Heven Hc HV HXY HB.
  destruct (smix1_begin p r B V ctx Hr Hc) as
    (V1 & V2 & V3 & V4 & c2 & c3 & c4 & X0 & c0 & X & E1 & E2 & E3 & E4 & E5 & Es & Hat); [nia |].
  destruct (smix1_outer_ok p r Hr ([], X0, c0) (length V) N 32 1 _ ltac:(lia) ltac:(lia) ltac:(lia)
    Heven HV Hat) as (st & b & Eo & Hb & HbN & HNb & Hat').
  assert (Hn : Z.shiftr (2 ^ (b + 1)) 1 = 2 ^ b).
  { rewrite Z.shiftr_div_pow2, Z.pow_add_r by lia. apply Z.div_mul. lia. }
  destruct (smix1_end p r ([], X0, c0) (length V) N b st Hr HN HbN ltac:(lia) Hb HV Hat')
    as (st1 & Ws & Xl & Vj & out & c' & E6 & HlX & HlV & Hbx & Hit & HhV & HlW & HW & Ho & Hc' & HL).
  destruct Ho as [Hlo Hob]. set (XY1 := write_at 0 out XY).
  assert (HXY1 : length XY1 = length XY) by (apply length_write_at; lia).
  assert (Ht : take (2 * r) XY1 = out).
  { unfold XY1. rewrite <- Hlo. by apply (take_write_at 0 out XY); lia. }
  destruct (store_blocks_ok XY1 (2 * r) (2 * r) B) as (XY2 & E7 & Hl7 & Hw7);
    [lia | lia | lia | by rewrite Ht |].
  rewrite Ht in E7. exists (SMix.finish out), Ws, st1.(mV), XY2, c'. split; [| split].
  - unfold SMix.loop1. rewrite Es. cbn [mbind option_bind]. by rewrite Hit.
  - unfold smix1. rewrite E1. cbn [mbind option_bind]. rewrite E2. cbn [mbind option_bind].
    rewrite E3. cbn [mbind option_bind]. rewrite E4. cbn [mbind option_bind].
    rewrite E5. cbn [mbind option_bind]. change (2 ^ 1) with 2 in Eo. rewrite Eo.
    cbn [mbind option_bind]. rewrite Hn, E6. cbn [mbind option_bind].
    rewrite HlX. cbn [mbind option_bind]. rewrite HlV. cbn [mbind option_bind].
    rewrite Hbx. cbn [mbind option_bind]. rewrite store_at_some by lia.
    cbn [mbind option_bind]. fold XY1. rewrite E7. done.
  - repeat (split; [done |]). split; [rewrite length_finish by done; lia |]. split; [done |].
    split; [by rewrite Hl7 |]. intros HX1. by apply Hw7, Forall_write_at.
Qed.

(** ** The second loop *)

Section Loop2.
Variables (p : pass) (r : nat) (N : Z) (e : Z).
Hypotheses (Hr : (1 <= r)%nat) (HN : N = 2 ^ e) (He : 0 <= e).

Lemma land_N x : Z.land x (N - 1) = x mod N.
Proof. rewrite HN, <- Z.land_ones by done. f_equal. rewrite Z.ones_equiv. lia. Qed.
Lemma N_pos : 0 < N.
Proof. rewrite HN. by apply Z.pow_pos_nonneg. Qed.

(** The code's state and the reference's. *)
Definition inv2 (LV LX : nat) (Ws : list blocks) (X : blocks)
    '((V, XY, j, ctx) : blocks * blocks * Z * pwxform_ctx_t) : Prop :=
  holds V Ws /\ length Ws = Z.to_nat N /\ rows_ok r Ws /\ length V = LV /\
  blocks_ok r X /\ take (2 * r) XY = X /\ length XY = LX /\
  j = integerified X mod N /\ ctx_ok p ctx /\ Forall block16 XY.

Lemma mix1_row Ws X :
  length Ws = Z.to_nat N -> rows_ok r Ws -> blocks_ok r X ->
  (Z.to_nat (integerified X mod N) < length Ws)%nat /\
  blocks_ok r (xor_blocks X (nth (Z.to_nat (integerified X mod N)) Ws [])).
Proof.
  intros HlW HW HX. pose proof N_pos. pose proof (Z.mod_pos_bound (integerified X) N).
  assert (Hj : (Z.to_nat (integerified X mod N) < length Ws)%nat) by lia.
  split; [done |]. apply xor_blocks_ok; [done |]. by apply rows_ok_nth.
Qed.

Lemma smix2_save_ok LV LX Ws X st (ctx := st.2) :
  (2 * r <= LX)%nat -> inv2 LV LX Ws X st ->
  exists st' Ws' X', smix2_save p r N st = Some st' /\
    SMix.mix1 p r N true (Ws, X, Some ctx) = Some (Ws', X', Some st'.2) /\ inv2 LV LX Ws' X' st'.
Proof.
  destruct st as [[[V XY] j] c]. intros HLX (HV & HlW & HW & HLV & HX & Ht & HlX & -> & Hc & HwX).
  subst ctx. cbn [snd]. destruct (mix1_row Ws X HlW HW HX) as [Hj Hxok].
  unfold smix2_save. cbv zeta. rewrite (load_at_some XY 0) by lia. cbn [mbind option_bind].
  rewrite drop_0, Ht, (load_row r V Ws) by done. cbn [mbind option_bind].
  set (j := Z.to_nat (integerified X mod N)) in *. set (Y := nth j Ws []) in *.
  destruct (rows_ok_nth r Ws j HW Hj) as [HlY HbY]. destruct HX as [HlXb HbX].
  rewrite blockmix_xor_save_eq by done.
  destruct (blockmix_ok p (xor_blocks X Y) r (Some c)) as (out & c' & Hb & Ho & Hc' & Hn); try done.
  destruct c' as [c' |]; [| discriminate (proj2 Hn eq_refl)].
  rewrite Hb. cbn [mbind option_bind]. destruct Ho as [Hlo Hob].
  rewrite (store_at_some XY 0 out) by lia. cbn [mbind option_bind].
  destruct (update_row r V Ws (xor_blocks X Y) j HV HW Hxok Hj) as (V' & -> & HV' & HlV').
  cbn [mbind option_bind]. do 3 eexists. split; [reflexivity |].
  split; [unfold SMix.mix1; fold j; fold Y; by rewrite Hb |].
  unfold inv2. split; [done |]. split; [by rewrite length_insert |].
  split; [by apply Forall_insert |]. split; [lia |]. split; [done |].
  split; [rewrite <- Hlo; by apply (take_write_at 0 out XY); lia |].
  split; [rewrite length_write_at; lia |]. split; [apply land_N |].
  split; [done | by apply Forall_write_at].
Qed.

Lemma smix2_loop_ok LV LX T fuel Ws X st :
  (2 * r <= LX)%nat -> (T < fuel)%nat -> Z.of_nat T < 2 ^ 31 - 1 -> inv2 LV LX Ws X st ->
  exists st' Ws' X', smix2_loop p r fuel N (2 * Z.of_nat T + 2) st = Some st' /\
    iter_opt (2 * T + 2) (SMix.mix1 p r N true) (Ws, X, Some st.2) = Some (Ws', X', Some st'.2) /\
    inv2 LV LX Ws' X' st'.
Proof.
  intros HLX. revert fuel Ws X st. induction T as [| T IH]; intros fuel Ws X st Hf HT Hinv;
    (destruct fuel as [| fuel]; [lia |]); cbn [smix2_loop];
    destruct (smix2_save_ok LV LX Ws X st HLX Hinv) as (st1 & W1 & X1 & -> & Hm1 & Hinv1);
    cbn [mbind option_bind];
    destruct (smix2_save_ok LV LX W1 X1 st1 HLX Hinv1) as (st2 & W2 & X2 & -> & Hm2 & Hinv2);
    cbn [mbind option_bind].
  - change (u32 (2 * Z.of_nat 0 + 2 - 2) =? 0) with true. cbn iota.
    exists st2, W2, X2. split; [done |]. split; [| done].
    cbn [Nat.mul Nat.add iter_opt mbind option_bind]. by rewrite Hm1.
  - rewrite (u32_small (2 * Z.of_nat (Datatypes.S T) + 2 - 2)) by (unfold word; lia).
    rewrite (proj2 (Z.eqb_neq _ 0)) by lia.
    destruct (IH fuel W2 X2 st2) as (st' & W' & X' & Hl & Hi & Hinv'); [lia | lia | done |].
    exists st', W', X'. split; [rewrite <- Hl; f_equal; lia |]. split; [| done].
    replace (2 * Datatypes.S T + 2)%nat with (2 + (2 * T + 2))%nat by lia.
    rewrite <- Hi. rewrite iter_opt_add. cbn [iter_opt mbind option_bind]. rewrite Hm1. cbn [mbind option_bind]. by rewrite Hm2.
Qed.

(** The read-only variant: one step from [X] at [src] of [XY] to [dst]. *)
Lemma read_step V Ws X c :
  holds V Ws -> length Ws = Z.to_nat N -> rows_ok r Ws -> blocks_ok r X -> ctx_ok p c ->
  exists Vj out c', load_at V (Z.to_nat (integerified X mod N) * (2 * r)) (2 * r) = Some Vj /\
    blockmix_xor p X Vj r (Some c) = Some (integerified out, out, Some c') /\
    SMix.mix1 p r N false (Ws, X, Some c) = Some (Ws, out, Some c') /\
    blocks_ok r out /\ ctx_ok p c'.
Proof.
  intros HV HlW HW HX Hc. destruct (mix1_row Ws X HlW HW HX) as [Hj Hxok].
  rewrite (load_row r V Ws) by done.
  set (j := Z.to_nat (integerified X mod N)) in *.
  destruct (blockmix_ok p _ r (Some c) Hxok Hr Hc) as (out & c' & Hb & Ho & Hc' & Hn).
  destruct c' as [c' |]; [| discriminate (proj2 Hn eq_refl)].
  exists (nth j Ws []), out, c'. split; [done |]. split; [| split; [| done]].
  - rewrite blockmix_xor_eq; [by rewrite Hb | | done | done].
    destruct (rows_ok_nth r Ws j HW Hj) as [-> _]. by destruct HX as [-> _].
  - unfold SMix.mix1. fold j. by rewrite Hb.
Qed.

Lemma smix2_read_ok LV LX Ws X st :
  (4 * r <= LX)%nat -> inv2 LV LX Ws X st ->
  exists st' X', smix2_read p r N st = Some st' /\
    iter_opt 2 (SMix.mix1 p r N false) (Ws, X, Some st.2) = Some (Ws, X', Some st'.2) /\
    holds st'.1.1.1 Ws /\ length st'.1.1.1 = LV /\ length st'.1.1.2 = LX /\
    take (2 * r) st'.1.1.2 = X' /\ blocks_ok r X' /\ ctx_ok p st'.2 /\ Forall block16 st'.1.1.2.
Proof.
  destruct st as [[[V XY] j] c]. intros HLX (HV & HlW & HW & HLV & HX & Ht & HlX & -> & Hc & HwX).
  cbn [snd]. unfold smix2_read. cbv zeta. rewrite (load_at_some XY 0) by lia.
  cbn [mbind option_bind]. rewrite drop_0, Ht.
  destruct (read_step V Ws X c) as (Vj & Y & c1 & -> & Hb1 & Hm1 & HY & Hc1); try done.
  cbn [mbind option_bind]. rewrite Hb1. cbn [mbind option_bind]. rewrite land_N.
  assert (HlY : length Y = (2 * r)%nat) by apply HY.
  rewrite (store_at_some XY) by lia. cbn [mbind option_bind].
  assert (HlXY : length (write_at (2 * r) Y XY) = LX) by (rewrite length_write_at; lia).
  rewrite (load_at_some (write_at (2 * r) Y XY)) by lia. cbn [mbind option_bind].
  assert (Hrow : take (2 * r) (drop (2 * r) (write_at (2 * r) Y XY)) = Y).
  { rewrite take_drop_commute. rewrite <- HlY at 3. rewrite take_write_at by lia.
    rewrite drop_app_length'; [done | rewrite length_take; lia]. }
  rewrite Hrow. destruct (read_step V Ws Y c1) as (Vj2 & X2 & c2 & -> & Hb2 & Hm2 & HX2 & Hc2); try done.
  cbn [mbind option_bind]. rewrite Hb2. cbn [mbind option_bind].
  assert (HlX2 : length X2 = (2 * r)%nat) by apply HX2.
  rewrite (store_at_some (write_at (2 * r) Y XY)) by lia. cbn [mbind option_bind]. do 2 eexists. split; [reflexivity |].
  cbn [fst snd]. split; [cbn [iter_opt mbind option_bind]; rewrite Hm1; exact Hm2 |].
  split; [done |]. split; [done |]. split; [rewrite length_write_at; lia |].
  split; [rewrite <- HlX2 at 1; apply (take_write_at 0 X2); lia |].
  split; [done |]. split; [done |]. apply Forall_write_at; [apply HX2 |].
  apply Forall_write_at; [apply HY | done].
Qed.

(** Either way, all the iterations. *)
Lemma smix2_run LV LX Nloop (save : bool) Ws X st :
  2 <= Nloop < 2 ^ 32 - 1 -> Nloop mod 2 = 0 -> (save = false -> Nloop = 2) ->
  ((if save then 2 * r else 4 * r) <= LX)%nat -> inv2 LV LX Ws X st ->
  exists st' Ws' X',
    (if save then smix2_loop p r (Z.to_nat Nloop) N Nloop st else smix2_read p r N st) = Some st' /\
    iter_opt (Z.to_nat Nloop) (SMix.mix1 p r N save) (Ws, X, Some st.2) = Some (Ws', X', Some st'.2) /\
    holds st'.1.1.1 Ws' /\ length Ws' = Z.to_nat N /\ rows_ok r Ws' /\ length st'.1.1.1 = LV /\
    length st'.1.1.2 = LX /\ take (2 * r) st'.1.1.2 = X' /\ blocks_ok r X' /\ ctx_ok p st'.2 /\
    Forall block16 st'.1.1.2.
Proof.
  intros HNl Heven Hs HLX Hinv. destruct save.
  - pose proof (Z.div_mod Nloop 2 ltac:(lia)) as Hd.
    destruct (smix2_loop_ok LV LX (Z.to_nat (Nloop / 2 - 1)) (Z.to_nat Nloop) Ws X st)
      as (st' & Ws' & X' & Hl & Hi & Hinv'); [lia | lia | lia | done |].
    exists st', Ws', X'. split; [rewrite <- Hl; f_equal; lia |].
    split; [rewrite <- Hi; f_equal; lia |].
    destruct st' as [[[V' XY'] j'] c']. cbn [fst snd]. unfold inv2 in Hinv'. tauto.
  - rewrite (Hs eq_refl) in *.
    destruct (smix2_read_ok LV LX Ws X st HLX Hinv) as (st' & X' & Hr' & Hi & HV' & HlV & HlX & Ht & HX & Hc & HwX).
    exists st', Ws, X'. destruct st as [[[V XY] j] c]. unfold inv2 in Hinv. tauto.
Qed.

(** The second loop: the code's [smix2] succeeds and does what SMix says;
    pass 1 does not write back in its call for two iterations. *)
Lemma smix2_loop2 B Nloop V XY Ws ctx
    (save := match p with Pass1 => 2 <? Nloop | Pass2 => true end) :
  2 <= Nloop < 2 ^ 32 - 1 -> Nloop mod 2 = 0 -> (128 * r <= length B)%nat ->
  holds V Ws -> length Ws = Z.to_nat N -> rows_ok r Ws ->
  ((if save then 2 * r + 1 else 4 * r) <= length XY)%nat -> ctx_ok p ctx -> Forall block16 XY ->
  exists out Ws' V' XY' ctx',
    SMix.loop2 p r B N Nloop save Ws (Some ctx) = Some (out, Ws', Some ctx') /\
    smix2 p r B N Nloop V XY ctx = Some (write_at 0 out B, V', XY', ctx') /\
    holds V' Ws' /\ length Ws' = Z.to_nat N /\ rows_ok r Ws' /\ ctx_ok p ctx' /\
    length out = (128 * r)%nat /\ length V' = length V /\ length XY' = length XY /\
    Forall block16 XY'.
Proof.
  intros HNl Heven HB HV HlW HW HXY Hc HwX.
  assert (HXY1 : (2 * r + 1 <= length XY)%nat) by (destruct save; lia).
  destruct (load_blocks_ok B XY (2 * r) (2 * r)) as (XY0 & E1 & Hl0 & Ht0 & Hw0); [lia | lia |].
  set (X0 := map (SMix.block_of B) (seq 0 (2 * r))) in *.
  pose proof (blocks_of_ok B r) as HX0. fold X0 in HX0.
  set (st0 := (V, XY0, Z.land (integerify X0 r) (N - 1), ctx)).
  assert (Hinv0 : inv2 (length V) (length XY) Ws X0 st0).
  { unfold inv2, st0. rewrite land_N, (integerify_eq r) by done.
    repeat (split; [done |]). by apply Hw0. }
  assert (Hcode : match p with
      | Pass1 => if 2 <? Nloop then smix2_loop p r (Z.to_nat Nloop) N Nloop st0 else smix2_read p r N st0
      | Pass2 => smix2_loop p r (Z.to_nat Nloop) N Nloop st0
    end = if save then smix2_loop p r (Z.to_nat Nloop) N Nloop st0 else smix2_read p r N st0)
    by (unfold save; by destruct p).
  assert (Hs2 : save = false -> Nloop = 2).
  { unfold save. destruct p; [| done]. destruct (Z.ltb_spec 2 Nloop); [done | lia]. }
  destruct (smix2_run (length V) (length XY) Nloop save Ws X0 st0 HNl Heven Hs2)
    as (st' & Ws' & X' & Hst & Hi & HV' & HlW' & HW' & HlV' & HlX' & Ht' & HX' & Hc' & HwX');
    [destruct save; lia | done |].
  destruct (store_blocks_ok st'.1.1.2 (2 * r) (2 * r) B) as (XY' & E7 & Hl7 & Hw7);
    [lia | lia | lia | rewrite Ht'; apply HX' |].
  rewrite Ht' in E7. destruct st' as [[[V' XY1] j'] c']. cbn [fst snd] in *.
  exists (SMix.finish X'), Ws', V', XY', c'. split; [| split].
  - unfold SMix.loop2. fold X0. unfold st0 in Hi. cbn [snd] in Hi. by rewrite Hi.
  - unfold smix2. rewrite E1. cbn [mbind option_bind]. rewrite (load_at_some XY0 0) by lia.
    cbn [mbind option_bind]. rewrite drop_0, Ht0. fold st0. rewrite Hcode, Hst.
    cbn [mbind option_bind]. by rewrite E7.
  - repeat (split; [done |]). split; [destruct HX'; rewrite length_finish by done; lia |].
    split; [done |]. split; [lia | by apply Hw7].
Qed.
End Loop2.

(** ** smix *)

Lemma bytes_finish X : bytes (SMix.finish X).
Proof.
  unfold SMix.finish. induction X as [| b X IH]; [by constructor |]. cbn [map concat].
  apply bytes_app; [| done]. unfold words_bytes.
  generalize (salsa20_simd_unshuffle b). intros w. induction w as [| x w IHw]; [by constructor |].
  cbn [map concat]. apply bytes_app; [| done]. rewrite le32enc_spec. apply bytes_le_bytes.
Qed.

Lemma mask_even x : word 32 x -> Z.land x (not32 1) = 2 * (x / 2).
Proof.
  intros Hx. assert (Hm : Z.land x (not32 1) = Z.ldiff x (Z.ones 1)).
  { bitwise. destruct (decide (i < 32)).
    - unfold not32. rewrite u32_mod, Z.mod_pow2_bits_low, Z.lnot_spec by lia. done.
    - by rewrite (word_testbit 32 x i) by (done || lia). }
  rewrite Hm, Z.ldiff_ones_r, Z.shiftl_mul_pow2, Z.shiftr_div_pow2 by lia. apply Z.mul_comm.
Qed.

Lemma Nloops N :
  16 <= N <= 2 ^ 31 ->
  Nloop_all N = SMix.Nloop_all N /\ (forall p, Nloop_rw p N = SMix.Nloop_rw p N) /\
  (forall p, 4 <= SMix.Nloop_rw p N < 2 ^ 31 /\ SMix.Nloop_rw p N mod 2 = 0) /\
  (SMix.Nloop_all N = SMix.Nloop_rw Pass1 N \/ SMix.Nloop_all N = SMix.Nloop_rw Pass1 N + 2).
Proof.
  intros HN. assert (Ht : 6 <= (N + 2) / 3 < 2 ^ 30).
  { split; [apply Z.div_le_lower_bound; lia | apply Z.div_lt_upper_bound; lia]. }
  unfold Nloop_all, Nloop_rw, SMix.Nloop_rw, SMix.Nloop_all, SMix.third.
  set (t := (N + 2) / 3) in *. pose proof (Z.div_mod t 2 ltac:(lia)) as H0.
  pose proof (Z.mod_pos_bound t 2 ltac:(lia)) as H1.
  pose proof (Z.div_mod (t + 1) 2 ltac:(lia)) as H2.
  pose proof (Z.mod_pos_bound (t + 1) 2 ltac:(lia)) as H3.
  rewrite (u32_small (t + 1)) by (unfold word; lia).
  rewrite !mask_even by (unfold word; lia).
  split; [done |]. split; [by intros [] |]. split; [| lia].
  intros []; (split; [lia |]); rewrite Z.mul_comm; by apply Z.mod_mul.
Qed.

Lemma S_blocks_length ctx :
  ctx.(S0) = 0 -> (16 * (length ctx.(S) / 16) = length ctx.(S))%nat ->
  concat (S_blocks ctx) = ctx.(S) /\ length (S_blocks ctx) = (length ctx.(S) / 16)%nat.
Proof.
  intros H0 H16. unfold S_blocks. rewrite H0. change (Z.to_nat (0 / 4)) with 0%nat. rewrite drop_0.
  rewrite length_pieces. split; [by apply concat_pieces | done].
Qed.

Lemma holds_all r V Ws :
  holds V Ws -> rows_ok r Ws -> length V = (length Ws * (2 * r))%nat -> V = concat Ws.
Proof.
  intros [rest ->] HW Hl. rewrite length_app, (length_rows r) in Hl by done.
  destruct rest; [by rewrite app_nil_r | cbn in Hl; lia].
Qed.

Lemma rows_words r Ws : rows_ok r Ws -> Forall (word 32) (concat (concat Ws)) /\
  length (concat (concat Ws)) = (16 * (2 * r) * length Ws)%nat.
Proof.
  induction 1 as [| X Ws [HX Hb] _ [IH IHl]]; [by split; [| cbn; lia] |]. cbn [concat].
  rewrite concat_app, length_app, IHl.
  assert (HXw : Forall (word 32) (concat X) /\ length (concat X) = (16 * length X)%nat).
  { clear HX. induction Hb as [| b X [Hl Hw] _ [IHb IHbl]]; [done |]. cbn [concat length].
    rewrite length_app, Hl, IHbl. split; [by apply Forall_app_2 | lia]. }
  destruct HXw as [HXw ->]. split; [by apply Forall_app_2 | rewrite HX; cbn [length]; lia].
Qed.

(** The S-boxes after the first [smix1]. *)
Lemma smix_sboxes p B XY ctx :
  ctx_shape p ctx -> ctx.(S0) = 0 -> (3 <= length XY)%nat -> (128 <= length B)%nat ->
  exists out Ws V' XY' c',
    SMix.loop1 p 1 B (ctx.(Sbytes) / 128) None = Some (out, Ws, c') /\
    smix1 p 1 B (ctx.(Sbytes) / 128) (S_blocks ctx) XY None = Some (write_at 0 out B, V', XY', c') /\
    put_S_blocks ctx V' = set_S ctx (concat (concat Ws)) /\
    ctx_ok p (set_S ctx (concat (concat Ws))) /\
    length out = 128%nat /\ length XY' = length XY /\ (Forall block16 XY -> Forall block16 XY').
Proof.
  intros Hsh H0 HXY HB. pose proof Hsh as (Hl & Hp).
  set (N := ctx.(Sbytes) / 128).
  assert (HN : N = match p with Pass1 => 64 | Pass2 => 768 end /\ ctx.(Sbytes) = 128 * N).
  { unfold N. destruct p; destruct Hp as (_ & Hp); [destruct Hp as [_ Hp] | destruct Hp as [Hp _]];
      rewrite Hp; done. }
  destruct HN as [HN HS]. assert (HlS : length ctx.(S) = (32 * Z.to_nat N)%nat) by lia.
  assert (H16 : (length ctx.(S) / 16)%nat = (2 * Z.to_nat N)%nat).
  { rewrite HlS. symmetry. apply (Nat.div_unique _ _ _ 0); lia. }
  destruct (S_blocks_length ctx H0) as [HcS HlV]; [lia |].
  destruct (smix1_loop1 p 1 B N (S_blocks ctx) XY None) as
    (out & Ws & V' & XY' & c' & Hl1 & Hs1 & HV' & HlW & HW & Hc' & Hlo & HlV' & HlX' & HwX');
    [lia | destruct p; lia | by rewrite HN; destruct p | done | lia | lia | lia |].
  exists out, Ws, V', XY', c'. split; [done |]. split; [done |].
  destruct (rows_words 1 Ws HW) as [Hww Hwl].
  split; [| split; [| split; [lia | by split; [lia |]]]].
  - rewrite (holds_all 1 V' Ws) by (done || lia). unfold put_S_blocks. rewrite H0.
    change (Z.to_nat (0 / 4)) with 0%nat. f_equal. rewrite write_at_full by lia. done.
  - split; [done |]. unfold ctx_shape. cbn [S S0 S1 S2 w Sbytes set_S].
    split; [lia | exact Hp].
Qed.

(** The reference keeps a context when it has one. *)
Lemma blockmix_some p B r c out c' :
  blockmix p B r (Some c) = Some (out, c') -> exists c'', c' = Some c''.
Proof.
  cbn [blockmix]. destruct (blockmix_loop _ _ _ _ _ _ _ _) as [[[X o] c1] |]; [| discriminate].
  cbn [mbind option_bind]. intros [= _ <-]. by eexists.
Qed.

Lemma iter_opt_inv {A} (P : A -> Prop) (f : A -> option A) n a a' :
  (forall a a', P a -> f a = Some a' -> P a') -> P a -> iter_opt n f a = Some a' -> P a'.
Proof.
  intros Hf Ha. revert a'. induction n as [| n IH]; cbn [iter_opt]; intros a' H.
  - by injection H as <-.
  - destruct (iter_opt n f a) as [b |]; [| discriminate]. by eapply Hf; [apply IH |].
Qed.

Lemma loop1_some p r B N c out Ws c' :
  SMix.loop1 p r B N (Some c) = Some (out, Ws, c') -> exists c'', c' = Some c''.
Proof.
  unfold SMix.loop1. destruct (SMix.start p r B (Some c)) as [[X0 c0] |] eqn:Hs; [| discriminate].
  assert (Hc0 : exists c'', c0 = Some c'').
  { destruct p; cbn [SMix.start] in Hs.
    - injection Hs as _ <-. by eexists.
    - eapply (iter_opt_inv (fun a => exists c'', a.2 = Some c'')) in Hs; [done | | by eexists].
      intros [X c1] a' [c2 Hc2]. cbn [snd] in Hc2. subst c1. unfold SMix.expand.
      destruct (blockmix _ _ _ _) as [[o c1] |] eqn:Hb; [| discriminate].
      cbn [mbind option_bind]. intros [= <-]. by eapply blockmix_some. }
  cbn [mbind option_bind]. destruct (iter_opt _ _ _) as [[[V X] c1] |] eqn:Hi; [| discriminate].
  cbn [mbind option_bind]. intros [= _ _ <-].
  eapply (iter_opt_inv (fun a => exists c'', a.2 = Some c'')) in Hi; [done | | done].
  intros [[V1 X1] c2] a' [c3 Hc3]. cbn [snd] in Hc3. subst c2. unfold SMix.fill1. cbv zeta.
  destruct (blockmix _ _ _ _) as [[o c2] |] eqn:Hb; [| discriminate].
  cbn [mbind option_bind]. intros [= <-]. by eapply blockmix_some.
Qed.

(** The calls of [smix2]. *)
Lemma smix2_rw p r e B V XY Ws ctx (N := 2 ^ e) :
  (1 <= r)%nat -> 4 <= e <= 31 -> length B = (128 * r)%nat ->
  holds V Ws -> length Ws = Z.to_nat N -> rows_ok r Ws ->
  (match p with Pass1 => 4 * r | Pass2 => 2 * r + 1 end <= length XY)%nat -> ctx_ok p ctx ->
  Forall block16 XY ->
  exists out ctx' V' XY',
    ('(B, V, c) ← SMix.loop2 p r B N (SMix.Nloop_rw p N) true Ws (Some ctx);
     '(B, V, c) ← match p with
       | Pass1 => if SMix.Nloop_rw p N =? SMix.Nloop_all N then Some (B, V, c) else
           SMix.loop2 p r B N (SMix.Nloop_all N - SMix.Nloop_rw p N) false V c
       | Pass2 => Some (B, V, c)
       end;
     ctx ← c; Some (B, ctx)) = Some (out, ctx') /\
    ('(B, V, XY, ctx) ← smix2 p r B N (Nloop_rw p N) V XY ctx;
     match p with
     | Pass1 =>
         if Nloop_rw p N <? Nloop_all N then smix2 p r B N 2 V XY ctx else Some (B, V, XY, ctx)
     | Pass2 => Some (B, V, XY, ctx)
     end) = Some (out, V', XY', ctx') /\ length out = (128 * r)%nat /\
    ctx_ok p ctx' /\ (exists Ws', holds V' Ws' /\ length Ws' = Z.to_nat N /\ rows_ok r Ws') /\
    length V' = length V /\ length XY' = length XY /\ Forall block16 XY'.
Proof.
  intros Hr He HB HV HlW HW HXY Hc HwX.
  assert (HN : 16 <= N <= 2 ^ 31).
  { unfold N. split; [change 16 with (2 ^ 4) |]; apply Z.pow_le_mono_r; lia. }
  destruct (Nloops N HN) as (Hall & Hrw & Hbd & Hdiff). destruct (Hbd p) as [Hb2 Hbe].
  assert (Hsave : match p with Pass1 => 2 <? SMix.Nloop_rw p N | Pass2 => true end = true).
  { destruct p; [apply Z.ltb_lt; lia | done]. }
  destruct (smix2_loop2 p r N e Hr eq_refl ltac:(lia) B (SMix.Nloop_rw p N) V XY Ws ctx) as
    (o1 & W1 & V1 & XY1 & c1 & Hl1 & Hs1 & HV1 & HlW1 & HW1 & Hc1 & Hlo1 & HlV1 & HlX1 & HwX1);
    [lia | done | lia | done | done | done | rewrite Hsave; destruct p; lia | done | done |].
  assert (HW1' : exists Ws', holds V1 Ws' /\ length Ws' = Z.to_nat N /\ rows_ok r Ws') by by exists W1.
  rewrite Hsave in Hl1. rewrite (write_at_full 0 o1 B), take_0 in Hs1 by lia. cbn [app] in Hs1.
  rewrite Hl1, Hrw, Hs1, Hall. cbn [mbind option_bind]. destruct p; [| exists o1, c1, V1, XY1; tauto].
  destruct Hdiff as [Hd | Hd].
  - rewrite (proj2 (Z.eqb_eq _ _)), (proj2 (Z.ltb_ge _ _)) by lia. exists o1, c1, V1, XY1. tauto.
  - rewrite (proj2 (Z.eqb_neq _ _)), (proj2 (Z.ltb_lt _ _)) by lia.
    destruct (smix2_loop2 Pass1 r N e Hr eq_refl ltac:(lia) o1 2 V1 XY1 W1 c1) as
      (o2 & W2 & V2 & XY2 & c2 & Hl2 & Hs2 & HV2 & HlW2 & HW2 & Hc2 & Hlo2 & HlV2 & HlX2 & HwX2);
      [lia | done | lia | done | done | done | cbn; lia | done | done |].
    rewrite (write_at_full 0 o2 o1), take_0 in Hs2 by lia. cbn [app] in Hs2.
    replace (SMix.Nloop_all N - SMix.Nloop_rw Pass1 N) with 2 by lia.
    change (2 <? 2) with false in Hl2. rewrite Hl2, Hs2. cbn [mbind option_bind].
    exists o2, c2, V2, XY2. repeat (split; [done |]). split; [by exists W2 |].
    split; [lia | split; [lia | done]].
Qed.

(** Both loops, with the S-boxes filled first. *)
Lemma smix_run p r e B V XY ctx (N := 2 ^ e) :
  (1 <= r)%nat -> 4 <= e <= 31 -> length B = (128 * r)%nat ->
  (Z.to_nat N * (2 * r) <= length V)%nat ->
  (match p with Pass1 => 4 * r | Pass2 => 2 * r + 1 end <= length XY)%nat ->
  ctx_shape p ctx -> ctx.(S0) = 0 -> Forall block16 XY ->
  exists out V' XY' ctx',
    smix p B r N V XY ctx = Some (out, V', XY', ctx') /\
    SMix.run p r B N ctx = Some (out, ctx') /\ length out = (128 * r)%nat /\ ctx_ok p ctx' /\
    (exists Ws, holds V' Ws /\ length Ws = Z.to_nat N /\ rows_ok r Ws) /\
    length V' = length V /\ length XY' = length XY /\ Forall block16 XY'.
Proof.
  intros Hr He HB HV HXY Hsh H0 HwX.
  assert (HN : 16 <= N <= 2 ^ 31).
  { unfold N. split; [change 16 with (2 ^ 4) |]; apply Z.pow_le_mono_r; lia. }
  assert (Heven : N mod 2 = 0).
  { unfold N. replace e with (1 + (e - 1)) by lia. rewrite Z.pow_add_r, Z.mul_comm by lia.
    apply Z.mod_mul. lia. }
  assert (HXY3 : (2 * r + 1 <= length XY)%nat) by (destruct p; lia).
  destruct (smix_sboxes p B XY ctx Hsh H0) as
    (o1 & W1 & V1 & XY1 & c1 & Hl1 & Hs1 & Hput & Hok1 & Hlo1 & HlX1 & HwX1); [lia | lia |].
  set (B1 := write_at 0 o1 B) in *.
  assert (HB1 : length B1 = (128 * r)%nat) by (unfold B1; rewrite length_write_at; lia).
  destruct (smix1_loop1 p r B1 N V XY1 (Some (set_S ctx (concat (concat W1))))) as
    (o2 & W2 & V2 & XY2 & c2 & Hl2 & Hs2 & HV2 & HlW2 & HW2 & Hc2 & Hlo2 & HlV2 & HlX2 & HwX2);
    [done | lia | done | done | lia | lia | lia |].
  destruct (loop1_some p r B1 N _ o2 W2 c2 Hl2) as [ctx2 ->]. cbn [opt_ctx_ok] in Hc2.
  rewrite (write_at_full 0 o2 B1), take_0 in Hs2 by lia. cbn [app] in Hs2.
  destruct (smix2_rw p r e o2 V2 XY2 W2 ctx2 Hr He) as
    (o3 & ctx3 & V3 & XY3 & Hl3 & Hs3 & Hlo3 & Hc3 & HW3 & HlV3 & HlX3 & HwX3);
    [done | done | done | done | | done | by apply HwX2, HwX1 |].
  { rewrite HlX2, HlX1. done. }
  exists o3, V3, XY3, ctx3. split; [| split; [| split; [done | split; [done | split; [done | split; [lia | by split; [lia |]]]]]]].
  - unfold smix. rewrite Hs1. cbn [mbind option_bind]. rewrite Hput, Hs2. exact Hs3.
  - unfold SMix.run. rewrite Hl1. cbn [mbind option_bind]. fold B1. rewrite Hl2. exact Hl3.
Qed.

(** C16: [smix] on a power of two between 16 and 2^31 runs to the end without
    touching memory outside its arrays, whatever they held before, and
    replaces [B] by the result of SMix. *)
Theorem smix_refines p r e B V XY ctx (N := 2 ^ e) :
  (1 <= r)%nat -> 4 <= e <= 31 -> length B = (128 * r)%nat ->
  (Z.to_nat N * (2 * r) <= length V)%nat ->
  (match p with Pass1 => 4 * r | Pass2 => 2 * r + 1 end <= length XY)%nat ->
  ctx_shape p ctx -> ctx.(S0) = 0 -> Forall block16 XY ->
  exists out V' XY' ctx',
    smix p B r N V XY ctx = Some (out, V', XY', ctx') /\
    SMix.run p r B N ctx = Some (out, ctx') /\ length out = (128 * r)%nat /\ ctx_ok p ctx' /\
    (exists Ws, holds V' Ws /\ length Ws = Z.to_nat N /\ rows_ok r Ws) /\
    length V' = length V /\ length XY' = length XY /\ Forall block16 XY'.
Proof. apply smix_run. Qed.

Lemma smix_refines_witness :
  let ctx := {| S := replicate 2048 7; S0 := 0; S1 := 4096; S2 := 0; w := 0; Sbytes := 8192 |} in
  exists out V' XY' ctx',
    smix Pass1 (replicate 128 9) 1 (2 ^ 4) (replicate 32 []) (replicate 4 (replicate 16 0)) ctx
    = Some (out, V', XY', ctx') /\
    SMix.run Pass1 1 (replicate 128 9) (2 ^ 4) ctx = Some (out, ctx') /\
    length out = 128%nat /\ ctx_ok Pass1 ctx' /\
    (exists Ws, holds V' Ws /\ length Ws = 16%nat /\ rows_ok 1 Ws) /\
    length V' = 32%nat /\ length XY' = 4%nat /\ Forall block16 XY'.
Proof.
  apply (smix_refines Pass1 1 4 (replicate 128 9) (replicate 32 []) (replicate 4 (replicate 16 0))
    {| S := replicate 2048 7; S0 := 0; S1 := 4096; S2 := 0; w := 0; Sbytes := 8192 |});
    [lia | lia | reflexivity | cbn; lia | cbn; lia | by split; [| split; [| split]] | reflexivity |
     apply (bool_decide_unpack _); by vm_compute].
Defined.

(** C40: the first loop, for every even [N] (the S-boxes of yespower 1.0 need
    768 rows): the doubling loop with its masks and offsets computes
    [V_i = H(V_(i-1) xor V_Wrap(Integerify(V_(i-1)), i-1))] row by row. *)
Theorem smix1_refines p r B N V XY ctx :
  (1 <= r)%nat -> 4 <= N <= 2 ^ 31 -> N mod 2 = 0 -> opt_ctx_ok p r ctx ->
  (Z.to_nat N * (2 * r) <= length V)%nat -> (2 * r + 1 <= length XY)%nat ->
  (128 * r <= length B)%nat ->
  exists out Ws V' XY' ctx',
    SMix.loop1 p r B N ctx = Some (out, Ws, ctx') /\
    smix1 p r B N V XY ctx = Some (write_at 0 out B, V', XY', ctx') /\
    holds V' Ws /\ length Ws = Z.to_nat N.
Proof.
  intros. destruct (smix1_loop1 p r B N V XY ctx) as (out & Ws & V' & XY' & c' & ?); try done.
  exists out, Ws, V', XY', c'. tauto.
Qed.

Lemma smix1_refines_witness :
  exists out Ws V' XY' ctx',
    SMix.loop1 Pass2 1 (replicate 128 9) 6 None = Some (out, Ws, ctx') /\
    smix1 Pass2 1 (replicate 128 9) 6 (replicate 12 []) (replicate 3 []) None
    = Some (write_at 0 out (replicate 128 9), V', XY', ctx') /\
    holds V' Ws /\ length Ws = Z.to_nat 6.
Proof.
  apply (smix1_refines Pass2 1 (replicate 128 9) 6 (replicate 12 []) (replicate 3 []) None);
    [lia | lia | reflexivity | reflexivity | cbn; lia | cbn; lia | cbn; lia].
Defined.
