(* ===== verification/Yespower.v ===== *)
(** * yespower: [xmrig/crypto/randomx/panthera/yespower-opt.c] and
    [yespower-platform.c]

    The entry points on top of SMix: the parameter checks, the memory region a
    caller keeps between calls, and the two versions.  The region is one
    mapping; [B], [V], [XY] and the S-boxes are cut out of it and put back.
    The build modelled is the one for 64-bit Linux: [MAP_ANON] and
    [MAP_HUGETLB] exist and huge pages have 2 MiB; there [aligned] is [base].
    What the kernel answers to [mmap] and [munmap] is a parameter. *)

From S2P Require Import Prelude Endian Sha256 Hmac Pbkdf2 Salsa20 Pwxform Smix.

(** ** The code: types *)

Record yespower_region_t := { base : option (list Z); base_size : Z; aligned_size : Z }.
Definition YESPOWER_0_5 : Z := 5.
Definition YESPOWER_1_0 : Z := 10.
Record yespower_params_t := {
  version : Z; pN : Z; pr : Z; pers : option (list Z); perslen : Z
}.

(** ** The code: the memory region *)

Definition HUGEPAGE_THRESHOLD : Z := 12 * 1024 * 1024.
Definition HUGEPAGE_SIZE : Z := 2 * 1024 * 1024.

Definition init_region : yespower_region_t := {| base := None; base_size := 0; aligned_size := 0 |}.

Section Platform.
(** [mmap(NULL, n, .., MAP_HUGETLB or not)]: the bytes of the mapping, unless
    it fails; [munmap] on a mapping of so many bytes: whether it fails. *)
Variable mmap : Z -> bool -> option (list Z).
Variable munmap : Z -> bool.

(** The region; [aligned] is returned and is its memory. *)
Definition alloc_region (size : Z) : yespower_region_t :=
  let hugepage_mask := HUGEPAGE_SIZE - 1 in
  let hugetlb := (HUGEPAGE_THRESHOLD <=? size) && (size <=? u64 (size + hugepage_mask)) in
  let new_size := if hugetlb then Z.land (u64 (size + hugepage_mask)) (not64 hugepage_mask) else size in
  let '(base, base_size) :=
    match mmap new_size hugetlb with
    | Some m => (Some m, new_size)
    | None => (if hugetlb then mmap size false else None, size)
    end in
  {| base := base;
     base_size := if base is Some _ then base_size else 0;
     aligned_size := if base is Some _ then size else 0 |}.

(** Whether it failed, and the region. *)
Definition free_region (region : yespower_region_t) : bool * yespower_region_t :=
  match region.(base) with
  | Some _ => if munmap region.(base_size) then (true, region) else (false, init_region)
  | None => (false, init_region)
  end.

(** ** The code: the parts of the region *)

Definition mem_blocks (mem : list Z) (off n : nat) : blocks :=
  map (fun i => block_words (drop off mem) i) (seq 0 n).
Definition blocks_bytes (A : blocks) : list Z := concat (map words_bytes A).

Definition set_pers (src : list Z) (pers : option (list Z)) (perslen : Z) : list Z :=
  match pers with Some p => take (Z.to_nat perslen) p | None => [] end.

(** Version 0.5 on the region's memory: the digest and the memory. *)
Definition yespower_0_5 (mem src : list Z) (N r : Z) (pers : option (list Z)) (perslen : Z) :
  option (list Z * list Z) :=
  let B_size := Z.to_nat (128 * r) in let V_size := (B_size * Z.to_nat N)%nat in
  let XY_size := (B_size * 2)%nat in
  let Sbytes := 2 * Swidth_to_Sbytes1 Swidth_0_5 in
  let V := mem_blocks mem B_size (V_size / 64) in
  let XY := mem_blocks mem (B_size + V_size) (XY_size / 64) in
  let ctx := {| S := concat (mem_blocks mem (B_size + V_size + XY_size) (Z.to_nat (Sbytes / 64)));
                S0 := 0; S1 := Swidth_to_Sbytes1 Swidth_0_5; S2 := 0; w := 0; Sbytes := Sbytes |} in
  let sha256 := SHA256_Buf src in
  B ← PBKDF2_SHA256 sha256 src 1 (take B_size mem);
  let sha256 := take 32 B in
  '(B, V, XY, ctx) ← smix Pass1 B (Z.to_nat r) N V XY ctx;
  dst ← PBKDF2_SHA256 sha256 B 1 (replicate 32 0);
  let dst := match pers with
    | Some p =>
        let sha256 := HMAC_SHA256_Buf dst (take (Z.to_nat perslen) p) in SHA256_Buf sha256
    | None => dst
    end in
  Some (dst, B ++ blocks_bytes V ++ blocks_bytes XY ++ words_bytes ctx.(S) ++
    drop (B_size + V_size + XY_size + Z.to_nat Sbytes) mem).

Definition yespower_1_0 (mem src : list Z) (N r : Z) (pers : option (list Z)) (perslen : Z) :
  option (list Z * list Z) :=
  let B_size := Z.to_nat (128 * r) in let V_size := (B_size * Z.to_nat N)%nat in
  let XY_size := (B_size + 64)%nat in
  let Sbytes := 3 * Swidth_to_Sbytes1 Swidth_1_0 in
  let V := mem_blocks mem B_size (V_size / 64) in
  let XY := mem_blocks mem (B_size + V_size) (XY_size / 64) in
  let ctx := {| S := concat (mem_blocks mem (B_size + V_size + XY_size) (Z.to_nat (Sbytes / 64)));
                S0 := 0; S1 := Swidth_to_Sbytes1 Swidth_1_0; S2 := 2 * Swidth_to_Sbytes1 Swidth_1_0;
                w := 0; Sbytes := Sbytes |} in
  let sha256 := SHA256_Buf src in
  let src := set_pers src pers perslen in
  b ← PBKDF2_SHA256 sha256 src 1 (take 128 mem);
  let B := write_at 0 b (take B_size mem) in
  let sha256 := take 32 B in
  '(B, V, XY, ctx) ← smix Pass2 B (Z.to_nat r) N V XY ctx;
  let dst := HMAC_SHA256_Buf (take 64 (drop (B_size - 64) B)) sha256 in
  Some (dst, B ++ blocks_bytes V ++ blocks_bytes XY ++ words_bytes ctx.(S) ++
    drop (B_size + V_size + XY_size + Z.to_nat Sbytes) mem).

(** ** The code: yespower *)

(** [need]. *)
Definition need (ver N r : Z) : Z :=
  let B_size := 128 * r in let V_size := B_size * N in
  if ver =? YESPOWER_0_5 then
    B_size + V_size + B_size * 2 + 2 * Swidth_to_Sbytes1 Swidth_0_5
  else B_size + V_size + (B_size + 64) + 3 * Swidth_to_Sbytes1 Swidth_1_0.

Definition bad_params (p : yespower_params_t) : bool :=
  (negb (p.(version) =? YESPOWER_0_5) && negb (p.(version) =? YESPOWER_1_0)) ||
  (p.(pN) <? 1024) || (512 * 1024 <? p.(pN)) || (p.(pr) <? 8) || (32 <? p.(pr)) ||
  negb (Z.land p.(pN) (u32 (p.(pN) - 1)) =? 0) ||
  (negb (if p.(pers) is Some _ then true else false) && negb (p.(perslen) =? 0)).

(** What a call does: its result, [*dst], [*local], and whether [errno] was set
    to [EINVAL]. *)
Record outcome := { ret : Z; dst : list Z; local : yespower_region_t; einval : bool }.
Definition fail (local : yespower_region_t) (einval : bool) : outcome :=
  {| ret := -1; dst := replicate 32 0xff; local := local; einval := einval |}.

(** [None] would be an access outside the region. *)
Definition yespower (local : yespower_region_t) (src : list Z) (p : yespower_params_t) :
  option outcome :=
  if bad_params p then Some (fail local true) else
  let need := need p.(version) p.(pN) p.(pr) in
  let hash (local : yespower_region_t) (mem : list Z) :=
    let f := if p.(version) =? YESPOWER_0_5 then yespower_0_5 else yespower_1_0 in
    '(d, mem) ← f mem src p.(pN) p.(pr) p.(pers) p.(perslen);
    Some {| ret := 0; dst := d; einval := false;
            local := {| base := Some mem; base_size := local.(base_size);
                        aligned_size := local.(aligned_size) |} |} in
  if local.(aligned_size) <? need then
    let '(failed, local) := free_region local in
    if failed then Some (fail local false) else
    let local := alloc_region need in
    match local.(base) with
    | None => Some (fail local false)
    | Some mem => hash local mem
    end
  else mem ← local.(base); hash local mem.

(** The thread-local region of [yespower_tls], [None] before the first call. *)
Definition yespower_tls (tls : option yespower_region_t) (src : list Z) (p : yespower_params_t) :
  option outcome :=
  let local := match tls with None => init_region | Some local => local end in
  yespower local src p.

Definition yespower_init_local : Z * yespower_region_t := (0, init_region).
Definition yespower_free_local (local : yespower_region_t) : Z * yespower_region_t :=
  let '(failed, local) := free_region local in (if failed then -1 else 0, local).
End Platform.

(** ** yespower *)

Module Yespower.
Definition ctx0 (p : pass) : pwxform_ctx_t :=
  {| S := []; S0 := 0; S1 := Sbytes1 p; S2 := match p with Pass1 => 0 | Pass2 => 2 * Sbytes1 p end;
     w := 0; Sbytes := match p with Pass1 => 2 * Sbytes1 p | Pass2 => 3 * Sbytes1 p end |}.
Definition pbkdf2 (P salt : list Z) (n : nat) : list Z := Rfc2898.pbkdf2 (hmac_sha256 P) 32 salt 1 n.

Definition v0_5 (src : list Z) (N : Z) (r : nat) (pers : option (list Z)) : option (list Z) :=
  let B := pbkdf2 (Fips.sha256 src) src (128 * r) in
  '(B', _) ← SMix.run Pass1 r B N (ctx0 Pass1);
  let d := pbkdf2 (take 32 B) B' 32 in
  Some (match pers with Some p => Fips.sha256 (hmac_sha256 d p) | None => d end).

Definition v1_0 (src : list Z) (N : Z) (r : nat) (pers : option (list Z)) : option (list Z) :=
  let B := pbkdf2 (Fips.sha256 src) (default [] pers) 128 in
  '(B', _) ← SMix.run Pass2 r (B ++ replicate (128 * r - 128) 0) N (ctx0 Pass2);
  Some (hmac_sha256 (drop (128 * r - 64) B') (take 32 B)).

Definition hash (ver : Z) := if ver =? YESPOWER_0_5 then v0_5 else v1_0.
End Yespower.

(** ** What SMix reads of its arguments *)

Lemma block_words_take B i n :
  (i * 64 + 64 <= n)%nat -> block_words B i = block_words (take n B) i.
Proof.
  intros Hn. unfold block_words. apply map_ext_in. intros k Hk%in_seq. f_equal.
  rewrite !take_drop_commute, take_take. do 2 f_equal. lia.
Qed.

Lemma loop1_prefix r B B' N c :
  take 128 B = take 128 B' -> SMix.loop1 Pass2 r B N c = SMix.loop1 Pass2 r B' N c.
Proof.
  intros HB. unfold SMix.loop1, SMix.start.
  assert (Hm : map (SMix.block_of B) (seq 0 2) = map (SMix.block_of B') (seq 0 2)); [| by rewrite Hm].
  apply map_ext_in. intros i Hi%in_seq. unfold SMix.block_of. f_equal.
  rewrite (block_words_take B i 128), (block_words_take B' i 128), HB by lia. done.
Qed.

(** In yespower 1.0 only the first 128 bytes of [B] matter, and in both
    versions what the S-boxes held before does not. *)
Lemma run_prefix r B B' N ctx :
  take 128 B = take 128 B' -> SMix.run Pass2 r B N ctx = SMix.run Pass2 r B' N ctx.
Proof.
  intros HB. unfold SMix.run. rewrite (loop1_prefix 1 B B') by done.
  destruct (SMix.loop1 Pass2 1 B' _ None) as [[[o W] c] |]; [| done]. cbn [mbind option_bind].
  rewrite (loop1_prefix r (write_at 0 o B) (write_at 0 o B')); [done |].
  unfold write_at. rewrite !take_0. cbn [app Nat.add]. rewrite !take_app. f_equal.
  destruct (decide (length o <= 128)%nat).
  - rewrite !take_drop_commute. by replace (length o + (128 - length o))%nat with 128%nat by lia; rewrite HB.
  - by replace (128 - length o)%nat with 0%nat by lia.
Qed.

Lemma run_S p r B N ctx S' : SMix.run p r B N (set_S ctx S') = SMix.run p r B N ctx.
Proof. done. Qed.

Lemma loop2_bytes p r B N n b V c out V' c' :
  SMix.loop2 p r B N n b V c = Some (out, V', c') -> bytes out.
Proof.
  unfold SMix.loop2. destruct (iter_opt _ _ _) as [[[V1 X] c1] |]; [| discriminate].
  cbn [mbind option_bind]. intros [= <- _ _]. apply bytes_finish.
Qed.

Lemma run_bytes p r B N ctx out ctx' : SMix.run p r B N ctx = Some (out, ctx') -> bytes out.
Proof.
  unfold SMix.run. destruct (SMix.loop1 _ 1 _ _ _) as [[[o1 W] c1] |]; [| discriminate].
  cbn [mbind option_bind]. destruct (SMix.loop1 _ _ _ _ _) as [[[o2 V] c2] |]; [| discriminate].
  cbn [mbind option_bind].
  destruct (SMix.loop2 _ _ _ _ _ _ _ _) as [[[o3 V3] c3] |] eqn:H3; [| discriminate].
  cbn [mbind option_bind]. apply loop2_bytes in H3.
  assert (Hend : forall (o : list Z) (c : option pwxform_ctx_t), bytes o ->
    (ctx ← c; Some (o, ctx)) = Some (out, ctx') -> bytes out).
  { intros o [c |] Ho; [| discriminate]. by intros [= <- _]. }
  destruct p; [| by apply Hend].
  destruct (SMix.Nloop_rw Pass1 N =? SMix.Nloop_all N); [by apply Hend |].
  destruct (SMix.loop2 Pass1 r o3 N _ false V3 c3) as [[[o4 V4] c4] |] eqn:H4; [| discriminate].
  apply loop2_bytes in H4. by apply Hend.
Qed.

(** ** The parts of the region *)

Lemma length_mem_blocks mem off n : length (mem_blocks mem off n) = n.
Proof. unfold mem_blocks. by rewrite length_map, length_seq. Qed.

Lemma mem_blocks_words mem off n : length (concat (mem_blocks mem off n)) = (16 * n)%nat.
Proof.
  unfold mem_blocks. rewrite <- (length_seq n 0) at 2. generalize (seq 0 n). intros l.
  induction l as [| i l IH]; [done |]. cbn [map concat length]. rewrite length_app, IH.
  unfold block_words. rewrite length_map, length_seq. lia.
Qed.

Lemma need_val ver N r :
  (ver = 5 -> need ver N r = 128 * r * N + 384 * r + 8192) /\
  (ver = 10 -> need ver N r = 128 * r * N + 256 * r + 98368).
Proof.
  unfold need. split; intros ->.
  - change (5 =? YESPOWER_0_5) with true. change (Swidth_to_Sbytes1 Swidth_0_5) with 4096. cbn iota. lia.
  - change (10 =? YESPOWER_0_5) with false. change (Swidth_to_Sbytes1 Swidth_1_0) with 32768.
    cbn iota. lia.
Qed.

#[local] Opaque SMix.run smix PBKDF2_SHA256 SHA256_Buf HMAC_SHA256_Buf.
#[local] Opaque Rfc2898.pbkdf2 Rfc2104.hmac Fips.sha256.

Lemma word64_1 : word 64 1.
Proof. by apply (bool_decide_unpack _). Qed.

(** The contexts of the two versions. *)
Lemma set_S_ctx0_0_5 S' :
  {| S := S'; S0 := 0; S1 := Swidth_to_Sbytes1 Swidth_0_5; S2 := 0; w := 0;
     Sbytes := 2 * Swidth_to_Sbytes1 Swidth_0_5 |} = set_S (Yespower.ctx0 Pass1) S'.
Proof. done. Qed.
Lemma set_S_ctx0_1_0 S' :
  {| S := S'; S0 := 0; S1 := Swidth_to_Sbytes1 Swidth_1_0; S2 := 2 * Swidth_to_Sbytes1 Swidth_1_0;
     w := 0; Sbytes := 3 * Swidth_to_Sbytes1 Swidth_1_0 |} = set_S (Yespower.ctx0 Pass2) S'.
Proof. done. Qed.
Lemma Sbytes_0_5 : Z.to_nat (2 * Swidth_to_Sbytes1 Swidth_0_5 / 64) = 128%nat.
Proof. by vm_compute. Qed.
Lemma Sbytes_1_0 : Z.to_nat (3 * Swidth_to_Sbytes1 Swidth_1_0 / 64) = 1536%nat.
Proof. by vm_compute. Qed.

(** The valid sizes. *)
Record sizes (N r e : Z) : Prop := {
  sz_N : N = 2 ^ e; sz_e : 10 <= e <= 19; sz_r : 8 <= r <= 32
}.

Lemma sizes_nat N r e (R := Z.to_nat r) :
  sizes N r e -> Z.to_nat (128 * r) = (128 * R)%nat /\ (1 <= R)%nat /\
  ((128 * R * Z.to_nat N) / 64)%nat = (Z.to_nat N * (2 * R))%nat /\
  ((128 * R * 2) / 64)%nat = (4 * R)%nat /\ ((128 * R + 64) / 64)%nat = (2 * R + 1)%nat.
Proof.
  intros [-> He Hr]. subst R. split; [lia |]. split; [lia |].
  split; [| split]; symmetry; apply (Nat.div_unique _ _ _ 0); lia.
Qed.

Lemma length_blocks_bytes A : Forall block16 A -> length (blocks_bytes A) = (64 * length A)%nat.
Proof.
  unfold blocks_bytes. induction 1 as [| b A [Hb _] _ IH]; [done |].
  cbn [map concat length]. rewrite length_app, IH, length_words_bytes. lia.
Qed.

Lemma mem_blocks_block mem off n : Forall block16 (mem_blocks mem off n).
Proof. apply Forall_map, List.Forall_forall. intros i _. apply block_words_block. Qed.

Lemma rows_blocks r V Ws n :
  holds V Ws -> length Ws = n -> rows_ok r Ws -> length V = (n * (2 * r))%nat -> Forall block16 V.
Proof.
  intros HV HlW HW Hl. rewrite (holds_all r V Ws) by (done || lia). apply Forall_concat.
  eapply List.Forall_impl; [| exact HW]. by intros X [_ ?].
Qed.

Lemma ctx0_shape p S' :
  Z.of_nat (length S') = match p with Pass1 => 2048 | Pass2 => 24576 end ->
  ctx_shape p (set_S (Yespower.ctx0 p) S').
Proof.
  intros Hl. unfold ctx_shape. cbn [S S0 S1 S2 w Sbytes set_S Yespower.ctx0].
  destruct p; rewrite Hl; by repeat split.
Qed.

(** The whole hash on the memory, after the first PBKDF2. *)
Lemma smix_mem p mem N r e B (R := Z.to_nat r)
    (XYn := match p with Pass1 => 4 * R | Pass2 => 2 * R + 1 end%nat)
    (Sn := match p with Pass1 => 128 | Pass2 => 1536 end%nat) offV offXY offS S' :
  sizes N r e -> length B = (128 * R)%nat -> S' = concat (mem_blocks mem offS Sn) ->
  exists out V' XY' ctx',
    smix p B R N (mem_blocks mem offV (Z.to_nat N * (2 * R))) (mem_blocks mem offXY XYn)
      (set_S (Yespower.ctx0 p) S') = Some (out, V', XY', ctx') /\
    SMix.run p R B N (Yespower.ctx0 p) = Some (out, ctx') /\ bytes out /\
    length out = (128 * R)%nat /\ length (blocks_bytes V') = (128 * R * Z.to_nat N)%nat /\
    length (blocks_bytes XY') = (64 * XYn)%nat /\ length (words_bytes ctx'.(S)) = (64 * Sn)%nat.
Proof.
  intros Hsz HB ->. destruct (sizes_nat N r e Hsz) as (_ & HR & _). destruct Hsz as [HN He Hr].
  destruct (smix_run p R e B (mem_blocks mem offV (Z.to_nat N * (2 * R))) (mem_blocks mem offXY XYn)
    (set_S (Yespower.ctx0 p) (concat (mem_blocks mem offS Sn)))) as
    (out & V' & XY' & c' & Hs & Hr' & Hlo & [HcS Hsh] & (Ws & HV & HlW & HW) & HlV & HlX & HwX).
  - done.
  - lia.
  - done.
  - rewrite length_mem_blocks, HN. lia.
  - rewrite length_mem_blocks. unfold XYn. destruct p; lia.
  - apply ctx0_shape. rewrite mem_blocks_words. unfold Sn. by destruct p.
  - done.
  - apply mem_blocks_block.
  - rewrite <- HN in *. exists out, V', XY', c'. split; [done |]. split; [by rewrite <- Hr' |].
    split; [by eapply run_bytes |]. split; [done |].
    rewrite length_mem_blocks in HlV, HlX.
    split; [rewrite length_blocks_bytes, HlV by (by eapply rows_blocks); lia |].
    split; [rewrite length_blocks_bytes by done; lia |].
    rewrite length_words_bytes. unfold Sn. destruct Hsh as [Hl Hp]. destruct p.
    + destruct Hp as (_ & _ & Hp). rewrite Hp in Hl. change (Sbytes1 Pass1) with 4096 in Hl. lia.
    + destruct Hp as (_ & Hp & _). rewrite Hp in Hl. change (Sbytes1 Pass2) with 32768 in Hl. lia.
Qed.

Lemma yespower_0_5_ok mem src N r e ps perslen :
  sizes N r e -> need 5 N r <= Z.of_nat (length mem) -> bytes src ->
  (forall p, ps = Some p -> bytes p /\ Z.of_nat (length p) = perslen) ->
  exists d mem', yespower_0_5 mem src N r ps perslen = Some (d, mem') /\
    length mem' = length mem /\ Yespower.v0_5 src N (Z.to_nat r) ps = Some d.
Proof.
  intros Hsz Hm Hsrc Hp. destruct (sizes_nat N r e Hsz) as (HB & HR & HV & HXY & _).
  rewrite (proj1 (need_val 5 N r) eq_refl) in Hm.
  set (R := Z.to_nat r) in *.
  assert (HN : 0 < N) by (destruct Hsz as [-> ? ?]; lia).
  assert (Hml : (128 * R + 128 * R * Z.to_nat N + 128 * R * 2 + 64 * 128 <= length mem)%nat).
  { destruct Hsz as [_ _ Hr]. apply Nat2Z.inj_le. rewrite !Nat2Z.inj_add, !Nat2Z.inj_mul.
    unfold R. rewrite !Z2Nat.id by lia. lia. }
  assert (Hmb : length (take (128 * R) mem) = (128 * R)%nat) by (rewrite length_take; lia).
  destruct (pbkdf2_once_ok (Fips.sha256 src) src (128 * R)) as [HBb HBl]; [by apply sha256_bytes | done |].
  unfold yespower_0_5. rewrite HB, HV, HXY, SHA256_Buf_spec by done.
  rewrite PBKDF2_SHA256_eq; [| by apply sha256_bytes | exact Hsrc | apply word64_1 | rewrite Hmb; destruct Hsz; lia].
  rewrite Hmb. next. change (Z.to_nat 1) with 1%nat.
  set (B := Rfc2898.pbkdf2 (hmac_sha256 (Fips.sha256 src)) 32 src 1 (128 * R)) in *.
  destruct (smix_mem Pass1 mem N r e B (128 * R) (128 * R + 128 * R * Z.to_nat N)
    (128 * R + 128 * R * Z.to_nat N + 128 * R * 2) _ Hsz HBl eq_refl) as
    (out & V' & XY' & c' & Hs & Hrun & Hob & Hol & HlV & HlX & HlS).
  fold R in Hs, Hrun. fold R.
  rewrite Sbytes_0_5, set_S_ctx0_0_5, Hs. next.
  rewrite PBKDF2_SHA256_eq; [| apply Forall_take; exact HBb | exact Hob | apply word64_1 |
    rewrite length_replicate; lia].
  rewrite length_replicate. next. change (Z.to_nat 1) with 1%nat.
  do 2 eexists. split; [reflexivity |]. split.
  - rewrite !length_app, length_drop, HlV, HlX, HlS.
    change (2 * Swidth_to_Sbytes1 Swidth_0_5) with (64 * 128). lia.
  - unfold Yespower.v0_5, Yespower.pbkdf2. fold B. rewrite Hrun. next.
    destruct (pbkdf2_once_ok (take 32 B) out 32) as [Hdb _]; [by apply Forall_take | done |].
    f_equal. destruct ps as [p |]; [| done]. destruct (Hp p eq_refl) as [Hpb Hpl].
    rewrite (take_ge p) by lia. rewrite HMAC_SHA256_Buf_spec by done.
    rewrite SHA256_Buf_spec; [done |]. by apply hmac_digest_ok.
Qed.

Lemma yespower_1_0_ok mem src N r e ps perslen :
  sizes N r e -> need 10 N r <= Z.of_nat (length mem) -> bytes src ->
  (forall p, ps = Some p -> bytes p /\ Z.of_nat (length p) = perslen) ->
  exists d mem', yespower_1_0 mem src N r ps perslen = Some (d, mem') /\
    length mem' = length mem /\ Yespower.v1_0 src N (Z.to_nat r) ps = Some d.
Proof.
  intros Hsz Hm Hsrc Hp. destruct (sizes_nat N r e Hsz) as (HB & HR & HV & _ & HXY).
  rewrite (proj2 (need_val 10 N r) eq_refl) in Hm.
  set (R := Z.to_nat r) in *.
  assert (HN : 0 < N) by (destruct Hsz as [-> ? ?]; lia).
  assert (HR8 : (8 <= R)%nat) by (destruct Hsz; unfold R; lia).
  assert (Hml : (128 * R + 128 * R * Z.to_nat N + (128 * R + 64) + 64 * 1536 <= length mem)%nat).
  { destruct Hsz as [_ _ Hr]. apply Nat2Z.inj_le. rewrite !Nat2Z.inj_add, !Nat2Z.inj_mul.
    unfold R. rewrite !Z2Nat.id by lia. lia. }
  set (salt := default [] ps).
  assert (Hsalt : bytes salt /\ set_pers src ps perslen = salt).
  { unfold salt. destruct ps as [p |]; [| by split; [constructor |]].
    destruct (Hp p eq_refl) as [Hpb Hpl]. split; [done |]. cbn. apply take_ge. lia. }
  destruct Hsalt as [Hsalt Hset].
  assert (Hmb : length (take 128 mem) = 128%nat) by (rewrite length_take; lia).
  destruct (pbkdf2_once_ok (Fips.sha256 src) salt 128) as [Hbb Hbl]; [by apply sha256_bytes | done |].
  unfold yespower_1_0. rewrite HB, HV, HXY, Hset, SHA256_Buf_spec by done.
  rewrite PBKDF2_SHA256_eq; [| by apply sha256_bytes | exact Hsalt | apply word64_1 | rewrite Hmb; lia].
  rewrite Hmb. next. change (Z.to_nat 1) with 1%nat.
  set (b := Rfc2898.pbkdf2 (hmac_sha256 (Fips.sha256 src)) 32 salt 1 128) in *.
  set (B := write_at 0 b (take (128 * R) mem)).
  assert (HBl : length B = (128 * R)%nat) by (unfold B; rewrite length_write_at; rewrite length_take; lia).
  assert (Hb32 : take 32 B = take 32 b).
  { unfold B, write_at. rewrite take_0. cbn [app]. by rewrite take_app_le by lia. }
  destruct (smix_mem Pass2 mem N r e B (128 * R) (128 * R + 128 * R * Z.to_nat N)
    (128 * R + 128 * R * Z.to_nat N + (128 * R + 64)) _ Hsz HBl eq_refl) as
    (out & V' & XY' & c' & Hs & Hrun & Hob & Hol & HlV & HlX & HlS).
  fold R in Hs, Hrun. fold R.
  rewrite Sbytes_1_0, set_S_ctx0_1_0, Hs. next. do 2 eexists. split; [reflexivity |]. split.
  - rewrite !length_app, length_drop, HlV, HlX, HlS.
    change (3 * Swidth_to_Sbytes1 Swidth_1_0) with (64 * 1536). lia.
  - unfold Yespower.v1_0, Yespower.pbkdf2. fold salt. fold b.
    rewrite (run_prefix R _ B).
    + rewrite Hrun. next. rewrite Hb32.
      rewrite HMAC_SHA256_Buf_spec; [| by apply Forall_take, Forall_drop | by apply Forall_take].
      by rewrite (take_ge (drop _ out)) by (rewrite length_drop; lia).
    + unfold B, write_at. rewrite take_0. cbn [app]. by rewrite !take_app_le, !take_ge by lia.
Qed.

(** ** yespower *)

Definition params_ok (p : yespower_params_t) : Prop :=
  word 32 p.(pN) /\ word 32 p.(pr) /\
  (forall s, p.(pers) = Some s -> bytes s /\ Z.of_nat (length s) = p.(perslen)).

(** A region keeps at least the size it says. *)
Definition region_ok (l : yespower_region_t) : Prop :=
  match l.(base) with
  | Some mem => Z.of_nat (length mem) = l.(base_size) /\ l.(aligned_size) <= l.(base_size)
  | None => l.(base_size) = 0 /\ l.(aligned_size) = 0
  end.

Lemma pow2_land N : 0 < N -> Z.land N (N - 1) = 0 -> exists e, 0 <= e /\ N = 2 ^ e.
Proof.
  intros HN Hl. exists (Z.log2 N). split; [apply Z.log2_nonneg |].
  pose proof (Z.log2_spec N HN) as [Hlo Hhi]. set (e := Z.log2 N) in *.
  assert (He : 0 <= e) by apply Z.log2_nonneg.
  destruct (decide (N = 2 ^ e)) as [| Hne]; [done |].
  assert (Hb : Z.testbit (Z.land N (N - 1)) e = true).
  { rewrite Z.land_spec. assert (Hlog : Z.log2 (N - 1) = e).
    { apply Z.log2_unique; [done | lia]. }
    rewrite <- Hlog at 2. unfold e. rewrite !Z.bit_log2 by lia. done. }
  rewrite Hl, Z.bits_0 in Hb. done.
Qed.

Lemma bad_params_sizes p :
  word 32 p.(pN) -> word 32 p.(pr) -> bad_params p = false ->
  (exists e, sizes p.(pN) p.(pr) e) /\ (p.(version) = 5 \/ p.(version) = 10).
Proof.
  intros HN Hr Hb. unfold bad_params, YESPOWER_0_5, YESPOWER_1_0 in Hb.
  repeat (apply orb_false_iff in Hb as [Hb ?]).
  apply andb_false_iff in Hb. rewrite !negb_false_iff, !Z.eqb_eq in Hb.
  split; [| tauto].
  assert (Hrange : 1024 <= pN p <= 524288 /\ 8 <= pr p <= 32) by lia.
  assert (Hl : Z.land (pN p) (u32 (pN p - 1)) = 0) by (apply Z.eqb_eq; by apply negb_false_iff).
  rewrite u32_small in Hl by (unfold word in *; lia).
  destruct (pow2_land (pN p)) as (e & He & Hpe); [lia | done |].
  exists e. split; [done | | lia].
  assert (10 < e + 1) by (apply (Z.pow_lt_mono_r_iff 2); [lia | lia |]; rewrite Z.pow_add_r; lia).
  assert (e < 20) by (apply (Z.pow_lt_mono_r_iff 2); lia). lia.
Qed.

Section Kernel.
Variables (mmap : Z -> bool -> option (list Z)) (munmap : Z -> bool).
(** A mapping has the length asked for. *)
Hypothesis mmap_length : forall n h m, mmap n h = Some m -> Z.of_nat (length m) = n.

Lemma round_up n :
  word 64 n -> n <= u64 (n + (HUGEPAGE_SIZE - 1)) ->
  n <= Z.land (u64 (n + (HUGEPAGE_SIZE - 1))) (not64 (HUGEPAGE_SIZE - 1)) /\
  Z.land (u64 (n + (HUGEPAGE_SIZE - 1))) (not64 (HUGEPAGE_SIZE - 1)) mod HUGEPAGE_SIZE = 0.
Proof.
  intros Hn Hov. set (x := u64 _) in *. assert (Hx : word 64 x) by apply u64_word.
  assert (Hm : Z.land x (not64 (HUGEPAGE_SIZE - 1)) = Z.ldiff x (Z.ones 21)).
  { bitwise. destruct (decide (i < 64)).
    - unfold not64. rewrite u64_mod, Z.mod_pow2_bits_low, Z.lnot_spec by lia. done.
    - by rewrite (word_testbit 64 x i) by (done || lia). }
  rewrite Hm, Z.ldiff_ones_r, Z.shiftl_mul_pow2, Z.shiftr_div_pow2 by lia.
  change HUGEPAGE_SIZE with (2 ^ 21) in *. split; [| by apply Z.mod_mul].
  pose proof (Z.div_mod x (2 ^ 21) ltac:(lia)) as Hd.
  pose proof (Z.mod_pos_bound x (2 ^ 21) ltac:(lia)) as Hb.
  assert (Hxe : x = n + (2 ^ 21 - 1)); [| lia].
  unfold x in *. rewrite u64_mod in *. unfold word in *.
  destruct (decide (n + (2 ^ 21 - 1) < 2 ^ 64)); [apply Z.mod_small; lia |].
  exfalso. assert (Hw : (n + (2 ^ 21 - 1)) mod 2 ^ 64 = n + (2 ^ 21 - 1) - 2 ^ 64).
  { symmetry. apply (Z.mod_unique_pos _ _ 1); lia. }
  lia.
Qed.

Lemma alloc_region_ok size :
  word 64 size -> region_ok (alloc_region mmap size) /\
  (forall m, (alloc_region mmap size).(base) = Some m ->
    (alloc_region mmap size).(aligned_size) = size /\ size <= Z.of_nat (length m)).
Proof.
  intros Hs. unfold alloc_region. set (huge := _ && _).
  set (new := if huge then _ else size).
  assert (Hnew : size <= new).
  { unfold new. destruct huge eqn:Hh; [| lia]. unfold huge in Hh.
    apply andb_true_iff in Hh as [_ Hov%Z.leb_le]. by apply round_up. }
  unfold region_ok. destruct (mmap new huge) as [m |] eqn:Hm.
  - apply mmap_length in Hm. cbn [base base_size aligned_size]. split; [lia |].
    intros m' [= <-]. lia.
  - destruct huge; [destruct (mmap size false) as [m |] eqn:Hm' |]; cbn [base base_size aligned_size];
      try (split; [done | discriminate]).
    apply mmap_length in Hm'. split; [lia |]. intros m' [= <-]. lia.
Qed.

Lemma free_region_ok l failed l' :
  region_ok l -> free_region munmap l = (failed, l') ->
  region_ok l' /\ (failed = false -> l' = init_region) /\ (failed = true -> l' = l).
Proof.
  intros Hl. unfold free_region. destruct (base l) as [m |].
  - destruct (munmap (base_size l)); intros [= <- <-]; by repeat split.
  - intros [= <- <-]. by repeat split.
Qed.

(** Where the call gets its memory from. *)
Definition obtained (l : yespower_region_t) (need : Z) (l1 : yespower_region_t) : Prop :=
  if l.(aligned_size) <? need then
    exists l0, free_region munmap l = (false, l0) /\ l1 = alloc_region mmap need
  else l1 = l.

Lemma hash_ok p src mem l1 :
  params_ok p -> bytes src -> bad_params p = false ->
  need p.(version) p.(pN) p.(pr) <= Z.of_nat (length mem) ->
  exists d mem',
    ('(d, mem) ← (if p.(version) =? YESPOWER_0_5 then yespower_0_5 else yespower_1_0)
        mem src p.(pN) p.(pr) p.(pers) p.(perslen);
     Some {| ret := 0; dst := d; einval := false;
             local := {| base := Some mem; base_size := l1.(base_size);
                         aligned_size := l1.(aligned_size) |} |})
    = Some {| ret := 0; dst := d; einval := false;
             local := {| base := Some mem'; base_size := l1.(base_size);
                         aligned_size := l1.(aligned_size) |} |} /\
    length mem' = length mem /\
    Yespower.hash p.(version) src p.(pN) (Z.to_nat p.(pr)) p.(pers) = Some d.
Proof.
  intros Hp Hsrc Hbad Hm. destruct (bad_params_sizes p (proj1 Hp) (proj1 (proj2 Hp)) Hbad) as [[e Hsz] Hv].
  destruct Hp as (_ & _ & Hpers). unfold Yespower.hash. destruct Hv as [Hv | Hv]; rewrite Hv in *.
  - change (5 =? YESPOWER_0_5) with true. cbv iota.
    destruct (yespower_0_5_ok mem src (pN p) (pr p) e (pers p) (perslen p) Hsz Hm Hsrc Hpers)
      as (d & mem' & Hy & Hl & Hd). exists d, mem'. rewrite Hy. next. split; [reflexivity | split; assumption].
  - change (10 =? YESPOWER_0_5) with false. cbv iota.
    destruct (yespower_1_0_ok mem src (pN p) (pr p) e (pers p) (perslen p) Hsz Hm Hsrc Hpers)
      as (d & mem' & Hy & Hl & Hd). exists d, mem'. rewrite Hy. next. split; [reflexivity | split; assumption].
Qed.

Lemma need_word p : params_ok p -> bad_params p = false -> word 64 (need p.(version) p.(pN) p.(pr)).
Proof.
  intros Hp Hbad. destruct (bad_params_sizes p (proj1 Hp) (proj1 (proj2 Hp)) Hbad) as [[e [HN He Hr]] Hv].
  assert (0 < pN p <= 2 ^ 19) by (rewrite HN; split; [lia | apply Z.pow_le_mono_r; lia]).
  assert (0 <= pr p * pN p <= 32 * 2 ^ 19) by nia.
  destruct (need_val (version p) (pN p) (pr p)) as [H5 H10]. unfold word.
  destruct Hv as [Hv | Hv]; [rewrite H5 by done | rewrite H10 by done]; lia.
Qed.

(** A call with acceptable parameters: besides what it returns, what it keeps. *)
Lemma yespower_ok l src p (n := need p.(version) p.(pN) p.(pr)) :
  params_ok p -> region_ok l -> bytes src -> bad_params p = false ->
  exists o, yespower mmap munmap l src p = Some o /\ region_ok o.(local) /\ o.(einval) = false /\
    (o.(ret) = 0 /\
       Yespower.hash p.(version) src p.(pN) (Z.to_nat p.(pr)) p.(pers) = Some o.(dst) /\
       n <= o.(local).(aligned_size) /\ l.(aligned_size) <= o.(local).(aligned_size) \/
     o.(ret) = -1 /\ o.(dst) = replicate 32 0xff /\ l.(aligned_size) < n /\
       (fst (free_region munmap l) = true \/ (alloc_region mmap n).(base) = None)).
Proof.
  intros Hp Hl Hsrc Hbad. unfold yespower. rewrite Hbad. cbv zeta.
  pose proof (need_word p Hp Hbad) as Hnw. fold n in Hnw |- *.
  destruct (Z.ltb_spec (aligned_size l) n) as [Hlt | Hge].
  - destruct (free_region munmap l) as [failed l0] eqn:Hf.
    destruct (free_region_ok l failed l0 Hl Hf) as (Hl0 & _). destruct failed.
    { exists (fail l0 false). split; [reflexivity |]. split; [exact Hl0 |]. split; [reflexivity |].
      right. do 2 (split; [reflexivity |]). split; [exact Hlt | by left]. }
    destruct (alloc_region_ok n Hnw) as [Hok Hmem]. set (l1 := alloc_region mmap n) in *.
    destruct (base l1) as [mem |] eqn:Hb.
    + destruct (Hmem mem eq_refl) as [Ha Hn].
      destruct (hash_ok p src mem l1 Hp Hsrc Hbad Hn) as (d & mem' & Hh & Hlm & Hd).
      eexists. split; [exact Hh |]. cbn [ret dst local einval].
      split; [| split; [reflexivity | left; split; [reflexivity | split; [exact Hd | cbn [local aligned_size]; lia]]]]. unfold region_ok in *. rewrite Hb in Hok.
      cbn [base base_size aligned_size]. by rewrite Hlm.
    + exists (fail l1 false). cbn [ret dst local einval fail]. split; [reflexivity |].
      split; [exact Hok |]. split; [reflexivity |].
      right. do 2 (split; [reflexivity |]). split; [exact Hlt | by right].
  - unfold region_ok in Hl. destruct (base l) as [mem |] eqn:Hb.
    + next. destruct Hl as [Hml Hal].
      destruct (hash_ok p src mem l Hp Hsrc Hbad) as (d & mem' & Hh & Hlm & Hd); [fold n; lia |].
      eexists. split; [exact Hh |]. cbn [ret dst local einval].
      split; [| split; [reflexivity | left; split; [reflexivity | split; [exact Hd | cbn [local aligned_size]; lia]]]]. unfold region_ok.
      cbn [base base_size aligned_size]. rewrite Hlm. lia.
    + exfalso. destruct Hl as [_ Hl0]. destruct (bad_params_sizes p (proj1 Hp) (proj1 (proj2 Hp)) Hbad) as [[e [HN He Hr]] Hv].
      assert (0 < pN p) by (rewrite HN; lia).
      destruct (need_val (version p) (pN p) (pr p)) as [H5 H10]. unfold n in Hge.
      destruct Hv as [Hv | Hv]; [rewrite H5 in Hge by done | rewrite H10 in Hge by done]; nia.
Qed.

(** C14: for acceptable parameters, with a region in good order, [yespower]
    never leaves its memory, and either it returns 0 and stores the hash of
    its reference definition, or the kernel refused to unmap or map memory and
    it returns -1 with all ones in [*dst]; in both cases the region is in good
    order again, so that the next call may reuse it. *)
Theorem yespower_spec l src p :
  params_ok p -> region_ok l -> bytes src -> bad_params p = false ->
  exists o, yespower mmap munmap l src p = Some o /\ region_ok o.(local) /\ o.(einval) = false /\
    (o.(ret) = 0 /\
       Yespower.hash p.(version) src p.(pN) (Z.to_nat p.(pr)) p.(pers) = Some o.(dst) \/
     o.(ret) = -1 /\ o.(dst) = replicate 32 0xff /\
       l.(aligned_size) < need p.(version) p.(pN) p.(pr) /\
       (fst (free_region munmap l) = true \/
        (alloc_region mmap (need p.(version) p.(pN) p.(pr))).(base) = None)).
Proof.
  intros Hp Hl Hsrc Hbad. destruct (yespower_ok l src p Hp Hl Hsrc Hbad) as (o & Ho & Hlo & He & Hr).
  exists o. split; [done |]. split; [done |]. split; [done |].
  destruct Hr as [(Hr & Hd & _) | Hr]; [left | right]; done.
Qed.
End Kernel.

Definition mmap_zeroes (n : Z) (huge : bool) : option (list Z) :=
  if (n <? 0) || huge then None else Some (replicate (Z.to_nat n) 0).

Lemma mmap_zeroes_length n h m : mmap_zeroes n h = Some m -> Z.of_nat (length m) = n.
Proof.
  unfold mmap_zeroes. destruct (Z.ltb_spec n 0), h; cbn [orb]; try discriminate.
  intros [= <-]. rewrite length_replicate. lia.
Qed.

Lemma yespower_spec_witness :
  let p := {| version := 10; pN := 1024; pr := 8; pers := Some [77]; perslen := 1 |} in
  exists o, yespower mmap_zeroes (fun _ => false) init_region [1; 2; 3] p = Some o /\
    region_ok o.(local) /\ o.(einval) = false /\
    (o.(ret) = 0 /\ Yespower.hash 10 [1; 2; 3] 1024 (Z.to_nat 8) (Some [77]) = Some o.(dst) \/
     o.(ret) = -1 /\ o.(dst) = replicate 32 0xff /\ 0 < need 10 1024 8 /\
       (fst (free_region (fun _ => false) init_region) = true \/
        (alloc_region mmap_zeroes (need 10 1024 8)).(base) = None)).
Proof.
  apply (yespower_spec mmap_zeroes (fun _ => false) mmap_zeroes_length init_region [1; 2; 3]
    {| version := 10; pN := 1024; pr := 8; pers := Some [77]; perslen := 1 |}).
  - split; [by apply (bool_decide_unpack _) | split; [by apply (bool_decide_unpack _) |]].
    intros s [= <-]. split; [by forall_words | reflexivity].
  - split; reflexivity.
  - by forall_words.
  - reflexivity.
Defined.

(** the parameters are refused exactly when they are outside the
    documented ranges ([N] a power of two from 1024 to 512 Ki, [r] from 8 to
    32, one of the two versions, no length without a personalisation string);
    a refused call sets [errno], fills [*dst] with ones, returns -1 and leaves
    the region alone. *)
Theorem yespower_rejects mmap munmap l src p :
  word 32 p.(pN) -> word 32 p.(pr) ->
  (bad_params p = false <->
    (p.(version) = 5 \/ p.(version) = 10) /\ (exists e, 10 <= e <= 19 /\ p.(pN) = 2 ^ e) /\
    8 <= p.(pr) <= 32 /\ (p.(pers) = None -> p.(perslen) = 0)) /\
  (bad_params p = true -> yespower mmap munmap l src p
    = Some {| ret := -1; dst := replicate 32 0xff; local := l; einval := true |}).
Proof.
  intros HN Hr. split; [split |].
  - intros Hb. destruct (bad_params_sizes p HN Hr Hb) as [[e [HNe He Hr']] Hv].
    split; [done |]. split; [by exists e |]. split; [done |]. intros Hn.
    unfold bad_params in Hb. apply orb_false_iff in Hb as [_ Hb]. rewrite Hn in Hb. cbn in Hb.
    by apply Z.eqb_eq, negb_false_iff.
  - intros (Hv & (e & He & HNe) & Hr' & Hp). unfold bad_params.
    assert (HNr : 1024 <= pN p <= 524288).
    { rewrite HNe. split; [change 1024 with (2 ^ 10) | change 524288 with (2 ^ 19)];
        apply Z.pow_le_mono_r; lia. }
    rewrite u32_small by (unfold word; lia).
    assert (Hl : Z.land (pN p) (pN p - 1) = 0).
    { rewrite HNe. replace (2 ^ e - 1) with (Z.ones e) by (rewrite Z.ones_equiv; lia).
      rewrite Z.land_ones, Z.mod_same by lia. done. }
    rewrite Hl. rewrite !(proj2 (Z.ltb_ge _ _)) by lia.
    assert (Hver : negb (version p =? YESPOWER_0_5) && negb (version p =? YESPOWER_1_0) = false)
      by by destruct Hv as [-> | ->].
    rewrite Hver. destruct (pers p); cbn; [done |]. by rewrite Hp.
  - intros Hb. unfold yespower. by rewrite Hb.
Qed.

Lemma yespower_rejects_witness :
  let p := {| version := 10; pN := 1000; pr := 8; pers := None; perslen := 0 |} in
  (bad_params p = false <->
    (10 = 5 \/ 10 = 10) /\ (exists e, 10 <= e <= 19 /\ 1000 = 2 ^ e) /\ 8 <= 8 <= 32 /\
    (@None (list Z) = None -> 0 = 0)) /\
  (bad_params p = true -> yespower mmap_zeroes (fun _ => false) init_region [1; 2; 3] p
    = Some {| ret := -1; dst := replicate 32 0xff; local := init_region; einval := true |}).
Proof.
  apply (yespower_rejects mmap_zeroes (fun _ => false) init_region [1; 2; 3]
    {| version := 10; pN := 1000; pr := 8; pers := None; perslen := 0 |});
    by apply (bool_decide_unpack _).
Defined.

(** the region [alloc_region] describes is a mapping of exactly
    [base_size] bytes, what [munmap] will be given, at least [aligned_size];
    a mapping of huge pages has a multiple of their size.  Sizes within 2 MiB
    of 2^64, where rounding up would wrap, do not ask for huge pages. *)
Theorem alloc_region_safe mmap size :
  (forall n h m, mmap n h = Some m -> Z.of_nat (length m) = n) -> word 64 size ->
  let region := alloc_region mmap size in
  region_ok region /\
  forall m, region.(base) = Some m ->
    region.(aligned_size) = size /\
    (mmap region.(base_size) false = Some m \/
     mmap region.(base_size) true = Some m /\ region.(base_size) mod HUGEPAGE_SIZE = 0 /\
       HUGEPAGE_THRESHOLD <= size).
Proof.
  intros Hlen Hs region. destruct (alloc_region_ok mmap Hlen size Hs) as [Hok Hm].
  split; [done |]. intros m Hb. split; [by apply (Hm m) |].
  revert Hb. subst region. unfold alloc_region. set (huge := _ && _).
  set (new := if huge then _ else size). destruct huge eqn:Hh.
  - assert (Hr : size <= new /\ new mod HUGEPAGE_SIZE = 0).
    { apply andb_true_iff in Hh as [_ Hov%Z.leb_le]. by apply round_up. }
    apply andb_true_iff in Hh as [Hth%Z.leb_le _].
    destruct (mmap new true) as [m' |] eqn:Hmm; cbn [base base_size].
    + intros [= <-]. right. split; [exact Hmm | split; [apply Hr | exact Hth]].
    + destruct (mmap size false) as [m' |] eqn:Hm'; [| discriminate].
      intros [= <-]. by left.
  - destruct (mmap new false) as [m' |] eqn:Hmm; cbn [base base_size]; [| discriminate].
    intros [= <-]. by left.
Qed.

Lemma alloc_region_safe_witness :
  let region := alloc_region mmap_zeroes 4096 in
  region_ok region /\
  forall m, region.(base) = Some m ->
    region.(aligned_size) = 4096 /\
    (mmap_zeroes region.(base_size) false = Some m \/
     mmap_zeroes region.(base_size) true = Some m /\ region.(base_size) mod HUGEPAGE_SIZE = 0 /\
       HUGEPAGE_THRESHOLD <= 4096).
Proof.
  apply (alloc_region_safe mmap_zeroes 4096 mmap_zeroes_length). by apply (bool_decide_unpack _).
Defined.

(** ** A thread that keeps calling *)

(** What the kernel answers during a call, and the call. *)
Record call := {
  k_mmap : Z -> bool -> option (list Z); k_munmap : Z -> bool; c_src : list Z; c_params : yespower_params_t
}.
Definition call_ok (c : call) : Prop :=
  (forall n h m, c.(k_mmap) n h = Some m -> Z.of_nat (length m) = n) /\
  params_ok c.(c_params) /\ bytes c.(c_src).
Definition call_need (c : call) : Z := need c.(c_params).(version) c.(c_params).(pN) c.(c_params).(pr).
Definition call_hash (c : call) : option (list Z) :=
  Yespower.hash c.(c_params).(version) c.(c_src) c.(c_params).(pN) (Z.to_nat c.(c_params).(pr))
    c.(c_params).(pers).

(** The calls of [yespower_tls] on one thread, from its first one if [tls] is
    [None]. *)
Fixpoint tls_run (tls : option yespower_region_t) (calls : list call) : option (list outcome) :=
  match calls with
  | [] => Some []
  | c :: calls =>
      o ← yespower_tls c.(k_mmap) c.(k_munmap) tls c.(c_src) c.(c_params);
      os ← tls_run (Some o.(local)) calls;
      Some (o :: os)
  end.

Definition tls_ok (tls : option yespower_region_t) : Prop :=
  match tls with None => True | Some l => region_ok l end.
Definition tls_size (tls : option yespower_region_t) : Z :=
  match tls with None => 0 | Some l => l.(aligned_size) end.

(** What one call does, whatever the state: it returns; it fails only when its
    parameters are bad or the kernel is asked for more than is kept. *)
Definition call_done (c : call) (o : outcome) : Prop :=
  o.(einval) = bad_params c.(c_params) /\
  (o.(ret) = 0 /\ call_hash c = Some o.(dst) \/ o.(ret) = -1 /\ o.(dst) = replicate 32 0xff).

Lemma tls_call tls c :
  tls_ok tls -> call_ok c ->
  exists o, yespower_tls c.(k_mmap) c.(k_munmap) tls c.(c_src) c.(c_params) = Some o /\
    region_ok o.(local) /\ call_done c o /\
    (o.(ret) = 0 -> call_need c <= o.(local).(aligned_size)) /\
    (call_need c <= tls_size tls -> tls_size tls <= o.(local).(aligned_size) /\
       (bad_params c.(c_params) = false -> o.(ret) = 0)) /\
    (bad_params c.(c_params) = true -> tls_size tls <= o.(local).(aligned_size)).
Proof.
  intros Ht (Hm & Hp & Hs). unfold yespower_tls, call_done, call_need, call_hash.
  set (l := match tls with None => init_region | Some l => l end).
  assert (Hl : region_ok l) by (unfold l; destruct tls; [done | by split]).
  assert (Hsz : tls_size tls = aligned_size l) by by destruct tls. rewrite Hsz.
  destruct (bad_params (c_params c)) eqn:Hbad.
  - exists (fail l true). unfold yespower. rewrite Hbad. cbn [local einval ret dst fail].
    split; [reflexivity |]. split; [done |]. split; [split; [done | by right] |].
    split; [discriminate |]. split; [intros _; split; [lia | discriminate] | intros _; lia].
  - destruct (yespower_ok _ (k_munmap c) Hm l (c_src c) (c_params c) Hp Hl Hs Hbad) as (o & Ho & Hlo & He & Hr).
    exists o. split; [done |]. split; [done |].
    destruct Hr as [(Hr & Hd & Hn & Hk) | (Hr & Hd & Hlt & _)].
    + split; [split; [done | by left] |]. split; [done |]. split; [done | discriminate].
    + split; [split; [done | by right] |]. split; [lia |]. split; [lia | discriminate].
Qed.

Lemma tls_run_ok tls calls :
  tls_ok tls -> Forall call_ok calls ->
  exists os, tls_run tls calls = Some os /\ Forall2 call_done calls os /\
    (forall j c o, calls !! j = Some c -> os !! j = Some o -> bad_params c.(c_params) = false ->
       (forall i c', calls !! i = Some c' -> (i <= j)%nat ->
          bad_params c'.(c_params) = true \/ call_need c' <= tls_size tls) -> o.(ret) = 0).
Proof.
  intros Ht Hc. revert tls Ht. induction Hc as [| c calls Hc _ IH]; intros tls Ht.
  { exists []. split; [done |]. split; [constructor | done]. }
  destruct (tls_call tls c Ht Hc) as (o & Ho & Hl & Hd & _ & Hkeep & Hbad). cbn [tls_run]. rewrite Ho. next.
  destruct (IH (Some (local o)) Hl) as (os & -> & Hds & Hlive). next.
  exists (o :: os). split; [done |]. split; [by constructor |].
  intros j cj oj Hcj Hoj Hgood Hall.
  assert (Hmono : tls_size tls <= aligned_size (local o)).
  { destruct (Hall O c eq_refl ltac:(lia)) as [H | H]; [by apply Hbad | by apply Hkeep]. }
  destruct j as [| j]; cbn [lookup list_lookup] in Hcj, Hoj.
  - injection Hcj as ->. injection Hoj as ->.
    destruct (Hall O cj eq_refl ltac:(lia)) as [H | H]; [congruence | by apply Hkeep].
  - apply (Hlive j cj oj Hcj Hoj Hgood). intros i c' Hi Hij. cbn [tls_size].
    destruct (Hall (Datatypes.S i) c' Hi ltac:(lia)) as [H | H]; [by left | right; lia].
Qed.

(** C19: a thread can call [yespower_tls] for ever: whatever the parameters
    and whatever the kernel answers during each call, every call returns, with
    the hash or with -1, and it refuses exactly the bad parameters; and once a
    call has succeeded, every later call that needs no more memory succeeds
    too, even when the kernel gives nothing any more, as long as the calls in
    between need no more either or are refused. *)
Theorem yespower_tls_live before c after :
  Forall call_ok (before ++ c :: after) ->
  exists os o os', tls_run None (before ++ c :: after) = Some (os ++ o :: os') /\
    Forall2 call_done before os /\ call_done c o /\ Forall2 call_done after os' /\
    (o.(ret) = 0 -> forall j c' o', after !! j = Some c' -> os' !! j = Some o' ->
       bad_params c'.(c_params) = false ->
       (forall i c', after !! i = Some c' -> (i <= j)%nat ->
          bad_params c'.(c_params) = true \/ call_need c' <= call_need c) -> o'.(ret) = 0).
Proof.
  assert (Hgen : forall tls, tls_ok tls -> Forall call_ok (before ++ c :: after) ->
    exists os o os', tls_run tls (before ++ c :: after) = Some (os ++ o :: os') /\
    Forall2 call_done before os /\ call_done c o /\ Forall2 call_done after os' /\
    (o.(ret) = 0 -> forall j c' o', after !! j = Some c' -> os' !! j = Some o' ->
       bad_params c'.(c_params) = false ->
       (forall i c', after !! i = Some c' -> (i <= j)%nat ->
          bad_params c'.(c_params) = true \/ call_need c' <= call_need c) -> o'.(ret) = 0));
    [| by apply (Hgen None)].
  induction before as [| b before IH]; intros tls Ht Hc; apply Forall_cons_1 in Hc as [Hc Hcs].
  - destruct (tls_call tls c Ht Hc) as (o & Ho & Hl & Hd & Hsz & _). cbn [app tls_run]. rewrite Ho. next.
    destruct (tls_run_ok (Some (local o)) after Hl Hcs) as (os & -> & Hds & Hlive). next.
    exists [], o, os. split; [done |]. split; [constructor |]. split; [done |]. split; [done |].
    intros Hr j c' o' Hcj Hoj Hgood Hall. apply (Hlive j c' o' Hcj Hoj Hgood).
    intros i ci Hi Hij. cbn [tls_size]. specialize (Hsz Hr). destruct (Hall i ci Hi Hij); [by left | right; lia].
  - destruct (tls_call tls b Ht Hc) as (ob & Ho & Hl & Hd & _). cbn [app tls_run]. rewrite Ho. next.
    destruct (IH (Some (local ob)) Hl Hcs) as (os & o & os' & -> & H1 & H2 & H3 & H4). next.
    exists (ob :: os), o, os'. split; [done |]. split; [by constructor |]. done.
Qed.

Definition some_call (mmap : Z -> bool -> option (list Z)) (N : Z) : call :=
  {| k_mmap := mmap; k_munmap := fun _ => false; c_src := [1; 2; 3];
     c_params := {| version := 10; pN := N; pr := 8; pers := None; perslen := 0 |} |}.

(** A call with a bad [N], one that gets memory, and one when there is none. *)
Lemma yespower_tls_live_witness :
  let before := [some_call mmap_zeroes 1000] in let c := some_call mmap_zeroes 1024 in
  let after := [some_call (fun _ _ => None) 1024] in
  exists os o os', tls_run None (before ++ c :: after) = Some (os ++ o :: os') /\
    Forall2 call_done before os /\ call_done c o /\ Forall2 call_done after os' /\
    (o.(ret) = 0 -> forall j c' o', after !! j = Some c' -> os' !! j = Some o' ->
       bad_params c'.(c_params) = false ->
       (forall i c', after !! i = Some c' -> (i <= j)%nat ->
          bad_params c'.(c_params) = true \/ call_need c' <= call_need c) -> o'.(ret) = 0).
Proof.
  intros before c after. apply (yespower_tls_live before c after). unfold before, c, after. cbn [app].
  assert (Hok : forall m N, word 32 N -> (forall n h l, m n h = Some l -> Z.of_nat (length l) = n) ->
    call_ok (some_call m N)).
  { intros m N HN Hm. split; [exact Hm |]. split; [| by forall_words].
    split; [exact HN | split; [by apply (bool_decide_unpack _) | discriminate]]. }
  repeat apply List.Forall_cons; try apply List.Forall_nil; apply Hok;
    (by apply (bool_decide_unpack _)) || apply mmap_zeroes_length || discriminate.
Defined.
