(* ===== verification/Blake2b.v ===== *)
(** * BLAKE2b: [xmrig/crypto/randomx/blake2/blake2b.c], [endian.h], [blake2-impl.h]

    The unkeyed and keyed streaming hash, its one-call form and Argon2's
    variable-length hash on top of it.  [rx_blake2b_compress] and [rx_blake2b]
    are function pointers; the portable routines they start out with,
    [rx_blake2b_compress_integer] and [rx_blake2b_default], are modelled, the
    SSE4.1 and AVX2 ones are not.  A pointer argument that the code compares
    with NULL is an [option]; a state is never NULL. *)

From S2P Require Import Prelude Endian Streaming.

(** ** The code: endian.h *)

(** The portable branches; on a little-endian host the words are copied. *)
Definition load32_portable (p : list Z) : Z :=
  Z.lor (Z.lor (Z.lor p.[0] (Z.shiftl p.[1] 8)) (Z.shiftl p.[2] 16)) (Z.shiftl p.[3] 24).
Definition load64_portable (p : list Z) : Z :=
  fold_left (fun w i => Z.lor w (Z.shiftl p.[i] (8 * Z.of_nat i))) (seq 1 7) p.[0].
Definition store32_portable (w : Z) : list Z :=
  map (fun i => u8 (Z.shiftr w (8 * Z.of_nat i))) (seq 0 4).
Definition store64_portable (w : Z) : list Z :=
  map (fun i => u8 (Z.shiftr w (8 * Z.of_nat i))) (seq 0 8).
Definition load32 (p : list Z) : Z := le_word p.
Definition load64 (p : list Z) : Z := le_word p.
Definition store32 (w : Z) : list Z := le_bytes 4 w.
Definition store64 (w : Z) : list Z := le_bytes 8 w.
(** Six bytes, the same on every host. *)
Definition load48 (p : list Z) : Z :=
  fold_left (fun w i => Z.lor w (Z.shiftl p.[i] (8 * Z.of_nat i))) (seq 1 5) p.[0].
Definition store48 (w : Z) : list Z :=
  map (fun i => u8 (Z.shiftr w (8 * Z.of_nat i))) (seq 0 6).

(** ** The code: constants and state *)

Definition BLAKE2B_BLOCKBYTES : nat := 128.
Definition BLAKE2B_OUTBYTES : nat := 64.
Definition BLAKE2B_KEYBYTES : nat := 64.

Definition blake2b_IV : list Z := [
  0x6A09E667F3BCC908; 0xBB67AE8584CAA73B; 0x3C6EF372FE94F82B; 0xA54FF53A5F1D36F1;
  0x510E527FADE682D1; 0x9B05688C2B3E6C1F; 0x1F83D9ABFB41BD6B; 0x5BE0CD19137E2179 ].

Definition blake2b_sigma : list (list nat) := [
  [0; 1; 2; 3; 4; 5; 6; 7; 8; 9; 10; 11; 12; 13; 14; 15];
  [14; 10; 4; 8; 9; 15; 13; 6; 1; 12; 0; 2; 11; 7; 5; 3];
  [11; 8; 12; 0; 5; 2; 15; 13; 10; 14; 3; 6; 7; 1; 9; 4];
  [7; 9; 3; 1; 13; 12; 11; 14; 2; 6; 5; 10; 4; 0; 15; 8];
  [9; 0; 5; 7; 2; 4; 10; 15; 14; 1; 11; 12; 6; 8; 3; 13];
  [2; 12; 6; 10; 0; 11; 8; 3; 4; 13; 7; 5; 15; 14; 1; 9];
  [12; 5; 1; 15; 14; 13; 4; 10; 0; 7; 6; 3; 9; 2; 8; 11];
  [13; 11; 7; 14; 12; 1; 3; 9; 5; 0; 15; 4; 8; 6; 2; 10];
  [6; 15; 14; 9; 11; 3; 0; 8; 12; 2; 13; 7; 1; 4; 10; 5];
  [10; 2; 8; 4; 7; 6; 1; 5; 15; 11; 9; 14; 3; 12; 13; 0];
  [0; 1; 2; 3; 4; 5; 6; 7; 8; 9; 10; 11; 12; 13; 14; 15];
  [14; 10; 4; 8; 9; 15; 13; 6; 1; 12; 0; 2; 11; 7; 5; 3] ]%nat.

Record blake2b_state := {
  h : list Z; t : list Z; f : list Z; buf : list Z;
  buflen : nat; outlen : nat; last_node : Z
}.
Record blake2b_param := {
  digest_length : Z; key_length : Z; fanout : Z; depth : Z; leaf_length : Z;
  node_offset : Z; node_depth : Z; inner_length : Z;
  reserved : list Z; salt : list Z; personal : list Z
}.

(** The packed struct as the bytes [(const unsigned char * )P]. *)
Definition param_bytes (P : blake2b_param) : list Z :=
  [P.(digest_length); P.(key_length); P.(fanout); P.(depth)] ++ le_bytes 4 P.(leaf_length) ++
  le_bytes 8 P.(node_offset) ++ [P.(node_depth); P.(inner_length)] ++
  P.(reserved) ++ P.(salt) ++ P.(personal).

(** ** The code: small steps *)

Definition set_h (St : blake2b_state) (h : list Z) : blake2b_state :=
  {| h := h; t := St.(t); f := St.(f); buf := St.(buf); buflen := St.(buflen);
     outlen := St.(outlen); last_node := St.(last_node) |}.
Definition set_f (St : blake2b_state) (f : list Z) : blake2b_state :=
  {| h := St.(h); t := St.(t); f := f; buf := St.(buf); buflen := St.(buflen);
     outlen := St.(outlen); last_node := St.(last_node) |}.
Definition set_buf (St : blake2b_state) (buf : list Z) (buflen : nat) : blake2b_state :=
  {| h := St.(h); t := St.(t); f := St.(f); buf := buf; buflen := buflen;
     outlen := St.(outlen); last_node := St.(last_node) |}.

Definition blake2b_set_lastnode (St : blake2b_state) : blake2b_state :=
  set_f St (<[1%nat := u64 (-1)]> St.(f)).
Definition blake2b_set_lastblock (St : blake2b_state) : blake2b_state :=
  let St := if St.(last_node) =? 0 then St else blake2b_set_lastnode St in
  set_f St (<[0%nat := u64 (-1)]> St.(f)).
Definition blake2b_increment_counter (St : blake2b_state) (inc : Z) : blake2b_state :=
  let t0 := u64 (St.(t).[0] + inc) in
  let t1 := u64 (St.(t).[1] + (if t0 <? inc then 1 else 0)) in
  {| h := St.(h); t := [t0; t1]; f := St.(f); buf := St.(buf); buflen := St.(buflen);
     outlen := St.(outlen); last_node := St.(last_node) |}.
Definition blake2b_invalidate_state : blake2b_state -> blake2b_state := blake2b_set_lastblock.
Definition blake2b_init0 : blake2b_state :=
  {| h := blake2b_IV; t := [0; 0]; f := [0; 0]; buf := replicate BLAKE2B_BLOCKBYTES 0;
     buflen := 0; outlen := 0; last_node := 0 |}.

(** ** The code: compression *)

(** [G(r, i, v[a], v[b], v[c], v[d])]. *)
Definition G (m : list Z) (r i a b c d : nat) (v : list Z) : list Z :=
  let s := nth r blake2b_sigma [] in
  let v := <[a := u64 (u64 (v.[a] + v.[b]) + m.[nth (2 * i + 0) s 0%nat])]> v in
  let v := <[d := rotr64 (Z.lxor v.[d] v.[a]) 32]> v in
  let v := <[c := u64 (v.[c] + v.[d])]> v in
  let v := <[b := rotr64 (Z.lxor v.[b] v.[c]) 24]> v in
  let v := <[a := u64 (u64 (v.[a] + v.[b]) + m.[nth (2 * i + 1) s 0%nat])]> v in
  let v := <[d := rotr64 (Z.lxor v.[d] v.[a]) 16]> v in
  let v := <[c := u64 (v.[c] + v.[d])]> v in
  <[b := rotr64 (Z.lxor v.[b] v.[c]) 63]> v.

Definition ROUND (m : list Z) (r : nat) (v : list Z) : list Z :=
  let v := G m r 0 0 4 8 12 v in
  let v := G m r 1 1 5 9 13 v in
  let v := G m r 2 2 6 10 14 v in
  let v := G m r 3 3 7 11 15 v in
  let v := G m r 4 0 5 10 15 v in
  let v := G m r 5 1 6 11 12 v in
  let v := G m r 6 2 7 8 13 v in
  G m r 7 3 4 9 14 v.

Definition rx_blake2b_compress_integer (St : blake2b_state) (block : list Z) : blake2b_state :=
  let m := map (fun i => load64 (take 8 (drop (i * 8) block))) (seq 0 16) in
  let v := map (fun i => St.(h).[i]) (seq 0 8) ++
    [ blake2b_IV.[0]; blake2b_IV.[1]; blake2b_IV.[2]; blake2b_IV.[3];
      Z.lxor blake2b_IV.[4] St.(t).[0]; Z.lxor blake2b_IV.[5] St.(t).[1];
      Z.lxor blake2b_IV.[6] St.(f).[0]; Z.lxor blake2b_IV.[7] St.(f).[1] ] in
  let v := fold_left (fun v r => ROUND m r v) (seq 0 12) v in
  set_h St (map (fun i => Z.lxor (Z.lxor St.(h).[i] v.[i]) v.[i + 8]) (seq 0 8)).
Definition rx_blake2b_compress := rx_blake2b_compress_integer.

(** ** The code: the streaming interface *)

(** The result and the state; [P] is not NULL. *)
Definition rx_blake2b_init_param (P : blake2b_param) : Z * blake2b_state :=
  let St := blake2b_init0 in
  let p := param_bytes P in
  let St := set_h St (map (fun i => Z.lxor St.(h).[i] (load64 (take 8 (drop (i * 8) p)))) (seq 0 8)) in
  (0, {| h := St.(h); t := St.(t); f := St.(f); buf := St.(buf); buflen := St.(buflen);
         outlen := Z.to_nat P.(digest_length); last_node := St.(last_node) |}).

(** The parameter block of [rx_blake2b_init] and [rx_blake2b_init_key]. *)
Definition sequential_param (outlen keylen : nat) : blake2b_param :=
  {| digest_length := u8 (Z.of_nat outlen); key_length := u8 (Z.of_nat keylen); fanout := 1;
     depth := 1; leaf_length := 0; node_offset := 0; node_depth := 0; inner_length := 0;
     reserved := replicate 14 0; salt := replicate 16 0; personal := replicate 16 0 |}.

Definition rx_blake2b_init (St : blake2b_state) (outlen : nat) : Z * blake2b_state :=
  if (outlen =? 0)%nat || (BLAKE2B_OUTBYTES <? outlen)%nat then (-1, blake2b_invalidate_state St)
  else rx_blake2b_init_param (sequential_param outlen 0).

(** [while (inlen > BLAKE2B_BLOCKBYTES)]. *)
Fixpoint update_loop (fuel : nat) (St : blake2b_state) (pin : list Z) : blake2b_state * list Z :=
  match fuel with
  | O => (St, pin)
  | S fuel =>
      if (BLAKE2B_BLOCKBYTES <? length pin)%nat then
        let St := blake2b_increment_counter St (Z.of_nat BLAKE2B_BLOCKBYTES) in
        let St := rx_blake2b_compress St (take BLAKE2B_BLOCKBYTES pin) in
        update_loop fuel St (drop BLAKE2B_BLOCKBYTES pin)
      else (St, pin)
  end.

(** [pin] has [inlen] bytes when it is not NULL. *)
Definition rx_blake2b_update (St : blake2b_state) (pin : option (list Z)) (inlen : nat) :
  Z * blake2b_state :=
  if (inlen =? 0)%nat then (0, St) else
  match pin with
  | None => (-1, St)
  | Some pin =>
      if negb (St.(f).[0] =? 0) then (-1, St) else
      let pin := take inlen pin in
      let '(St, pin) :=
        if (BLAKE2B_BLOCKBYTES <? St.(buflen) + inlen)%nat then
          let left := St.(buflen) in
          let fill := (BLAKE2B_BLOCKBYTES - left)%nat in
          let St := set_buf St (write_at left (take fill pin) St.(buf)) St.(buflen) in
          let St := blake2b_increment_counter St (Z.of_nat BLAKE2B_BLOCKBYTES) in
          let St := rx_blake2b_compress St St.(buf) in
          let St := set_buf St St.(buf) 0 in
          update_loop (length pin) St (drop fill pin)
        else (St, pin) in
      (0, set_buf St (write_at St.(buflen) pin St.(buf)) (St.(buflen) + length pin))
  end.

Definition rx_blake2b_init_key (St : blake2b_state) (outlen : nat) (key : option (list Z))
    (keylen : nat) : Z * blake2b_state :=
  if (outlen =? 0)%nat || (BLAKE2B_OUTBYTES <? outlen)%nat then (-1, blake2b_invalidate_state St)
  else match key with
  | None => (-1, blake2b_invalidate_state St)
  | Some key =>
      if (keylen =? 0)%nat || (BLAKE2B_KEYBYTES <? keylen)%nat then (-1, blake2b_invalidate_state St)
      else
        let '(ret, St) := rx_blake2b_init_param (sequential_param outlen keylen) in
        if ret <? 0 then (-1, blake2b_invalidate_state St) else
        let block := write_at 0 (take keylen key) (replicate BLAKE2B_BLOCKBYTES 0) in
        let '(_, St) := rx_blake2b_update St (Some block) BLAKE2B_BLOCKBYTES in
        (0, St)
  end.

(** The result, the bytes at [out] and the state. *)
Definition rx_blake2b_final (St : blake2b_state) (out : option (list Z)) (len : nat) :
  Z * option (list Z) * blake2b_state :=
  match out with
  | None => (-1, out, St)
  | Some o =>
      if (len <? St.(outlen))%nat then (-1, out, St) else
      if negb (St.(f).[0] =? 0) then (-1, out, St) else
      let St := blake2b_increment_counter St (Z.of_nat St.(buflen)) in
      let St := blake2b_set_lastblock St in
      let St := set_buf St (write_at St.(buflen) (replicate (BLAKE2B_BLOCKBYTES - St.(buflen)) 0) St.(buf))
                 St.(buflen) in
      let St := rx_blake2b_compress St St.(buf) in
      let buffer := concat (map store64 (take 8 St.(h))) in
      (0, Some (write_at 0 (take St.(outlen) buffer) o), St)
  end.

(** ** The code: one-call forms *)

Section Uninitialised.
(** The contents of local variables before they are set. *)
Variable S0 : blake2b_state.

Definition rx_blake2b_default (out : option (list Z)) (outlen : nat) (pin : option (list Z))
    (inlen : nat) : Z * option (list Z) :=
  if (if pin is None then true else false) && (0 <? inlen)%nat then (-1, out) else
  if (if out is None then true else false) || (outlen =? 0)%nat || (BLAKE2B_OUTBYTES <? outlen)%nat
  then (-1, out) else
  let '(ret, St) := rx_blake2b_init S0 outlen in
  if ret <? 0 then (-1, out) else
  let '(ret, St) := rx_blake2b_update St pin inlen in
  if ret <? 0 then (-1, out) else
  let '(ret, out, St) := rx_blake2b_final St out outlen in (ret, out).
Definition rx_blake2b := rx_blake2b_default.

(** [init, update, update, final] of [rxa2_blake2b_long], each in a [TRY]. *)
Definition try_hash (out : list Z) (outlen : nat) (outlen_bytes : list Z) (pin : option (list Z))
    (inlen : nat) : Z * list Z :=
  let '(ret, St) := rx_blake2b_init S0 outlen in
  if ret <? 0 then (ret, out) else
  let '(ret, St) := rx_blake2b_update St (Some outlen_bytes) 4 in
  if ret <? 0 then (ret, out) else
  let '(ret, St) := rx_blake2b_update St pin inlen in
  if ret <? 0 then (ret, out) else
  let '(ret, o, _) := rx_blake2b_final St (Some out) outlen in
  (ret, default out o).

(** [while (toproduce > BLAKE2B_OUTBYTES)] and what follows it. *)
Fixpoint long_loop (fuel : nat) (out out_buffer : list Z) (pos toproduce : nat) : Z * list Z :=
  match fuel with
  | O => (-1, out)
  | S fuel =>
      let in_buffer := out_buffer in
      if (BLAKE2B_OUTBYTES <? toproduce)%nat then
        let '(ret, ob) := rx_blake2b (Some out_buffer) BLAKE2B_OUTBYTES (Some in_buffer) BLAKE2B_OUTBYTES in
        if ret <? 0 then (ret, out) else
        let out_buffer := default out_buffer ob in
        long_loop fuel (write_at pos (take 32 out_buffer) out) out_buffer (pos + 32) (toproduce - 32)
      else
        let '(ret, ob) := rx_blake2b (Some out_buffer) toproduce (Some in_buffer) BLAKE2B_OUTBYTES in
        if ret <? 0 then (ret, out) else
        let out_buffer := default out_buffer ob in
        (ret, write_at pos (take toproduce out_buffer) out)
  end.

(** [out] has [outlen] bytes; [out_buffer] is not initialised. *)
Definition rxa2_blake2b_long (out_buffer : list Z) (out : list Z) (outlen : nat)
    (pin : option (list Z)) (inlen : nat) : Z * list Z :=
  if 0xffffffff <? Z.of_nat outlen then (-1, out) else
  let outlen_bytes := store32 (u32 (Z.of_nat outlen)) in
  if (outlen <=? BLAKE2B_OUTBYTES)%nat then try_hash out outlen outlen_bytes pin inlen
  else
    let '(ret, out_buffer) := try_hash out_buffer BLAKE2B_OUTBYTES outlen_bytes pin inlen in
    if ret <? 0 then (ret, out) else
    long_loop outlen (write_at 0 (take 32 out_buffer) out) out_buffer 32 (outlen - 32).
End Uninitialised.

(** ** RFC 7693 *)

Module Rfc7693.
(** [G(v, a, b, c, d, x, y)] on the work vector. *)
Definition G (v : list Z) (a b c d : nat) (x y : Z) : list Z :=
  let v := <[a := (v.[a] + v.[b] + x) mod 2 ^ 64]> v in
  let v := <[d := rotr64 (Z.lxor v.[d] v.[a]) 32]> v in
  let v := <[c := (v.[c] + v.[d]) mod 2 ^ 64]> v in
  let v := <[b := rotr64 (Z.lxor v.[b] v.[c]) 24]> v in
  let v := <[a := (v.[a] + v.[b] + y) mod 2 ^ 64]> v in
  let v := <[d := rotr64 (Z.lxor v.[d] v.[a]) 16]> v in
  let v := <[c := (v.[c] + v.[d]) mod 2 ^ 64]> v in
  <[b := rotr64 (Z.lxor v.[b] v.[c]) 63]> v.

(** The columns, then the diagonals. *)
Definition lanes : list (nat * nat * nat * nat) := [
  (0, 4, 8, 12); (1, 5, 9, 13); (2, 6, 10, 14); (3, 7, 11, 15);
  (0, 5, 10, 15); (1, 6, 11, 12); (2, 7, 8, 13); (3, 4, 9, 14) ]%nat.
Definition SIGMA (r : nat) : list nat := nth (r mod 10) blake2b_sigma [].
Definition round (m : list Z) (v : list Z) (r : nat) : list Z :=
  fold_left (fun v '(i, (a, b, c, d)) =>
    G v a b c d m.[nth (2 * i) (SIGMA r) 0%nat] m.[nth (2 * i + 1) (SIGMA r) 0%nat])
    (combine (seq 0 8) lanes) v.

(** The compression function; [t] is the offset counter. *)
Definition F (h block : list Z) (t : Z) (last : bool) : list Z :=
  let m := map (fun i => le_word (take 8 (drop (8 * i) block))) (seq 0 16) in
  let v := h ++ blake2b_IV in
  let v := <[12%nat := Z.lxor v.[12] (t mod 2 ^ 64)]> v in
  let v := <[13%nat := Z.lxor v.[13] (t / 2 ^ 64 mod 2 ^ 64)]> v in
  let v := if last then <[14%nat := Z.lxor v.[14] 0xffffffffffffffff]> v else v in
  let v := fold_left (round m) (seq 0 12) v in
  map (fun i => Z.lxor (Z.lxor h.[i] v.[i]) v.[i + 8]) (seq 0 8).

(** The first [k] blocks of [d]. *)
Fixpoint chain (h0 d : list Z) (k : nat) : list Z :=
  match k with
  | O => h0
  | S k => F (chain h0 d k) (take 128 (drop (128 * k) d)) (128 * Z.of_nat (S k)) false
  end.

Definition h0 (nn kk : nat) : list Z :=
  <[0%nat := Z.lxor (Z.lxor (Z.lxor blake2b_IV.[0] 0x01010000) (Z.shiftl (Z.of_nat kk) 8))
     (Z.of_nat nn)]> blake2b_IV.
(** All blocks but the last, which is padded with zeroes. *)
Definition hash (nn : nat) (h0 d : list Z) : list Z :=
  let k := ((length d - 1) / 128)%nat in
  let last := drop (128 * k) d in
  let h := F (chain h0 d k) (last ++ replicate (128 - length last) 0) (Z.of_nat (length d)) true in
  take nn (concat (map (le_bytes 8) h)).
Definition blake2b (nn : nat) (key data : list Z) : list Z :=
  hash nn (h0 nn (length key))
    ((if (length key =? 0)%nat then [] else key ++ replicate (128 - length key) 0) ++ data).
End Rfc7693.

(** *** Loads and stores of both builds *)

(** the byte-by-byte branches of endian.h compute what copying a word
    does on a little-endian machine: the little-endian word of the bytes, and
    the bytes of the word; the 48-bit accessors read back what they store. *)
Theorem endian_builds_agree p w :
  bytes p ->
  (length p = 4%nat -> load32_portable p = load32 p) /\
  (length p = 8%nat -> load64_portable p = load64 p) /\
  (length p = 6%nat -> load48 p = le_word p) /\
  store32_portable w = store32 w /\ store64_portable w = store64 w /\
  (word 48 w -> load48 (store48 w) = w).
Proof.
  intros Hp.
  assert (Hload : forall p n, bytes p -> length p = S n ->
    fold_left (fun w i => Z.lor w (Z.shiftl p.[i] (8 * Z.of_nat i))) (seq 1 n) p.[0] = le_word p).
  { clear. intros p n Hp Hl. replace (le_word p) with (le_word (take (S n) p)) by (by rewrite take_ge by lia).
    rewrite <- lor_bytes by (done || lia). cbn [seq fold_left]. by rewrite Z.lor_0_l, Z.shiftl_0_r. }
  split; [| split; [| split; [| split; [| split]]]].
  - intros Hl. exact (Hload p 3%nat Hp Hl).
  - intros Hl. exact (Hload p 7%nat Hp Hl).
  - intros Hl. exact (Hload p 5%nat Hp Hl).
  - apply store_bytes.
  - apply store_bytes.
  - intros Hw. unfold store48. rewrite store_bytes. unfold load48.
    rewrite Hload by (apply bytes_le_bytes || apply length_le_bytes).
    rewrite le_word_le_bytes. by apply Z.mod_small.
Qed.

Lemma endian_builds_agree_witness :
  let p := [1; 2; 3; 4; 5; 6; 7; 255] in
  (length p = 4%nat -> load32_portable p = load32 p) /\
  (length p = 8%nat -> load64_portable p = load64 p) /\
  (length p = 6%nat -> load48 p = le_word p) /\
  store32_portable 7 = store32 7 /\ store64_portable 7 = store64 7 /\
  (word 48 7 -> load48 (store48 7) = 7).
Proof. apply (endian_builds_agree [1; 2; 3; 4; 5; 6; 7; 255] 7). by forall_words. Defined.

(** *** The compression function *)

Lemma G_rfc m r i a b c d v :
  (r < 12)%nat ->
  G m r i a b c d v = Rfc7693.G v a b c d m.[nth (2 * i) (Rfc7693.SIGMA r) 0%nat]
    m.[nth (2 * i + 1) (Rfc7693.SIGMA r) 0%nat].
Proof.
  intros Hr. assert (HS : nth r blake2b_sigma [] = Rfc7693.SIGMA r).
  { do 12 (destruct r as [| r]; [reflexivity |]). lia. }
  unfold G, Rfc7693.G. rewrite HS, Nat.add_0_r, !u64_add_l, !u64_mod. done.
Qed.

Lemma ROUND_rfc m r v : (r < 12)%nat -> ROUND m r v = Rfc7693.round m v r.
Proof. intros Hr. unfold ROUND. rewrite !G_rfc by done.
  unfold Rfc7693.round, Rfc7693.lanes. cbn [seq combine fold_left]. reflexivity. Qed.

Lemma rounds_rfc m v :
  fold_left (fun v r => ROUND m r v) (seq 0 12) v = fold_left (Rfc7693.round m) (seq 0 12) v.
Proof.
  apply (fold_left_agree (fun _ => True) (fun r => (r < 12)%nat)); [| done |].
  - intros w r _ Hr. split; [by apply ROUND_rfc | done].
  - apply List.Forall_forall. intros r Hr%in_seq. lia.
Qed.
#[local] Opaque Rfc7693.round.

(** The counter of [k] bytes. *)
Definition counter (k : Z) : list Z := [k mod 2 ^ 64; k / 2 ^ 64 mod 2 ^ 64].
Definition final_flag (last : bool) : list Z := [if last then 0xFFFFFFFFFFFFFFFF else 0; 0].

Lemma compress_rfc St block k last :
  length St.(h) = 8%nat -> St.(t) = counter k -> St.(f) = final_flag last ->
  rx_blake2b_compress St block = set_h St (Rfc7693.F St.(h) block k last).
Proof.
  intros Hh Ht Hf. unfold rx_blake2b_compress, rx_blake2b_compress_integer, Rfc7693.F. cbv zeta.
  assert (Hm : map (fun i => load64 (take 8 (drop (i * 8) block))) (seq 0 16)
    = map (fun i => le_word (take 8 (drop (8 * i) block))) (seq 0 16)).
  { apply map_ext. intros i. by rewrite Nat.mul_comm. }
  rewrite Hm, rounds_rfc, Ht, Hf. generalize (map (fun i => le_word (take 8 (drop (8 * i) block))) (seq 0 16)).
  intros m. f_equal. generalize dependent (St.(h)). intros hs Hh.
  do 8 (destruct hs as [| ? hs]; [discriminate |]). destruct hs; [| discriminate].
  destruct last; cbn [final_flag counter nth map seq app length insert list_insert blake2b_IV].
  - reflexivity.
  - rewrite !Z.lxor_0_r. reflexivity.
Qed.

Lemma rfc_F_length h block k last : length (Rfc7693.F h block k last) = 8%nat.
Proof. done. Qed.

#[local] Opaque Rfc7693.F rx_blake2b_compress.

Lemma u64_carry k inc :
  0 <= k -> 0 <= inc < 2 ^ 64 ->
  (let t0 := u64 (k mod 2 ^ 64 + inc) in
   [t0; u64 (k / 2 ^ 64 mod 2 ^ 64 + (if t0 <? inc then 1 else 0))]) = counter (k + inc).
Proof.
  intros Hk Hi. cbv zeta. unfold counter. rewrite !u64_mod.
  pose proof (Z.div_mod k (2 ^ 64) ltac:(lia)) as Hd.
  pose proof (Z.mod_pos_bound k (2 ^ 64) ltac:(lia)) as Hm.
  set (q := k / 2 ^ 64) in *. set (r := k mod 2 ^ 64) in *.
  assert (Hs : (k + inc) mod 2 ^ 64 = (r + inc) mod 2 ^ 64 /\
    (k + inc) / 2 ^ 64 = q + (r + inc) / 2 ^ 64).
  { replace (k + inc) with (r + inc + q * 2 ^ 64) by lia.
    rewrite Z.mod_add, Z.div_add by lia. split; [done | lia]. }
  destruct Hs as [-> ->]. f_equal. f_equal. rewrite Zplus_mod_idemp_l. f_equal. f_equal.
  destruct (decide (r + inc < 2 ^ 64)).
  - rewrite Z.mod_small, Z.div_small by lia. by rewrite (proj2 (Z.ltb_ge _ _)) by lia.
  - assert (Hq : (r + inc) / 2 ^ 64 = 1) by (symmetry; apply (Z.div_unique_pos _ _ _ (r + inc - 2 ^ 64)); lia).
    assert (Hr : (r + inc) mod 2 ^ 64 = r + inc - 2 ^ 64)
      by (symmetry; apply (Z.mod_unique_pos _ _ 1); lia).
    rewrite Hq, Hr. by rewrite (proj2 (Z.ltb_lt _ _)) by lia.
Qed.

Lemma increment_counter_spec St k inc :
  0 <= k -> 0 <= inc < 2 ^ 64 -> St.(t) = counter k ->
  blake2b_increment_counter St inc
  = {| h := St.(h); t := counter (k + inc); f := St.(f); buf := St.(buf); buflen := St.(buflen);
       outlen := St.(outlen); last_node := St.(last_node) |}.
Proof.
  intros Hk Hi Ht. unfold blake2b_increment_counter. rewrite Ht. f_equal.
  by rewrite <- u64_carry.
Qed.

(** ** Streaming *)

(** [St] has compressed the first [k] blocks of [d]. *)
Record compressed (nn : nat) (h0 : list Z) (St : blake2b_state) (d : list Z) (k : nat) : Prop := {
  co_h : St.(h) = Rfc7693.chain h0 d k;
  co_t : St.(t) = counter (128 * Z.of_nat k);
  co_f : St.(f) = [0; 0];
  co_buf : length St.(buf) = 128%nat;
  co_out : St.(outlen) = nn;
  co_last : St.(last_node) = 0
}.

(** The blocks that are followed by more data. *)
Abbreviation full_blocks := (lazy_blocks 128).
Lemma full_blocks_128 n k :
  full_blocks n = k <-> (128 * k < n <= 128 * (k + 1))%nat \/ (n = 0 /\ k = 0)%nat.
Proof. apply lazy_blocks_spec. lia. Qed.

(** [St] has taken in [d]: all but the last block, which may be full. *)
Record repr (nn : nat) (h0 : list Z) (St : blake2b_state) (d : list Z) : Prop := {
  re_co : compressed nn h0 St d (full_blocks (length d));
  re_len : length d = (128 * full_blocks (length d) + St.(buflen))%nat;
  re_buf : take St.(buflen) St.(buf) = drop (128 * full_blocks (length d)) d
}.

Section Streaming.
Variables (nn : nat) (h0 : list Z).
Hypothesis h0_length : length h0 = 8%nat.

Lemma chain_length d k : length (Rfc7693.chain h0 d k) = 8%nat.
Proof. destruct k; [done | apply rfc_F_length]. Qed.

Lemma chain_app d d' k :
  (128 * k <= length d)%nat -> Rfc7693.chain h0 (d ++ d') k = Rfc7693.chain h0 d k.
Proof.
  induction k as [| k IH]; intros Hk; [done |]. cbn [Rfc7693.chain].
  assert (Hb : take 128 (drop (128 * k) (d ++ d')) = take 128 (drop (128 * k) d)).
  { rewrite !take_drop_commute. by rewrite take_app_le by lia. }
  by rewrite IH, Hb by lia.
Qed.

Lemma compressed_app St d d' k :
  compressed nn h0 St d k -> (128 * k <= length d)%nat -> compressed nn h0 St (d ++ d') k.
Proof. intros [Hh ? ? ? ? ?] Hk. split; try assumption. by rewrite chain_app. Qed.

(** One more block. *)
Lemma compressed_step St d k block b n :
  compressed nn h0 St d k -> block = take 128 (drop (128 * k) d) -> length b = 128%nat ->
  compressed nn h0
    (set_buf (rx_blake2b_compress (blake2b_increment_counter (set_buf St b n) 128) block) b 0) d (k + 1) /\
  compressed nn h0
    (rx_blake2b_compress (blake2b_increment_counter St 128) block) d (k + 1).
Proof.
  intros [Hh Ht Hf Hb Ho Hl] -> Hb128. pose proof (chain_length d k) as Hc.
  assert (Hk : counter (128 * Z.of_nat k + 128) = counter (128 * Z.of_nat (k + 1)))
    by (f_equal; lia).
  rewrite !(increment_counter_spec _ (128 * Z.of_nat k)) by (done || lia).
  rewrite !(compress_rfc _ _ (128 * Z.of_nat (k + 1)) false) by (cbn [h t f set_buf];
    rewrite ?Hh; done). cbn [set_h set_buf h t f buf buflen outlen last_node].
  rewrite Hh, Nat.add_1_r. split; (split; cbn [h t f buf buflen outlen last_node]; try assumption);
    try (rewrite Hk; by rewrite Nat.add_1_r); reflexivity.
Qed.

Lemma update_loop_spec fuel St d k pin :
  compressed nn h0 St d k -> pin = drop (128 * k) d -> (128 * k < length d)%nat ->
  (length pin <= 128 * fuel)%nat ->
  exists St', update_loop fuel St pin = (St', drop (128 * full_blocks (length d)) d) /\
    compressed nn h0 St' d (full_blocks (length d)) /\ St'.(buflen) = St.(buflen).
Proof.
  revert St k pin. induction fuel as [| fuel IH]; intros St k pin Hc -> Hk Hf;
    rewrite length_drop in Hf; cbn [update_loop]; [lia |].
  rewrite length_drop. destruct (Nat.ltb_spec BLAKE2B_BLOCKBYTES (length d - 128 * k)) as [Hlt | Hge].
  - destruct (compressed_step St d k _ St.(buf) 0 Hc eq_refl ltac:(apply Hc)) as [_ Hc'].
    rewrite drop_drop.
    destruct (IH (rx_blake2b_compress (blake2b_increment_counter St 128) (take 128 (drop (128 * k) d)))
      (k + 1)%nat (drop (128 * k + BLAKE2B_BLOCKBYTES) d) Hc')
      as (St' & Hu & Hc'' & Hbl); unfold BLAKE2B_BLOCKBYTES in *.
    + f_equal. lia.
    + lia.
    + rewrite length_drop. lia.
    + exists St'. split; [exact Hu |]. split; [done |]. by rewrite Hbl.
  - unfold BLAKE2B_BLOCKBYTES in *.
    assert (Hfb : full_blocks (length d) = k) by (apply full_blocks_128; lia).
    rewrite Hfb. by exists St.
Qed.

Lemma compressed_set_buf St d k b n :
  compressed nn h0 St d k -> length b = 128%nat -> compressed nn h0 (set_buf St b n) d k.
Proof. intros [Hh Ht Hf Hb Ho Hl] Hn. by split. Qed.

(** [pin] goes behind what is buffered already. *)
Lemma buffered_repr St d old pin (k := full_blocks (length d)) :
  compressed nn h0 St d k -> length old = St.(buflen) -> take St.(buflen) St.(buf) = old ->
  drop (128 * k) d = old ++ pin -> (St.(buflen) + length pin <= 128)%nat ->
  repr nn h0 (set_buf St (write_at St.(buflen) pin St.(buf)) (St.(buflen) + length pin)) d.
Proof.
  intros Hc Hlo Hold Hd Hl. pose proof (co_buf _ _ _ _ _ Hc) as Hb.
  assert (Hlen : length (drop (128 * k) d) = (St.(buflen) + length pin)%nat)
    by (rewrite Hd, length_app; lia).
  rewrite length_drop in Hlen.
  assert (Hk : (128 * k <= length d)%nat).
  { destruct (proj1 (full_blocks_128 (length d) k) eq_refl); lia. }
  split; cbn [set_buf buflen buf].
  - apply compressed_set_buf; [done | rewrite length_write_at; lia].
  - fold k. lia.
  - fold k. by rewrite take_write_at, Hold, Hd by lia.
Qed.

Lemma update_repr St d data :
  repr nn h0 St d ->
  exists St', rx_blake2b_update St (Some data) (length data) = (0, St') /\ repr nn h0 St' (d ++ data).
Proof.
  intros [Hco Hlen Hbuf]. set (k := full_blocks (length d)) in *.
  assert (Hk : (128 * k < length d <= 128 * (k + 1))%nat \/ (length d = 0 /\ k = 0)%nat)
    by (by apply full_blocks_128).
  unfold rx_blake2b_update. destruct (Nat.eqb_spec (length data) 0) as [Hd0 | Hd0].
  { destruct data; [| done]. exists St. rewrite app_nil_r. by split. }
  rewrite (co_f _ _ _ _ _ Hco). cbn [nth]. rewrite Z.eqb_refl. cbn [negb].
  rewrite take_ge by done. unfold BLAKE2B_BLOCKBYTES.
  pose proof (co_buf _ _ _ _ _ Hco) as Hb128.
  destruct (Nat.ltb_spec 128 (buflen St + length data)) as [Hlt | Hge].
  - set (left := St.(buflen)) in *.
    set (block := take 128 (drop (128 * k) (d ++ data))).
    assert (Hbl : write_at left (take (128 - left) data) St.(buf) = block).
    { rewrite write_at_full by (rewrite length_take; lia). rewrite Hbuf. unfold block.
      rewrite drop_app_le by lia. rewrite take_app.
      rewrite (take_ge (drop _ _)) by (rewrite length_drop; lia). do 2 f_equal.
      rewrite length_drop. lia. }
    rewrite Hbl. pose proof (compressed_app St d data k Hco ltac:(lia)) as Hco'.
    assert (Hbl128 : length block = 128%nat).
    { unfold block. rewrite length_take, length_drop, length_app. lia. }
    destruct (compressed_step St (d ++ data) k block block left Hco' eq_refl Hbl128) as [Hc1 _].
    assert (Hbuf1 : (rx_blake2b_compress (blake2b_increment_counter (set_buf St block left) 128)
      block).(buf) = block).
    { rewrite (increment_counter_spec _ (128 * Z.of_nat k)) by (done || lia || apply Hco). done. }
    cbn [buf set_buf]. change (buf (blake2b_increment_counter (set_buf St block left) (Z.of_nat 128)))
      with block. change (Z.of_nat 128) with 128. rewrite Hbuf1.
    destruct (update_loop_spec (length data) _ (d ++ data) (k + 1)
      (drop (128 - left) data) Hc1) as (St2 & Hu & Hc2 & Hbl2).
    { rewrite drop_app_ge by lia. f_equal. lia. }
    { rewrite length_app. lia. }
    { rewrite length_drop. lia. }
    rewrite Hu. cbn [buflen set_buf] in Hbl2. eexists. split; [reflexivity |].
    apply (buffered_repr St2 (d ++ data) [] _ Hc2); rewrite ?Hbl2, ?take_0; [done | done | done |].
    rewrite length_drop. destruct (proj1 (full_blocks_128 (length (d ++ data)) _) eq_refl); lia.
  - eexists. split; [reflexivity |].
    assert (Hfb : full_blocks (length (d ++ data)) = k)
      by (apply full_blocks_128; rewrite length_app; lia).
    apply (buffered_repr St (d ++ data) (drop (128 * k) d)).
    + rewrite Hfb. apply compressed_app; [done | lia].
    + by rewrite length_drop; lia.
    + done.
    + rewrite Hfb. by rewrite drop_app_le by lia.
    + lia.
Qed.

(** Any number of portions. *)
Definition feed (St : blake2b_state) (portions : list (list Z)) : Z * blake2b_state :=
  fold_left (fun '(r, St) d =>
    let '(r', St) := rx_blake2b_update St (Some d) (length d) in (if r <? 0 then r else r', St))
    portions (0, St).

Lemma feed_repr St d portions :
  repr nn h0 St d ->
  exists St', feed St portions = (0, St') /\ repr nn h0 St' (d ++ concat portions).
Proof.
  unfold feed. revert St d. induction portions as [| p ps IH]; intros St d Hr; cbn [fold_left concat].
  - exists St. by rewrite app_nil_r.
  - destruct (update_repr St d p Hr) as (St1 & Hu & Hr1). rewrite Hu.
    change (if 0 <? 0 then 0 else 0) with 0. destruct (IH St1 (d ++ p) Hr1) as (St' & Hf & Hr').
    exists St'. split; [exact Hf |]. by rewrite app_assoc.
Qed.

(** Whatever comes after the end is refused. *)
Definition finished (St : blake2b_state) : Prop := St.(f).[0] <> 0.

Lemma final_repr St d o len :
  repr nn h0 St d -> (nn <= len)%nat -> exists St',
    rx_blake2b_final St (Some o) len = (0, Some (write_at 0 (Rfc7693.hash nn h0 d) o), St') /\
    finished St'.
Proof.
  intros [Hco Hlen Hbuf] Hn. set (k := full_blocks (length d)) in *.
  assert (Hk : (128 * k < length d <= 128 * (k + 1))%nat \/ (length d = 0 /\ k = 0)%nat)
    by (by apply full_blocks_128).
  pose proof (co_buf _ _ _ _ _ Hco) as Hb. pose proof (co_h _ _ _ _ _ Hco) as Hh.
  unfold rx_blake2b_final. rewrite (co_out _ _ _ _ _ Hco), (proj2 (Nat.ltb_ge len nn)) by done.
  rewrite (co_f _ _ _ _ _ Hco). cbn [nth]. rewrite Z.eqb_refl. cbn [negb].
  rewrite (increment_counter_spec _ (128 * Z.of_nat k)) by (lia || apply Hco).
  unfold blake2b_set_lastblock. cbn [last_node]. rewrite (co_last _ _ _ _ _ Hco), Z.eqb_refl.
  set (St1 := set_buf _ _ _).
  assert (Hc : rx_blake2b_compress St1 St1.(buf)
    = set_h St1 (Rfc7693.F St1.(h) St1.(buf) (128 * Z.of_nat k + Z.of_nat St.(buflen)) true)).
  { apply compress_rfc; subst St1; cbn [set_buf set_f h t f buf buflen].
    - rewrite Hh. apply chain_length.
    - done.
    - by rewrite (co_f _ _ _ _ _ Hco). }
  rewrite Hc. match goal with |- exists _, (_, _, ?St') = _ /\ _ => exists St' end. split.
  2: { subst St1. unfold finished. cbn [set_h set_buf set_f f]. rewrite (co_f _ _ _ _ _ Hco).
       vm_compute. discriminate. }
  cbn [set_h h outlen]. subst St1. cbn [set_buf set_f h t f buf buflen outlen].
  rewrite (co_out _ _ _ _ _ Hco), Hh. do 4 f_equal. unfold Rfc7693.hash. fold (full_blocks (length d)).
  fold k. unfold BLAKE2B_BLOCKBYTES.
  rewrite write_at_full by (rewrite length_replicate; lia). rewrite Hbuf.
  assert (Hld : length (drop (128 * k) d) = St.(buflen)) by (rewrite length_drop; lia).
  rewrite Hld. rewrite (take_ge (Rfc7693.F _ _ _ _)) by (rewrite rfc_F_length; lia).
  replace (128 * Z.of_nat k + Z.of_nat St.(buflen)) with (Z.of_nat (length d)) by lia. done.
Qed.
End Streaming.

(** ** Initialisation *)

Lemma parameter_word nn kk :
  (nn <= 64)%nat -> (kk <= 64)%nat ->
  le_word [u8 (Z.of_nat nn); u8 (Z.of_nat kk); 1; 1; 0; 0; 0; 0]
  = Z.lxor (Z.lxor 0x01010000 (Z.shiftl (Z.of_nat kk) 8)) (Z.of_nat nn).
Proof.
  intros Hn Hk.
  assert (Hall : forallb (fun nn => forallb (fun kk =>
      le_word [u8 (Z.of_nat nn); u8 (Z.of_nat kk); 1; 1; 0; 0; 0; 0] =?
      Z.lxor (Z.lxor 0x01010000 (Z.shiftl (Z.of_nat kk) 8)) (Z.of_nat nn)) (seq 0 65)) (seq 0 65) = true)
    by by vm_compute.
  rewrite forallb_forall in Hall. specialize (Hall nn ltac:(apply in_seq; lia)).
  rewrite forallb_forall in Hall. specialize (Hall kk ltac:(apply in_seq; lia)).
  by apply Z.eqb_eq.
Qed.

Lemma init_param_spec nn kk :
  (nn <= 64)%nat -> (kk <= 64)%nat ->
  exists St, rx_blake2b_init_param (sequential_param nn kk) = (0, St) /\
    repr nn (Rfc7693.h0 nn kk) St [].
Proof.
  intros Hn Hk. unfold rx_blake2b_init_param. eexists. split; [reflexivity |].
  assert (Hh : forall IV : list Z, length IV = 8%nat ->
    map (fun i => Z.lxor IV.[i] (load64 (take 8 (drop (i * 8) (param_bytes (sequential_param nn kk))))))
      (seq 0 8)
    = <[0%nat := Z.lxor (Z.lxor (Z.lxor IV.[0] 0x01010000) (Z.shiftl (Z.of_nat kk) 8)) (Z.of_nat nn)]> IV).
  { intros IV HI. do 8 (destruct IV as [| ? IV]; [discriminate |]). destruct IV; [| discriminate].
    rewrite !Z.lxor_assoc, <- (Z.lxor_assoc 0x01010000), <- parameter_word by done.
    unfold load64, param_bytes, sequential_param. cbn [digest_length key_length fanout depth leaf_length
      node_offset node_depth inner_length reserved salt personal].
    generalize (u8 (Z.of_nat nn)) (u8 (Z.of_nat kk)). intros a b. cbn -[Z.mul Z.add Z.lxor le_word].
    change (le_word [0; 0; 0; 0; 0; 0; 0; 0]) with 0. by rewrite !Z.lxor_0_r. }
  split; cbn [length buflen blake2b_init0 set_h h buf].
  - split; cbn [h t f buf outlen last_node blake2b_init0 set_h]; try reflexivity.
    + cbn [full_blocks Rfc7693.chain]. by apply Hh.
    + cbn [digest_length sequential_param]. rewrite u8_small by (unfold word; lia). apply Nat2Z.id.
  - reflexivity.
  - reflexivity.
Qed.

Lemma h0_length nn kk : length (Rfc7693.h0 nn kk) = 8%nat.
Proof. unfold Rfc7693.h0. by rewrite length_insert. Qed.

Lemma init_repr St nn :
  (1 <= nn <= 64)%nat -> exists St', rx_blake2b_init St nn = (0, St') /\ repr nn (Rfc7693.h0 nn 0) St' [].
Proof.
  intros Hn. unfold rx_blake2b_init, BLAKE2B_OUTBYTES.
  rewrite (proj2 (Nat.eqb_neq nn 0)), (proj2 (Nat.ltb_ge 64 nn)) by lia. cbn [orb].
  apply init_param_spec; lia.
Qed.

Lemma init_key_repr St nn key :
  (1 <= nn <= 64)%nat -> (1 <= length key <= 64)%nat ->
  exists St', rx_blake2b_init_key St nn (Some key) (length key) = (0, St') /\
    repr nn (Rfc7693.h0 nn (length key)) St' (key ++ replicate (128 - length key) 0).
Proof.
  intros Hn Hk. unfold rx_blake2b_init_key, BLAKE2B_OUTBYTES, BLAKE2B_KEYBYTES, BLAKE2B_BLOCKBYTES.
  rewrite (proj2 (Nat.eqb_neq nn 0)), (proj2 (Nat.ltb_ge 64 nn)) by lia.
  rewrite (proj2 (Nat.eqb_neq (length key) 0)), (proj2 (Nat.ltb_ge 64 (length key))) by lia.
  cbn [orb]. destruct (init_param_spec nn (length key)) as (St1 & -> & Hr); [lia | lia |].
  change (0 <? 0) with false. cbv iota.
  assert (Hb : write_at 0 (take (length key) key) (replicate 128 0)
    = key ++ replicate (128 - length key) 0).
  { rewrite take_ge by done. unfold write_at. rewrite take_0, drop_replicate. done. }
  rewrite Hb. pose proof (update_repr nn _ (h0_length nn (length key)) St1 []
    (key ++ replicate (128 - length key) 0) Hr) as (St2 & Hu & Hr2).
  assert (Hl : length (key ++ replicate (128 - length key) 0) = 128%nat)
    by (rewrite length_app, length_replicate; lia).
  rewrite Hl in Hu. rewrite Hu. by exists St2.
Qed.

(** C21: BLAKE2b of RFC 7693 through the streaming interface: whatever the
    state held, after an unkeyed or keyed initialisation every portion is
    accepted, [final] writes the digest of all of them, and after that the
    state refuses more input and a second [final], while its output buffer
    stays as it was. *)
Theorem blake2b_streaming St nn key portions out :
  (1 <= nn <= 64)%nat -> (length key <= 64)%nat -> (nn <= length out)%nat ->
  exists St1 St2 St3,
    (if (length key =? 0)%nat then rx_blake2b_init St nn
     else rx_blake2b_init_key St nn (Some key) (length key)) = (0, St1) /\
    feed St1 portions = (0, St2) /\
    rx_blake2b_final St2 (Some out) (length out)
    = (0, Some (write_at 0 (Rfc7693.blake2b nn key (concat portions)) out), St3) /\
    (forall d n, (0 < n)%nat -> rx_blake2b_update St3 d n = (-1, St3)) /\
    (forall o n, rx_blake2b_final St3 o n = (-1, o, St3)).
Proof.
  intros Hn Hk Ho.
  assert (Hinit : exists St1, (if (length key =? 0)%nat then rx_blake2b_init St nn
     else rx_blake2b_init_key St nn (Some key) (length key)) = (0, St1) /\
     repr nn (Rfc7693.h0 nn (length key)) St1
       (if (length key =? 0)%nat then [] else key ++ replicate (128 - length key) 0)).
  { destruct (Nat.eqb_spec (length key) 0) as [Hl | Hl].
    - rewrite Hl. by apply init_repr.
    - apply init_key_repr; lia. }
  destruct Hinit as (St1 & Hi & Hr1).
  destruct (feed_repr nn _ (h0_length nn (length key)) St1 _ portions Hr1) as (St2 & Hf & Hr2).
  destruct (final_repr nn _ (h0_length nn (length key)) St2 _ out (length out) Hr2 Ho) as (St3 & He & Hfin).
  exists St1, St2, St3. split; [done |]. split; [done |]. split; [done |].
  unfold finished in Hfin. apply Z.eqb_neq in Hfin. split.
  - intros d n Hn0. unfold rx_blake2b_update. rewrite (proj2 (Nat.eqb_neq n 0)) by lia.
    destruct d; [| done]. by rewrite Hfin.
  - intros o n. unfold rx_blake2b_final. destruct o as [o |]; [| done].
    destruct (n <? outlen St3)%nat; [done |]. by rewrite Hfin.
Qed.

Lemma blake2b_streaming_witness :
  exists St1 St2 St3,
    rx_blake2b_init_key blake2b_init0 20 (Some [1; 2; 3]) 3 = (0, St1) /\
    feed St1 [[97]; []; [98; 99]] = (0, St2) /\
    rx_blake2b_final St2 (Some (replicate 32 7)) 32
    = (0, Some (write_at 0 (Rfc7693.blake2b 20 [1; 2; 3] [97; 98; 99]) (replicate 32 7)), St3) /\
    (forall d n, (0 < n)%nat -> rx_blake2b_update St3 d n = (-1, St3)) /\
    (forall o n, rx_blake2b_final St3 o n = (-1, o, St3)).
Proof.
  apply (blake2b_streaming blake2b_init0 20 [1; 2; 3] [[97]; []; [98; 99]] (replicate 32 7));
    cbn; lia.
Defined.

(** ** One-call forms *)

(** What [pin] and [inlen] say: [data], or nothing when [pin] is NULL. *)
Definition given (pin : option (list Z)) (inlen : nat) : bool :=
  match pin with Some _ => true | None => (inlen =? 0)%nat end.
Definition message (pin : option (list Z)) (inlen : nat) : list Z := take inlen (default [] pin).
Definition readable (pin : option (list Z)) (inlen : nat) : Prop :=
  match pin with Some d => (inlen <= length d)%nat | None => True end.

Lemma update_message St pin inlen :
  readable pin inlen -> given pin inlen = true ->
  rx_blake2b_update St pin inlen
  = rx_blake2b_update St (Some (message pin inlen)) (length (message pin inlen)).
Proof.
  intros Hr Hg. unfold message. destruct pin as [d |]; cbn [readable given default] in *.
  - unfold id. assert (Hl : length (take inlen d) = inlen) by (rewrite length_take; lia).
    rewrite Hl. unfold rx_blake2b_update. by rewrite (take_ge (take inlen d) inlen) by lia.
  - apply Nat.eqb_eq in Hg as ->. done.
Qed.

Lemma update_null St pin inlen :
  given pin inlen = false -> rx_blake2b_update St pin inlen = (-1, St).
Proof. destruct pin; cbn; [done |]. intros Hn. unfold rx_blake2b_update. by rewrite Hn. Qed.

Section OneCall.
Variable S0 : blake2b_state.

(** Initialise, feed [pre] and the message, finish. *)
Lemma stream_once o n pre pin inlen :
  (1 <= n <= 64)%nat -> (n <= length o)%nat -> readable pin inlen -> given pin inlen = true ->
  exists St1 St2 St3 St4,
    rx_blake2b_init S0 n = (0, St1) /\ rx_blake2b_update St1 (Some pre) (length pre) = (0, St2) /\
    rx_blake2b_update St2 pin inlen = (0, St3) /\
    rx_blake2b_final St3 (Some o) n
    = (0, Some (write_at 0 (Rfc7693.blake2b n [] (pre ++ message pin inlen)) o), St4).
Proof.
  intros Hn Ho Hr Hg. destruct (init_repr S0 n Hn) as (St1 & Hi & H1).
  destruct (update_repr n _ (h0_length n 0) St1 [] pre H1) as (St2 & Hu & H2).
  destruct (update_repr n _ (h0_length n 0) St2 pre (message pin inlen) H2) as (St3 & Hv & H3).
  destruct (final_repr n _ (h0_length n 0) St3 _ o n H3 ltac:(lia)) as (St4 & Hf & _).
  exists St1, St2, St3, St4. rewrite (update_message St2 pin inlen Hr Hg).
  split; [exact Hi |]. split; [exact Hu |]. split; [exact Hv | exact Hf].
Qed.

Lemma rx_blake2b_eq out outlen pin inlen :
  readable pin inlen -> readable out outlen ->
  rx_blake2b_default S0 out outlen pin inlen =
  match out with
  | Some o =>
      if given pin inlen && (1 <=? outlen)%nat && (outlen <=? 64)%nat
      then (0, Some (write_at 0 (Rfc7693.blake2b outlen [] (message pin inlen)) o))
      else (-1, out)
  | None => (-1, out)
  end.
Proof.
  intros Hr Ho. unfold rx_blake2b_default, BLAKE2B_OUTBYTES.
  assert (Hg : (if pin is None then true else false) && (0 <? inlen)%nat = negb (given pin inlen)).
  { destruct pin; [done |]. by destruct inlen. }
  rewrite Hg. destruct (given pin inlen) eqn:Hgv; cbn [negb andb]; [| by destruct out].
  destruct out as [o |]; [| done]. cbn [orb readable] in *.
  destruct (Nat.eqb_spec outlen 0) as [-> |]; [done |]. cbn [orb].
  rewrite (proj2 (Nat.leb_le 1 outlen)) by lia. cbn [andb].
  destruct (Nat.ltb_spec 64 outlen); [by rewrite (proj2 (Nat.leb_gt outlen 64)) by lia |].
  rewrite (proj2 (Nat.leb_le outlen 64)) by lia.
  destruct (stream_once o outlen [] pin inlen) as (St1 & St2 & St3 & St4 & Hi & Hu & Hv & Hf); try done.
  { lia. }
  assert (St2 = St1) as -> by (cbn in Hu; by injection Hu).
  rewrite Hi. cbn [Z.ltb Z.compare]. rewrite Hv. cbn [Z.ltb Z.compare]. by rewrite Hf.
Qed.

Lemma try_hash_eq o n pre pin inlen :
  (1 <= n <= 64)%nat -> (n <= length o)%nat -> length pre = 4%nat -> readable pin inlen ->
  try_hash S0 o n pre pin inlen =
  if given pin inlen then (0, write_at 0 (Rfc7693.blake2b n [] (pre ++ message pin inlen)) o)
  else (-1, o).
Proof.
  intros Hn Ho Hp Hr. unfold try_hash. destruct (given pin inlen) eqn:Hg.
  - destruct (stream_once o n pre pin inlen) as (St1 & St2 & St3 & St4 & Hi & Hu & Hv & Hf); try done.
    rewrite Hp in Hu. rewrite Hi. cbn [Z.ltb Z.compare]. rewrite Hu. cbn [Z.ltb Z.compare].
    rewrite Hv. cbn [Z.ltb Z.compare]. by rewrite Hf.
  - destruct (stream_once o n pre (Some []) 0) as (St1 & St2 & St3 & St4 & Hi & Hu & _); try done.
    { cbn. lia. }
    rewrite Hp in Hu. rewrite Hi. cbn [Z.ltb Z.compare]. rewrite Hu. cbn [Z.ltb Z.compare].
    by rewrite (update_null St2).
Qed.

Lemma blake2b_length n key m : (n <= 64)%nat -> length (Rfc7693.blake2b n key m) = n.
Proof.
  intros Hn. unfold Rfc7693.blake2b, Rfc7693.hash. rewrite length_take, length_concat_le, rfc_F_length. lia.
Qed.

(** 64 bytes of [V_i] into 64 or fewer of [V_(i+1)]. *)
Lemma next_V ob n :
  length ob = 64%nat -> (1 <= n <= 64)%nat ->
  rx_blake2b S0 (Some ob) n (Some ob) 64
  = (0, Some (Rfc7693.blake2b n [] ob ++ drop n ob)).
Proof.
  intros Hl Hn. unfold rx_blake2b. rewrite rx_blake2b_eq by (cbn; lia). cbn [given andb].
  rewrite (proj2 (Nat.leb_le 1 n)), (proj2 (Nat.leb_le n 64)) by lia. cbn [andb].
  unfold message, write_at. rewrite (take_ge (default [] (Some ob)) 64) by (cbn; lia).
  by rewrite take_0, Nat.add_0_l, blake2b_length by lia.
Qed.
End OneCall.

(** *** The variable-length hash of RFC 9106 *)

Module Rfc9106.
Definition H (n : nat) (A : list Z) : list Z := Rfc7693.blake2b n [] A.
(** [V_(i+1)] from [V_1]. *)
Fixpoint V (V1 : list Z) (i : nat) : list Z :=
  match i with O => V1 | S i => H 64 (V V1 i) end.
Definition H' (T : nat) (A : list Z) : list Z :=
  let A := le_bytes 4 (Z.of_nat T) ++ A in
  if (T <=? 64)%nat then H T A
  else
    let r := ((T + 31) / 32 - 2)%nat in
    let V1 := H 64 A in
    concat (map (fun i => take 32 (V V1 i)) (seq 0 r)) ++ H (T - 32 * r) (V V1 (r - 1)).
End Rfc9106.

Lemma V_length V1 i : length V1 = 64%nat -> length (Rfc9106.V V1 i) = 64%nat.
Proof. intros. destruct i; [done |]. by apply blake2b_length. Qed.

Lemma long_loop_spec S0 V1 T fuel i out (r := ((T + 31) / 32 - 2)%nat) :
  length V1 = 64%nat -> (i + 1 <= r)%nat -> (64 < T)%nat -> length out = T ->
  (T - 32 * (i + 1) < fuel)%nat ->
  long_loop S0 fuel out (Rfc9106.V V1 i) (32 * (i + 1)) (T - 32 * (i + 1))
  = (0, take (32 * (i + 1)) out ++
        concat (map (fun j => take 32 (Rfc9106.V V1 j)) (seq (i + 1) (r - (i + 1)))) ++
        Rfc9106.H (T - 32 * r) (Rfc9106.V V1 (r - 1))).
Proof.
  intros HV. revert i out. induction fuel as [| fuel IH]; intros i out Hi HT Ho Hf; [lia |].
  assert (HVi : length (Rfc9106.V V1 i) = 64%nat) by by apply V_length.
  pose proof (Nat.div_mod_eq (T + 31) 32) as Hdm.
  pose proof (Nat.mod_upper_bound (T + 31) 32 ltac:(lia)) as Hm.
  cbn [long_loop]. unfold BLAKE2B_OUTBYTES. destruct (Nat.ltb_spec 64 (T - 32 * (i + 1))) as [Hlt | Hge].
  - rewrite next_V by lia. cbn [Z.ltb Z.compare from_option id]. rewrite (drop_ge (Rfc9106.V V1 i)) by lia.
    rewrite app_nil_r. change (Rfc7693.blake2b 64 [] (Rfc9106.V V1 i)) with (Rfc9106.V V1 (S i)).
    set (W := take 32 (Rfc9106.V V1 (S i))).
    assert (HW : length W = 32%nat) by (unfold W; rewrite length_take, V_length; done).
    replace (32 * (i + 1) + 32)%nat with (32 * (S i + 1))%nat by lia.
    replace (T - 32 * (i + 1) - 32)%nat with (T - 32 * (S i + 1))%nat by lia.
    rewrite IH by (rewrite ?length_write_at; lia). f_equal.
    replace (32 * (S i + 1))%nat with (32 * (i + 1) + length W)%nat by lia.
    rewrite take_write_at, <- app_assoc by lia. f_equal. rewrite app_assoc. f_equal.
    replace (r - (i + 1))%nat with (S (r - (S i + 1)))%nat by lia.
    cbn [seq map concat]. rewrite Nat.add_1_r. unfold W. by rewrite Nat.add_1_r.
  - assert (Hr : r = (i + 1)%nat) by lia.
    rewrite next_V by lia. cbn [Z.ltb Z.compare from_option id].
    assert (HL : length (Rfc7693.blake2b (T - 32 * (i + 1)) [] (Rfc9106.V V1 i)) = (T - 32 * (i + 1))%nat)
      by (apply blake2b_length; lia).
    rewrite take_app_length' by done. rewrite write_at_full by (rewrite HL; lia).
    rewrite Hr, Nat.sub_diag. cbn [seq map concat app]. f_equal. f_equal.
    by replace (i + 1 - 1)%nat with i by lia.
Qed.

Lemma rxa2_blake2b_long_eq S0 out_buffer out pin inlen (T := length out) :
  length out_buffer = 64%nat -> readable pin inlen ->
  rxa2_blake2b_long S0 out_buffer out T pin inlen =
  if given pin inlen && (1 <=? T)%nat && (Z.of_nat T <=? 0xffffffff)
  then (0, Rfc9106.H' T (message pin inlen)) else (-1, out).
Proof.
  intros Hob Hr. unfold rxa2_blake2b_long. destruct (Z.ltb_spec 0xffffffff (Z.of_nat T)) as [Hbig | Hsm].
  { rewrite (proj2 (Z.leb_gt (Z.of_nat T) _)) by done. by rewrite andb_false_r. }
  rewrite (proj2 (Z.leb_le (Z.of_nat T) _)) by done. rewrite andb_true_r.
  rewrite u32_small by (unfold word; lia). change BLAKE2B_OUTBYTES with 64%nat.
  change (store32 (Z.of_nat T)) with (le_bytes 4 (Z.of_nat T)).
  unfold Rfc9106.H', Rfc9106.H. destruct (Nat.leb_spec T 64) as [H64 | H64].
  - destruct (Nat.leb_spec 1 T) as [H1 | H1].
    + rewrite try_hash_eq by (done || apply length_le_bytes). rewrite andb_true_r.
      destruct (given pin inlen); [| done]. f_equal. unfold write_at.
      rewrite take_0, blake2b_length, Nat.add_0_l, drop_ge by lia. by rewrite app_nil_r.
    + rewrite andb_false_r. unfold try_hash, rx_blake2b_init.
      by replace T with 0%nat by lia.
  - rewrite (proj2 (Nat.leb_le 1 T)), andb_true_r by lia.
    rewrite try_hash_eq by (lia || done || apply length_le_bytes).
    destruct (given pin inlen); [| done]. cbn [Z.ltb Z.compare].
    set (V1 := Rfc7693.blake2b 64 [] _).
    assert (HV1 : length V1 = 64%nat) by by apply blake2b_length.
    unfold write_at at 2. rewrite take_0, Nat.add_0_l, HV1, (drop_ge out_buffer), app_nil_r by lia.
    cbn [app]. unfold write_at at 2. rewrite take_0, (drop_ge out_buffer), app_nil_r by lia. cbn [app].
    pose proof (Nat.div_mod_eq (T + 31) 32) as Hdm.
    pose proof (Nat.mod_upper_bound (T + 31) 32 ltac:(lia)) as Hm.
    assert (HW : length (take 32 V1) = 32%nat) by (rewrite length_take; lia).
    pose proof (long_loop_spec S0 V1 T T 0 (write_at 0 (take 32 V1) out) HV1 ltac:(lia) H64
      ltac:(rewrite length_write_at; lia) ltac:(lia)) as HL.
    cbn [Rfc9106.V Nat.add] in HL. change (32 * 1)%nat with 32%nat in HL. rewrite HL. f_equal.
    set (r := ((T + 31) / 32 - 2)%nat) in *.
    assert (Hseq : seq 0 r = 0%nat :: seq 1 (r - 1)) by (by replace r with (S (r - 1)) at 1 by lia).
    rewrite Hseq. cbn [map concat Rfc9106.V]. rewrite <- app_assoc. unfold Rfc9106.H.
    pose proof (take_write_at 0 (take 32 V1) out ltac:(lia)) as Ht.
    rewrite HW, take_0 in Ht. cbn [Nat.add app] in Ht. by rewrite Ht.
Qed.

(** The one-call hash on every branch: with a readable message (NULL only
    when it is empty), somewhere to write to and 1 to 64 bytes asked for, the
    digest of RFC 7693 goes to the first [outlen] bytes of [out]; in every
    other case the result is -1 and [out] is left alone. *)
Theorem rx_blake2b_default_spec S0 out outlen pin inlen :
  readable pin inlen -> readable out outlen ->
  rx_blake2b_default S0 out outlen pin inlen =
  match out with
  | Some o =>
      if given pin inlen && (1 <=? outlen)%nat && (outlen <=? 64)%nat
      then (0, Some (write_at 0 (Rfc7693.blake2b outlen [] (message pin inlen)) o))
      else (-1, out)
  | None => (-1, out)
  end.
Proof. apply rx_blake2b_eq. Qed.

Lemma rx_blake2b_default_spec_witness :
  rx_blake2b_default blake2b_init0 (Some (replicate 32 0)) 32 None 3 = (-1, Some (replicate 32 0)) /\
  rx_blake2b_default blake2b_init0 (Some (replicate 80 0)) 65 (Some [1]) 1 = (-1, Some (replicate 80 0)) /\
  rx_blake2b_default blake2b_init0 (Some (replicate 40 7)) 32 (Some [97; 98; 99]) 3
  = (0, Some (write_at 0 (Rfc7693.blake2b 32 [] [97; 98; 99]) (replicate 40 7))).
Proof.
  split; [| split].
  - apply (rx_blake2b_default_spec blake2b_init0 (Some (replicate 32 0)) 32 None 3); cbn; lia.
  - apply (rx_blake2b_default_spec blake2b_init0 (Some (replicate 80 0)) 65 (Some [1]) 1); cbn; lia.
  - apply (rx_blake2b_default_spec blake2b_init0 (Some (replicate 40 7)) 32 (Some [97; 98; 99]) 3); cbn; lia.
Defined.

(** Argon2's variable-length hash: the code computes [H'] of RFC 9106
    into all of [out], whatever the local buffers held, when the message is
    readable and the length is neither zero nor above 32 bits; otherwise the
    result is -1 and [out] is untouched.  Its loop ends. *)
Theorem rxa2_blake2b_long_spec S0 out_buffer out pin inlen :
  length out_buffer = 64%nat -> readable pin inlen ->
  rxa2_blake2b_long S0 out_buffer out (length out) pin inlen =
  if given pin inlen && (1 <=? length out)%nat && (Z.of_nat (length out) <=? 0xffffffff)
  then (0, Rfc9106.H' (length out) (message pin inlen)) else (-1, out).
Proof. apply rxa2_blake2b_long_eq. Qed.

Lemma rxa2_blake2b_long_spec_witness :
  rxa2_blake2b_long blake2b_init0 (replicate 64 9) (replicate 100 0) 100 (Some [1; 2]) 2
  = (0, Rfc9106.H' 100 [1; 2]).
Proof.
  apply (rxa2_blake2b_long_spec blake2b_init0 (replicate 64 9) (replicate 100 0) (Some [1; 2]) 2);
    [done | cbn; lia].
Defined.
