(* ===== verification/Blake256.v ===== *)
(** * BLAKE-256, BLAKE-224 and their HMACs: [xmrig/crypto/cn/c_blake256.c]

    The compression function, the streaming interface (lengths are counted in
    bits), the one-call hashes and HMAC.  Whatever was written at [digest] or
    [out] is the list the model returns. *)

From S2P Require Import Prelude Endian Streaming Hmac.

(** ** The code: bytes and tables *)

Definition U8TO32 (p : list Z) : Z :=
  Z.lor (Z.lor (Z.lor (Z.shiftl p.[0] 24) (Z.shiftl p.[1] 16)) (Z.shiftl p.[2] 8)) p.[3].
Definition U32TO8 (v : Z) : list Z :=
  [u8 (Z.shiftr v 24); u8 (Z.shiftr v 16); u8 (Z.shiftr v 8); u8 v].

Definition sigma : list (list nat) := [
  [0; 1; 2; 3; 4; 5; 6; 7; 8; 9; 10; 11; 12; 13; 14; 15];
  [14; 10; 4; 8; 9; 15; 13; 6; 1; 12; 0; 2; 11; 7; 5; 3];
  [11; 8; 12; 0; 5; 2; 15; 13; 10; 14; 3; 6; 7; 1; 9; 4];
  [7; 9; 3; 1; 13; 12; 11; 14; 2; 6; 5; 10; 4; 0; 15; 8];
  [9; 0; 5; 7; 2; 4; 10; 15; 14; 1; 11; 12; 6; 8; 3; 13];
  [2; 12; 6; 10; 0; 11; 8; 3; 4; 13; 7; 5; 15; 14; 1; 9];
  [12; 5; 1; 15; 14; 13; 4; 10; 0; 7; 6; 3; 9; 2; 8; 11];
  [13; 11; 7; 14; 12; 1; 3; 9; 5; 0; 15; 4; 8; 6; 2; 10];
  [6; 15; 14; 9; 11; 3; 0; 8; 12; 2; 13; 7; 1; 4; 10; 5];
  [10; 2; 8; 4; 7; 6; 1; 5; 15; 11; 9; 14; 3; 12; 13; 0];
  [0; 1; 2; 3; 4; 5; 6; 7; 8; 9; 10; 11; 12; 13; 14; 15];
  [14; 10; 4; 8; 9; 15; 13; 6; 1; 12; 0; 2; 11; 7; 5; 3];
  [11; 8; 12; 0; 5; 2; 15; 13; 10; 14; 3; 6; 7; 1; 9; 4];
  [7; 9; 3; 1; 13; 12; 11; 14; 2; 6; 5; 10; 4; 0; 15; 8] ]%nat.

Definition cst : list Z := [
  0x243F6A88; 0x85A308D3; 0x13198A2E; 0x03707344;
  0xA4093822; 0x299F31D0; 0x082EFA98; 0xEC4E6C89;
  0x452821E6; 0x38D01377; 0xBE5466CF; 0x34E90C6C;
  0xC0AC29B7; 0xC97C50DD; 0x3F84D5B5; 0xB5470917 ].

Definition padding : list Z := 0x80 :: replicate 63 0.

(** ** The code: state *)

Record state := {
  h : list Z; s : list Z; t : list Z; buflen : Z; nullt : Z; buf : list Z
}.

Definition set_h (c : state) (h : list Z) : state :=
  {| h := h; s := c.(s); t := c.(t); buflen := c.(buflen); nullt := c.(nullt); buf := c.(buf) |}.
Definition set_t (c : state) (t : list Z) : state :=
  {| h := c.(h); s := c.(s); t := t; buflen := c.(buflen); nullt := c.(nullt); buf := c.(buf) |}.
Definition set_buflen (c : state) (buflen : Z) : state :=
  {| h := c.(h); s := c.(s); t := c.(t); buflen := buflen; nullt := c.(nullt); buf := c.(buf) |}.
Definition set_nullt (c : state) (nullt : Z) : state :=
  {| h := c.(h); s := c.(s); t := c.(t); buflen := c.(buflen); nullt := nullt; buf := c.(buf) |}.
Definition set_buf (c : state) (buf : list Z) : state :=
  {| h := c.(h); s := c.(s); t := c.(t); buflen := c.(buflen); nullt := c.(nullt); buf := buf |}.

(** ** The code: compression *)

(** [G(a, b, c, d, e)] in round [i]. *)
Definition G (m : list Z) (i : nat) (a b c d e : nat) (v : list Z) : list Z :=
  let p := nth e (nth i sigma []) 0%nat in
  let q := nth (e + 1) (nth i sigma []) 0%nat in
  let v := <[a := u32 (v.[a] + u32 (Z.lxor m.[p] cst.[q] + v.[b]))]> v in
  let v := <[d := rotr32 (Z.lxor v.[d] v.[a]) 16]> v in
  let v := <[c := u32 (v.[c] + v.[d])]> v in
  let v := <[b := rotr32 (Z.lxor v.[b] v.[c]) 12]> v in
  let v := <[a := u32 (v.[a] + u32 (Z.lxor m.[q] cst.[p] + v.[b]))]> v in
  let v := <[d := rotr32 (Z.lxor v.[d] v.[a]) 8]> v in
  let v := <[c := u32 (v.[c] + v.[d])]> v in
  <[b := rotr32 (Z.lxor v.[b] v.[c]) 7]> v.

(** The body of the loop over the 14 rounds. *)
Definition compress_round (m : list Z) (v : list Z) (i : nat) : list Z :=
  let v := G m i 0 4 8 12 0 v in
  let v := G m i 1 5 9 13 2 v in
  let v := G m i 2 6 10 14 4 v in
  let v := G m i 3 7 11 15 6 v in
  let v := G m i 3 4 9 14 14 v in
  let v := G m i 2 7 8 13 12 v in
  let v := G m i 0 5 10 15 8 v in
  G m i 1 6 11 12 10 v.

Definition blake256_compress (c : state) (block : list Z) : state :=
  let m := map (fun i => U8TO32 (take 4 (drop (i * 4) block))) (seq 0 16) in
  let v := map (fun i => c.(h).[i]) (seq 0 8) ++
    [ Z.lxor c.(s).[0] 0x243F6A88; Z.lxor c.(s).[1] 0x85A308D3;
      Z.lxor c.(s).[2] 0x13198A2E; Z.lxor c.(s).[3] 0x03707344;
      0xA4093822; 0x299F31D0; 0x082EFA98; 0xEC4E6C89 ] in
  let v :=
    if c.(nullt) =? 0 then
      let v := <[12%nat := Z.lxor v.[12] c.(t).[0]]> v in
      let v := <[13%nat := Z.lxor v.[13] c.(t).[0]]> v in
      let v := <[14%nat := Z.lxor v.[14] c.(t).[1]]> v in
      <[15%nat := Z.lxor v.[15] c.(t).[1]]> v
    else v in
  let v := fold_left (compress_round m) (seq 0 14) v in
  let h := fold_left (fun h i => <[i `mod` 8 := Z.lxor h.[i `mod` 8] v.[i]]> h)%nat (seq 0 16) c.(h) in
  let h := fold_left (fun h i => <[i := Z.lxor h.[i] c.(s).[i `mod` 4]]> h)%nat (seq 0 8) h in
  set_h c h.

(** ** The code: the streaming interface *)

Definition blake256_IV : list Z := [
  0x6A09E667; 0xBB67AE85; 0x3C6EF372; 0xA54FF53A; 0x510E527F; 0x9B05688C; 0x1F83D9AB; 0x5BE0CD19 ].
Definition blake224_IV : list Z := [
  0xC1059ED8; 0x367CD507; 0x3070DD17; 0xF70E5939; 0xFFC00B31; 0x68581511; 0x64F98FA7; 0xBEFA4FA4 ].

(** what is left alone is [buf]. *)
Definition blake_init (iv : list Z) (c : state) : state :=
  {| h := iv; s := [0; 0; 0; 0]; t := [0; 0]; buflen := 0; nullt := 0; buf := c.(buf) |}.
Definition blake256_init : state -> state := blake_init blake256_IV.
Definition blake224_init : state -> state := blake_init blake224_IV.

(** [S->t[0] += 512; if (S->t[0] == 0) S->t[1]++;]. *)
Definition count_block (c : state) : state :=
  let t0 := u32 (c.(t).[0] + 512) in
  set_t c [t0; if t0 =? 0 then u32 (c.(t).[1] + 1) else c.(t).[1]].

(** [while (datalen >= 512)]. *)
Fixpoint update_loop (fuel : nat) (c : state) (data : list Z) (datalen : Z) : state * list Z * Z :=
  match fuel with
  | O => (c, data, datalen)
  | S fuel =>
      if 512 <=? datalen then
        let c := blake256_compress (count_block c) (take 64 data) in
        update_loop fuel c (drop 64 data) (datalen - 512)
      else (c, data, datalen)
  end.

(** [datalen] is in bits. *)
Definition blake256_update (c : state) (data : list Z) (datalen : Z) : state :=
  let left_ := Z.to_nat (Z.shiftr c.(buflen) 3) in
  let fill := (64 - left_)%nat in
  let '(c, data, datalen, left_) :=
    if negb (left_ =? 0)%nat && (Z.of_nat fill <=? Z.land (Z.shiftr datalen 3) 0x3F) then
      let c := set_buf c (write_at left_ (take fill data) c.(buf)) in
      let c := count_block c in
      let c := blake256_compress c c.(buf) in
      (c, drop fill data, u64 (datalen - Z.shiftl (Z.of_nat fill) 3), 0%nat)
    else (c, data, datalen, left_) in
  let '(c, data, datalen) := update_loop (Z.to_nat (datalen / 512)) c data datalen in
  if 0 <? datalen then
    let c := set_buf c (write_at left_ (take (Z.to_nat (Z.shiftr datalen 3)) data) c.(buf)) in
    set_buflen c (Z.shiftl (Z.of_nat left_) 3 + datalen)
  else set_buflen c 0.
Definition blake224_update : state -> list Z -> Z -> state := blake256_update.

(** [S->t[0] -= n;]. *)
Definition uncount (c : state) (n : Z) : state := set_t c [u32 (c.(t).[0] - n); c.(t).[1]].

(** The bytes written to [digest] and the state left behind. *)
Definition blake256_final_h (c : state) (pa pb : Z) : list Z * state :=
  let lo := u32 (c.(t).[0] + c.(buflen)) in
  let hi := c.(t).[1] in
  let hi := if lo <? c.(buflen) then u32 (hi + 1) else hi in
  let msglen := U32TO8 hi ++ U32TO8 lo in
  let c :=
    if c.(buflen) =? 440 then blake256_update (uncount c 8) [pa] 8
    else
      let c :=
        if c.(buflen) <? 440 then
          let c := if c.(buflen) =? 0 then set_nullt c 1 else c in
          let c := uncount c (440 - c.(buflen)) in
          blake256_update c padding (440 - c.(buflen))
        else
          let c := uncount c (512 - c.(buflen)) in
          let c := blake256_update c padding (512 - c.(buflen)) in
          let c := uncount c 440 in
          let c := blake256_update c (drop 1 padding) 440 in
          set_nullt c 1 in
      let c := blake256_update c [pb] 8 in
      uncount c 8 in
  let c := uncount c 64 in
  let c := blake256_update c msglen 64 in
  (concat (map U32TO8 (take 8 c.(h))), c).
Definition blake256_final (c : state) : list Z * state := blake256_final_h c 0x81 0x01.
Definition blake224_final (c : state) : list Z * state := blake256_final_h c 0x80 0x00.

(** [S0] is the uninitialised local variable. *)
Definition blake256_hash (S0 : state) (pin : list Z) : list Z :=
  fst (blake256_final (blake256_update (blake256_init S0) pin (u64 (Z.of_nat (length pin) * 8)))).
Definition blake224_hash (S0 : state) (pin : list Z) : list Z :=
  fst (blake224_final (blake224_update (blake224_init S0) pin (u64 (Z.of_nat (length pin) * 8)))).

(** ** The code: HMAC *)

Record hmac_state := { inner : state; outer : state }.

Definition hmac_blake256_init (S0 : state) (c : hmac_state) (_key : list Z) : hmac_state :=
  let key := if (64 <? length _key)%nat then take 32 (blake256_hash S0 _key) else _key in
  {| inner := blake256_update (blake256_init c.(inner)) (key_pad 64 0x36 key) 512;
     outer := blake256_update (blake256_init c.(outer)) (key_pad 64 0x5c key) 512 |}.
Definition hmac_blake224_init (S0 : state) (c : hmac_state) (_key : list Z) : hmac_state :=
  let key := if (64 <? length _key)%nat then take 28 (blake256_hash S0 _key) else _key in
  {| inner := blake224_update (blake224_init c.(inner)) (key_pad 64 0x36 key) 512;
     outer := blake224_update (blake224_init c.(outer)) (key_pad 64 0x5c key) 512 |}.

Definition hmac_blake256_update (c : hmac_state) (data : list Z) (datalen : Z) : hmac_state :=
  {| inner := blake256_update c.(inner) data datalen; outer := c.(outer) |}.
Definition hmac_blake224_update (c : hmac_state) (data : list Z) (datalen : Z) : hmac_state :=
  {| inner := blake224_update c.(inner) data datalen; outer := c.(outer) |}.

Definition hmac_blake256_final (c : hmac_state) : list Z * hmac_state :=
  let '(ihash, inner) := blake256_final c.(inner) in
  let outer := blake256_update c.(outer) ihash 256 in
  let '(digest, outer) := blake256_final outer in
  (digest, {| inner := inner; outer := outer |}).
Definition hmac_blake224_final (c : hmac_state) : list Z * hmac_state :=
  let '(ihash, inner) := blake224_final c.(inner) in
  let outer := blake224_update c.(outer) ihash 224 in
  let '(digest, outer) := blake224_final outer in
  (digest, {| inner := inner; outer := outer |}).

Definition hmac_blake256_hash (S0 : state) (c : hmac_state) (key pin : list Z) : list Z :=
  fst (hmac_blake256_final (hmac_blake256_update (hmac_blake256_init S0 c key) pin
    (u64 (Z.of_nat (length pin) * 8)))).
Definition hmac_blake224_hash (S0 : state) (c : hmac_state) (key pin : list Z) : list Z :=
  fst (hmac_blake224_final (hmac_blake224_update (hmac_blake224_init S0 c key) pin
    (u64 (Z.of_nat (length pin) * 8)))).

(** ** BLAKE, as submitted to the SHA-3 competition *)

Module Blake.
(** [G_i] on the work vector, [x] and [y] the two masked message words. *)
Definition G (v : list Z) (a b c d : nat) (x y : Z) : list Z :=
  let v := <[a := (v.[a] + v.[b] + x) mod 2 ^ 32]> v in
  let v := <[d := rotr32 (Z.lxor v.[d] v.[a]) 16]> v in
  let v := <[c := (v.[c] + v.[d]) mod 2 ^ 32]> v in
  let v := <[b := rotr32 (Z.lxor v.[b] v.[c]) 12]> v in
  let v := <[a := (v.[a] + v.[b] + y) mod 2 ^ 32]> v in
  let v := <[d := rotr32 (Z.lxor v.[d] v.[a]) 8]> v in
  let v := <[c := (v.[c] + v.[d]) mod 2 ^ 32]> v in
  <[b := rotr32 (Z.lxor v.[b] v.[c]) 7]> v.
(** The columns [G_0 .. G_3], then the diagonals [G_4 .. G_7]. *)
Definition lanes : list (nat * nat * nat * nat) := [
  (0, 4, 8, 12); (1, 5, 9, 13); (2, 6, 10, 14); (3, 7, 11, 15);
  (0, 5, 10, 15); (1, 6, 11, 12); (2, 7, 8, 13); (3, 4, 9, 14) ]%nat.
Definition perm (r i : nat) : nat := nth i (nth (r mod 10) sigma []) 0%nat.
Definition round (m : list Z) (v : list Z) (r : nat) : list Z :=
  fold_left (fun v '(i, (a, b, c, d)) =>
    let p := perm r (2 * i) in let q := perm r (2 * i + 1) in
    G v a b c d (Z.lxor m.[p] cst.[q]) (Z.lxor m.[q] cst.[p])) (combine (seq 0 8) lanes) v.
(** [s] is the salt, [t] the counter of message bits. *)
Definition compress (h s block : list Z) (t : Z) : list Z :=
  let m := map (fun i => be_word (take 4 (drop (4 * i) block))) (seq 0 16) in
  let t0 := t mod 2 ^ 32 in
  let t1 := t / 2 ^ 32 mod 2 ^ 32 in
  let v := h ++ map (fun i => Z.lxor s.[i] cst.[i]) (seq 0 4) ++
    [Z.lxor t0 cst.[4]; Z.lxor t0 cst.[5]; Z.lxor t1 cst.[6]; Z.lxor t1 cst.[7]] in
  let v := fold_left (round m) (seq 0 14) v in
  map (fun i => Z.lxor (Z.lxor (Z.lxor h.[i] s.[i mod 4]) v.[i]) v.[i + 8])%nat (seq 0 8).

(** A 1 bit, zeroes, the bit [x] and the length fill whole blocks. *)
Definition pad (x : Z) (m : list Z) : list Z :=
  let n := (64 - (length m + 8) mod 64)%nat in
  m ++ be_bytes n (2 ^ (8 * Z.of_nat n - 1) + x) ++ be_bytes 8 (8 * Z.of_nat (length m)).
(** The message bits up to the end of block [i]; 0 when it has none. *)
Definition counter (len i : nat) : Z :=
  if (64 * i <? len)%nat then 8 * Z.of_nat (len `min` (64 * (i + 1))) else 0.
Definition chain (iv m : list Z) (len k : nat) : list Z :=
  fold_left (fun h i => compress h [0; 0; 0; 0] (take 64 (drop (64 * i) m)) (counter len i))
    (seq 0 k) iv.
Definition hash (iv : list Z) (x : Z) (m : list Z) : list Z :=
  let p := pad x m in
  concat (map (be_bytes 4) (chain iv p (length m) (length p / 64))).
Definition blake256 (m : list Z) : list Z := hash blake256_IV 1 m.
Definition blake224 (m : list Z) : list Z := take 28 (hash blake224_IV 0 m).
End Blake.

(** ** The compression function *)

Lemma U8TO32_spec p : bytes p -> length p = 4%nat -> U8TO32 p = be_word p.
Proof.
  intros Hb Hl. do 4 (destruct p as [| ? p]; [done |]). destruct p; [| done].
  assert (Hr : bytes [z2; z1; z0; z]) by (inv_bytes; repeat first [assumption | apply Forall_cons_2 | apply Forall_nil_2]).
  pose proof (lor_bytes _ 4 Hr ltac:(done)) as Hw. cbn [seq fold_left nth Nat.add] in Hw.
  change (take 4 [z2; z1; z0; z]) with (rev [z; z0; z1; z2]) in Hw. unfold be_word.
  rewrite <- Hw, Z.lor_0_l, Z.shiftl_0_r. unfold U8TO32. cbn [nth].
  change (8 * Z.of_nat 1) with 8. change (8 * Z.of_nat 2) with 16. change (8 * Z.of_nat 3) with 24.
  bitblast.
Qed.

Lemma U32TO8_spec v : U32TO8 v = be_bytes 4 v.
Proof.
  rewrite <- be32enc_spec. unfold U32TO8, be32enc. reflexivity.
Qed.

(** A masked word enters [G] the way the code adds it. *)
Lemma G_blake m i a b c d e v :
  G m i a b c d e v = Blake.G v a b c d
    (Z.lxor m.[nth e (nth i sigma []) 0%nat] cst.[nth (e + 1) (nth i sigma []) 0%nat])
    (Z.lxor m.[nth (e + 1) (nth i sigma []) 0%nat] cst.[nth e (nth i sigma []) 0%nat]).
Proof.
  assert (Hadd : forall x y z, u32 (x + u32 (y + z)) = (x + z + y) mod 2 ^ 32).
  { intros. rewrite u32_add_r, u32_mod. f_equal. lia. }
  unfold G, Blake.G. cbv zeta. rewrite !Hadd, !u32_mod. reflexivity.
Qed.

#[local] Opaque Z.add Z.modulo Z.pow Z.lxor rotr32.

(** What [G] does to the four words it works on. *)
Definition quad (x y a b c d : Z) : list Z :=
  let a := (a + b + x) mod 2 ^ 32 in
  let d := rotr32 (Z.lxor d a) 16 in
  let c := (c + d) mod 2 ^ 32 in
  let b := rotr32 (Z.lxor b c) 12 in
  let a := (a + b + y) mod 2 ^ 32 in
  let d := rotr32 (Z.lxor d a) 8 in
  let c := (c + d) mod 2 ^ 32 in
  let b := rotr32 (Z.lxor b c) 7 in [a; b; c; d].

Lemma G_quad v a b c d x y (q := quad x y v.[a] v.[b] v.[c] v.[d]) :
  In (a, b, c, d) Blake.lanes -> length v = 16%nat ->
  Blake.G v a b c d x y = <[d := q.[3]]> (<[c := q.[2]]> (<[b := q.[1]]> (<[a := q.[0]]> v))).
Proof.
  intros Hin Hv. subst q. do 16 (destruct v as [| ? v]; [discriminate |]). destruct v; [| discriminate].
  unfold Blake.lanes in Hin.
  repeat (destruct Hin as [[= <- <- <- <-] | Hin]; [cbn [nth]; reflexivity |]). destruct Hin.
Qed.
#[local] Opaque quad.

(** Evaluate the innermost [G]. *)
Ltac eval_G :=
  match goal with
  | |- context [Blake.G (?z :: ?l) ?a ?b ?c ?d ?x ?y] =>
      rewrite (G_quad (z :: l) a b c d x y) by (solve [cbn; tauto] || reflexivity);
      cbn [nth insert list_insert]
  end.

(** The diagonals touch disjoint words, so their order does not matter. *)
Lemma diagonals_commute v x4 y4 x5 y5 x6 y6 x7 y7 :
  length v = 16%nat ->
  Blake.G (Blake.G (Blake.G (Blake.G v 3 4 9 14 x7 y7) 2 7 8 13 x6 y6) 0 5 10 15 x4 y4) 1 6 11 12 x5 y5
  = Blake.G (Blake.G (Blake.G (Blake.G v 0 5 10 15 x4 y4) 1 6 11 12 x5 y5) 2 7 8 13 x6 y6) 3 4 9 14 x7 y7.
Proof.
  intros Hv. do 16 (destruct v as [| ? v]; [discriminate |]). destruct v; [| discriminate].
  repeat eval_G. reflexivity.
Qed.

Lemma blake_G_length v a b c d x y : length (Blake.G v a b c d x y) = length v.
Proof. unfold Blake.G. by rewrite !length_insert. Qed.

Lemma blake_round_length m v r : length (Blake.round m v r) = length v.
Proof.
  unfold Blake.round, Blake.lanes. cbn [seq combine fold_left]. by rewrite !blake_G_length.
Qed.

Lemma compress_round_blake m v i :
  (i < 14)%nat -> length v = 16%nat -> compress_round m v i = Blake.round m v i.
Proof.
  intros Hi Hv. assert (HS : nth i sigma [] = nth (i mod 10) sigma []).
  { do 14 (destruct i as [| i]; [reflexivity |]). lia. }
  unfold compress_round. rewrite !G_blake, HS. rewrite diagonals_commute
    by by rewrite !blake_G_length.
  unfold Blake.round, Blake.lanes, Blake.perm. cbn [seq combine fold_left]. reflexivity.
Qed.

Lemma rounds_blake m v :
  length v = 16%nat ->
  fold_left (compress_round m) (seq 0 14) v = fold_left (Blake.round m) (seq 0 14) v /\
  length (fold_left (Blake.round m) (seq 0 14) v) = 16%nat.
Proof.
  intros Hv. apply (fold_left_agree (fun v => length v = 16%nat) (fun i => (i < 14)%nat)); [| done |].
  - intros w i Hw Hi. split; [by apply compress_round_blake | by rewrite blake_round_length].
  - apply List.Forall_forall. intros i Hi%in_seq. lia.
Qed.

(** The counter of a state, and the value the compression sees. *)
Definition count (c : state) : Z := c.(t).[0] + 2 ^ 32 * c.(t).[1].
Definition seen (c : state) : Z := if c.(nullt) =? 0 then count c else 0.

Record wf (c : state) : Prop := {
  wf_h : length c.(h) = 8%nat;
  wf_s : c.(s) = [0; 0; 0; 0];
  wf_t : exists t0 t1, c.(t) = [t0; t1] /\ word 32 t0 /\ word 32 t1;
  wf_buf : buffer 64 c.(buf)
}.

Lemma words_of_count t0 t1 :
  word 32 t0 -> word 32 t1 ->
  (t0 + 2 ^ 32 * t1) mod 2 ^ 32 = t0 /\ (t0 + 2 ^ 32 * t1) / 2 ^ 32 mod 2 ^ 32 = t1.
Proof.
  unfold word. intros H0 H1. rewrite (Z.mul_comm (2 ^ 32) t1), Z.mod_add, Z.div_add by lia.
  rewrite (Z.div_small t0), Z.add_0_l, !Z.mod_small by lia. done.
Qed.

Lemma message_words block :
  buffer 64 block ->
  map (fun i => U8TO32 (take 4 (drop (i * 4) block))) (seq 0 16)
  = map (fun i => be_word (take 4 (drop (4 * i) block))) (seq 0 16).
Proof.
  intros [Hl Hb]. apply map_ext_in. intros i Hi%in_seq. rewrite (Nat.mul_comm i 4).
  apply U8TO32_spec; [by apply Forall_take, Forall_drop |]. rewrite length_take, length_drop. lia.
Qed.

Lemma compress_blake c block :
  wf c -> buffer 64 block ->
  blake256_compress c block = set_h c (Blake.compress c.(h) c.(s) block (seen c)).
Proof.
  intros [Hh Hs (t0 & t1 & Ht & H0 & H1) _] Hb. unfold blake256_compress, Blake.compress.
  rewrite message_words by done. set (m := map _ (seq 0 16)). clearbody m.
  destruct c as [hh ss tt bl nt bf]. cbn [Blake256.h Blake256.s Blake256.t nullt] in *. subst ss tt.
  do 8 (destruct hh as [| ? hh]; [discriminate |]). destruct hh; [| discriminate].
  set (V := [_; _; _; _; _; _; _; _] ++ map _ (seq 0 4) ++ _).
  match goal with |- context [fold_left (compress_round m) (seq 0 14) ?w] => assert (HV : w = V) end.
  { unfold V, seen, count. cbn [Blake256.t nullt nth]. destruct (nt =? 0).
    - destruct (words_of_count t0 t1 H0 H1) as [-> ->].
      cbn [map seq nth app insert list_insert]. rewrite !(Z.lxor_comm _ t0), !(Z.lxor_comm _ t1). reflexivity.
    - reflexivity. }
  rewrite HV. destruct (rounds_blake m V ltac:(reflexivity)) as [-> Hl].
  set (W := fold_left (Blake.round m) (seq 0 14) V) in *. clearbody W. clear HV V.
  do 16 (destruct W as [| ? W]; [discriminate |]). unfold set_h. f_equal. cbn.
  rewrite !Z.lxor_0_r. reflexivity.
Qed.

#[local] Opaque blake256_compress Blake.compress.

(** ** The streaming interface *)

(** One block: the chaining value and the number of bits hashed so far. *)
Definition step (st : list Z * Z) (b : list Z) : list Z * Z :=
  let T := (snd st + 512) mod 2 ^ 64 in (Blake.compress (fst st) [0; 0; 0; 0] b T, T).
Definition core (c : state) : list Z * Z := (c.(h), count c).
Definition put (c : state) (st : list Z * Z) : state :=
  {| h := fst st; s := c.(s); t := [snd st mod 2 ^ 32; snd st / 2 ^ 32];
     buflen := c.(buflen); nullt := c.(nullt); buf := c.(buf) |}.
Definition core_wf (st : list Z * Z) : Prop :=
  length (fst st) = 8%nat /\ word 64 (snd st) /\ snd st mod 512 = 0.
Abbreviation absorbed := (absorb_all step 64).
Abbreviation rest := (rest 64).

Lemma blake_compress_length h0 s0 b T : length (Blake.compress h0 s0 b T) = 8%nat.
Proof. Transparent Blake.compress. done. Qed.
#[local] Opaque Blake.compress.

Lemma word_mod w x : 0 < w -> word w (x mod 2 ^ w).
Proof. intros. apply Z.mod_pos_bound. lia. Qed.

Lemma step_wf st b : core_wf st -> core_wf (step st b).
Proof.
  intros (Hl & Hw & Ha). split; [apply blake_compress_length |]. cbn [snd step]. split; [by apply word_mod |].
  change (2 ^ 64) with (512 * 2 ^ 55). rewrite Z.rem_mul_r, (Z.mul_comm 512), Z.mod_add, Z.mod_mod by lia.
  rewrite <- Zplus_mod_idemp_l, Ha. done.
Qed.

Lemma absorbed_wf st m : core_wf st -> bytes m -> core_wf (absorbed st m).
Proof. intros. apply absorb_all_inv; try done; [lia |]. intros. by apply step_wf. Qed.

Lemma put_core c : wf c -> put c (core c) = c.
Proof.
  intros [Hh Hs (t0 & t1 & Ht & H0 & H1) Hb]. unfold put, core, count. destruct c as [hh ss tt bl nt bf].
  cbn [h s t buflen nullt buf fst snd] in *. subst tt. cbn [nth].
  destruct (words_of_count t0 t1 H0 H1) as [E0 E1]. rewrite E0.
  rewrite (Z.mul_comm (2 ^ 32)), Z.div_add, Z.div_small, Z.add_0_l by (unfold word in *; lia). done.
Qed.

Lemma core_put c st : core_wf st -> core (put c st) = st.
Proof.
  intros (_ & Hw & _). destruct st as [hh T]. unfold core, put, count. cbn [h t fst snd nth].
  f_equal. rewrite Z.add_comm. symmetry. apply Z.div_mod. lia.
Qed.

Lemma put_put c st st' : put (put c st) st' = put c st'.
Proof. done. Qed.

Lemma put_wf c st : wf c -> core_wf st -> wf (put c st).
Proof.
  intros [Hh Hs _ Hb] (Hl & Hw & _). split; cbn [h s t buf put]; try done. eexists _, _. split; [done |].
  split; [by apply word_mod |]. unfold word in *. split; [apply Z.div_pos; lia |].
  apply Z.div_lt_upper_bound; lia.
Qed.

(** Counting and compressing one block. *)
Lemma count_compress c b :
  wf c -> nullt c = 0 -> core_wf (core c) -> buffer 64 b ->
  blake256_compress (count_block c) b = put c (step (core c) b).
Proof.
  intros Hwf Hn (_ & Hw & Ha) Hb. pose proof Hwf as [Hh Hs (t0 & t1 & Ht & H0 & H1) Hbuf].
  assert (Hcount : t (count_block c) = [(count c + 512) mod 2 ^ 64 mod 2 ^ 32; (count c + 512) mod 2 ^ 64 / 2 ^ 32]).
  { cbn [core snd] in Ha, Hw. unfold count_block, count in *. cbn [t set_t]. rewrite Ht in *. cbn [nth] in *.
    rewrite !u32_mod. unfold word in *.
    assert (Ha0 : t0 mod 512 = 0).
    { rewrite <- Ha. change (2 ^ 32) with (512 * 2 ^ 23). rewrite <- Z.mul_assoc, (Z.mul_comm 512), Z.mod_add by lia. done. }
    pose proof (Z.div_mod t0 512 ltac:(lia)) as Hd. rewrite Ha0 in Hd.
    destruct (Z.eqb_spec ((t0 + 512) mod 2 ^ 32) 0) as [He | He].
    - assert (t0 = 2 ^ 32 - 512) as ->.
      { destruct (decide (t0 + 512 < 2 ^ 32)); [rewrite Z.mod_small in He by lia; lia | lia]. }
      replace (2 ^ 32 - 512 + 2 ^ 32 * t1 + 512) with ((t1 + 1) * 2 ^ 32) by lia.
      change (2 ^ 64) with (2 ^ 32 * 2 ^ 32). rewrite Zmult_mod_distr_r.
      rewrite Z.mod_mul, Z.div_mul by lia. done.
    - assert (t0 + 512 < 2 ^ 32).
      { destruct (decide (t0 + 512 < 2 ^ 32)); [done |]. exfalso. apply He.
        assert (t0 = 2 ^ 32 - 512) as -> by lia. done. }
      replace (t0 + 2 ^ 32 * t1 + 512) with (t0 + 512 + t1 * 2 ^ 32) by lia.
      rewrite (Z.mod_small _ (2 ^ 64)) by lia.
      rewrite Z.mod_add, Z.div_add, Z.div_small, Z.add_0_l by lia. done. }
  assert (Hwf' : wf (count_block c)).
  { split; try done. rewrite Hcount. eexists _, _. split; [done |]. split; [by apply word_mod |].
    pose proof (Z.mod_pos_bound (count c + 512) (2 ^ 64) ltac:(lia)). unfold word.
    split; [apply Z.div_pos; lia | apply Z.div_lt_upper_bound; lia]. }
  rewrite compress_blake by done. unfold seen, count at 1. rewrite Hcount. cbn [nth].
  change (nullt (count_block c)) with (nullt c). rewrite Hn, Z.eqb_refl.
  rewrite Z.add_comm, <- Z.div_mod by lia.
  unfold set_h, put, step. rewrite Hcount. cbn [fst snd core h s buflen nullt buf count_block set_t].
  rewrite Hs. reflexivity.
Qed.

Lemma blake_update_loop_spec fuel c data :
  wf c -> nullt c = 0 -> core_wf (core c) -> bytes data -> (length data / 64 <= fuel)%nat ->
  update_loop fuel c data (8 * Z.of_nat (length data))
  = (put c (absorbed (core c) data), rest data, 8 * Z.of_nat (length (rest data))).
Proof.
  revert c data. induction fuel as [| fuel IH]; intros c data Hwf Hn Hc Hd Hf; cbn [update_loop].
  - assert (length data < 64)%nat by (apply Nat.div_small_iff; lia).
    rewrite absorb_all_small, rest_small by lia. by rewrite put_core.
  - destruct (Z.leb_spec 512 (8 * Z.of_nat (length data))) as [Hle | Hlt].
    + assert (Hb : buffer 64 (take 64 data)) by (split; [rewrite length_take; lia | by apply Forall_take]).
      rewrite count_compress by done.
      replace (8 * Z.of_nat (length data) - 512) with (8 * Z.of_nat (length (drop 64 data)))
        by (rewrite length_drop; lia).
      pose proof (step_wf (core c) (take 64 data) Hc) as Hc'.
      rewrite IH; [| by apply put_wf | done | by rewrite core_put | by apply Forall_drop |].
      * rewrite put_put, core_put by done.
        rewrite <- (absorb_all_block step 64 ltac:(lia) (core c) _ _ (proj1 Hb)).
        rewrite <- (rest_block 64 ltac:(lia) (take 64 data) (drop 64 data) (proj1 Hb)), take_drop. done.
      * rewrite length_drop. replace (length data) with (length data - 64 + 1 * 64)%nat in Hf by lia.
        rewrite Nat.div_add in Hf by lia. lia.
    + rewrite absorb_all_small, rest_small by lia. by rewrite put_core.
Qed.

(** What [blake256_update] does after the loop. *)
Definition keep (c : state) (left_ : nat) (r : list Z) : state :=
  if (length r =? 0)%nat then set_buflen c 0
  else set_buflen (set_buf c (write_at left_ r c.(buf))) (8 * Z.of_nat (left_ + length r)).

Lemma bits_to_bytes n : Z.to_nat (Z.shiftr (8 * Z.of_nat n) 3) = n.
Proof. rewrite Z.shiftr_div_pow2 by lia. change (2 ^ 3) with 8. rewrite Z.mul_comm, Z.div_mul by lia. lia. Qed.

Lemma loop_and_keep c data left_ :
  wf c -> nullt c = 0 -> core_wf (core c) -> bytes data ->
  (let '(c, data, datalen) :=
     update_loop (Z.to_nat (8 * Z.of_nat (length data) / 512)) c data (8 * Z.of_nat (length data)) in
   if 0 <? datalen then
    let c := set_buf c (write_at left_ (take (Z.to_nat (Z.shiftr datalen 3)) data) c.(buf)) in
    set_buflen c (Z.shiftl (Z.of_nat left_) 3 + datalen)
   else set_buflen c 0)
  = keep (put c (absorbed (core c) data)) left_ (rest data).
Proof.
  intros Hwf Hn Hc Hd. rewrite blake_update_loop_spec; try done.
  2: { change 512 with (8 * 64). rewrite Z.div_mul_cancel_l by lia. change 64 with (Z.of_nat 64).
       rewrite <- Nat2Z.inj_div. lia. }
  unfold keep. rewrite bits_to_bytes, take_ge by done.
  destruct (Nat.eqb_spec (length (rest data)) 0) as [He | He].
  - by rewrite He.
  - rewrite (proj2 (Z.ltb_lt 0 _)) by lia. unfold set_buflen. f_equal.
    rewrite Z.shiftl_mul_pow2 by lia. lia.
Qed.

Lemma take_fill_test L :
  Z.land (Z.shiftr (8 * Z.of_nat L) 3) 0x3F = Z.of_nat (L mod 64).
Proof.
  rewrite Z.shiftr_div_pow2 by lia. change (2 ^ 3) with 8. rewrite Z.mul_comm, Z.div_mul by lia.
  change 0x3F with (Z.ones 6). rewrite Z.land_ones by lia. by rewrite Nat2Z.inj_mod.
Qed.

(** No block is completed first. *)
Lemma update_nofill c data left_ :
  wf c -> nullt c = 0 -> core_wf (core c) -> bytes data -> (left_ < 64)%nat ->
  buflen c = 8 * Z.of_nat left_ -> left_ = 0%nat \/ (length data mod 64 < 64 - left_)%nat ->
  blake256_update c data (8 * Z.of_nat (length data))
  = keep (put c (absorbed (core c) data)) left_ (rest data).
Proof.
  intros Hwf Hn Hc Hd Hl Hb Hcase. unfold blake256_update. rewrite Hb, bits_to_bytes, take_fill_test.
  assert (Hcond : negb (left_ =? 0)%nat && (Z.of_nat (64 - left_) <=? Z.of_nat (length data mod 64)) = false).
  { destruct (Nat.eqb_spec left_ 0); [done |]. cbn [negb andb]. apply Z.leb_gt. lia. }
  rewrite Hcond. cbn iota. by apply loop_and_keep.
Qed.

(** The buffered bytes are completed to a block. *)
Lemma update_fill c data left_ blk (fill := (64 - left_)%nat) :
  wf c -> nullt c = 0 -> core_wf (core c) -> bytes data -> (0 < left_ < 64)%nat ->
  buflen c = 8 * Z.of_nat left_ -> (fill <= length data mod 64)%nat ->
  8 * Z.of_nat (length data) < 2 ^ 64 -> blk = take left_ c.(buf) ++ take fill data ->
  blake256_update c data (8 * Z.of_nat (length data))
  = keep (put (set_buf c blk) (absorbed (step (core c) blk) (drop fill data))) 0 (rest (drop fill data)).
Proof.
  intros Hwf Hn Hc Hd Hl Hb Hcase Hbig Hblk. unfold blake256_update. rewrite Hb, bits_to_bytes, take_fill_test.
  fold fill. pose proof (Nat.Div0.mod_le (length data) 64) as Hle.
  rewrite (proj2 (Nat.eqb_neq left_ 0)), (proj2 (Z.leb_le (Z.of_nat fill) _)) by lia. cbn [negb andb].
  destruct (wf_buf c Hwf) as [Hbl Hbb].
  assert (Hw : write_at left_ (take fill data) (buf c) = blk).
  { rewrite Hblk. apply write_at_full. rewrite length_take. unfold fill. lia. }
  assert (Hblk' : buffer 64 blk).
  { rewrite Hblk. split; [rewrite length_app, !length_take; unfold fill in *; lia |].
    apply bytes_app; by apply Forall_take. }
  rewrite Hw. assert (Hwf' : wf (set_buf c blk)) by (destruct Hwf; by split).
  change (buf (count_block (set_buf c blk))) with blk. rewrite count_compress by done.
  change (core (set_buf c blk)) with (core c).
  assert (Hlen : u64 (8 * Z.of_nat (length data) - Z.shiftl (Z.of_nat fill) 3)
    = 8 * Z.of_nat (length (drop fill data))).
  { rewrite Z.shiftl_mul_pow2, u64_small, length_drop by (unfold word; lia). lia. }
  rewrite Hlen. pose proof (step_wf (core c) blk Hc) as Hc'.
  rewrite loop_and_keep; [| by apply put_wf | done | by rewrite core_put | by apply Forall_drop].
  by rewrite core_put, put_put.
Qed.

(** A state that has been fed [m] after an initialisation with [iv]. *)
Record repr (iv : list Z) (c : state) (m : list Z) : Prop := {
  repr_wf : wf c;
  repr_null : nullt c = 0;
  repr_core : core c = absorbed (iv, 0) m;
  repr_buflen : buflen c = 8 * Z.of_nat (length (rest m));
  repr_buf : take (length (rest m)) c.(buf) = rest m;
  repr_bytes : bytes m
}.

(** What the state stands for after [data], [m] having been fed before: the
    buffered bytes are lost, or put behind the full blocks of [data], unless
    there are none, [data] is short or its tail completes their block. *)
Definition received (m data : list Z) : list Z :=
  let r := length (rest m) in
  let L := length data in
  if (r =? 0)%nat || (64 - r <=? L mod 64)%nat || ((0 <? L) && (L <? 64))%nat then m ++ data
  else if (L mod 64 =? 0)%nat then whole 64 m ++ data
  else whole 64 m ++ whole 64 data ++ rest m ++ rest data.

Lemma keep_repr iv c st left_ r m :
  wf c -> nullt c = 0 -> core_wf st -> st = absorbed (iv, 0) m -> bytes m -> bytes r ->
  rest m = take left_ c.(buf) ++ r -> (left_ + length r < 64)%nat ->
  (length r = 0 -> left_ = 0)%nat ->
  repr iv (keep (put c st) left_ r) m.
Proof.
  intros Hwf Hn Hst -> Hm Hr Hrest Hl Hnil. destruct (wf_buf c Hwf) as [Hbl Hbb].
  assert (Hlr : length (rest m) = (left_ + length r)%nat)
    by (rewrite Hrest, length_app, length_take; lia).
  pose proof (put_wf c _ Hwf Hst) as Hpw. unfold keep.
  destruct (Nat.eqb_spec (length r) 0) as [Hr0 | Hr0].
  - rewrite (Hnil Hr0), Hr0 in Hlr. apply nil_length_inv in Hlr.
    split; cbn [buflen nullt buf set_buflen put]; rewrite ?Hlr; try done.
    + by destruct Hpw.
    + change (core (set_buflen ?x 0)) with (core x). by rewrite core_put.
  - split; cbn [buflen nullt buf set_buflen set_buf put]; try done.
    + destruct Hpw as [Hh Hs Ht Hb]. split; try done. cbn [buf set_buflen set_buf put].
      apply buffer_write_at; [done | done | lia].
    + change (core (set_buflen (set_buf ?x _) _)) with (core x). by rewrite core_put.
    + by rewrite Hlr.
    + rewrite Hlr, take_write_at by lia. done.
Qed.

Lemma init_core_wf iv : length iv = 8%nat -> core_wf (iv, 0).
Proof. intros. split; [done |]. by split. Qed.

Lemma blake_update_repr iv c m data :
  length iv = 8%nat -> repr iv c m -> bytes data -> 8 * Z.of_nat (length data) < 2 ^ 64 ->
  repr iv (blake256_update c data (8 * Z.of_nat (length data))) (received m data).
Proof.
  intros Hiv [Hwf Hn Hcore Hbl Hbuf Hm] Hd Hbig. pose proof (init_core_wf iv Hiv) as Hi.
  assert (Hc : core_wf (core c)) by (rewrite Hcore; by apply absorbed_wf).
  pose proof (rest_lt 64 ltac:(lia) m) as Hr64. set (r := length (rest m)) in *.
  pose proof (rest_lt 64 ltac:(lia) data) as Hd64. pose proof (length_rest 64 ltac:(lia) data) as Hdl.
  unfold received. fold r.
  assert (Hwhole : absorbed (iv, 0) (whole 64 m) = core c) by (rewrite absorb_all_whole by lia; done).
  assert (Hput : keep (put c (absorbed (core c) data)) r (rest data) =
    blake256_update c data (8 * Z.of_nat (length data)) \/ (0 < r /\ 64 - r <= length data mod 64)%nat).
  { destruct (decide (r = 0 \/ length data mod 64 < 64 - r)%nat); [left | right; lia].
    symmetry. by apply update_nofill. }
  destruct (Nat.eqb_spec r 0) as [Hr0 | Hr0]; [| destruct (Nat.leb_spec (64 - r) (length data mod 64)) as [Hf | Hf]];
    cbn [orb].
  - destruct Hput as [<- |]; [| lia]. assert (Hre : rest m = []) by by apply nil_length_inv.
    apply keep_repr; try done.
    + by apply absorbed_wf.
    + by rewrite absorb_all_app, Hre, <- Hcore by lia.
    + by apply bytes_app.
    + by apply rest_bytes.
    + by rewrite Hr0, take_0, rest_app, Hre by lia.
    + lia.
  - rewrite (update_fill c data r (rest m ++ take (64 - r) data)); try done; [| lia | by rewrite Hbuf].
    destruct (absorb_all_fill step 64 ltac:(lia) (iv, 0) m data) as [Ha Hre].
    { pose proof (Nat.Div0.mod_le (length data) 64). fold r. lia. }
    fold r in Ha, Hre. rewrite <- Hcore in Ha.
    assert (Hb : buffer 64 (rest m ++ take (64 - r) data)).
    { pose proof (Nat.Div0.mod_le (length data) 64).
      split; [rewrite length_app, length_take; fold r; lia |].
      apply bytes_app; [by apply rest_bytes | by apply Forall_take]. }
    apply keep_repr.
    + destruct Hwf. by split.
    + done.
    + apply absorbed_wf; [by apply step_wf | by apply Forall_drop].
    + by rewrite Ha.
    + by apply bytes_app.
    + by apply rest_bytes, Forall_drop.
    + by rewrite Hre, take_0.
    + pose proof (rest_lt 64 ltac:(lia) (drop (64 - r) data)). lia.
    + done.
  - destruct Hput as [<- |]; [| lia].
    destruct (decide (0 < length data < 64)%nat) as [Hs | Hs].
    + rewrite (proj2 (Nat.ltb_lt 0 _)), (proj2 (Nat.ltb_lt _ 64)) by lia. cbn [andb].
      rewrite Nat.mod_small in Hf by lia.
      destruct (absorb_all_nofill step 64 ltac:(lia) (iv, 0) m data) as [Ha Hre]; [fold r; lia |].
      rewrite absorb_all_small, rest_small by lia.
      apply keep_repr; try done; try lia.
      * by rewrite Ha.
      * by apply bytes_app.
      * by rewrite Hre, Hbuf.
    + assert (Hb : (0 <? length data)%nat && (length data <? 64)%nat = false).
      { destruct (Nat.ltb_spec 0 (length data)); [| done]. by apply Nat.ltb_ge; lia. }
      rewrite Hb. destruct (Nat.eqb_spec (length data mod 64) 0) as [He | He].
      * assert (Hre : rest data = []) by (apply nil_length_inv; lia).
        rewrite Hre. unfold keep. cbn [length Nat.eqb].
        change (repr iv (keep (put c (absorbed (core c) data)) 0 []) (whole 64 m ++ data)).
        apply keep_repr; try done; try lia.
        -- by apply absorbed_wf.
        -- by rewrite absorb_all_app, Hwhole, rest_whole by lia.
        -- apply bytes_app; [by apply Forall_take | done].
        -- by rewrite rest_app, rest_whole, take_0 by lia.
        -- cbn. lia.
      * set (m' := whole 64 m ++ whole 64 data).
        assert (Hm' : absorbed (iv, 0) m' = absorbed (core c) data /\ rest m' = []).
        { unfold m'. rewrite absorb_all_app, rest_app, Hwhole, rest_whole by lia. cbn [app].
          by rewrite absorb_all_whole, rest_whole by lia. }
        rewrite (app_assoc (whole 64 m)). fold m'.
        destruct (absorb_all_nofill step 64 ltac:(lia) (iv, 0) m' (rest m ++ rest data)) as [Ha Hre].
        { rewrite (proj2 Hm'), length_app. cbn [length]. fold r. lia. }
        rewrite (proj1 Hm') in Ha. rewrite (proj2 Hm') in Hre. cbn [app] in Hre.
        apply keep_repr; try done; try lia.
        -- by apply absorbed_wf.
        -- unfold m'. repeat apply bytes_app; try (by apply Forall_take); by apply rest_bytes.
        -- by apply rest_bytes.
        -- by rewrite Hre, Hbuf.
Qed.

(** ** The end of a message *)

Lemma update_short c data n left_ :
  buflen c = 8 * Z.of_nat left_ -> (n <= length data)%nat -> (n < 64)%nat ->
  left_ = 0%nat \/ (left_ + n < 64)%nat ->
  blake256_update c data (8 * Z.of_nat n) = keep c left_ (take n data).
Proof.
  intros Hb Hn Hn64 Hl. unfold blake256_update. rewrite Hb, bits_to_bytes, take_fill_test.
  rewrite Nat.mod_small by done.
  assert (Hcond : negb (left_ =? 0)%nat && (Z.of_nat (64 - left_) <=? Z.of_nat n) = false).
  { destruct (Nat.eqb_spec left_ 0); [done |]. cbn [negb andb]. apply Z.leb_gt. lia. }
  rewrite Hcond, Z.div_small by lia. cbn iota. change (Z.to_nat 0) with 0%nat. cbn [update_loop]. unfold keep.
  rewrite length_take, Nat.min_l by done. destruct (Nat.eqb_spec n 0) as [-> | Hn0]; [done |].
  rewrite (proj2 (Z.ltb_lt 0 _)), bits_to_bytes by lia. unfold set_buflen. f_equal.
  rewrite Z.shiftl_mul_pow2 by lia. lia.
Qed.

Lemma update_complete c data n left_ blk :
  buflen c = 8 * Z.of_nat left_ -> (0 < left_ < 64)%nat -> n = (64 - left_)%nat -> (n <= length data)%nat ->
  length c.(buf) = 64%nat -> blk = take left_ c.(buf) ++ take n data ->
  blake256_update c data (8 * Z.of_nat n)
  = set_buflen (blake256_compress (count_block (set_buf c blk)) blk) 0.
Proof.
  intros Hb Hl -> Hn Hbuf Hblk. unfold blake256_update. rewrite Hb, bits_to_bytes, take_fill_test.
  rewrite Nat.mod_small by lia.
  rewrite (proj2 (Nat.eqb_neq left_ 0)), (proj2 (Z.leb_le (Z.of_nat (64 - left_)) _)) by lia. cbn [negb andb].
  assert (Hw : write_at left_ (take (64 - left_) data) (buf c) = blk).
  { rewrite Hblk. apply write_at_full. rewrite length_take. lia. }
  rewrite Hw. change (buf (count_block (set_buf c blk))) with blk.
  rewrite Z.shiftl_mul_pow2 by lia. change (2 ^ 3) with 8.
  replace (8 * Z.of_nat (64 - left_) - Z.of_nat (64 - left_) * 8) with 0 by lia. reflexivity.
Qed.

(** Subtracting what the padding adds leaves the number of message bits. *)
Lemma count_uncount c t0 t1 b :
  t c = [u32 (t0 - (512 - b)); t1] -> word 32 t0 -> t0 mod 512 = 0 -> 0 < b < 512 ->
  t (count_block c) = [t0 + b; t1].
Proof.
  intros Ht H0 Ha Hb. unfold count_block. cbn [t set_t]. rewrite Ht. cbn [nth].
  rewrite u32_add_l. replace (t0 - (512 - b) + 512) with (t0 + b) by lia.
  pose proof (Z.div_mod t0 512 ltac:(lia)) as Hd. unfold word in H0.
  assert (t0 <= 2 ^ 32 - 512).
  { change (2 ^ 32) with (512 * 2 ^ 23) in *. assert (t0 / 512 < 2 ^ 23) by (apply Z.div_lt_upper_bound; lia). lia. }
  rewrite u32_small by (unfold word; lia). by rewrite (proj2 (Z.eqb_neq (t0 + b) 0)) by lia.
Qed.

(** The length field. *)
Lemma msglen_spec t0 t1 n :
  word 32 t0 -> word 32 t1 -> t0 + 2 ^ 32 * t1 = n mod 2 ^ 64 ->
  U32TO8 t1 ++ U32TO8 t0 = be_bytes 8 n.
Proof.
  intros H0 H1 Hn. rewrite !U32TO8_spec.
  assert (Hb : be_bytes 8 n = be_bytes 8 (n mod 2 ^ 64)) by (unfold be_bytes; by rewrite le_bytes_mod by lia).
  rewrite Hb, <- Hn, (be_bytes_split 4 4). change (8 * Z.of_nat 4) with 32.
  destruct (words_of_count t0 t1 H0 H1) as [E0 E1].
  rewrite (Z.mul_comm (2 ^ 32)), Z.div_add, Z.div_small, Z.add_0_l by (unfold word in *; lia). f_equal.
  unfold be_bytes. rewrite <- (le_bytes_mod 4 32 (t0 + _)) by lia. by rewrite Z.mul_comm, E0.
Qed.

(** The padding, byte by byte. *)
Lemma pad_bytes n x :
  (1 <= n <= 64)%nat -> x = 0 \/ x = 1 ->
  be_bytes n (2 ^ (8 * Z.of_nat n - 1) + x)
  = if (n =? 1)%nat then [0x80 + x] else 0x80 :: replicate (n - 2) 0 ++ [x].
Proof.
  intros Hn Hx.
  assert (Hall : forallb (fun n => forallb (fun x => bool_decide (be_bytes n (2 ^ (8 * Z.of_nat n - 1) + x)
    = if (n =? 1)%nat then [0x80 + x] else 0x80 :: replicate (n - 2) 0 ++ [x])) [0; 1]) (seq 1 64) = true)
    by by vm_compute.
  rewrite forallb_forall in Hall. specialize (Hall n ltac:(apply in_seq; lia)).
  rewrite forallb_forall in Hall. specialize (Hall x ltac:(cbn; destruct Hx; auto)).
  by apply bool_decide_eq_true in Hall.
Qed.

#[local] Transparent Blake.compress.
Lemma compress_mod h0 s0 b T : Blake.compress h0 s0 b (T mod 2 ^ 64) = Blake.compress h0 s0 b T.
Proof.
  unfold Blake.compress. assert (H0 : (T mod 2 ^ 64) mod 2 ^ 32 = T mod 2 ^ 32).
  { change (2 ^ 64) with (2 ^ 32 * 2 ^ 32). rewrite Z.rem_mul_r by lia.
    by rewrite (Z.mul_comm (2 ^ 32)), Z.mod_add, Z.mod_mod by lia. }
  assert (H1 : (T mod 2 ^ 64) / 2 ^ 32 mod 2 ^ 32 = T / 2 ^ 32 mod 2 ^ 32).
  { change (2 ^ 64) with (2 ^ 32 * 2 ^ 32). rewrite Z.rem_mul_r by lia.
    rewrite (Z.mul_comm (2 ^ 32)), Z.div_add, (Z.div_small (T mod 2 ^ 32)), Z.add_0_l, Z.mod_mod by (lia || by apply Z.mod_pos_bound). done. }
  by rewrite H0, H1.
Qed.
#[local] Opaque Blake.compress.

(** The chain over full blocks of the message. *)
Lemma chain_absorbed iv m z k :
  (64 * k <= length m)%nat ->
  (Blake.chain iv (m ++ z) (length m) k, 512 * Z.of_nat k mod 2 ^ 64) = absorb step 64 k (iv, 0) m.
Proof.
  induction k as [| k IH]; intros Hk; [done |]. rewrite <- Nat.add_1_r, absorb_add, <- IH by lia.
  unfold Blake.chain. rewrite Nat.add_1_r, seq_S, fold_left_app. cbn [absorb fold_left Nat.add].
  unfold step. cbn [fst snd]. rewrite Zplus_mod_idemp_l.
  assert (Hblk : take 64 (drop (64 * k) (m ++ z)) = take 64 (drop (64 * k) m)).
  { rewrite drop_app_le by lia. by rewrite take_app_le by (rewrite length_drop; lia). }
  assert (HT : 512 * Z.of_nat k + 512 = 512 * Z.of_nat (S k)) by lia.
  assert (Hcnt : Blake.counter (length m) k = 512 * Z.of_nat (S k)).
  { unfold Blake.counter. rewrite (proj2 (Nat.ltb_lt _ _)) by lia. lia. }
  rewrite Hblk, HT, Hcnt, compress_mod. reflexivity.
Qed.

Lemma chain_S iv p len k :
  Blake.chain iv p len (S k)
  = Blake.compress (Blake.chain iv p len k) [0; 0; 0; 0] (take 64 (drop (64 * k) p)) (Blake.counter len k).
Proof. unfold Blake.chain. by rewrite seq_S, fold_left_app. Qed.

(** The padded end of a message: one block, or two when the length field does
    not fit behind the message. *)
Definition ending (x : Z) (n : nat) : list Z :=
  if (n =? 1)%nat then [0x80 + x] else 0x80 :: replicate (n - 2) 0 ++ [x].

Lemma ending_length x n : (1 <= n)%nat -> length (ending x n) = n.
Proof.
  intros. unfold ending. destruct (Nat.eqb_spec n 1) as [-> | ]; [done |].
  cbn. rewrite length_app, length_replicate. cbn. lia.
Qed.

Lemma padded_blocks iv x m (r := length (rest m)) (hc := fst (absorbed (iv, 0) m))
    (L := 8 * Z.of_nat (length m)) :
  x = 0 \/ x = 1 ->
  Blake.chain iv (Blake.pad x m) (length m) (length (Blake.pad x m) / 64) =
  if (r <=? 55)%nat then
    Blake.compress hc [0; 0; 0; 0] (rest m ++ ending x (56 - r) ++ be_bytes 8 L) (if (r =? 0)%nat then 0 else L)
  else
    Blake.compress
      (Blake.compress hc [0; 0; 0; 0] (rest m ++ take (64 - r) (ending x (120 - r))) L) [0; 0; 0; 0]
      (drop (64 - r) (ending x (120 - r)) ++ be_bytes 8 L) 0.
Proof.
  intros Hx. set (k := (length m / 64)%nat). set (n := (64 - (length m + 8) mod 64)%nat).
  pose proof (Nat.div_mod_eq (length m) 64) as Hdm. fold k in Hdm.
  pose proof (length_rest 64 ltac:(lia) m) as Hr. fold r in Hr.
  pose proof (Nat.mod_upper_bound (length m) 64 ltac:(lia)) as Hub.
  assert (Hn : n = if (r <=? 55)%nat then (56 - r)%nat else (120 - r)%nat).
  { unfold n. rewrite Hr. replace (length m + 8)%nat with (length m mod 64 + 8 + k * 64)%nat by lia.
    rewrite Nat.Div0.mod_add. destruct (Nat.leb_spec (length m mod 64) 55).
    - rewrite Nat.mod_small by lia. lia.
    - replace (length m mod 64 + 8)%nat with (length m mod 64 - 56 + 1 * 64)%nat by lia.
      rewrite Nat.Div0.mod_add, Nat.mod_small by lia. lia. }
  assert (Hp : Blake.pad x m = m ++ ending x n ++ be_bytes 8 L).
  { unfold Blake.pad. fold n. rewrite pad_bytes by (done || (rewrite Hn; destruct (Nat.leb_spec r 55); lia)). done. }
  assert (Hdrop : drop (64 * k) (Blake.pad x m) = rest m ++ ending x n ++ be_bytes 8 L).
  { rewrite Hp, drop_app_le by lia. done. }
  assert (Hlen : length (Blake.pad x m) = (64 * k + (r + n + 8))%nat).
  { rewrite Hp, !length_app, ending_length, length_be_bytes by (rewrite Hn; destruct (Nat.leb_spec r 55); lia). lia. }
  assert (Hk : Blake.chain iv (Blake.pad x m) (length m) k = hc).
  { pose proof (chain_absorbed iv m (ending x n ++ be_bytes 8 L) k ltac:(lia)) as Hc.
    rewrite Hp. unfold hc, absorb_all. fold k. by rewrite <- Hc. }
  assert (Hcnt : Blake.counter (length m) k = if (r =? 0)%nat then 0 else L).
  { unfold Blake.counter. destruct (Nat.eqb_spec r 0).
    - by rewrite (proj2 (Nat.ltb_ge _ _)) by lia.
    - rewrite (proj2 (Nat.ltb_lt _ _)) by lia. rewrite Nat.min_l by lia. done. }
  rewrite Hlen, Nat.mul_comm, Nat.div_add_l by lia. fold r in Hdrop.
  destruct (Nat.leb_spec r 55) as [H55 | H55].
  - replace (r + n + 8)%nat with 64%nat by lia. change (64 / 64)%nat with 1%nat.
    rewrite Nat.add_1_r, chain_S, Hk, Hdrop, Hcnt, Hn. rewrite take_ge; [done |].
    rewrite !length_app, ending_length, length_be_bytes by lia. fold r. lia.
  - replace (r + n + 8)%nat with 128%nat by lia. change (128 / 64)%nat with 2%nat.
    replace (k + 2)%nat with (S (S k)) by lia. rewrite !chain_S, Hk, Hdrop, Hcnt, Hn.
    rewrite (proj2 (Nat.eqb_neq r 0)) by lia.
    assert (Hc1 : Blake.counter (length m) (S k) = 0).
    { unfold Blake.counter. by rewrite (proj2 (Nat.ltb_ge _ _)) by lia. }
    rewrite Hc1. replace (64 * S k)%nat with (64 * k + 64)%nat by lia.
    rewrite <- drop_drop, Hdrop, Hn. fold r. set (e := ending x (120 - r)).
    assert (He : length e = (120 - r)%nat) by (apply ending_length; lia).
    rewrite take_app, drop_app. fold r. rewrite !(take_ge (rest m)), !(drop_ge (rest m)) by (fold r; lia).
    rewrite take_app_le, drop_app_le by lia. cbn [app].
    rewrite (take_ge (drop _ _ ++ _)); [done |]. rewrite length_app, length_drop, length_be_bytes. lia.
Qed.

Lemma wf_count_block c : wf c -> wf (count_block c).
Proof.
  intros [Hh Hs (t0 & t1 & Ht & H0 & H1) Hb]. split; try done. unfold count_block. cbn [t set_t]. rewrite Ht.
  cbn [nth]. destruct (u32 (t0 + 512) =? 0); eexists _, _; (split; [reflexivity |]; split; [apply u32_word |]);
    [apply u32_word | done].
Qed.
Lemma wf_uncount c n : wf c -> wf (uncount c n).
Proof.
  intros [Hh Hs (t0 & t1 & Ht & H0 & H1) Hb]. split; try done. unfold uncount. cbn [t set_t]. rewrite Ht.
  eexists _, _. split; [reflexivity |]. split; [apply u32_word | done].
Qed.
Lemma wf_set_buf c b : wf c -> buffer 64 b -> wf (set_buf c b).
Proof. intros [Hh Hs Ht Hb] Hb'. by split. Qed.
Lemma wf_set_nullt c n : wf c -> wf (set_nullt c n).
Proof. intros [Hh Hs Ht Hb]. by split. Qed.

Lemma keep_some c left_ r :
  r <> [] -> keep c left_ r
  = set_buflen (set_buf c (write_at left_ r c.(buf))) (8 * Z.of_nat (left_ + length r)).
Proof. intros Hr. unfold keep. destruct r; done. Qed.

Lemma wf_keep c left_ r :
  wf c -> bytes r -> (left_ + length r <= 64)%nat -> wf (keep c left_ r).
Proof.
  intros Hwf Hr Hl. destruct Hwf as [Hh Hs Ht Hb]. unfold keep.
  destruct (length r =? 0)%nat; split; try done. by apply buffer_write_at.
Qed.

(** Completing a block: the chaining value and what the rest of the state is. *)
Lemma complete_block c data n left_ blk :
  wf c -> bytes data ->
  buflen c = 8 * Z.of_nat left_ -> (0 < left_ < 64)%nat -> n = (64 - left_)%nat -> (n <= length data)%nat ->
  blk = take left_ c.(buf) ++ take n data ->
  blake256_update c data (8 * Z.of_nat n)
  = {| h := Blake.compress c.(h) [0; 0; 0; 0] blk (seen (count_block c)); s := [0; 0; 0; 0];
       t := t (count_block c); buflen := 0; nullt := nullt c; buf := blk |} /\ buffer 64 blk.
Proof.
  intros Hwf Hd Hb Hl Hn Hnd Hblk. destruct (wf_buf c Hwf) as [Hbl Hbb].
  assert (Hbuf : buffer 64 blk).
  { rewrite Hblk. split; [rewrite length_app, !length_take; lia |].
    apply bytes_app; by apply Forall_take. }
  split; [| done]. rewrite (update_complete c data n left_ blk) by done.
  assert (Hwf' : wf (count_block (set_buf c blk))) by by apply wf_count_block, wf_set_buf.
  rewrite compress_blake by done. pose proof (wf_s c Hwf) as Hs.
  unfold set_buflen, set_h, seen, count. cbn [h s t buflen nullt buf count_block set_t set_buf]. rewrite Hs. reflexivity.
Qed.

(** The padding bytes the code copies. *)
Lemma take_padding n : (1 <= n <= 64)%nat -> take n padding = 0x80 :: replicate (n - 1) 0.
Proof.
  intros. destruct n as [| n]; [lia |]. unfold padding. cbn [take]. rewrite take_replicate.
  do 2 f_equal. lia.
Qed.
Lemma marker_length n : length (0x80 :: replicate n 0) = S n.
Proof. cbn [length]. by rewrite length_replicate. Qed.
Lemma padding_is_bytes : bytes padding.
Proof. apply (bool_decide_unpack _). by vm_compute. Qed.

(** The last 56 bytes are in place: the length field completes the block. *)
Lemma last_block c p msglen :
  wf c -> buflen c = 448 -> take 56 c.(buf) = p -> bytes msglen -> length msglen = 8%nat ->
  h (blake256_update c msglen 64)
  = Blake.compress c.(h) [0; 0; 0; 0] (p ++ msglen) (seen (count_block c)).
Proof.
  intros Hwf Hb Hp Hm Hl. change 64 with (8 * Z.of_nat 8).
  destruct (complete_block c msglen 8 56 (p ++ msglen)) as [-> _]; try done; try lia.
  by rewrite Hp, take_ge by lia.
Qed.

Section Final.
Context (iv : list Z) (x : Z) (c : state) (m : list Z).
Hypotheses (Hiv : length iv = 8%nat) (Hx : x = 0 \/ x = 1) (Hr : repr iv c m).
#[local] Abbreviation r := (length (rest m)).
#[local] Abbreviation L := (8 * Z.of_nat (length m)).

Lemma x_byte : is_byte x /\ is_byte (0x80 + x).
Proof. unfold word. lia. Qed.

Lemma final_counter :
  exists t0 t1, t c = [t0; t1] /\ word 32 t0 /\ word 32 t1 /\ t0 mod 512 = 0 /\
    t0 + 8 * Z.of_nat r + 2 ^ 32 * t1 = L mod 2 ^ 64 /\ word 32 (t0 + 8 * Z.of_nat r).
Proof.
  destruct Hr as [Hwf Hn Hcore Hbl Hbuf Hm]. pose proof (wf_t c Hwf) as (t0 & t1 & Ht & H0 & H1).
  exists t0, t1. split; [done |]. split; [done |]. split; [done |].
  set (k := (length m / 64)%nat).
  assert (Hcount : t0 + 2 ^ 32 * t1 = 512 * Z.of_nat k mod 2 ^ 64).
  { pose proof (chain_absorbed iv m [] k) as Hc. assert (Hk : (64 * k <= length m)%nat).
    { unfold k. pose proof (Nat.div_mod_eq (length m) 64). lia. }
    specialize (Hc Hk). change (absorb step 64 k (iv, 0) m) with (absorbed (iv, 0) m) in Hc.
    rewrite <- Hcore in Hc. unfold core, count in Hc. rewrite Ht in Hc. cbn [nth] in Hc. injection Hc. done. }
  pose proof (rest_lt 64 ltac:(lia) m) as Hr64. pose proof (length_rest 64 ltac:(lia) m) as Hrl.
  pose proof (Nat.div_mod_eq (length m) 64) as Hdm. fold k in Hdm.
  assert (Ha : 512 * Z.of_nat k mod 2 ^ 64 = 512 * (Z.of_nat k mod 2 ^ 55)).
  { change (2 ^ 64) with (512 * 2 ^ 55). by rewrite Zmult_mod_distr_l. }
  assert (Ha0 : t0 mod 512 = 0).
  { assert (Hz : (t0 + 2 ^ 32 * t1) mod 512 = 0) by (rewrite Hcount, Ha, Z.mul_comm; by apply Z.mod_mul).
    rewrite <- Hz. change (2 ^ 32) with (512 * 2 ^ 23). by rewrite <- Z.mul_assoc, (Z.mul_comm 512), Z.mod_add. }
  split; [done |]. pose proof (Z.div_mod t0 512 ltac:(lia)) as Hd. unfold word in *.
  assert (t0 <= 2 ^ 32 - 512).
  { change (2 ^ 32) with (512 * 2 ^ 23) in *. assert (t0 / 512 < 2 ^ 23) by (apply Z.div_lt_upper_bound; lia). lia. }
  split; [| lia]. pose proof (Z.mod_pos_bound (Z.of_nat k) (2 ^ 55) ltac:(lia)) as Hk.
  replace L with (8 * Z.of_nat r + 512 * Z.of_nat k) by lia.
  rewrite <- Zplus_mod_idemp_r, Ha, Z.mod_small by (change (2 ^ 64) with (512 * 2 ^ 55); lia). lia.
Qed.

Lemma msglen_L (lo := u32 ((t c).[0] + buflen c)) (hi := (t c).[1]) :
  U32TO8 (if lo <? buflen c then u32 (hi + 1) else hi) ++ U32TO8 lo = be_bytes 8 L.
Proof.
  destruct final_counter as (t0 & t1 & Ht & H0 & H1 & Ha & Hs & Hw). subst lo hi. rewrite Ht, (repr_buflen _ _ _ Hr).
  cbn [nth]. rewrite u32_small by done. rewrite (proj2 (Z.ltb_ge _ _)) by (unfold word in *; lia).
  by apply msglen_spec.
Qed.

(** The counter the last block with message bits is compressed with. *)
Lemma final_seen c' :
  t c' = [u32 ((t c).[0] - (512 - 8 * Z.of_nat r)); (t c).[1]] -> (0 < r)%nat ->
  seen (count_block c') = (if nullt c' =? 0 then L mod 2 ^ 64 else 0).
Proof.
  intros Ht'. intros Hr0. pose proof (rest_lt 64 ltac:(lia) m) as Hr64.
  destruct final_counter as (t0 & t1 & Ht & H0 & H1 & Ha & Hs & Hw). rewrite Ht in Ht'. cbn [nth] in Ht'.
  unfold seen, count. rewrite (count_uncount c' t0 t1 (8 * Z.of_nat r)) by (done || lia). cbn [nth].
  change (nullt (count_block c')) with (nullt c'). by rewrite Hs.
Qed.

(** The last block of a message that leaves room for the length. *)
Definition last_56 : list Z := rest m ++ ending x (56 - r).

Lemma finish c' :
  wf c' -> buflen c' = 448 -> take 56 (buf c') = last_56 -> h c' = h c ->
  nullt c' = (if (r =? 0)%nat then 1 else 0) ->
  t c' = [u32 ((t c).[0] - (512 - 8 * Z.of_nat r)); (t c).[1]] ->
  h (blake256_update c' (be_bytes 8 L) 64)
  = Blake.compress c.(h) [0; 0; 0; 0] (last_56 ++ be_bytes 8 L) (if (r =? 0)%nat then 0 else L).
Proof.
  intros Hwf Hbl Hb Hh Hn Ht. rewrite (last_block c' last_56); try done; [| apply bytes_be_bytes].
  rewrite Hh. destruct (Nat.eqb_spec r 0) as [Hr0 | Hr0].
  - assert (Hs : seen (count_block c') = 0).
    { unfold seen. change (nullt (count_block c')) with (nullt c'). by rewrite Hn. }
    by rewrite Hs.
  - rewrite final_seen, Hn by (done || lia). apply compress_mod.
Qed.

Lemma final_55 :
  r = 55%nat ->
  h (blake256_update (uncount (blake256_update (uncount c 8) [0x80 + x] 8) 64) (be_bytes 8 L) 64)
  = Blake.compress c.(h) [0; 0; 0; 0] (last_56 ++ be_bytes 8 L) (if (r =? 0)%nat then 0 else L).
Proof.
  intros H55. pose proof Hr as [Hwf Hn Hcore Hbl Hbuf Hm]. destruct x_byte as [Hx0 Hx8].
  destruct (wf_buf c Hwf) as [Hlb Hbb].
  change (blake256_update (uncount c 8) [0x80 + x] 8)
    with (blake256_update (uncount c 8) [0x80 + x] (8 * Z.of_nat 1)).
  rewrite (update_short (uncount c 8) [0x80 + x] 1 55) by (cbn; lia || rewrite <- H55; done).
  change (take 1 [0x80 + x]) with [0x80 + x]. set (c1 := keep _ 55 _).
  assert (Hwf1 : wf c1) by (apply wf_keep; [by apply wf_uncount | by forall_words | cbn; lia]).
  assert (Hc1 : c1 = set_buflen (set_buf (uncount c 8) (write_at 55 [0x80 + x] (buf c))) 448) by (by unfold c1; rewrite keep_some).
  apply finish; rewrite ?Hc1; try done.
  - rewrite <- Hc1. by apply wf_uncount.
  - cbn [buf uncount set_t set_buflen set_buf]. rewrite take_write_at' by (done || lia).
    rewrite <- H55 at 1. rewrite Hbuf. unfold last_56. by rewrite H55.
  - cbn [nullt uncount set_t set_buflen set_buf]. by rewrite Hn, H55.
  - unfold uncount. cbn [t set_t set_buflen set_buf nth]. rewrite u32_sub_l, H55. do 2 f_equal. lia.
Qed.

(** [n] bits are missing to the last 64, one byte of which is [x]. *)
Lemma final_lt55 c0 :
  (r < 55)%nat -> c0 = (if (r =? 0)%nat then set_nullt c 1 else c) ->
  h (blake256_update (uncount (uncount (blake256_update
      (blake256_update (uncount c0 (8 * Z.of_nat (55 - r))) padding (8 * Z.of_nat (55 - r))) [x] 8) 8) 64)
    (be_bytes 8 L) 64)
  = Blake.compress c.(h) [0; 0; 0; 0] (last_56 ++ be_bytes 8 L) (if (r =? 0)%nat then 0 else L).
Proof.
  intros H55 Hc0. pose proof Hr as [Hwf Hn Hcore Hbl Hbuf Hm]. destruct x_byte as [Hx0 Hx8].
  destruct (wf_buf c Hwf) as [Hlb Hbb].
  assert (H0 : wf c0 /\ h c0 = h c /\ t c0 = t c /\ buflen c0 = 8 * Z.of_nat r /\ buf c0 = buf c /\
    nullt c0 = if (r =? 0)%nat then 1 else 0).
  { rewrite Hc0. destruct (r =? 0)%nat; [| done]. split; [by apply wf_set_nullt | done]. }
  clear Hc0. destruct H0 as (Hwf0 & Hh0 & Ht0 & Hbl0 & Hb0 & Hn0). set (cu := uncount c0 _).
  assert (Hpl : length padding = 64%nat) by done.
  rewrite (update_short cu padding (55 - r) r), take_padding by (done || lia).
  set (p1 := 0x80 :: replicate (55 - r - 1) 0).
  assert (Hp1 : length p1 = (55 - r)%nat) by (unfold p1; rewrite marker_length; lia).
  assert (Hp1b : bytes p1) by (apply Forall_cons_2; [unfold word; lia | by apply bytes_replicate]).
  set (c2 := keep cu r p1).
  assert (Hc2 : c2 = set_buflen (set_buf cu (write_at r p1 (buf c))) (8 * Z.of_nat 55)).
  { unfold c2. rewrite keep_some by done. replace (r + length p1)%nat with 55%nat by lia. by rewrite <- Hb0. }
  assert (Hwf2 : wf c2) by (apply wf_keep; [by apply wf_uncount | done | lia]).
  change (blake256_update c2 [x] 8) with (blake256_update c2 [x] (8 * Z.of_nat 1)).
  rewrite (update_short c2 [x] 1 55) by (rewrite ?Hc2; cbn; lia || done).
  change (take 1 [x]) with [x]. set (c3 := keep c2 55 [x]).
  assert (Hwf3 : wf c3) by (apply wf_keep; [done | by forall_words | cbn; lia]).
  assert (Hc3 : c3 = set_buflen (set_buf cu (write_at 55 [x] (write_at r p1 (buf c)))) 448).
  { unfold c3. rewrite keep_some by done. by rewrite Hc2. }
  apply finish; [by do 2 apply wf_uncount | by rewrite Hc3 | | by rewrite Hc3 | by rewrite Hc3 |]; rewrite Hc3.
  - cbn [buf uncount set_t set_buflen set_buf]. rewrite take_write_at' by (done || rewrite length_write_at; lia).
    rewrite take_write_at', Hbuf, <- app_assoc by lia.
    unfold last_56, ending. rewrite (proj2 (Nat.eqb_neq (56 - r) 1)) by lia. f_equal.
    unfold p1. cbn [app]. do 3 f_equal. lia.
  - subst cu. unfold uncount. cbn [t set_t set_buflen set_buf nth]. rewrite Ht0, !u32_sub_l.
    rewrite <- Z.sub_add_distr, u32_sub_l. do 2 f_equal. lia.
Qed.

(** The length does not fit: the message ends in a block of its own. *)
Lemma final_long :
  (55 < r)%nat ->
  let c1 := blake256_update (uncount c (8 * Z.of_nat (64 - r))) padding (8 * Z.of_nat (64 - r)) in
  h (blake256_update (uncount (uncount (blake256_update (set_nullt
      (blake256_update (uncount c1 440) (drop 1 padding) 440) 1) [x] 8) 8) 64) (be_bytes 8 L) 64)
  = Blake.compress
      (Blake.compress c.(h) [0; 0; 0; 0] (rest m ++ take (64 - r) (ending x (120 - r))) L) [0; 0; 0; 0]
      (drop (64 - r) (ending x (120 - r)) ++ be_bytes 8 L) 0.
Proof.
  intros H55. pose proof Hr as [Hwf Hn Hcore Hbl Hbuf Hm]. destruct x_byte as [Hx0 Hx8].
  pose proof (rest_lt 64 ltac:(lia) m) as Hr64.
  assert (Hpl : length padding = 64%nat) by done.
  assert (He : ending x (120 - r) = (0x80 :: replicate (63 - r) 0) ++ replicate 55 0 ++ [x]).
  { unfold ending. rewrite (proj2 (Nat.eqb_neq _ 1)) by lia. cbn [app]. f_equal. rewrite app_assoc. f_equal.
    rewrite <- replicate_add. f_equal. lia. }
  assert (Hl1 : length (0x80 :: replicate (63 - r) 0) = (64 - r)%nat) by (rewrite marker_length; lia).
  rewrite He, take_app_length', drop_app_length' by done. set (p1 := 0x80 :: _) in *.
  assert (Hp1 : take (64 - r) padding = p1) by (rewrite take_padding by lia; unfold p1; do 2 f_equal; lia).
  cbv zeta. set (cu := uncount c _).
  destruct (complete_block cu padding (64 - r) r (rest m ++ p1)) as [Hc1 Hb1]; try done; try lia.
  { by apply wf_uncount. }
  { apply padding_is_bytes. }
  { change (buf cu) with (buf c). by rewrite Hbuf, Hp1. }
  rewrite Hc1. set (blk := rest m ++ p1) in *. change (h cu) with (h c). change (nullt cu) with (nullt c).
  assert (Hseen : seen (count_block cu) = L mod 2 ^ 64).
  { rewrite final_seen; [by change (nullt cu) with (nullt c); rewrite Hn | | lia]. unfold cu, uncount. cbn [t set_t].
    do 2 f_equal. lia. }
  rewrite Hseen, compress_mod. pose proof (wf_count_block cu (wf_uncount c _ Hwf)) as Hwfc.
  set (h1 := Blake.compress (h c) _ _ L). set (c1 := {| h := h1 |}).
  assert (Hwf1 : wf c1).
  { split; [apply blake_compress_length | done | apply (wf_t _ Hwfc) | done]. }
  change 440 with (8 * Z.of_nat 55) at 2. rewrite (update_short (uncount c1 440) (drop 1 padding) 55 0) by (cbn; lia || auto).
  change (take 55 (drop 1 padding)) with (replicate 55 0). set (z55 := replicate 55 0).
  assert (Hz : bytes z55 /\ length z55 = 55%nat) by (split; [by apply bytes_replicate | done]). destruct Hz as [Hzb Hzl].
  set (c2 := set_nullt (keep _ 0 z55) 1).
  assert (Hwf2 : wf c2) by (apply wf_set_nullt, wf_keep; [by apply wf_uncount | done | lia]).
  assert (Hc2 : c2 = set_nullt (set_buflen (set_buf (uncount c1 440) (write_at 0 z55 blk)) (8 * Z.of_nat 55)) 1).
  { unfold c2. rewrite keep_some by done. by rewrite Hzl. }
  change (blake256_update c2 [x] 8) with (blake256_update c2 [x] (8 * Z.of_nat 1)).
  rewrite (update_short c2 [x] 1 55) by (rewrite ?Hc2; cbn; lia || done). change (take 1 [x]) with [x].
  set (c3 := keep c2 55 [x]).
  assert (Hwf3 : wf c3) by (apply wf_keep; [done | by forall_words | cbn; lia]).
  assert (Hc3 : c3 = set_buflen (set_buf c2 (write_at 55 [x] (write_at 0 z55 blk))) 448).
  { unfold c3. rewrite keep_some by done. by rewrite Hc2. }
  rewrite (last_block _ (z55 ++ [x])); [| by do 2 apply wf_uncount | by rewrite Hc3 | | apply bytes_be_bytes | done].
  - assert (Hs : seen (count_block (uncount (uncount c3 8) 64)) = 0) by (rewrite Hc3, Hc2; done).
    rewrite Hs, Hc3, Hc2. done.
  - rewrite Hc3. cbn [buf uncount set_t set_buflen set_buf]. destruct Hb1 as [Hb1 _].
    rewrite take_write_at' by (done || rewrite length_write_at; lia).
    by rewrite take_write_at', take_0 by lia.
Qed.

Lemma final_h_eq : fst (blake256_final_h c (0x80 + x) x) = Blake.hash iv x m.
Proof.
  pose proof Hr as [Hwf Hn Hcore Hbl Hbuf Hm]. pose proof (rest_lt 64 ltac:(lia) m) as Hr64.
  unfold blake256_final_h. rewrite msglen_L. cbn [fst]. unfold Blake.hash. rewrite padded_blocks by done.
  assert (Hh : h c = fst (absorbed (iv, 0) m)) by (by rewrite <- Hcore). rewrite <- Hh.
  assert (Hcode : forall c' H, h c' = H -> length H = 8%nat ->
    concat (map U32TO8 (take 8 (h c'))) = concat (map (be_bytes 4) H)).
  { intros c' H -> HL. rewrite take_ge by lia. f_equal. apply map_ext. apply U32TO8_spec. }
  assert (Hu : forall c n, buflen (uncount c n) = buflen c) by reflexivity.
  apply Hcode.
  - rewrite Hbl. destruct (Nat.leb_spec r 55) as [H55 | H55].
    + rewrite app_assoc. destruct (Z.eqb_spec (8 * Z.of_nat r) 440) as [He | He].
      * apply final_55. lia.
      * rewrite (proj2 (Z.ltb_lt _ _)) by lia.
        replace (8 * Z.of_nat r =? 0) with (r =? 0)%nat
          by (destruct (Nat.eqb_spec r 0), (Z.eqb_spec (8 * Z.of_nat r) 0); lia || done).
        set (c0 := if (r =? 0)%nat then _ else _).
        assert (Hbl0 : buflen c0 = 8 * Z.of_nat r) by (unfold c0; by destruct (r =? 0)%nat). rewrite Hu, Hbl0.
        replace (440 - 8 * Z.of_nat r) with (8 * Z.of_nat (55 - r)) by lia.
        apply final_lt55; [lia | done].
    + rewrite (proj2 (Z.eqb_neq _ _)), (proj2 (Z.ltb_ge _ _)) by lia.
      rewrite Hu, Hbl.
      replace (512 - 8 * Z.of_nat r) with (8 * Z.of_nat (64 - r)) by lia. by apply final_long.
  - destruct (r <=? 55)%nat; apply blake_compress_length.
Qed.
End Final.

(** ** Messages *)

#[local] Opaque blake256_update blake256_final_h.

Lemma blake_init_repr iv c : length iv = 8%nat -> buffer 64 c.(buf) -> repr iv (blake_init iv c) [].
Proof.
  intros Hiv Hb. split; try done. split; try done. by exists 0, 0.
Qed.

Lemma IVs : length blake256_IV = 8%nat /\ length blake224_IV = 8%nat.
Proof. done. Qed.

(** Nothing is buffered, or the portion is short, or its tail completes the
    buffered block: the cases [blake256_update] gets right. *)
Definition smooth (buffered L : nat) : bool :=
  (buffered =? 0)%nat || (64 - buffered <=? L mod 64)%nat || ((0 <? L) && (L <? 64))%nat.
Fixpoint smooth_portions (n : nat) (portions : list (list Z)) : bool :=
  match portions with
  | [] => true
  | d :: ds => smooth (n mod 64) (length d) && smooth_portions (n + length d) ds
  end.
Definition feed_bits (c : state) (portions : list (list Z)) : state :=
  fold_left (fun c d => blake256_update c d (8 * Z.of_nat (length d))) portions c.
(** Lengths in bits fit 64 bits. *)
Definition short_portion (d : list Z) : Prop := 8 * Z.of_nat (length d) < 2 ^ 64.

Lemma received_smooth m d : smooth (length m mod 64) (length d) = true -> received m d = m ++ d.
Proof.
  intros Hs. unfold received, smooth in *. rewrite <- (length_rest 64 ltac:(lia) m) in Hs. by rewrite Hs.
Qed.

Lemma feed_bits_repr iv c m portions :
  length iv = 8%nat -> repr iv c m -> Forall (Forall is_byte) portions -> Forall short_portion portions ->
  smooth_portions (length m) portions = true ->
  repr iv (feed_bits c portions) (m ++ concat portions).
Proof.
  intros Hiv Hc Hp. revert c m Hc. induction Hp as [| d ds Hd _ IH]; intros c m Hc Hs Hsm; cbn.
  - by rewrite app_nil_r.
  - apply Forall_cons_1 in Hs as [Hsd Hs]. cbn [smooth_portions] in Hsm.
    apply andb_true_iff in Hsm as [Hsm1 Hsm2].
    rewrite app_assoc. apply IH; [| done | by rewrite length_app].
    rewrite <- received_smooth by done. by apply blake_update_repr.
Qed.

Lemma one_portion m : smooth_portions 0 [m] = true.
Proof. cbn [smooth_portions]. by rewrite andb_true_r. Qed.

Lemma bit_length m : short_portion m -> u64 (Z.of_nat (length m) * 8) = 8 * Z.of_nat (length m).
Proof. unfold short_portion. intros. rewrite u64_small by (unfold word; lia). lia. Qed.

Lemma once_repr iv S0 m :
  length iv = 8%nat -> buffer 64 (buf S0) -> bytes m -> short_portion m ->
  repr iv (blake256_update (blake_init iv S0) m (8 * Z.of_nat (length m))) m.
Proof.
  intros Hiv Hb Hm Hs. pose proof (feed_bits_repr iv (blake_init iv S0) [] [m] Hiv) as H.
  cbn [feed_bits fold_left concat app] in H. rewrite app_nil_r in H. apply H; [by apply blake_init_repr | by repeat constructor | by repeat constructor | apply one_portion].
Qed.

Lemma blake256_final_eq c m : repr blake256_IV c m -> fst (blake256_final c) = Blake.blake256 m.
Proof. intros Hr. apply (final_h_eq blake256_IV 1 c m); auto. Qed.
Lemma blake224_final_eq c m : repr blake224_IV c m -> take 28 (fst (blake224_final c)) = Blake.blake224 m.
Proof. intros Hr. unfold Blake.blake224. f_equal. apply (final_h_eq blake224_IV 0 c m); auto. Qed.

Lemma blake256_hash_eq S0 m :
  buffer 64 (buf S0) -> bytes m -> short_portion m -> blake256_hash S0 m = Blake.blake256 m.
Proof.
  intros Hb Hm Hs. unfold blake256_hash. rewrite bit_length by done. apply blake256_final_eq. by apply once_repr.
Qed.
Lemma blake224_hash_eq S0 m :
  buffer 64 (buf S0) -> bytes m -> short_portion m -> take 28 (blake224_hash S0 m) = Blake.blake224 m.
Proof.
  intros Hb Hm Hs. unfold blake224_hash. rewrite bit_length by done. apply blake224_final_eq. by apply once_repr.
Qed.

Lemma hash_length iv x m : length iv = 8%nat -> length (Blake.hash iv x m) = 32%nat.
Proof.
  intros Hiv. unfold Blake.hash. cbv zeta. rewrite length_concat_be.
  generalize (length (Blake.pad x m) / 64)%nat. intros [| k].
  - change (Blake.chain iv (Blake.pad x m) (length m) 0) with iv. lia.
  - by rewrite chain_S, blake_compress_length.
Qed.
Lemma hash_bytes iv x m : bytes (Blake.hash iv x m).
Proof. apply bytes_concat_be. Qed.

(** ** HMAC *)

(** A keyed pair of contexts that has been fed [m]. *)
Record keyed (iv : list Z) (c : hmac_state) (K m : list Z) : Prop := {
  keyed_inner : repr iv c.(inner) (key_pad 64 0x36 K ++ m);
  keyed_outer : repr iv c.(outer) (key_pad 64 0x5c K)
}.

Lemma key_pad_length b K : length (key_pad 64 b K) = 64%nat.
Proof. unfold key_pad. by rewrite length_xor_loop, length_replicate. Qed.

Lemma pad_repr iv c b K :
  length iv = 8%nat -> buffer 64 (buf c) -> is_byte b -> bytes K -> (length K <= 64)%nat ->
  repr iv (blake256_update (blake_init iv c) (key_pad 64 b K) 512) (key_pad 64 b K).
Proof.
  intros Hiv Hb Hbb HK Hl.
  change 512 with (8 * Z.of_nat 64). rewrite <- (key_pad_length b K) at 2.
  apply once_repr; try done; [by apply bytes_key_pad |]. unfold short_portion. by rewrite key_pad_length.
Qed.

Lemma keyed_once iv ic oc K m :
  length iv = 8%nat -> buffer 64 (buf ic) -> buffer 64 (buf oc) -> bytes K -> (length K <= 64)%nat ->
  bytes m -> short_portion m ->
  keyed iv {| inner := blake256_update (blake256_update (blake_init iv ic) (key_pad 64 0x36 K) 512) m
                         (8 * Z.of_nat (length m));
              outer := blake256_update (blake_init iv oc) (key_pad 64 0x5c K) 512 |} K m.
Proof.
  intros Hiv Hi Ho HK Hl Hm Hs. split; cbn [inner outer]; [| by apply pad_repr].
  rewrite <- received_smooth by (by rewrite key_pad_length). apply blake_update_repr; try done. by apply pad_repr.
Qed.

(** The inner digest goes to the outer context. *)
Lemma outer_repr iv c K D n :
  length iv = 8%nat -> repr iv c (key_pad 64 0x5c K) -> bytes D -> (n <= length D)%nat -> (n < 64)%nat ->
  repr iv (blake256_update c D (8 * Z.of_nat n)) (key_pad 64 0x5c K ++ take n D).
Proof.
  intros Hiv Hc HD Hn Hn64. assert (Hl : length (take n D) = n) by (rewrite length_take; lia).
  assert (Hb : buflen c = 8 * Z.of_nat 0).
  { rewrite (repr_buflen _ _ _ Hc), (length_rest 64), key_pad_length by lia. done. }
  assert (Hu : blake256_update c D (8 * Z.of_nat n) = blake256_update c (take n D) (8 * Z.of_nat n)).
  { rewrite !(update_short c _ n 0) by (done || lia || auto). by rewrite take_take, Nat.min_id. }
  rewrite Hu. rewrite <- Hl at 2. rewrite <- received_smooth by (by rewrite key_pad_length).
  apply blake_update_repr; try done; [by apply Forall_take | rewrite Hl; lia].
Qed.

Lemma hmac_pads H K m :
  (length K <= 64)%nat ->
  Rfc2104.hmac H 64 K m = H (key_pad 64 0x5c K ++ H (key_pad 64 0x36 K ++ m)).
Proof.
  intros Hl. unfold Rfc2104.hmac, Rfc2104.key_block. rewrite (proj2 (Nat.ltb_ge 64 (length K))) by lia.
  by rewrite <- !key_pad_spec by done.
Qed.
Lemma hmac_long_key H K m :
  (64 < length K)%nat -> (length (H K) <= 64)%nat -> Rfc2104.hmac H 64 K m = Rfc2104.hmac H 64 (H K) m.
Proof.
  intros Hl HH. unfold Rfc2104.hmac, Rfc2104.key_block. rewrite (proj2 (Nat.ltb_lt 64 (length K))) by lia.
  by rewrite (proj2 (Nat.ltb_ge 64 (length (H K)))) by lia.
Qed.

Definition hmac_bufs (c : hmac_state) : Prop := buffer 64 (buf c.(inner)) /\ buffer 64 (buf c.(outer)).

(** Shortened key: 32 bytes of BLAKE-256, or [n] of them. *)
Lemma short_key_256 S0 K n :
  buffer 64 (buf S0) -> bytes K -> short_portion K -> (n <= 32)%nat ->
  let K' := if (64 <? length K)%nat then take n (blake256_hash S0 K) else K in
  bytes K' /\ (length K' <= 64)%nat /\
  K' = if (64 <? length K)%nat then take n (Blake.blake256 K) else K.
Proof.
  intros Hb HK Hs Hn. cbv zeta. rewrite blake256_hash_eq by done.
  destruct (Nat.ltb_spec 64 (length K)) as [Hl | Hl]; [| done].
  split; [apply Forall_take, hash_bytes |]. split; [| done]. rewrite length_take. lia.
Qed.

Lemma hmac256_final c K m :
  keyed blake256_IV c K m -> (length K <= 64)%nat ->
  fst (hmac_blake256_final c) = Rfc2104.hmac Blake.blake256 64 K m.
Proof.
  intros [Hi Ho] HK. unfold hmac_blake256_final. rewrite hmac_pads by done.
  pose proof (blake256_final_eq _ _ Hi) as Hf. destruct (blake256_final (inner c)) as [ih ic].
  cbn [fst] in Hf. subst ih. set (D := Blake.blake256 (key_pad 64 0x36 K ++ m)).
  assert (HD : length D = 32%nat) by by apply hash_length.
  pose proof (outer_repr blake256_IV (outer c) K D 32 eq_refl Ho (hash_bytes _ _ _) ltac:(lia) ltac:(lia)) as Hr.
  rewrite take_ge in Hr by lia. pose proof (blake256_final_eq _ _ Hr) as Hg.
  change (8 * Z.of_nat 32) with 256 in Hg. by destruct (blake256_final _) as [dg oc].
Qed.

Lemma hmac224_final c K m :
  keyed blake224_IV c K m -> (length K <= 64)%nat ->
  take 28 (fst (hmac_blake224_final c)) = Rfc2104.hmac Blake.blake224 64 K m.
Proof.
  intros [Hi Ho] HK. unfold hmac_blake224_final, blake224_update. rewrite hmac_pads by done.
  pose proof (final_h_eq blake224_IV 0 (inner c) _ eq_refl ltac:(auto) Hi) as Hf.
  change (blake224_final (inner c)) with (blake256_final_h (inner c) (0x80 + 0) 0).
  destruct (blake256_final_h (inner c) (0x80 + 0) 0) as [ih ic]. cbn [fst] in Hf. subst ih.
  set (D := Blake.hash blake224_IV 0 (key_pad 64 0x36 K ++ m)). assert (HD : length D = 32%nat) by by apply hash_length.
  pose proof (outer_repr blake224_IV (outer c) K D 28 eq_refl Ho (hash_bytes _ _ _) ltac:(lia) ltac:(lia)) as Hr.
  change (take 28 D) with (Blake.blake224 (key_pad 64 0x36 K ++ m)) in Hr.
  pose proof (blake224_final_eq _ _ Hr) as Hg. change (8 * Z.of_nat 28) with 224 in Hg.
  by destruct (blake224_final _) as [dg oc].
Qed.

(** ** The theorems *)

(** C23: BLAKE-256 and BLAKE-224, streaming and in one call: from contexts
    that held anything, portions that leave nothing unaligned behind ([smooth])
    give the digest of their concatenation, and so does the one-call form for
    every message; the 224-bit digest is the first 28 of the 32 bytes that are
    written. *)
Theorem blake256_portions c portions (m := concat portions) :
  buffer 64 (buf c) -> Forall (Forall is_byte) portions -> Forall short_portion portions ->
  smooth_portions 0 portions = true -> short_portion m ->
  fst (blake256_final (feed_bits (blake256_init c) portions)) = Blake.blake256 m /\
  take 28 (fst (blake224_final (feed_bits (blake224_init c) portions))) = Blake.blake224 m /\
  length (fst (blake224_final (feed_bits (blake224_init c) portions))) = 32%nat /\
  blake256_hash c m = Blake.blake256 m /\ take 28 (blake224_hash c m) = Blake.blake224 m.
Proof.
  intros Hb Hp Hs Hsm Hm. destruct IVs as [H256 H224].
  assert (Hmb : bytes m) by by apply Forall_concat.
  pose proof (feed_bits_repr _ _ [] portions H256 (blake_init_repr _ c H256 Hb) Hp Hs Hsm) as Hr.
  pose proof (feed_bits_repr _ _ [] portions H224 (blake_init_repr _ c H224 Hb) Hp Hs Hsm) as Hr'.
  split; [by apply blake256_final_eq |]. split; [by apply blake224_final_eq |]. split.
  - pose proof (final_h_eq blake224_IV 0 _ _ H224 ltac:(auto) Hr') as Hf.
    transitivity (length (Blake.hash blake224_IV 0 ([] ++ concat portions))); [| by apply hash_length].
    by f_equal.
  - split; [by apply blake256_hash_eq | by apply blake224_hash_eq].
Qed.

Definition some_state : state := {| h := []; s := []; t := []; buflen := 7; nullt := 1; buf := replicate 64 9 |}.

Lemma blake256_portions_witness :
  let ps := [[97]; [98; 99]; replicate 61 0; [1]] in
  let c := some_state in let m := concat ps in
  fst (blake256_final (feed_bits (blake256_init c) ps)) = Blake.blake256 m /\
  take 28 (fst (blake224_final (feed_bits (blake224_init c) ps))) = Blake.blake224 m /\
  length (fst (blake224_final (feed_bits (blake224_init c) ps))) = 32%nat /\
  blake256_hash c m = Blake.blake256 m /\ take 28 (blake224_hash c m) = Blake.blake224 m.
Proof.
  apply (blake256_portions some_state [[97]; [98; 99]; replicate 61 0; [1]]).
  - by apply (bool_decide_unpack _).
  - by apply (bool_decide_unpack _); vm_compute.
  - repeat (apply Forall_cons_2; [by vm_compute |]). apply Forall_nil_2.
  - by vm_compute.
  - by vm_compute.
Defined.

(** what the streaming interface hashes when a portion follows buffered
    bytes: it is right exactly in the [smooth] cases; otherwise the bytes that
    were waiting are lost when the portion is empty or a multiple of 64 bytes
    long, and come after its full blocks when it is not. *)
Theorem blake256_two_portions c m d :
  buffer 64 (buf c) -> bytes m -> bytes d -> short_portion m -> short_portion d ->
  fst (blake256_final (feed_bits (blake256_init c) [m; d])) =
  Blake.blake256
    (if smooth (length m mod 64) (length d) then m ++ d
     else if (length d mod 64 =? 0)%nat then whole 64 m ++ d
     else whole 64 m ++ whole 64 d ++ rest m ++ rest d).
Proof.
  intros Hb Hm Hd Hsm Hsd. destruct IVs as [H256 _]. cbn [feed_bits fold_left].
  pose proof (once_repr _ c m H256 Hb Hm Hsm) as Hr.
  pose proof (blake_update_repr _ _ _ d H256 Hr Hd Hsd) as Hr'. etransitivity; [exact (blake256_final_eq _ _ Hr') |].
  unfold received, smooth. by rewrite (length_rest 64) by lia.
Qed.

(** The digest of one byte followed by a block is the digest of the block. *)
Lemma blake256_two_portions_witness :
  fst (blake256_final (feed_bits (blake256_init some_state) [[1]; replicate 64 0]))
  = Blake.blake256 (replicate 64 0) /\
  Blake.blake256 (replicate 64 0) <> Blake.blake256 ([1] ++ replicate 64 0).
Proof.
  split; [| by vm_compute].
  apply (blake256_two_portions some_state [1] (replicate 64 0));
    [by apply (bool_decide_unpack _) | by apply (bool_decide_unpack _); vm_compute
    | by apply (bool_decide_unpack _); vm_compute | by vm_compute | by vm_compute].
Defined.

(** HMAC: with any key, BLAKE-256 is keyed as RFC 2104 says; so is
    BLAKE-224, except that a key of more than 64 bytes is replaced with the
    first 28 bytes of its BLAKE-256 digest and not with its BLAKE-224
    digest. *)
Theorem hmac_blake256_spec S0 c K m
    (K' := if (64 <? length K)%nat then take 28 (Blake.blake256 K) else K) :
  buffer 64 (buf S0) -> hmac_bufs c -> bytes K -> bytes m -> short_portion K -> short_portion m ->
  hmac_blake256_hash S0 c K m = Rfc2104.hmac Blake.blake256 64 K m /\
  take 28 (hmac_blake224_hash S0 c K m) = Rfc2104.hmac Blake.blake224 64 K' m.
Proof.
  intros HS [Hi Ho] HK Hm HsK Hsm. destruct IVs as [H256 H224]. split.
  - unfold hmac_blake256_hash, hmac_blake256_init, hmac_blake256_update. rewrite bit_length by done.
    destruct (short_key_256 S0 K 32 HS HK HsK) as (Hb & Hl & Hk); [lia |]. rewrite Hk in *. clear Hk.
    set (Ks := if (64 <? length K)%nat then take 32 (Blake.blake256 K) else K) in *. cbn [inner outer].
    transitivity (Rfc2104.hmac Blake.blake256 64 Ks m).
    + apply hmac256_final; [| done]. by apply keyed_once.
    + unfold Ks. destruct (Nat.ltb_spec 64 (length K)); [| done].
      assert (HL : length (Blake.blake256 K) = 32%nat) by by apply hash_length.
      rewrite take_ge by lia. symmetry. apply hmac_long_key; lia.
  - unfold hmac_blake224_hash, hmac_blake224_init, hmac_blake224_update, blake224_update.
    rewrite bit_length by done.
    destruct (short_key_256 S0 K 28 HS HK HsK) as (Hb & Hl & Hk); [lia |]. rewrite Hk in *. fold K' in Hb, Hl |- *.
    apply hmac224_final; [| done]. by apply keyed_once.
Qed.

Lemma hmac_blake256_spec_witness :
  hmac_blake256_hash some_state {| inner := some_state; outer := some_state |} (replicate 70 7) [1; 2]
  = Rfc2104.hmac Blake.blake256 64 (replicate 70 7) [1; 2] /\
  take 28 (hmac_blake224_hash some_state {| inner := some_state; outer := some_state |} (replicate 70 7) [1; 2])
  = Rfc2104.hmac Blake.blake224 64 (take 28 (Blake.blake256 (replicate 70 7))) [1; 2].
Proof.
  apply (hmac_blake256_spec some_state {| inner := some_state; outer := some_state |} (replicate 70 7) [1; 2]);
    [by apply (bool_decide_unpack _) | by split; apply (bool_decide_unpack _)
    | by apply (bool_decide_unpack _); vm_compute | by apply (bool_decide_unpack _); vm_compute
    | by vm_compute | by vm_compute].
Defined.
