(* ===== verification/Jh.v ===== *)
(** * JH: [xmrig/crypto/cn/c_jh.c]

    The bit-slice implementation of JH-224, 256, 384 and 512 on a
    little-endian machine with 64-bit words: row [x[i]] of the state is the
    pair of words [2 i] and [2 i + 1] of the list [x].  The reference
    ([JhSpec]) works on the 128 columns, a pair of 4-bit elements each. *)

From S2P Require Import Prelude Endian Streaming.

(** ** The code: tables *)

(** Byte strings, first byte first. *)
Definition JH224_H0 : list Z := be_bytes 128
  0x2DFEDD62F99A98ACAE7CACD619D634E7A4831005BC301216B86038C6C966149466D9899F2580706FCE9EA31B1D9B1ADC11E8325F7B366E10F994857F02FA06C11B4F1B5CD8C840B397F6A17F6E738099DCDF93A5ADEAA3D3A431E8DEC9539A6822B4A98AEC86A1E4D574AC959CE56CF015960DEAB5AB2BBF9611DCF0DD64EA6E.
Definition JH256_H0 : list Z := be_bytes 128
  0xEB98A3412C20D3EB92CDBE7B9CB245C11C93519160D4C7FA260082D67E508A03A4239E267726B945E0FB1A48D41A9477CDB5AB26026B177A56F024420FFF2FA871A396897F2E4D751D144908F77DE262277695F776248F9487D5B6574780296C5C5E272DAC8E0D6C518450C657057A0F7BE4D367702412EA89E3AB13D31CD769.
Definition JH384_H0 : list Z := be_bytes 128
  0x481E3BC6D813398A6D3B5E894ADE879B63FAEA68D480AD2E332CCB21480F826798AEC84D9082B928D455EA304111424936F555B2924847ECC7250A93BAF43CE1569B7F8A27DB454C9EFCBD496397AF0E589FC27D26AA80CD80C08B8C9DEB2EDA8A7981E8F8D5373AF43967ADDDD17A71A9B4D3BDA475D394976C3FBA9842737F.
Definition JH512_H0 : list Z := be_bytes 128
  0x6FD14B963E00AA17636A2E057A15D5438A225E8D0C97EF0BE9341259F2B3C361891DA0C1536F801E2AA9056BEA2B6D80588ECCDB2075BAA6A90F3A76BAF83BF70169E60541E34A6946B58A8E2E6FE65A1047A7D0C1843C243B6E71B12D5AC199CF57F6EC9DB1F856A706887C5716B156E3C2FCDFE68517FB545A4678CC8CDD4B.
Definition E8_bitslice_roundconstant : list (list Z) := map (be_bytes 32) [
  0x72D5DEA2DF15F8677B84150AB723155781ABD6904D5A87F64E9F4FC5C3D12B40;
  0xEA983AE05C45FA9C03C5D29966B2999A660296B4F2BB538AB556141A88DBA231;
  0x03A35A5C9A190EDB403FB20A87C144101C051980849E951D6F33EBAD5EE7CDDC;
  0x10BA139202BF6B41DC786515F7BB27D00A2C813937AA78503F1ABFD2410091D3;
  0x422D5A0DF6CC7E90DD629F9C92C097CE185CA70BC72B44ACD1DF65D663C6FC23;
  0x976E6C039EE0B81A2105457E446CECA8EEF103BB5D8E61FAFD9697B294838197;
  0x4A8E8537DB03302F2A678D2DFB9F6A958AFE7381F8B8696C8AC77246C07F4214;
  0xC5F4158FBDC75EC475446FA78F11BB8052DE75B7AEE488BC82B8001E98A6A3F4;
  0x8EF48F33A9A36315AA5F5624D5B7F989B6F1ED207C5AE0FD36CAE95A06422C36;
  0xCE2935434EFE983D533AF974739A4BA7D0F51F596F4E81860E9DAD81AFD85A9F;
  0xA7050667EE34626A8B0B28BE6EB9172747740726C680103FE0A07E6FC67E487B;
  0x0D550AA54AF8A4C091E3E79F978EF19E8676728150608DD47E9E5A41F3E5B062;
  0xFC9F1FEC4054207AE3E41A00CEF4C9844FD794F59DFA95D8552E7E1124C354A5;
  0x5BDF7228BDFE6E2878F57FE20FA5C4B205897CEFEE49D32E447E9385EB28597F;
  0x705F6937B324314A5E8628F11DD6E465C71B770451B920E774FE43E823D4878A;
  0x7D29E8A3927694F2DDCB7A099B30D9C11D1B30FB5BDC1BE0DA24494FF29C82BF;
  0xA4E7BA31B470BFFF0D324405DEF8BC483BAEFC3253BBD339459FC3C1E0298BA0;
  0xE5C905FDF7AE090F947034124290F134A271B701E344ED95E93B8E364F2F984A;
  0x88401D63A06CF61547C1444B8752AFFF7EBB4AF1E20AC6304670B6C5CC6E8CE6;
  0xA4D5A456BD4FCA00DA9D844BC83E18AE7357CE453064D1ADE8A6CE68145C2567;
  0xA3DA8CF2CB0EE11633E906589A94999A1F60B220C26F847BD1CEAC7FA0D18518;
  0x32595BA18DDD19D3509A1CC0AAA5B4469F3D6367E4046BBAF6CA19AB0B56EE7E;
  0x1FB179EAA9282174E9BDF7353B3651EE1D57AC5A7550D3763A46C2FEA37D7001;
  0xF735C1AF98A4D84278EDEC209E6B677941836315EA3ADBA8FAC33B4D32832C83;
  0xA7403B1F1C2747F35940F034B72D769AE73E4E6CD2214FFDB8FD8D39DC5759EF;
  0x8D9B0C492B49EBDA5BA2D74968F3700D7D3BAED07A8D5584F5A5E9F0E4F88E65;
  0xA0B8A2F436103B530CA8079E753EEC5A9168949256E8884F5BB05C55F8BABC4C;
  0xE3BB3B99F387947B75DAF4D6726B1C5D64AEAC28DC34B36D6C34A550B828DB71;
  0xF861E2F2108D512AE3DB643359DD75FC1CACBCF143CE3FA267BBD13C02E843B0;
  0x330A5BCA8829A1757F34194DB416535C923B94C30E794D1E797475D7B6EEAF3F;
  0xEAA8D4F7BE1A39215CF47E094C23275126A32453BA323CD244A3174A6DA6D5AD;
  0xB51D3EA6AFF2C90883593D98916B3C564CF87CA17286604D46E23ECC086EC7F6;
  0x2F9833B3B1BC765E2BD666A5EFC4E62A06F4B6E8BEC1D43674EE8215BCEF2163;
  0xFDC14E0DF453C969A77D5AC4065858267EC1141606E0FA167E90AF3D28639D3F;
  0xD2C9F2E3009BD20C5FAACE30B7D40C30742A5116F2E032980DEB30D8E3CEF89A;
  0x4BC59E7BB5F17992FF51E66E048668D39B234D57E6966731CCE6A6F3170A7505;
  0xB17681D913326CCE3C175284F805A262F42BCBB378471547FF46548223936A48;
  0x38DF58074E5E6565F2FC7C89FC86508E31702E44D00BCA86F04009A23078474E;
  0x65A0EE39D1F73883F75EE937E42C3ABD2197B2260113F86FA344EDD1EF9FDEE7;
  0x8BA0DF15762592D93C85F7F612DC42BED8A7EC7CAB27B07E538D7DDAAA3EA8DE;
  0xAA25CE93BD0269D85AF643FD1A7308F9C05FEFDA174A19A5974D66334CFD216A;
  0x35B49831DB411570EA1E0FBBEDCD549B9AD063A151974072F6759DBF91476FE2 ].

(** [(uint64* )p], [n] words. *)
Definition words64 (n : nat) (p : list Z) : list Z :=
  map (fun i => le_word (take 8 (drop (8 * i) p))) (seq 0 n).

Inductive HashReturn := SUCCESS | FAIL | BAD_HASHLEN.

Record hashState := {
  hashbitlen : Z; databitlen : Z; datasize_in_buffer : Z; x : list Z; buffer_ : list Z
}.
Definition set_x (st : hashState) (x : list Z) : hashState :=
  {| hashbitlen := st.(hashbitlen); databitlen := st.(databitlen);
     datasize_in_buffer := st.(datasize_in_buffer); x := x; buffer_ := st.(buffer_) |}.
Definition set_buffer (st : hashState) (buffer_ : list Z) : hashState :=
  {| hashbitlen := st.(hashbitlen); databitlen := st.(databitlen);
     datasize_in_buffer := st.(datasize_in_buffer); x := st.(x); buffer_ := buffer_ |}.
Definition set_datasize (st : hashState) (n : Z) : hashState :=
  {| hashbitlen := st.(hashbitlen); databitlen := st.(databitlen);
     datasize_in_buffer := n; x := st.(x); buffer_ := st.(buffer_) |}.
Definition set_databitlen (st : hashState) (n : Z) : hashState :=
  {| hashbitlen := st.(hashbitlen); databitlen := n;
     datasize_in_buffer := st.(datasize_in_buffer); x := st.(x); buffer_ := st.(buffer_) |}.

(** ** The code: E8 *)

Definition SWAP1 (x : Z) : Z :=
  Z.lor (u64 (Z.shiftl (Z.land x 0x5555555555555555) 1)) (Z.shiftr (Z.land x 0xaaaaaaaaaaaaaaaa) 1).
Definition SWAP2 (x : Z) : Z :=
  Z.lor (u64 (Z.shiftl (Z.land x 0x3333333333333333) 2)) (Z.shiftr (Z.land x 0xcccccccccccccccc) 2).
Definition SWAP4 (x : Z) : Z :=
  Z.lor (u64 (Z.shiftl (Z.land x 0x0f0f0f0f0f0f0f0f) 4)) (Z.shiftr (Z.land x 0xf0f0f0f0f0f0f0f0) 4).
Definition SWAP8 (x : Z) : Z :=
  Z.lor (u64 (Z.shiftl (Z.land x 0x00ff00ff00ff00ff) 8)) (Z.shiftr (Z.land x 0xff00ff00ff00ff00) 8).
Definition SWAP16 (x : Z) : Z :=
  Z.lor (u64 (Z.shiftl (Z.land x 0x0000ffff0000ffff) 16)) (Z.shiftr (Z.land x 0xffff0000ffff0000) 16).
Definition SWAP32 (x : Z) : Z := Z.lor (u64 (Z.shiftl x 32)) (Z.shiftr x 32).

Definition words8 : Type := Z * Z * Z * Z * Z * Z * Z * Z.

Definition L (m : words8) : words8 :=
  let '(m0, m1, m2, m3, m4, m5, m6, m7) := m in
  let m4 := Z.lxor m4 m1 in
  let m5 := Z.lxor m5 m2 in
  let m6 := Z.lxor m6 (Z.lxor m0 m3) in
  let m7 := Z.lxor m7 m0 in
  let m0 := Z.lxor m0 m5 in
  let m1 := Z.lxor m1 m6 in
  let m2 := Z.lxor m2 (Z.lxor m4 m7) in
  let m3 := Z.lxor m3 m4 in
  (m0, m1, m2, m3, m4, m5, m6, m7).

Definition SS (cc0 cc1 : Z) (m : words8) : words8 :=
  let '(m0, m1, m2, m3, m4, m5, m6, m7) := m in
  let m3 := not64 m3 in
  let m7 := not64 m7 in
  let m0 := Z.lxor m0 (Z.land (not64 m2) cc0) in
  let m4 := Z.lxor m4 (Z.land (not64 m6) cc1) in
  let temp0 := Z.lxor cc0 (Z.land m0 m1) in
  let temp1 := Z.lxor cc1 (Z.land m4 m5) in
  let m0 := Z.lxor m0 (Z.land m2 m3) in
  let m4 := Z.lxor m4 (Z.land m6 m7) in
  let m3 := Z.lxor m3 (Z.land (not64 m1) m2) in
  let m7 := Z.lxor m7 (Z.land (not64 m5) m6) in
  let m1 := Z.lxor m1 (Z.land m0 m2) in
  let m5 := Z.lxor m5 (Z.land m4 m6) in
  let m2 := Z.lxor m2 (Z.land m0 (not64 m3)) in
  let m6 := Z.lxor m6 (Z.land m4 (not64 m7)) in
  let m0 := Z.lxor m0 (Z.lor m1 m3) in
  let m4 := Z.lxor m4 (Z.lor m5 m7) in
  let m3 := Z.lxor m3 (Z.land m1 m2) in
  let m7 := Z.lxor m7 (Z.land m5 m6) in
  let m1 := Z.lxor m1 (Z.land temp0 m0) in
  let m5 := Z.lxor m5 (Z.land temp1 m4) in
  let m2 := Z.lxor m2 temp0 in
  let m6 := Z.lxor m6 temp1 in
  (m0, m1, m2, m3, m4, m5, m6, m7).

(** [SS] and [L] on [x[0][i], x[2][i], .., x[7][i]], then the swaps of the odd
    rows. *)
Definition round_body (rc : nat) (SWAP : Z -> Z) (x : list Z) (i : nat) : list Z :=
  let cc := words64 4 (nth rc E8_bitslice_roundconstant []) in
  let '(m0, m1, m2, m3, m4, m5, m6, m7) :=
    L (SS cc.[i] cc.[i + 2] (x.[0 + i], x.[4 + i], x.[8 + i], x.[12 + i],
                             x.[2 + i], x.[6 + i], x.[10 + i], x.[14 + i])) in
  let x := <[(0 + i)%nat := m0]> (<[(4 + i)%nat := m1]> (<[(8 + i)%nat := m2]> (<[(12 + i)%nat := m3]> x))) in
  <[(2 + i)%nat := SWAP m4]> (<[(6 + i)%nat := SWAP m5]> (<[(10 + i)%nat := SWAP m6]> (<[(14 + i)%nat := SWAP m7]> x))).
(** [temp0 = x[i][0]; x[i][0] = x[i][1]; x[i][1] = temp0;]. *)
Definition swap_row (x : list Z) (i : nat) : list Z :=
  let temp0 := x.[2 * i] in
  let x := <[(2 * i)%nat := x.[2 * i + 1]]> x in
  <[(2 * i + 1)%nat := temp0]> x.

(** One turn of the loop: seven rounds. *)
Definition E8_turn (x : list Z) (roundnumber : nat) : list Z :=
  let x := fold_left (round_body (roundnumber + 0) SWAP1) [0; 1]%nat x in
  let x := fold_left (round_body (roundnumber + 1) SWAP2) [0; 1]%nat x in
  let x := fold_left (round_body (roundnumber + 2) SWAP4) [0; 1]%nat x in
  let x := fold_left (round_body (roundnumber + 3) SWAP8) [0; 1]%nat x in
  let x := fold_left (round_body (roundnumber + 4) SWAP16) [0; 1]%nat x in
  let x := fold_left (round_body (roundnumber + 5) SWAP32) [0; 1]%nat x in
  let x := fold_left (round_body (roundnumber + 6) (fun m => m)) [0; 1]%nat x in
  fold_left swap_row [1; 3; 5; 7]%nat x.
Definition E8 (x : list Z) : list Z := fold_left E8_turn [0; 7; 14; 21; 28; 35]%nat x.

(** ** The code: compression and hashing *)

Definition F8 (st : hashState) : hashState :=
  let buf := words64 8 st.(buffer_) in
  let x := fold_left (fun x i => <[i := Z.lxor x.[i] buf.[i]]> x) (seq 0 8) st.(x) in
  let x := E8 x in
  set_x st (fold_left (fun x i => <[(i + 8)%nat := Z.lxor x.[i + 8] buf.[i]]> x) (seq 0 8) x).

Definition Init (st : hashState) (hashbitlen : Z) : hashState :=
  let H0 := if hashbitlen =? 224 then JH224_H0 else if hashbitlen =? 256 then JH256_H0
    else if hashbitlen =? 384 then JH384_H0 else JH512_H0 in
  {| hashbitlen := hashbitlen; databitlen := 0; datasize_in_buffer := 0;
     x := words64 16 H0; buffer_ := st.(buffer_) |}.

(** [for ( ; databitlen >= 512; ...)]; [data] is what is left from [index]. *)
Fixpoint update_loop (fuel : nat) (st : hashState) (data : list Z) (databitlen : Z) :
  option (hashState * list Z * Z) :=
  match fuel with
  | O => Some (st, data, databitlen)
  | S fuel =>
      if 512 <=? databitlen then
        b ← memcpy 0 64 data st.(buffer_);
        let st := F8 (set_buffer st b) in
        update_loop fuel st (drop 64 data) (databitlen - 512)
      else Some (st, data, databitlen)
  end.

(** The first copy takes the rest of a block from [data], also when fewer
    bytes are hashed. *)
Definition Update (st : hashState) (data : list Z) (len : Z) : option hashState :=
  let st := set_databitlen st (u64 (st.(databitlen) + len)) in
  let n := Z.to_nat (Z.shiftr st.(datasize_in_buffer) 3) in
  '(st, len) ← (
    if (0 <? st.(datasize_in_buffer)) && (u64 (st.(datasize_in_buffer) + len) <? 512) then
      let c := if Z.land len 7 =? 0 then (64 - n)%nat else (64 - n + 1)%nat in
      b ← memcpy n c data st.(buffer_);
      let st := set_buffer st b in
      Some (set_datasize st (u64 (st.(datasize_in_buffer) + len)), 0)
    else Some (st, len));
  '(st, data, len) ← (
    if (0 <? st.(datasize_in_buffer)) && (512 <=? u64 (st.(datasize_in_buffer) + len)) then
      b ← memcpy n (64 - n) data st.(buffer_);
      let st' := F8 (set_buffer st b) in
      Some (set_datasize st' 0, drop (64 - n) data, u64 (len - (512 - st.(datasize_in_buffer))))
    else Some (st, data, len));
  '(st, data, len) ← update_loop (Z.to_nat (len / 512)) st data len;
  if 0 <? len then
    let c := Z.to_nat (Z.shiftr (Z.land len 0x1ff) 3) in
    let c := if Z.land len 7 =? 0 then c else (c + 1)%nat in
    b ← memcpy 0 c data st.(buffer_);
    Some (set_datasize (set_buffer st b) len)
  else Some st.

(** [buffer[63] = databitlen & 0xff; ..; buffer[56] = ..]. *)
Definition put_length (n : Z) (b : list Z) : list Z :=
  fold_left (fun b i => <[(63 - i)%nat := Z.land (Z.shiftr n (8 * Z.of_nat i)) 0xff]> b) (seq 0 8) b.

(** The bytes written to [hashval]. *)
Definition Final (st : hashState) : list Z * hashState :=
  let st :=
    if Z.land st.(databitlen) 0x1ff =? 0 then
      F8 (set_buffer st (put_length st.(databitlen) (<[0%nat := 0x80]> (replicate 64 0))))
    else
      let i := Z.to_nat (Z.shiftr (Z.land st.(databitlen) 0x1ff) 3) in
      let from := if Z.land st.(datasize_in_buffer) 7 =? 0 then i else (i + 1)%nat in
      let b := write_at from (replicate (64 - from) 0) st.(buffer_) in
      let b := <[i := Z.lor b.[i] (Z.shiftl 1 (7 - Z.land st.(databitlen) 7))]> b in
      let st := F8 (set_buffer st b) in
      F8 (set_buffer st (put_length st.(databitlen) (replicate 64 0))) in
  let bytes_x := concat (map (le_bytes 8) st.(x)) in
  let out :=
    if st.(hashbitlen) =? 224 then take 28 (drop (64 + 36) bytes_x)
    else if st.(hashbitlen) =? 256 then take 32 (drop (64 + 32) bytes_x)
    else if st.(hashbitlen) =? 384 then take 48 (drop (64 + 16) bytes_x)
    else if st.(hashbitlen) =? 512 then take 64 (drop 64 bytes_x) else [] in
  (out, st).

(** [S0] is the uninitialised local variable. *)
Definition jh_hash (S0 : hashState) (hashbitlen : Z) (data : list Z) (databitlen : Z) (hashval : list Z) :
  option (HashReturn * list Z) :=
  if (hashbitlen =? 224) || (hashbitlen =? 256) || (hashbitlen =? 384) || (hashbitlen =? 512) then
    st ← Update (Init S0 hashbitlen) data databitlen;
    Some (SUCCESS, write_at 0 (fst (Final st)) hashval)
  else Some (BAD_HASHLEN, hashval).

(** ** JH, element by element *)

Module JhSpec.
(** The S-boxes and the multiplication by [x] in GF(16), x^4 = x + 1. *)
Definition S0 : list nat := [9; 0; 4; 11; 13; 12; 3; 15; 1; 10; 2; 6; 7; 5; 8; 14]%nat.
Definition S1 : list nat := [3; 12; 6; 13; 5; 7; 1; 9; 15; 2; 0; 4; 11; 10; 14; 8]%nat.
Definition Sbox (c : bool) (a : nat) : nat := nth a (if c then S1 else S0) 0%nat.
Definition double (a : nat) : nat := if (a <? 8)%nat then (2 * a)%nat else Nat.lxor (2 * a - 16) 3.
(** The (4,2,3) MDS code. *)
Definition mds (a b : nat) : nat * nat :=
  let d := Nat.lxor b (double a) in let c := Nat.lxor a (double d) in (c, d).

(** The constant bit of element [e] (even, odd) of column [j] in round [r]. *)
Definition cbit (r e j : nat) : bool :=
  Z.testbit (le_word (take 16 (drop (16 * e) (nth r E8_bitslice_roundconstant [])))) (Z.of_nat j).
Definition column := (nat * nat)%type.
Definition get (st : list column) (j : nat) : column := nth j st (0, 0)%nat.
(** S-boxes and MDS on every column. *)
Definition layer (st : list column) (r : nat) : list column :=
  map (fun j => let '(a, b) := get st j in mds (Sbox (cbit r 0 j) a) (Sbox (cbit r 1 j) b)) (seq 0 128).
(** The odd elements of columns [j] and [j xor n] change places. *)
Definition permute (n : nat) (st : list column) : list column :=
  map (fun j => (fst (get st j), snd (get st (Nat.lxor j n)))) (seq 0 128).
Definition round (st : list column) (r : nat) : list column := permute (2 ^ (r mod 7)) (layer st r).

(** Four bits, the first one the most significant. *)
Definition nibble (b0 b1 b2 b3 : bool) : nat :=
  (8 * Nat.b2n b0 + 4 * Nat.b2n b1 + 2 * Nat.b2n b2 + Nat.b2n b3)%nat.
(** Column [j] of the state: its bits in the even rows and in the odd rows. *)
Definition col (x : list Z) (j : nat) : column :=
  let bit row := Z.testbit x.[2 * row + j / 64] (Z.of_nat (j mod 64)) in
  (nibble (bit 0) (bit 2) (bit 4) (bit 6), nibble (bit 1) (bit 3) (bit 5) (bit 7))%nat.
Definition cols (x : list Z) : list column := map (col x) (seq 0 128).
(** Back to words: bit [3 - row / 2] of the element is the one of row [row]. *)
Definition uncols (st : list column) : list Z :=
  map (fun k =>
    let row := (k / 2)%nat in
    fold_left (fun w b =>
      let c := get st (64 * (k mod 2) + b) in
      let e := if Nat.odd row then snd c else fst c in
      Z.lor w (Z.shiftl (Z.b2z (Nat.testbit e (3 - row / 2))) (Z.of_nat b))) (seq 0 64) 0) (seq 0 16).

Definition E8 (x : list Z) : list Z := uncols (fold_left round (seq 0 42) (cols x)).

(** The rounds undone one by one, the last one first. *)
Definition Sbox_inv (c : bool) (a : nat) : nat :=
  default 0%nat (fst <$> list_find (fun b => b = a) (if c then S1 else S0)).
Definition mds_inv (c d : nat) : nat * nat :=
  let a := Nat.lxor c (double d) in (a, Nat.lxor d (double a)).
Definition round_inv (st : list column) (r : nat) : list column :=
  let st := permute (2 ^ (r mod 7)) st in
  map (fun j => let '(c, d) := get st j in let '(a, b) := mds_inv c d in
    (Sbox_inv (cbit r 0 j) a, Sbox_inv (cbit r 1 j) b)) (seq 0 128).
Definition E8_inv (x : list Z) : list Z := uncols (fold_left round_inv (rev (seq 0 42)) (cols x)).

(** The message enters the first half of the state before [E8] and the
    second half after it. *)
Definition F8 (x : list Z) (block : list Z) : list Z :=
  let m := map (fun i => le_word (take 8 (drop (8 * i) block))) (seq 0 8) in
  let y := E8 (xor_bytes (take 8 x) m ++ drop 8 x) in
  take 8 y ++ xor_bytes (drop 8 y) m.

Definition pad (m : list Z) : list Z :=
  m ++ [0x80] ++ replicate (47 + (64 - length m mod 64) mod 64) 0 ++ be_bytes 16 (8 * Z.of_nat (length m)).
(** The initial state: the digest length, compressed with an empty block. *)
Definition H0 (n : Z) : list Z :=
  F8 (map (fun i => le_word (take 8 (drop (8 * i) (be_bytes 2 n ++ replicate 126 0)))) (seq 0 16)) (replicate 64 0).
Definition hash (n : Z) (m : list Z) : list Z :=
  let x := absorb_all F8 64 (H0 n) (pad m) in
  drop (128 - Z.to_nat (n / 8)) (concat (map (le_bytes 8) x)).
End JhSpec.

(** ** The round function *)

Lemma not64_testbit y j : 0 <= j < 64 -> Z.testbit (not64 y) j = negb (Z.testbit y j).
Proof. intros. unfold not64. rewrite u64_mod, Z.mod_pow2_bits_low, Z.lnot_spec by lia. done. Qed.

(** The bits of eight words at one position, as the two elements of a column. *)
Definition elements (m : words8) (j : Z) : nat * nat :=
  let '(m0, m1, m2, m3, m4, m5, m6, m7) := m in
  let b y := Z.testbit y j in
  (JhSpec.nibble (b m0) (b m1) (b m2) (b m3), JhSpec.nibble (b m4) (b m5) (b m6) (b m7)).

Ltac slice_bits :=
  rewrite ?Z.lxor_spec, ?Z.land_spec, ?Z.lor_spec, ?not64_testbit by assumption;
  repeat rewrite ?Z.lxor_spec, ?Z.land_spec, ?Z.lor_spec, ?not64_testbit by assumption.
Ltac split_bits j :=
  repeat match goal with |- context [Z.testbit ?y j] => destruct (Z.testbit y j) end.

Lemma SS_bits cc0 cc1 m j :
  0 <= j < 64 ->
  elements (SS cc0 cc1 m) j =
  (JhSpec.Sbox (Z.testbit cc0 j) (fst (elements m j)), JhSpec.Sbox (Z.testbit cc1 j) (snd (elements m j))).
Proof.
  intros Hj. destruct m as [[[[[[[m0 m1] m2] m3] m4] m5] m6] m7]. cbn [elements SS fst snd].
  f_equal; slice_bits; split_bits j; reflexivity.
Qed.

Lemma L_bits m j : elements (L m) j = JhSpec.mds (fst (elements m j)) (snd (elements m j)).
Proof.
  destruct m as [[[[[[[m0 m1] m2] m3] m4] m5] m6] m7]. cbn [elements L fst snd].
  rewrite !Z.lxor_spec. split_bits j; reflexivity.
Qed.

(** A swap of neighbouring fields of [n] bits, for all 64 positions. *)
Definition swap_masks (n M1 M2 : Z) (b : nat) : bool :=
  let b' := Z.of_nat (Nat.lxor b (Z.to_nat n)) in
  if Z.of_nat b <? b' then Z.testbit M2 b' && negb ((n <=? Z.of_nat b) && Z.testbit M1 (Z.of_nat b - n)) && (b' =? Z.of_nat b + n)
  else Z.testbit M1 b' && negb (Z.testbit M2 (Z.of_nat b + n)) && (b' =? Z.of_nat b - n) && (0 <=? b').

Lemma swap_bits n M1 M2 y b :
  0 <= n -> (b < 64)%nat -> swap_masks n M1 M2 b = true ->
  Z.testbit (Z.lor (u64 (Z.shiftl (Z.land y M1) n)) (Z.shiftr (Z.land y M2) n)) (Z.of_nat b)
  = Z.testbit y (Z.of_nat (Nat.lxor b (Z.to_nat n))).
Proof.
  intros Hn Hb. unfold swap_masks. set (b' := Z.of_nat (Nat.lxor b (Z.to_nat n))).
  rewrite Z.lor_spec, u64_mod, Z.mod_pow2_bits_low, Z.shiftl_spec, Z.shiftr_spec, !Z.land_spec by lia.
  destruct (Z.of_nat b <? b') eqn:Hlt; rewrite !andb_true_iff, ?negb_true_iff.
  - intros [[H2 H1] ->%Z.eqb_eq]. rewrite H2, andb_true_r. apply andb_false_iff in H1 as [H1 | H1].
    + rewrite (Z.testbit_neg_r y) by lia. done.
    + by rewrite H1, andb_false_r.
  - intros [[[H1 H2] Hb'%Z.eqb_eq] H0%Z.leb_le]. rewrite H2, andb_false_r, orb_false_r, <- Hb'.
    by rewrite H1, andb_true_r.
Qed.

(** What [SWAPn] has to do to the bits of a word. *)
Definition swaps (SWAP : Z -> Z) (n : nat) : Prop :=
  forall y b, word 64 y -> (b < 64)%nat -> Z.testbit (SWAP y) (Z.of_nat b) = Z.testbit y (Z.of_nat (Nat.lxor b n)).

Lemma swaps_masks n M1 M2 :
  0 <= n -> forallb (swap_masks n M1 M2) (seq 0 64) = true ->
  swaps (fun y => Z.lor (u64 (Z.shiftl (Z.land y M1) n)) (Z.shiftr (Z.land y M2) n)) (Z.to_nat n).
Proof.
  intros Hn Hall y b _ Hb. apply swap_bits; [done | done |]. rewrite forallb_forall in Hall.
  apply Hall, in_seq. lia.
Qed.

Lemma SWAP1_swaps : swaps SWAP1 1.
Proof. refine (swaps_masks 1 0x5555555555555555 0xaaaaaaaaaaaaaaaa _ _); [lia | vm_compute; reflexivity]. Qed.
Lemma SWAP2_swaps : swaps SWAP2 2.
Proof. refine (swaps_masks 2 0x3333333333333333 0xcccccccccccccccc _ _); [lia | vm_compute; reflexivity]. Qed.
Lemma SWAP4_swaps : swaps SWAP4 4.
Proof. refine (swaps_masks 4 0x0f0f0f0f0f0f0f0f 0xf0f0f0f0f0f0f0f0 _ _); [lia | vm_compute; reflexivity]. Qed.
Lemma SWAP8_swaps : swaps SWAP8 8.
Proof. refine (swaps_masks 8 0x00ff00ff00ff00ff 0xff00ff00ff00ff00 _ _); [lia | vm_compute; reflexivity]. Qed.
Lemma SWAP16_swaps : swaps SWAP16 16.
Proof. refine (swaps_masks 16 0x0000ffff0000ffff 0xffff0000ffff0000 _ _); [lia | vm_compute; reflexivity]. Qed.
Lemma SWAP32_swaps : swaps SWAP32 32.
Proof.
  intros y b Hy Hb. unfold SWAP32.
  assert (Hx : Nat.lxor b 32 = if (b <? 32)%nat then (b + 32)%nat else (b - 32)%nat).
  { assert (Hall : forallb (fun b => Nat.lxor b 32 =? if b <? 32 then b + 32 else b - 32)%nat (seq 0 64) = true)
      by by vm_compute.
    rewrite forallb_forall in Hall. apply Nat.eqb_eq, Hall, in_seq. lia. }
  rewrite Hx, Z.lor_spec, u64_mod, Z.mod_pow2_bits_low, Z.shiftl_spec, Z.shiftr_spec by lia.
  destruct (Nat.ltb_spec b 32).
  - rewrite Z.testbit_neg_r by lia. cbn [orb]. f_equal. lia.
  - rewrite (word_testbit 64 y (Z.of_nat b + 32)), orb_false_r by (done || lia). f_equal. lia.
Qed.

(** ** Words and columns *)

Definition state_words (x : list Z) : Prop := length x = 16%nat /\ Forall (word 64) x.


Lemma le_word_words p : bytes p -> (length p <= 8)%nat -> word 64 (le_word p).
Proof. intros Hp Hl. apply (word_mono (8 * Z.of_nat (length p))); [lia |]. by apply le_word_range. Qed.

Lemma words64_words n p : bytes p -> Forall (word 64) (words64 n p).
Proof.
  intros Hp. unfold words64. apply List.Forall_map, List.Forall_forall. intros i _.
  apply le_word_words; [by apply Forall_take, Forall_drop |]. rewrite length_take. lia.
Qed.
Lemma length_words64 n p : length (words64 n p) = n.
Proof. unfold words64. by rewrite length_map, length_seq. Qed.

Definition words8_wf (m : words8) : Prop :=
  let '(m0, m1, m2, m3, m4, m5, m6, m7) := m in
  Forall (word 64) [m0; m1; m2; m3; m4; m5; m6; m7].

#[local] Hint Resolve not64_word word_land : words.
Lemma word_land_64 y z : word 64 y -> word 64 z -> word 64 (Z.land y z).
Proof. intros Hy [Hz _]. by apply word_land. Qed.
#[local] Hint Resolve word_land_64 : words.

Lemma SS_wf cc0 cc1 m : word 64 cc0 -> word 64 cc1 -> words8_wf m -> words8_wf (SS cc0 cc1 m).
Proof.
  intros H0 H1. destruct m as [[[[[[[m0 m1] m2] m3] m4] m5] m6] m7]. cbn [words8_wf SS]. intros Hm.
  repeat (apply Forall_cons_1 in Hm as [? Hm]). repeat apply Forall_cons_2; [auto 20 with words .. | apply Forall_nil_2].
Qed.
Lemma L_wf m : words8_wf m -> words8_wf (L m).
Proof.
  destruct m as [[[[[[[m0 m1] m2] m3] m4] m5] m6] m7]. cbn [words8_wf L]. intros Hm.
  repeat (apply Forall_cons_1 in Hm as [? Hm]). repeat apply Forall_cons_2; [auto 20 with words .. | apply Forall_nil_2].
Qed.

(** The words of one half of the rows, in the order of the arguments of
    [SS] and [L]. *)
Definition half (x : list Z) (i : nat) : words8 :=
  (x.[0 + i], x.[4 + i], x.[8 + i], x.[12 + i], x.[2 + i], x.[6 + i], x.[10 + i], x.[14 + i]).
Definition swap_odd (SWAP : Z -> Z) (m : words8) : words8 :=
  let '(m0, m1, m2, m3, m4, m5, m6, m7) := m in (m0, m1, m2, m3, SWAP m4, SWAP m5, SWAP m6, SWAP m7).

Lemma half_wf x i : state_words x -> words8_wf (half x i).
Proof. intros [_ Hx]. cbn [half words8_wf]. repeat apply Forall_cons_2; auto with words. Qed.

Lemma col_elements x j : JhSpec.col x j = elements (half x (j / 64)) (Z.of_nat (j mod 64)).
Proof. reflexivity. Qed.

#[local] Opaque E8_bitslice_roundconstant SS L.

Lemma round_halves rc SWAP x (cc := words64 4 (nth rc E8_bitslice_roundconstant []))
    (y := fold_left (round_body rc SWAP) [0; 1]%nat x) :
  length x = 16%nat ->
  length y = 16%nat /\
  (forall i, (i < 2)%nat -> half y i = swap_odd SWAP (L (SS cc.[i] cc.[i + 2] (half x i)))) /\
  (Forall (word 64) y <-> words8_wf (half y 0) /\ words8_wf (half y 1)).
Proof.
  intros Hx. do 16 (destruct x as [| ? x]; [discriminate |]). destruct x; [| discriminate].
  subst y. cbn [fold_left]. unfold round_body. fold cc. clearbody cc.
  change (0 + 2)%nat with 2%nat. change (1 + 2)%nat with 3%nat. cbn [Nat.add nth].
  destruct (L (SS cc.[0] cc.[2] _)) as [[[[[[[a0 a1] a2] a3] a4] a5] a6] a7] eqn:EA.
  cbn [insert list_insert nth].
  destruct (L (SS cc.[1] cc.[3] _)) as [[[[[[[b0 b1] b2] b3] b4] b5] b6] b7] eqn:EB.
  cbn [insert list_insert nth]. split; [done |]. split.
  - intros [| [| i]] Hi; [| | lia]; unfold half; cbn [Nat.add nth]; [rewrite EA | rewrite EB]; done.
  - unfold half, words8_wf. cbn [Nat.add nth]. rewrite !List.Forall_cons_iff. pose proof (List.Forall_nil (word 64)). tauto.
Qed.

Lemma swap_odd_elements SWAP n m b :
  swaps SWAP n -> words8_wf m -> (b < 64)%nat ->
  elements (swap_odd SWAP m) (Z.of_nat b)
  = (fst (elements m (Z.of_nat b)), snd (elements m (Z.of_nat (Nat.lxor b n)))).
Proof.
  intros Hs. destruct m as [[[[[[[m0 m1] m2] m3] m4] m5] m6] m7]. cbn [words8_wf elements swap_odd fst snd].
  intros Hm Hb. repeat (apply Forall_cons_1 in Hm as [? Hm]). by rewrite !Hs.
Qed.

(** The table of round constants, bit by bit. *)
Lemma constant_bits r j :
  (r < 42)%nat -> (j < 128)%nat ->
  let cc := words64 4 (nth r E8_bitslice_roundconstant []) in
  Z.testbit cc.[j / 64] (Z.of_nat (j mod 64)) = JhSpec.cbit r 0 j /\
  Z.testbit cc.[j / 64 + 2] (Z.of_nat (j mod 64)) = JhSpec.cbit r 1 j.
Proof.
  intros Hr Hj.
  assert (Hall : forallb (fun r => forallb (fun j =>
      let cc := words64 4 (nth r E8_bitslice_roundconstant []) in
      Bool.eqb (Z.testbit cc.[j / 64] (Z.of_nat (j mod 64))) (JhSpec.cbit r 0 j) &&
      Bool.eqb (Z.testbit cc.[j / 64 + 2] (Z.of_nat (j mod 64))) (JhSpec.cbit r 1 j))%nat (seq 0 128)) (seq 0 42) = true)
    by (vm_compute; reflexivity).
  rewrite forallb_forall in Hall. specialize (Hall r ltac:(apply in_seq; lia)).
  rewrite forallb_forall in Hall. specialize (Hall j ltac:(apply in_seq; lia)).
  apply andb_true_iff in Hall as [H0 H1]. split; by apply eqb_prop.
Qed.

Lemma constant_words r i : word 64 (words64 4 (nth r E8_bitslice_roundconstant [])).[i].
Proof.
  apply word_nth; [lia |]. apply words64_words.
  assert (Hall : Forall (Forall is_byte) E8_bitslice_roundconstant).
  { Transparent E8_bitslice_roundconstant. unfold E8_bitslice_roundconstant.
    apply List.Forall_map, List.Forall_forall. intros ? _. apply bytes_be_bytes. }
  destruct (nth_in_or_default r E8_bitslice_roundconstant []) as [Hin | ->]; [| done].
  rewrite List.Forall_forall in Hall. by apply Hall.
Qed.
#[local] Opaque E8_bitslice_roundconstant.

Lemma get_map f j : (j < 128)%nat -> JhSpec.get (map f (seq 0 128)) j = f j.
Proof.
  intros Hj. unfold JhSpec.get. rewrite (nth_indep _ (0, 0)%nat (f 0%nat)) by (rewrite length_map, length_seq; lia).
  by rewrite map_nth, seq_nth by lia.
Qed.
Lemma get_cols y j : (j < 128)%nat -> JhSpec.get (JhSpec.cols y) j = JhSpec.col y j.
Proof. apply get_map. Qed.

Lemma layer_elements x r j (cc := words64 4 (nth r E8_bitslice_roundconstant [])) :
  (r < 42)%nat -> (j < 128)%nat ->
  elements (L (SS cc.[j / 64] cc.[j / 64 + 2] (half x (j / 64)))) (Z.of_nat (j mod 64))
  = JhSpec.get (JhSpec.layer (JhSpec.cols x) r) j.
Proof.
  intros Hr Hj. pose proof (Nat.mod_upper_bound j 64 ltac:(lia)) as Hb.
  unfold JhSpec.layer. rewrite get_map, get_cols, L_bits, SS_bits, col_elements by lia. cbn [fst snd].
  destruct (constant_bits r j Hr Hj) as [H0 H1]. fold cc in H0, H1. rewrite H0, H1.
  by destruct (elements _ _).
Qed.

Lemma lxor_column j n :
  (j < 128)%nat -> In n [1; 2; 4; 8; 16; 32; 64]%nat ->
  (Nat.lxor j n < 128 /\
   if n =? 64 then Nat.lxor j n / 64 = 1 - j / 64 /\ Nat.lxor j n mod 64 = j mod 64
   else Nat.lxor j n / 64 = j / 64 /\ Nat.lxor j n mod 64 = Nat.lxor (j mod 64) n)%nat.
Proof.
  intros Hj Hn.
  assert (Hall : (forallb (fun n => forallb (fun j => (Nat.lxor j n <? 128) &&
      (if n =? 64 then (Nat.lxor j n / 64 =? 1 - j / 64) && (Nat.lxor j n mod 64 =? j mod 64)
       else (Nat.lxor j n / 64 =? j / 64) && (Nat.lxor j n mod 64 =? Nat.lxor (j mod 64) n)))
      (seq 0 128)) [1; 2; 4; 8; 16; 32; 64] = true)%nat) by (vm_compute; reflexivity).
  rewrite forallb_forall in Hall. specialize (Hall n Hn).
  rewrite forallb_forall in Hall. specialize (Hall j ltac:(apply in_seq; lia)).
  apply andb_true_iff in Hall as [H1%Nat.ltb_lt H2]. split; [done |].
  destruct (n =? 64)%nat; apply andb_true_iff in H2 as [H2%Nat.eqb_eq H3%Nat.eqb_eq]; done.
Qed.

Lemma half_lt j : (j < 128)%nat -> (j / 64 < 2)%nat.
Proof. intros. apply Nat.Div0.div_lt_upper_bound. lia. Qed.

Lemma swap_odd_wf SWAP m :
  (forall y, word 64 y -> word 64 (SWAP y)) -> words8_wf m -> words8_wf (swap_odd SWAP m).
Proof.
  intros Hs. destruct m as [[[[[[[m0 m1] m2] m3] m4] m5] m6] m7]. cbn [words8_wf swap_odd]. intros Hm.
  repeat (apply Forall_cons_1 in Hm as [? Hm]). repeat apply Forall_cons_2; auto.
Qed.

Lemma round_words rc SWAP x :
  (forall y, word 64 y -> word 64 (SWAP y)) -> state_words x ->
  state_words (fold_left (round_body rc SWAP) [0; 1]%nat x).
Proof.
  intros Hs Hx. destruct (round_halves rc SWAP x (proj1 Hx)) as (Hl & Hh & Hw). split; [done |].
  apply Hw. rewrite !Hh by lia. split; apply swap_odd_wf, L_wf, SS_wf; auto using constant_words, half_wf.
Qed.

(** A round whose swap stays within the words. *)
Lemma round_swap rc SWAP x (n := (2 ^ (rc mod 7))%nat) :
  (rc < 42)%nat -> swaps SWAP n -> In n [1; 2; 4; 8; 16; 32]%nat -> state_words x ->
  JhSpec.cols (fold_left (round_body rc SWAP) [0; 1]%nat x) = JhSpec.round (JhSpec.cols x) rc.
Proof.
  intros Hrc Hs Hn Hx. destruct (round_halves rc SWAP x (proj1 Hx)) as (_ & Hh & _).
  unfold JhSpec.cols at 1, JhSpec.round, JhSpec.permute. fold n. apply map_ext_in. intros j Hj%in_seq.
  pose proof (half_lt j ltac:(lia)) as Hi. pose proof (Nat.mod_upper_bound j 64 ltac:(lia)) as Hb.
  rewrite col_elements, Hh by done. set (m := L _).
  assert (Hm : words8_wf m) by (apply L_wf, SS_wf; auto using constant_words, half_wf).
  rewrite (swap_odd_elements SWAP n) by done. subst m.
  destruct (lxor_column j n ltac:(lia)) as [Hj' Hx'].
  { revert Hn. cbn. tauto. }
  assert (Hne : (n =? 64)%nat = false) by (apply Nat.eqb_neq; intros He; rewrite He in Hn; cbn in Hn; lia).
  rewrite Hne in Hx'. destruct Hx' as [Hd Hmod]. rewrite <- !layer_elements by lia. by rewrite Hd, Hmod.
Qed.

(** The swap of the last of seven rounds exchanges the words of a row. *)
Lemma swap_rows_col x j :
  length x = 16%nat -> (j < 128)%nat ->
  JhSpec.col (fold_left swap_row [1; 3; 5; 7]%nat x) j
  = (fst (JhSpec.col x j), snd (JhSpec.col x (Nat.lxor j 64))).
Proof.
  intros Hx Hj. destruct (lxor_column j 64 Hj ltac:(cbn; tauto)) as (_ & Hd & Hm).
  rewrite !col_elements, Hd, Hm. pose proof (half_lt j Hj) as Hi.
  do 16 (destruct x as [| ? x]; [discriminate |]). destruct x; [| discriminate].
  destruct (j / 64)%nat as [| [| i]]; [reflexivity | reflexivity | lia].
Qed.

Lemma round_last rc x :
  (rc < 42)%nat -> (rc mod 7 = 6)%nat -> state_words x ->
  JhSpec.cols (fold_left swap_row [1; 3; 5; 7]%nat (fold_left (round_body rc (fun m => m)) [0; 1]%nat x))
  = JhSpec.round (JhSpec.cols x) rc.
Proof.
  intros Hrc H6 Hx. destruct (round_halves rc (fun m => m) x (proj1 Hx)) as (Hl & Hh & _).
  unfold JhSpec.cols at 1, JhSpec.round, JhSpec.permute. rewrite H6. change (2 ^ 6)%nat with 64%nat.
  apply map_ext_in. intros j Hj%in_seq. rewrite swap_rows_col by (done || lia).
  destruct (lxor_column j 64 ltac:(lia) ltac:(cbn; tauto)) as [Hj' _].
  assert (Hcol : forall j, (j < 128)%nat ->
    JhSpec.col (fold_left (round_body rc (fun m => m)) [0; 1]%nat x) j
    = JhSpec.get (JhSpec.layer (JhSpec.cols x) rc) j).
  { intros i Hi. rewrite col_elements, Hh, <- layer_elements by (done || by apply half_lt).
    by destruct (L _) as [[[[[[[? ?] ?] ?] ?] ?] ?] ?]. }
  by rewrite !Hcol by lia.
Qed.

Lemma swap_rows_words x : state_words x -> state_words (fold_left swap_row [1; 3; 5; 7]%nat x).
Proof.
  intros [Hl Hx]. do 16 (destruct x as [| ? x]; [discriminate |]). destruct x; [| discriminate].
  split; [done |]. repeat (apply Forall_cons_1 in Hx as [? Hx]). cbn. repeat apply Forall_cons_2; done || apply Forall_nil_2.
Qed.

(** ** E8 *)

Lemma swap_word n M1 M2 y :
  0 <= n -> 0 <= M2 -> word 64 y ->
  word 64 (Z.lor (u64 (Z.shiftl (Z.land y M1) n)) (Z.shiftr (Z.land y M2) n)).
Proof. intros. apply word_lor; [lia | apply u64_word | apply word_shiftr; [lia |]]. by apply word_land. Qed.

Lemma SWAP1_word y : word 64 y -> word 64 (SWAP1 y).
Proof. by apply swap_word. Qed.
Lemma SWAP2_word y : word 64 y -> word 64 (SWAP2 y).
Proof. by apply swap_word. Qed.
Lemma SWAP4_word y : word 64 y -> word 64 (SWAP4 y).
Proof. by apply swap_word. Qed.
Lemma SWAP8_word y : word 64 y -> word 64 (SWAP8 y).
Proof. by apply swap_word. Qed.
Lemma SWAP16_word y : word 64 y -> word 64 (SWAP16 y).
Proof. by apply swap_word. Qed.
Lemma SWAP32_word y : word 64 y -> word 64 (SWAP32 y).
Proof. intros. apply word_lor; [lia | apply u64_word | by apply word_shiftr]. Qed.

#[local] Opaque round_body swap_row JhSpec.round JhSpec.cols SWAP1 SWAP2 SWAP4 SWAP8 SWAP16 SWAP32.

(** Round [base + k], [base] a multiple of 7. *)
Definition turn_base (base : nat) : Prop := (base mod 7 = 0 /\ base <= 35)%nat.

Lemma turn_mod base k : turn_base base -> (k < 7)%nat -> ((base + k) mod 7 = k)%nat.
Proof. intros [Hb _] Hk. rewrite <- Nat.Div0.add_mod_idemp_l, Hb. by apply Nat.mod_small. Qed.

Lemma turn_round base k SWAP x :
  turn_base base -> (k < 6)%nat -> swaps SWAP (2 ^ k) -> (forall y, word 64 y -> word 64 (SWAP y)) ->
  state_words x ->
  state_words (fold_left (round_body (base + k) SWAP) [0; 1]%nat x) /\
  JhSpec.cols (fold_left (round_body (base + k) SWAP) [0; 1]%nat x) = JhSpec.round (JhSpec.cols x) (base + k).
Proof.
  intros Hb Hk Hs Hw Hx. split; [by apply round_words |].
  apply round_swap; rewrite ?turn_mod by (done || lia); try done; [destruct Hb; lia |].
  do 6 (destruct k as [| k]; [cbn; tauto |]). lia.
Qed.

Lemma fold_left_7 {A B} (f : A -> B -> A) a b0 b1 b2 b3 b4 b5 b6 :
  fold_left f [b0; b1; b2; b3; b4; b5; b6] a = f (f (f (f (f (f (f a b0) b1) b2) b3) b4) b5) b6.
Proof. done. Qed.

(** One turn of the loop. *)
Lemma seven_rounds base x :
  turn_base base -> state_words x ->
  state_words (E8_turn x base) /\
  JhSpec.cols (E8_turn x base) = fold_left JhSpec.round (seq base 7) (JhSpec.cols x).
Proof.
  intros Hb Hx.
  assert (Hseq : (seq base 7 = [base + 0; base + 1; base + 2; base + 3; base + 4; base + 5; base + 6])%nat)
    by (cbn [seq]; repeat (f_equal; [lia |]); f_equal; lia).
  rewrite Hseq, fold_left_7. unfold E8_turn. cbv zeta. clear Hseq.
  destruct (turn_round base 0 SWAP1 x) as [H0 R0]; [done | lia | apply SWAP1_swaps | apply SWAP1_word | done |].
  rewrite <- R0. clear R0. set (x1 := fold_left (round_body (base + 0) SWAP1) _ _) in *. clearbody x1.
  destruct (turn_round base 1 SWAP2 x1) as [H1 R1]; [done | lia | apply SWAP2_swaps | apply SWAP2_word | done |].
  rewrite <- R1. clear R1. set (x2 := fold_left (round_body (base + 1) SWAP2) _ _) in *. clearbody x2.
  destruct (turn_round base 2 SWAP4 x2) as [H2 R2]; [done | lia | apply SWAP4_swaps | apply SWAP4_word | done |].
  rewrite <- R2. clear R2. set (x3 := fold_left (round_body (base + 2) SWAP4) _ _) in *. clearbody x3.
  destruct (turn_round base 3 SWAP8 x3) as [H3 R3]; [done | lia | apply SWAP8_swaps | apply SWAP8_word | done |].
  rewrite <- R3. clear R3. set (x4 := fold_left (round_body (base + 3) SWAP8) _ _) in *. clearbody x4.
  destruct (turn_round base 4 SWAP16 x4) as [H4 R4]; [done | lia | apply SWAP16_swaps | apply SWAP16_word | done |].
  rewrite <- R4. clear R4. set (x5 := fold_left (round_body (base + 4) SWAP16) _ _) in *. clearbody x5.
  destruct (turn_round base 5 SWAP32 x5) as [H5 R5]; [done | lia | apply SWAP32_swaps | apply SWAP32_word | done |].
  rewrite <- R5. clear R5. set (x6 := fold_left (round_body (base + 5) SWAP32) _ _) in *. clearbody x6.
  split; [apply swap_rows_words, round_words; done |].
  apply round_last; [destruct Hb; lia | by rewrite turn_mod by (done || lia) | done].
Qed.

#[local] Opaque E8_turn.

Lemma E8_turns l x :
  Forall turn_base l -> state_words x ->
  state_words (fold_left E8_turn l x) /\
  JhSpec.cols (fold_left E8_turn l x) = fold_left JhSpec.round (concat (map (fun b => seq b 7) l)) (JhSpec.cols x).
Proof.
  intros Hl. revert x. induction Hl as [| b l Hb _ IH]; intros x Hx; [done |].
  rewrite map_cons, concat_cons, fold_left_app, fold_left_one.
  destruct (seven_rounds b x Hb Hx) as [Hy Hc]. rewrite <- Hc. by apply IH.
Qed.

Lemma E8_cols x :
  state_words x -> state_words (E8 x) /\ JhSpec.cols (E8 x) = fold_left JhSpec.round (seq 0 42) (JhSpec.cols x).
Proof.
  intros Hx. apply (E8_turns [0; 7; 14; 21; 28; 35]%nat); [| done].
  repeat (apply Forall_cons_2; [by split; [reflexivity | lia] |]). apply Forall_nil_2.
Qed.

(** *** Back from columns to words *)

#[local] Transparent JhSpec.cols.

Lemma nibble_bits b0 b1 b2 b3 :
  Nat.testbit (JhSpec.nibble b0 b1 b2 b3) 3 = b0 /\ Nat.testbit (JhSpec.nibble b0 b1 b2 b3) 2 = b1 /\
  Nat.testbit (JhSpec.nibble b0 b1 b2 b3) 1 = b2 /\ Nat.testbit (JhSpec.nibble b0 b1 b2 b3) 0 = b3.
Proof. by destruct b0, b1, b2, b3. Qed.

Lemma element_bit y k b (c := JhSpec.get (JhSpec.cols y) (64 * (k mod 2) + b)) :
  (k < 16)%nat -> (b < 64)%nat ->
  Nat.testbit (if Nat.odd (k / 2) then snd c else fst c) (3 - k / 2 / 2) = Z.testbit y.[k] (Z.of_nat b).
Proof.
  intros Hk Hb. pose proof (Nat.mod_upper_bound k 2 ltac:(lia)) as H2.
  subst c. rewrite get_cols by lia. unfold JhSpec.col.
  assert (Hd : ((64 * (k mod 2) + b) / 64 = k mod 2)%nat) by (rewrite Nat.mul_comm, Nat.div_add_l, Nat.div_small by lia; lia).
  assert (Hm : ((64 * (k mod 2) + b) mod 64 = b)%nat)
    by (rewrite Nat.add_comm, Nat.mul_comm, Nat.Div0.mod_add; by apply Nat.mod_small).
  rewrite Hd, Hm. do 16 (destruct k as [| k]; [cbn -[JhSpec.nibble Nat.testbit]; apply nibble_bits |]). lia.
Qed.

Lemma pack_bits (bit : nat -> bool) w n :
  (forall b, (b < n)%nat -> bit b = Z.testbit w (Z.of_nat b)) ->
  fold_left (fun a b => Z.lor a (Z.shiftl (Z.b2z (bit b)) (Z.of_nat b))) (seq 0 n) 0 = w mod 2 ^ Z.of_nat n.
Proof.
  induction n as [| n IH]; intros Hbit; [by rewrite Z.mod_1_r |].
  rewrite seq_S, fold_left_app. cbn [fold_left Nat.add]. rewrite IH by (intros; apply Hbit; lia).
  rewrite Hbit by lia. apply Z.bits_inj'. intros i Hi. rewrite Z.lor_spec, Z.shiftl_spec by lia.
  destruct (Z.lt_trichotomy i (Z.of_nat n)) as [Hlt | [-> | Hgt]].
  - rewrite !Z.mod_pow2_bits_low, (Z.testbit_neg_r _ (i - _)) by lia. apply orb_false_r.
  - rewrite Z.mod_pow2_bits_high, Z.mod_pow2_bits_low, Z.sub_diag by lia. by destruct (Z.testbit w _).
  - rewrite !Z.mod_pow2_bits_high by lia. cbn [orb].
    assert (Hb : word 1 (Z.b2z (Z.testbit w (Z.of_nat n)))) by (destruct (Z.testbit w _); done).
    apply (word_testbit 1); [lia | done | lia].
Qed.

Lemma uncols_cols y : state_words y -> JhSpec.uncols (JhSpec.cols y) = y.
Proof.
  intros [Hl Hy]. apply nth_ext_Z; [done |]. intros k Hk.
  change (length (JhSpec.uncols (JhSpec.cols y))) with 16%nat in Hk.
  unfold JhSpec.uncols. rewrite nth_map_seq by done. cbn [Nat.add].
  pose proof (word_nth 64 y k ltac:(lia) Hy) as Hw. unfold word in Hw.
  rewrite <- (Z.mod_small y.[k] (2 ^ Z.of_nat 64)) by done.
  apply (pack_bits (fun b => Nat.testbit (if Nat.odd (k / 2)
    then snd (JhSpec.get (JhSpec.cols y) (64 * (k mod 2) + b))
    else fst (JhSpec.get (JhSpec.cols y) (64 * (k mod 2) + b))) (3 - k / 2 / 2))%nat).
  intros b Hb. by apply element_bit.
Qed.

Lemma E8_eq x : state_words x -> E8 x = JhSpec.E8 x.
Proof.
  intros Hx. destruct (E8_cols x Hx) as [Hw Hc]. unfold JhSpec.E8. rewrite <- Hc. symmetry. by apply uncols_cols.
Qed.

(** ** The compression function *)

#[local] Opaque E8 JhSpec.E8.

Lemma xor_words x m : state_words x -> length m = 8%nat -> Forall (word 64) m ->
  fold_left (fun x i => <[i := Z.lxor x.[i] m.[i]]> x) (seq 0 8) x = xor_bytes (take 8 x) m ++ drop 8 x /\
  fold_left (fun x i => <[(i + 8)%nat := Z.lxor x.[i + 8] m.[i]]> x) (seq 0 8) x = take 8 x ++ xor_bytes (drop 8 x) m /\
  state_words (xor_bytes (take 8 x) m ++ drop 8 x) /\ state_words (take 8 x ++ xor_bytes (drop 8 x) m).
Proof.
  intros [Hx Hw] Hm Hmw. do 16 (destruct x as [| ? x]; [discriminate |]). destruct x; [| discriminate].
  do 8 (destruct m as [| ? m]; [discriminate |]). destruct m; [| discriminate].
  split; [reflexivity |]. split; [reflexivity |].
  repeat (apply Forall_cons_1 in Hw as [? Hw]). repeat (apply Forall_cons_1 in Hmw as [? Hmw]).
  split; (split; [reflexivity |]); repeat apply Forall_cons_2; apply Forall_nil_2 || auto with words.
Qed.

Lemma F8_eq st :
  state_words st.(x) -> buffer 64 st.(buffer_) ->
  F8 st = set_x st (JhSpec.F8 st.(x) st.(buffer_)) /\ state_words (JhSpec.F8 st.(x) st.(buffer_)).
Proof.
  intros Hx [Hl Hb]. unfold F8, JhSpec.F8. fold (words64 8 (buffer_ st)). set (m := words64 8 (buffer_ st)).
  assert (Hm : length m = 8%nat) by apply length_words64.
  assert (Hmw : Forall (word 64) m) by by apply words64_words. clearbody m.
  destruct (xor_words (x st) m Hx Hm Hmw) as (-> & _ & Hx1 & _).
  destruct (E8_cols _ Hx1) as [Hy _]. rewrite E8_eq in Hy |- * by done.
  destruct (xor_words _ m Hy Hm Hmw) as (_ & -> & _ & Hx2). done.
Qed.
#[local] Opaque F8 JhSpec.F8.

(** ** The streaming interface *)

Abbreviation absorbed := (absorb_all JhSpec.F8 64).
Abbreviation rest := (rest 64).

Lemma shiftr_bits n : Z.to_nat (Z.shiftr (8 * Z.of_nat n) 3) = n.
Proof. rewrite Z.shiftr_div_pow2 by lia. change (2 ^ 3) with 8. rewrite Z.mul_comm, Z.div_mul by lia. lia. Qed.
Lemma whole_bytes n : Z.land (8 * Z.of_nat n) 7 = 0.
Proof. change 7 with (Z.ones 3). rewrite Z.land_ones by lia. change (2 ^ 3) with 8. rewrite Z.mul_comm. by apply Z.mod_mul. Qed.
Lemma low_bits n : Z.land (8 * Z.of_nat n) 0x1ff = 8 * Z.of_nat (n mod 64).
Proof.
  change 0x1ff with (Z.ones 9). rewrite Z.land_ones by lia. change (2 ^ 9) with (8 * 64).
  rewrite Zmult_mod_distr_l, Nat2Z.inj_mod. done.
Qed.

Lemma absorb_words k x m :
  state_words x -> bytes m -> (64 * k <= length m)%nat -> state_words (absorb JhSpec.F8 64 k x m).
Proof.
  intros. apply (absorb_inv state_words); try done. intros s b Hs Hb Hl.
  destruct (F8_eq {| hashbitlen := 0; databitlen := 0; datasize_in_buffer := 0; x := s; buffer_ := b |} Hs) as [_ Hw];
    [by split | done].
Qed.

Lemma jh_update_loop_spec fuel st data n :
  state_words st.(x) -> buffer 64 st.(buffer_) -> bytes data -> (n <= length data)%nat -> (n / 64 <= fuel)%nat ->
  exists b, buffer 64 b /\
  update_loop fuel st data (8 * Z.of_nat n)
  = Some (set_x (set_buffer st b) (absorb JhSpec.F8 64 (n / 64) st.(x) data), drop (64 * (n / 64)) data,
          8 * Z.of_nat (n mod 64)).
Proof.
  revert st data n. induction fuel as [| fuel IH]; intros st data n Hx Hb Hd Hn Hf.
  - assert (n / 64 = 0)%nat as -> by lia. exists (buffer_ st). split; [done |]. cbn [update_loop absorb].
    rewrite Nat.mod_small by (apply Nat.div_small_iff; lia). rewrite Nat.mul_0_r, drop_0.
    by destruct st.
  - cbn [update_loop]. destruct (Z.leb_spec 512 (8 * Z.of_nat n)) as [Hle | Hlt].
    + replace n with ((n - 64) + 1 * 64)%nat by lia. set (n' := (n - 64)%nat) in *.
      rewrite Nat.div_add, Nat.Div0.mod_add by lia. rewrite (Nat.add_comm (n' / 64)).
      assert (Hl : length (take 64 data) = 64%nat) by (rewrite length_take; lia).
      assert (Hb1 : buffer 64 (write_at 0 (take 64 data) (buffer_ st)))
        by (apply buffer_write_at; [done | by apply Forall_take | lia]).
      assert (Hbw : write_at 0 (take 64 data) (buffer_ st) = take 64 data).
      { rewrite write_at_full by (destruct Hb; lia). by rewrite take_0. }
      rewrite memcpy_ok by (destruct Hb; lia). next. rewrite Hbw in *. destruct (F8_eq (set_buffer st (take 64 data)) Hx Hb1) as [-> Hx1].
      cbn [set_buffer Jh.x buffer_] in *. replace (8 * Z.of_nat (n' + 1 * 64) - 512) with (8 * Z.of_nat n') by lia.
      destruct (IH (set_x (set_buffer st (take 64 data)) (JhSpec.F8 (x st) (take 64 data))) (drop 64 data) n')
        as (b & Hb' & ->); [done | done | by apply Forall_drop | rewrite length_drop; lia | | ].
      { assert (n = n' + 1 * 64)%nat as Hnn by lia. rewrite Hnn, Nat.div_add in Hf by lia. lia. }
      exists b. split; [done |]. rewrite drop_drop. cbn [Nat.add absorb Jh.x set_x].
      replace (64 * S (n' / 64))%nat with (64 + 64 * (n' / 64))%nat by lia. done.
    + exists (buffer_ st). split; [done |]. rewrite Nat.div_small, Nat.mod_small by lia. cbn [absorb].
      rewrite Nat.mul_0_r, drop_0. by destruct st.
Qed.

(** A state that has been fed the message [m], [iv] being the initial words
    and [size] the digest length. *)
Record repr (size : Z) (iv : list Z) (st : hashState) (m : list Z) : Prop := {
  repr_size : hashbitlen st = size;
  repr_x : x st = absorbed iv m;
  repr_len : databitlen st = u64 (8 * Z.of_nat (length m));
  repr_data : datasize_in_buffer st = 8 * Z.of_nat (length (rest m));
  repr_buffer : buffer 64 (buffer_ st);
  repr_rest : take (length (rest m)) (buffer_ st) = rest m;
  repr_bytes : bytes m
}.

Lemma repr_words size iv st m : state_words iv -> repr size iv st m -> state_words (x st).
Proof.
  intros Hi [_ -> _ _ _ _ Hm]. apply absorb_words; [done | done |].
  pose proof (Nat.div_mod_eq (length m) 64). lia.
Qed.

(** The end of [Update]: the complete blocks of [data] are compressed, the
    tail is kept. *)
Lemma update_end size iv st data n m :
  state_words iv -> bytes data -> (n <= length data)%nat -> repr size iv st m -> rest m = [] ->
  forall L, L = u64 (8 * Z.of_nat (length m + n)) ->
  exists st',
    ('(st, data, len) ← update_loop (Z.to_nat (8 * Z.of_nat n / 512)) (set_databitlen st L) data (8 * Z.of_nat n);
     if 0 <? len then
       let c := Z.to_nat (Z.shiftr (Z.land len 0x1ff) 3) in
       let c := if Z.land len 7 =? 0 then c else (c + 1)%nat in
       b ← memcpy 0 c data st.(buffer_);
       Some (set_datasize (set_buffer st b) len)
     else Some st) = Some st' /\ repr size iv st' (m ++ take n data).
Proof.
  intros Hi Hd Hn Hr Hrest L HL. pose proof (repr_words _ _ _ _ Hi Hr) as Hx. destruct Hr as [Hs Hxm Hl Hds Hb Hrb Hm].
  destruct (jh_update_loop_spec (Z.to_nat (8 * Z.of_nat n / 512)) (set_databitlen st L) data n) as (b & Hb' & ->);
    [done | done | done | done | |].
  { change 512 with (8 * 64). rewrite Z.div_mul_cancel_l by lia. change 64 with (Z.of_nat 64). rewrite <- Nat2Z.inj_div. lia. }
  next. rewrite low_bits, Nat.Div0.mod_mod, whole_bytes, Z.eqb_refl.
  replace (Z.to_nat (Z.shiftr (8 * Z.of_nat (n mod 64)) 3)) with (n mod 64)%nat by (by rewrite shiftr_bits).
  set (d := take n data). assert (Hdl : length d = n) by (unfold d; rewrite length_take; lia).
  pose proof (Nat.div_mod_eq n 64) as Hdm.
  assert (Hx' : absorb JhSpec.F8 64 (n / 64) (x st) data = absorbed iv (m ++ d)).
  { rewrite absorb_all_app, Hrest, <- Hxm by lia. unfold absorb_all. cbn [app]. rewrite Hdl.
    rewrite <- (take_drop n data) at 1. apply absorb_prefix; fold d; lia. }
  assert (Hr' : rest (m ++ d) = take (n mod 64) (drop (64 * (n / 64)) data)).
  { rewrite rest_app, Hrest by lia. cbn [app]. unfold Streaming.rest. rewrite Hdl. unfold d.
    rewrite skipn_firstn_comm. f_equal. lia. }
  assert (Hrl : length (rest (m ++ d)) = (n mod 64)%nat)
    by (rewrite Hr', length_take, length_drop; lia).
  assert (Hbytes : bytes (m ++ d)) by (apply bytes_app; [done | by apply Forall_take]).
  assert (Hlen : L = u64 (8 * Z.of_nat (length (m ++ d)))) by (by rewrite length_app, Hdl).
  pose proof (Nat.mod_upper_bound n 64 ltac:(lia)) as Hub.
  cbn [Jh.x set_databitlen]. destruct (Z.ltb_spec 0 (8 * Z.of_nat (n mod 64))) as [H0 | H0].
  - cbn [buffer_ set_x set_buffer].
    rewrite memcpy_ok by (destruct Hb'; rewrite ?length_drop; lia). next. eexists. split; [reflexivity |].
    rewrite <- Hr'. split; cbn [hashbitlen databitlen datasize_in_buffer Jh.x buffer_ set_x set_buffer set_datasize set_databitlen];
      try done; [by rewrite Hrl | |].
    + apply buffer_write_at; [done | by apply rest_bytes | lia].
    + rewrite take_write_at' by (rewrite ?(proj1 Hb'); lia). by rewrite take_0.
  - assert (Hz : (n mod 64 = 0)%nat) by lia. rewrite Hz in Hrl. eexists. split; [reflexivity |].
    split; cbn [hashbitlen databitlen datasize_in_buffer Jh.x buffer_ set_x set_buffer set_databitlen]; try done.
    + by rewrite Hds, Hrest, Hrl.
    + apply nil_length_inv in Hrl. by rewrite Hrl.
Qed.

(** What [Update] reads of [data] when [m] has been hashed: at least the bytes
    to hash, and the rest of a block when they do not complete it. *)
Definition readable (m : nat) (data : list Z) (n : nat) : Prop :=
  (n <= length data)%nat /\ (0 < m mod 64 -> m mod 64 + n < 64 -> 64 - m mod 64 <= length data)%nat.

Lemma Update_repr size iv st m data n :
  state_words iv -> repr size iv st m -> bytes data -> readable (length m) data n -> 8 * Z.of_nat n < 2 ^ 64 - 512 ->
  exists st', Update st data (8 * Z.of_nat n) = Some st' /\ repr size iv st' (m ++ take n data).
Proof.
  intros Hi Hr Hd [Hn Hread] Hbig. pose proof (repr_words _ _ _ _ Hi Hr) as Hx.
  pose proof Hr as [Hs Hxm Hl Hds Hb Hrb Hm]. unfold Update. cbn [datasize_in_buffer set_databitlen databitlen buffer_].
  rewrite Hds, shiftr_bits, whole_bytes, Z.eqb_refl. pose proof (rest_lt 64 ltac:(lia) m) as Hr64.
  set (r := length (rest m)) in *.
  assert (HL : u64 (databitlen st + 8 * Z.of_nat n) = u64 (8 * Z.of_nat (length m + n)))
    by (rewrite Hl, u64_add_l; f_equal; lia).
  rewrite HL. set (L := u64 (8 * Z.of_nat (length m + n))).
  rewrite (u64_small (8 * Z.of_nat r + _)) by (unfold word; lia).
  destruct (Nat.eqb_spec r 0) as [Hr0 | Hr0].
  { rewrite Hr0. change (0 <? 8 * Z.of_nat 0) with false. cbn [andb]. next. cbn [datasize_in_buffer set_databitlen].
    rewrite Hds, Hr0. change (0 <? 8 * Z.of_nat 0) with false. cbn [andb]. next.
    apply update_end; try done. by apply nil_length_inv. }
  rewrite (proj2 (Z.ltb_lt 0 (8 * Z.of_nat r))) by lia. cbn [andb].
  assert (Hdl : length (take n data) = n) by (rewrite length_take; lia).
  destruct (Z.ltb_spec (8 * Z.of_nat r + 8 * Z.of_nat n) 512) as [Hs1 | Hs1].
  - assert (Hcopy : (64 - r <= length data)%nat) by (unfold r in *; rewrite length_rest in * by lia; apply Hread; lia).
    rewrite memcpy_ok by (destruct Hb; lia). do 2 next. cbn [datasize_in_buffer set_datasize set_buffer set_databitlen].
    assert (Hv : u64 (datasize_in_buffer st + 8 * Z.of_nat n) = 8 * Z.of_nat r + 8 * Z.of_nat n)
      by (rewrite Hds; apply u64_small; unfold word; lia).
    rewrite !Hv, Z.add_0_r, (u64_small (8 * Z.of_nat r + _)) by (unfold word; lia). rewrite (proj2 (Z.leb_gt 512 _)), andb_false_r by lia. next.
    change (Z.to_nat (0 / 512)) with 0%nat. cbn [update_loop]. next. change (0 <? 0) with false. cbv iota. eexists. split; [reflexivity |].
    destruct (absorb_all_nofill JhSpec.F8 64 ltac:(lia) iv m (take n data)) as [Ha Hre]; [fold r; lia |].
    assert (Hrl : length (rest (m ++ take n data)) = (r + n)%nat) by (rewrite Hre, length_app, Hdl; done).
    assert (Hw : (r + length (take (64 - r) data) <= 64)%nat) by (rewrite length_take; lia).
    split; cbn [hashbitlen databitlen datasize_in_buffer Jh.x buffer_ set_x set_buffer set_datasize set_databitlen].
    + done.
    + by rewrite Hxm, Ha.
    + by rewrite length_app, Hdl.
    + rewrite Hrl. lia.
    + apply buffer_write_at; [done | by apply Forall_take | lia].
    + rewrite Hrl, Hre. unfold write_at. rewrite app_assoc, take_app_le by (rewrite length_app, !length_take; destruct Hb; lia).
      rewrite take_app_ge by (rewrite length_take; destruct Hb; lia). rewrite Hrb. f_equal.
      rewrite take_take. f_equal. fold r. lia.
    + apply bytes_app; [done | by apply Forall_take].
  - next. cbn [datasize_in_buffer set_databitlen buffer_]. rewrite Hds.
    rewrite (proj2 (Z.ltb_lt 0 (8 * Z.of_nat r))), (u64_small (8 * Z.of_nat r + _)), (proj2 (Z.leb_le 512 _)) by (unfold word; lia).
    cbn [andb]. assert (Hf : length (take (64 - r) data) = (64 - r)%nat) by (rewrite length_take; lia).
    assert (Hblk : write_at r (take (64 - r) data) (buffer_ st) = rest m ++ take (64 - r) data)
      by (rewrite write_at_full by (destruct Hb; lia); by rewrite Hrb).
    assert (Hb1 : buffer 64 (rest m ++ take (64 - r) data)).
    { split; [rewrite length_app, Hf; fold r; lia |]. apply bytes_app; [by apply rest_bytes | by apply Forall_take]. }
    rewrite memcpy_ok by (destruct Hb; lia). next. rewrite Hblk. next.
    destruct (F8_eq (set_buffer (set_databitlen st L) (rest m ++ take (64 - r) data)) Hx Hb1) as [-> Hx1].
    cbn [set_buffer Jh.x buffer_ set_databitlen] in *.
    assert (Hnn : u64 (8 * Z.of_nat n - (512 - 8 * Z.of_nat r)) = 8 * Z.of_nat (n - (64 - r)))
      by (rewrite u64_small by (unfold word; lia); lia).
    rewrite Hnn.
    destruct (absorb_all_fill JhSpec.F8 64 ltac:(lia) iv m (take (64 - r) data)) as [Ha Hre]; [fold r; lia |].
    fold r in Ha, Hre. rewrite (take_ge (take _ _)), (drop_ge (take _ _)) in Ha by lia.
    rewrite (drop_ge (take _ _)) in Hre by lia.
    set (m1 := m ++ take (64 - r) data) in *.
    set (st1 := set_datasize (set_x (set_buffer st (rest m ++ take (64 - r) data))
      (JhSpec.F8 (x st) (rest m ++ take (64 - r) data))) 0).
    assert (Hr1 : repr size iv (set_databitlen st1 (u64 (8 * Z.of_nat (length m1)))) m1).
    { split; cbn [st1 hashbitlen databitlen datasize_in_buffer Jh.x buffer_ set_x set_buffer set_datasize set_databitlen].
      - exact Hs.
      - rewrite Ha, Hxm. reflexivity.
      - reflexivity.
      - rewrite Hre. reflexivity.
      - exact Hb1.
      - rewrite Hre. apply take_0.
      - unfold m1. apply bytes_app; [exact Hm | by apply Forall_take]. }
    assert (Hm1 : (length m1 + (n - (64 - r)) = length m + n)%nat) by (unfold m1; rewrite length_app, Hf; lia).
    pose proof (update_end size iv _ (drop (64 - r) data) (n - (64 - r)) m1 Hi ltac:(by apply Forall_drop)
      ltac:(rewrite length_drop; lia) Hr1 Hre L ltac:(by rewrite Hm1)) as Hend.
    assert (Hmm : m ++ take n data = m1 ++ take (n - (64 - r)) (drop (64 - r) data)).
    { unfold m1. rewrite <- app_assoc. f_equal. rewrite <- (take_drop (64 - r) (take n data)), take_take.
      replace ((64 - r) `min` n)%nat with (64 - r)%nat by lia. by rewrite skipn_firstn_comm. }
    rewrite Hmm. exact Hend.
Qed.

(** ** The end of a message *)

Lemma put_length_zero n : put_length n (replicate 64 0) = replicate 56 0 ++ be_bytes 8 n.
Proof. rewrite <- be64enc_spec. unfold put_length, be64enc. cbn -[Z.land Z.shiftr]. by rewrite Z.shiftr_0_r. Qed.
Lemma put_length_one n :
  put_length n (<[0%nat := 0x80]> (replicate 64 0)) = 0x80 :: replicate 55 0 ++ be_bytes 8 n.
Proof. rewrite <- be64enc_spec. unfold put_length, be64enc. cbn -[Z.land Z.shiftr]. by rewrite Z.shiftr_0_r. Qed.

Lemma long_length n : 0 <= n < 2 ^ 64 -> be_bytes 16 n = replicate 8 0 ++ be_bytes 8 n.
Proof. intros. rewrite (be_bytes_split 8 8), Z.div_small by done. done. Qed.

Lemma F8_state st b :
  state_words st.(x) -> buffer 64 b ->
  F8 (set_buffer st b) = set_x (set_buffer st b) (JhSpec.F8 st.(x) b) /\ state_words (JhSpec.F8 st.(x) b).
Proof. intros Hx Hb. by apply (F8_eq (set_buffer st b)). Qed.

Lemma Final_x size iv st m (L := 8 * Z.of_nat (length m)) :
  state_words iv -> repr size iv st m -> L < 2 ^ 64 ->
  x (snd (Final st)) = absorbed iv (JhSpec.pad m) /\ state_words (absorbed iv (JhSpec.pad m)) /\
  hashbitlen (snd (Final st)) = size.
Proof.
  intros Hi Hr HL. pose proof (repr_words _ _ _ _ Hi Hr) as Hx. destruct Hr as [Hs Hxm Hl Hds Hb Hrb Hm].
  rewrite u64_small in Hl by (unfold word; lia). fold L in Hl.
  pose proof (length_rest 64 ltac:(lia) m) as Hrl. pose proof (Nat.mod_upper_bound (length m) 64 ltac:(lia)) as Hub.
  unfold Final. rewrite Hl. unfold L. rewrite low_bits, whole_bytes, Hds, whole_bytes, shiftr_bits. fold L. cbn [snd].
  change (0 =? 0) with true. cbv iota. unfold JhSpec.pad. fold L.
  rewrite absorb_all_app, <- Hxm, (long_length L) by lia.
  set (r := (length m mod 64)%nat) in *. set (len := be_bytes 8 L).
  assert (Hlen : length len = 8%nat /\ bytes len) by (split; [apply length_be_bytes | apply bytes_be_bytes]).
  destruct Hlen as [Hlen Hlenb].
  destruct (Nat.eqb_spec r 0) as [Hr0 | Hr0].
  - rewrite Hr0. change (8 * Z.of_nat 0 =? 0) with true. cbv iota. rewrite put_length_one. fold len.
    assert (Hre : rest m = []) by (apply nil_length_inv; lia). rewrite Hre. cbn [app].
    change ((64 - 0) mod 64)%nat with 0%nat. change (replicate (47 + 0) 0 ++ replicate 8 0 ++ len)
      with (replicate 55 0 ++ len). set (blk := 0x80 :: replicate 55 0 ++ len).
    assert (Hblk : buffer 64 blk).
    { split; [cbn; lia |]. apply Forall_cons_2; [unfold word; lia | by apply bytes_app; [apply bytes_replicate |]]. }
    destruct (F8_state st blk Hx Hblk) as [-> Hw].
    rewrite <- (app_nil_r blk) at 2 3. rewrite absorb_all_block, absorb_all_small by (lia || apply Hblk || cbn; lia).
    split; [reflexivity |]. split; [exact Hw | exact Hs].
  - rewrite (proj2 (Z.eqb_neq (8 * Z.of_nat r) 0)) by lia.
    assert (Hb0 : write_at r (replicate (64 - r) 0) (buffer_ st) = rest m ++ replicate (64 - r) 0).
    { rewrite write_at_full by (rewrite length_replicate; destruct Hb; lia). rewrite <- Hrl at 1. by rewrite Hrb. }
    rewrite Hb0. assert (Hnth : (rest m ++ replicate (64 - r) 0).[r] = 0).
    { rewrite app_nth2, Hrl, Nat.sub_diag by lia. by rewrite nth_zeroes. }
    rewrite Hnth. change (Z.lor 0 (Z.shiftl 1 (7 - 0))) with 0x80.
    assert (Hins : <[r := 0x80]> (rest m ++ replicate (64 - r) 0) = rest m ++ 0x80 :: replicate (63 - r) 0).
    { rewrite insert_app_r_alt, Hrl, Nat.sub_diag by lia. by replace (64 - r)%nat with (S (63 - r)) by lia. }
    rewrite Hins, put_length_zero. fold len. set (b1 := rest m ++ _). set (b2 := replicate 56 0 ++ len).
    assert (H1 : buffer 64 b1).
    { split; [unfold b1; rewrite length_app; cbn [length]; rewrite length_replicate; lia |].
      apply bytes_app; [by apply rest_bytes |]. apply Forall_cons_2; [unfold word; lia | by apply bytes_replicate]. }
    assert (H2 : buffer 64 b2).
    { split; [unfold b2; rewrite length_app, length_replicate; lia |]. by apply bytes_app; [apply bytes_replicate |]. }
    destruct (F8_state st b1 Hx H1) as [-> Hw1].
    destruct (F8_state (set_x (set_buffer st b1) (JhSpec.F8 (x st) b1)) b2 Hw1 H2) as [E Hw2].
    change (databitlen (set_x (set_buffer st b1) (JhSpec.F8 (x st) b1))) with (databitlen st). rewrite Hl.
    fold len. fold b2. rewrite E. cbn [set_x set_buffer Jh.x hashbitlen] in Hw2 |- *.
    assert (Htail : rest m ++ [0x80] ++ replicate (47 + (64 - r) mod 64) 0 ++ replicate 8 0 ++ len = b1 ++ b2 ++ []).
    { rewrite Nat.mod_small, app_nil_r by lia. unfold b1, b2. rewrite <- app_assoc. f_equal. cbn [app]. f_equal.
      rewrite !app_assoc. f_equal. rewrite <- !replicate_add. f_equal. lia. }
    rewrite Htail, !absorb_all_block, absorb_all_small by (lia || apply H1 || apply H2 || cbn; lia).
    split; [reflexivity |]. split; [exact Hw2 | exact Hs].
Qed.

(** ** The inverse of E8 *)

#[local] Transparent JhSpec.round.

Definition valid (c : JhSpec.column) : Prop := (fst c < 16 /\ snd c < 16)%nat.

Lemma nibble_lt b0 b1 b2 b3 : (JhSpec.nibble b0 b1 b2 b3 < 16)%nat.
Proof. apply Nat.ltb_lt. by destruct b0, b1, b2, b3. Qed.
Lemma col_valid x j : valid (JhSpec.col x j).
Proof. split; apply nibble_lt. Qed.

Lemma element_inv c0 c1 a b :
  (a < 16)%nat -> (b < 16)%nat ->
  let '(c, d) := JhSpec.mds (JhSpec.Sbox c0 a) (JhSpec.Sbox c1 b) in
  valid (c, d) /\
  (let '(a', b') := JhSpec.mds_inv c d in (JhSpec.Sbox_inv c0 a', JhSpec.Sbox_inv c1 b')) = (a, b).
Proof.
  intros Ha Hb.
  assert (Hall : forallb (fun c0 => forallb (fun c1 => forallb (fun a => forallb (fun b =>
      let '(c, d) := JhSpec.mds (JhSpec.Sbox c0 a) (JhSpec.Sbox c1 b) in
      bool_decide (c < 16 /\ d < 16 /\
        (let '(a', b') := JhSpec.mds_inv c d in (JhSpec.Sbox_inv c0 a', JhSpec.Sbox_inv c1 b')) = (a, b))%nat)
      (seq 0 16)) (seq 0 16)) [true; false]) [true; false] = true) by (vm_compute; reflexivity).
  rewrite forallb_forall in Hall. specialize (Hall c0 ltac:(destruct c0; cbn; tauto)).
  rewrite forallb_forall in Hall. specialize (Hall c1 ltac:(destruct c1; cbn; tauto)).
  rewrite forallb_forall in Hall. specialize (Hall a ltac:(apply in_seq; lia)).
  rewrite forallb_forall in Hall. specialize (Hall b ltac:(apply in_seq; lia)).
  destruct (JhSpec.mds _ _) as [c d]. apply bool_decide_eq_true in Hall as (Hc & Hd & He). done.
Qed.

Definition columns (st : list JhSpec.column) : Prop :=
  length st = 128%nat /\ forall j, (j < 128)%nat -> valid (JhSpec.get st j).

Lemma columns_ext st st' :
  length st = 128%nat -> length st' = 128%nat ->
  (forall j, (j < 128)%nat -> JhSpec.get st j = JhSpec.get st' j) -> st = st'.
Proof. unfold JhSpec.column. intros Hl Hl' H. apply (nth_ext _ _ (0, 0)%nat (0, 0)%nat); [by rewrite Hl, Hl' |]. intros j Hj. apply H. by rewrite <- Hl. Qed.

Lemma lxor_lxor j n : Nat.lxor (Nat.lxor j n) n = j.
Proof. by rewrite Nat.lxor_assoc, Nat.lxor_nilpotent, Nat.lxor_0_r. Qed.

Lemma turn_swap r : In (2 ^ (r mod 7))%nat [1; 2; 4; 8; 16; 32; 64]%nat.
Proof.
  pose proof (Nat.mod_upper_bound r 7 ltac:(lia)) as H. revert H. generalize (r mod 7)%nat. intros k Hk.
  do 7 (destruct k as [| k]; [cbn; tauto |]). lia.
Qed.

Lemma round_inverse st r :
  columns st -> columns (JhSpec.round st r) /\ JhSpec.round_inv (JhSpec.round st r) r = st.
Proof.
  intros [Hl Hst]. unfold JhSpec.round, JhSpec.round_inv. set (n := (2 ^ (r mod 7))%nat).
  pose proof (turn_swap r) as Hn. fold n in Hn.
  assert (Hn' : forall j, (j < 128)%nat -> (Nat.lxor j n < 128)%nat) by (intros j Hj; by apply lxor_column).
  set (lay := JhSpec.layer st r).
  assert (Hlay : forall j, (j < 128)%nat -> JhSpec.get lay j =
    JhSpec.mds (JhSpec.Sbox (JhSpec.cbit r 0 j) (fst (JhSpec.get st j))) (JhSpec.Sbox (JhSpec.cbit r 1 j) (snd (JhSpec.get st j)))).
  { intros j Hj. unfold lay, JhSpec.layer. rewrite get_map by done. by destruct (JhSpec.get st j). }
  assert (Hperm : forall st j, (j < 128)%nat ->
    JhSpec.get (JhSpec.permute n st) j = (fst (JhSpec.get st j), snd (JhSpec.get st (Nat.lxor j n)))).
  { intros st' j Hj. unfold JhSpec.permute. by rewrite get_map. }
  assert (Hel : forall j, (j < 128)%nat -> valid (JhSpec.get lay j) /\
    (let '(c, d) := JhSpec.get lay j in let '(a', b') := JhSpec.mds_inv c d in
     (JhSpec.Sbox_inv (JhSpec.cbit r 0 j) a', JhSpec.Sbox_inv (JhSpec.cbit r 1 j) b')) = JhSpec.get st j).
  { intros j Hj. destruct (Hst j Hj) as [Ha Hb]. rewrite Hlay by done.
    pose proof (element_inv (JhSpec.cbit r 0 j) (JhSpec.cbit r 1 j) _ _ Ha Hb) as He.
    destruct (JhSpec.mds _ _) as [c d]. destruct He as [Hv He]. split; [done |]. rewrite He. by destruct (JhSpec.get st j). }
  split.
  - split; [done |]. intros j Hj. rewrite Hperm by done. split; apply Hel; auto.
  - apply columns_ext; [done | done |]. intros j Hj. rewrite get_map, !Hperm by auto. cbn [fst snd].
    rewrite lxor_lxor. destruct (Hel j Hj) as [_ He]. rewrite <- He. by destruct (JhSpec.get lay j).
Qed.

#[local] Opaque JhSpec.round JhSpec.round_inv.

Lemma rounds_inverse l st :
  columns st -> columns (fold_left JhSpec.round l st) /\
  fold_left JhSpec.round_inv (rev l) (fold_left JhSpec.round l st) = st.
Proof.
  revert st. induction l as [| r l IH]; intros st Hst; [done |].
  rewrite fold_left_one. change (rev (r :: l)) with (rev l ++ [r]). rewrite fold_left_app.
  destruct (round_inverse st r Hst) as [Hc Hi]. destruct (IH _ Hc) as [Hc' ->]. split; [done |].
  rewrite fold_left_one. exact Hi.
Qed.

Lemma cols_columns x : columns (JhSpec.cols x).
Proof. split; [done |]. intros j Hj. rewrite get_cols by done. apply col_valid. Qed.

Lemma E8_inverse x : state_words x -> JhSpec.E8_inv (E8 x) = x.
Proof.
  intros Hx. destruct (E8_cols x Hx) as [_ Hc]. unfold JhSpec.E8_inv. rewrite Hc.
  destruct (rounds_inverse (seq 0 42) _ (cols_columns x)) as [_ ->]. by apply uncols_cols.
Qed.

(** ** The theorems *)

Lemma H0_words n : state_words (words64 16 (be_bytes 128 n)).
Proof. split; [by apply length_words64 | apply words64_words, bytes_be_bytes]. Qed.

(** The tables hold the compressed digest length. *)
Lemma H0_tables :
  words64 16 JH224_H0 = JhSpec.H0 224 /\ words64 16 JH256_H0 = JhSpec.H0 256 /\
  words64 16 JH384_H0 = JhSpec.H0 384 /\ words64 16 JH512_H0 = JhSpec.H0 512.
Proof. split; [| split; [| split]]; vm_compute; reflexivity. Qed.

Definition known_size (n : Z) : bool := (n =? 224) || (n =? 256) || (n =? 384) || (n =? 512).

Lemma known_sizes n (P : Z -> Prop) : P 224 -> P 256 -> P 384 -> P 512 -> known_size n = true -> P n.
Proof.
  intros H1 H2 H3 H4. unfold known_size. rewrite !orb_true_iff, !Z.eqb_eq. intros [[[-> | ->] | ->] | ->]; done.
Qed.

Lemma Init_repr S0 n :
  buffer 64 (buffer_ S0) -> known_size n = true ->
  state_words (JhSpec.H0 n) /\ repr n (JhSpec.H0 n) (Init S0 n) [].
Proof.
  intros Hb Hn. destruct H0_tables as (T1 & T2 & T3 & T4).
  assert (Hx : state_words (x (Init S0 n)) /\ x (Init S0 n) = JhSpec.H0 n).
  { apply (known_sizes n (fun n => state_words (x (Init S0 n)) /\ x (Init S0 n) = JhSpec.H0 n)); [| | | | done];
      unfold Init; cbn [Jh.x Z.eqb Pos.eqb]; split; (assumption || (unfold JH224_H0, JH256_H0, JH384_H0, JH512_H0; apply H0_words)). }
  destruct Hx as [Hw Hx]. rewrite Hx in Hw. split; [done |]. split; try done.
Qed.

Lemma concat_words_length y : state_words y -> length (concat (map (le_bytes 8) y)) = 128%nat.
Proof. intros [Hl _]. by rewrite length_concat_le, Hl. Qed.

Lemma Final_digest n st m :
  known_size n = true -> state_words (JhSpec.H0 n) -> repr n (JhSpec.H0 n) st m ->
  8 * Z.of_nat (length m) < 2 ^ 64 -> fst (Final st) = JhSpec.hash n m.
Proof.
  intros Hn Hi Hr HL. destruct (Final_x _ _ _ _ Hi Hr HL) as (Hx & Hw & Hs).
  change (fst (Final st)) with
    (let bytes_x := concat (map (le_bytes 8) (x (snd (Final st)))) in
     let size := hashbitlen (snd (Final st)) in
     if size =? 224 then take 28 (drop (64 + 36) bytes_x)
     else if size =? 256 then take 32 (drop (64 + 32) bytes_x)
     else if size =? 384 then take 48 (drop (64 + 16) bytes_x)
     else if size =? 512 then take 64 (drop 64 bytes_x) else []).
  rewrite Hx, Hs. unfold JhSpec.hash. pose proof (concat_words_length _ Hw) as Hl. cbv zeta.
  revert Hl. generalize (concat (map (le_bytes 8) (absorbed (JhSpec.H0 n) (JhSpec.pad m)))). intros b Hl.
  apply (known_sizes n (fun n => (if n =? 224 then take 28 (drop (64 + 36) b)
    else if n =? 256 then take 32 (drop (64 + 32) b) else if n =? 384 then take 48 (drop (64 + 16) b)
    else if n =? 512 then take 64 (drop 64 b) else []) = drop (128 - Z.to_nat (n / 8)) b)); [| | | | done];
    cbn [Z.eqb Pos.eqb]; (etransitivity; [apply take_ge; rewrite length_drop, Hl; vm_compute; lia | reflexivity]).
Qed.

(** Portions are buffers of which the first so many bytes are message; [k]
    bytes have been hashed before. *)
Fixpoint portions_ok (k : nat) (ps : list (list Z * nat)) : Prop :=
  match ps with
  | [] => True
  | (data, n) :: ps => bytes data /\ readable k data n /\ 8 * Z.of_nat n < 2 ^ 64 - 512 /\ portions_ok (k + n) ps
  end.
Fixpoint feed (st : hashState) (ps : list (list Z * nat)) : option hashState :=
  match ps with
  | [] => Some st
  | (data, n) :: ps => st ← Update st data (8 * Z.of_nat n); feed st ps
  end.
Definition fed (ps : list (list Z * nat)) : list Z := concat (map (fun p => take (snd p) (fst p)) ps).

Lemma jh_feed_repr size iv ps : forall st m,
  state_words iv -> repr size iv st m -> portions_ok (length m) ps ->
  exists st', feed st ps = Some st' /\ repr size iv st' (m ++ fed ps).
Proof.
  unfold fed. induction ps as [| [data n] ps IH]; intros st m Hi Hr Hp.
  - exists st. by rewrite app_nil_r.
  - destruct Hp as (Hd & Hread & Hs & Hp). cbn [feed map concat fst snd].
    destruct (Update_repr size iv st m data n Hi Hr Hd Hread Hs) as (st1 & -> & Hr1). next. rewrite app_assoc.
    apply IH; [done | done |]. destruct Hread as [Hn _]. by rewrite length_app, length_take, Nat.min_l.
Qed.

Lemma jh_digest S0 n ps :
  buffer 64 (buffer_ S0) -> known_size n = true -> portions_ok 0 ps ->
  8 * Z.of_nat (length (fed ps)) < 2 ^ 64 ->
  exists st, feed (Init S0 n) ps = Some st /\ fst (Final st) = JhSpec.hash n (fed ps).
Proof.
  intros Hb Hn Hp HL. destruct (Init_repr S0 n Hb Hn) as [Hw Hr].
  destruct (jh_feed_repr _ _ ps _ [] Hw Hr Hp) as (st & E & Hst). exists st. split; [done |].
  by apply (Final_digest n st (fed ps)).
Qed.

(** C27: the bit-sliced [E8], seven different rounds in a loop of six turns on
    sixteen words, is JH's: in each of 42 rounds the S-boxes that the constant
    bits select and the MDS code on each of the 128 columns, then the
    permutation. *)
Theorem E8_refines x :
  state_words x ->
  E8 x = JhSpec.E8 x /\ state_words (E8 x) /\
  JhSpec.cols (E8 x) = fold_left JhSpec.round (seq 0 42) (JhSpec.cols x).
Proof. intros Hx. split; [by apply E8_eq | by apply E8_cols]. Qed.

Lemma E8_refines_witness :
  E8 (replicate 16 5) = JhSpec.E8 (replicate 16 5) /\ state_words (E8 (replicate 16 5)) /\
  JhSpec.cols (E8 (replicate 16 5)) = fold_left JhSpec.round (seq 0 42) (JhSpec.cols (replicate 16 5)).
Proof. apply (E8_refines (replicate 16 5)). by apply (bool_decide_unpack _). Defined.

(** [E8] is a bijection, as its comment says: undoing the 42 rounds, the
    last one first, gives every state back. *)
Theorem E8_bijective x : state_words x -> JhSpec.E8_inv (E8 x) = x.
Proof. apply E8_inverse. Qed.

Lemma E8_bijective_witness : JhSpec.E8_inv (E8 (replicate 16 5)) = replicate 16 5.
Proof. apply (E8_bijective (replicate 16 5)). by apply (bool_decide_unpack _). Defined.

(** C32: [Init], any number of [Update]s with whole bytes and [Final] compute JH
    of the concatenated portions, for the four digest lengths, whatever the
    buffer held, and read only the portions' buffers; a buffer must reach to
    the end of the started block when its bytes do not complete it. *)
Theorem jh_portions S0 n ps :
  buffer 64 (buffer_ S0) -> known_size n = true -> portions_ok 0 ps ->
  8 * Z.of_nat (length (fed ps)) < 2 ^ 64 ->
  exists st, feed (Init S0 n) ps = Some st /\ fst (Final st) = JhSpec.hash n (fed ps).
Proof. apply jh_digest. Qed.

Definition some_state : hashState :=
  {| hashbitlen := 1; databitlen := 2; datasize_in_buffer := 3; x := []; buffer_ := replicate 64 7 |}.

Definition some_portions : list (list Z * nat) :=
  [([1; 2; 3], 2%nat); (4 :: replicate 61 9, 1%nat); (replicate 70 5, 62%nat)].

Lemma jh_portions_witness :
  exists st, feed (Init some_state 256) some_portions = Some st /\ fst (Final st) = JhSpec.hash 256 (fed some_portions).
Proof.
  apply (jh_portions some_state 256 some_portions);
    [by apply (bool_decide_unpack _) | done | | by vm_compute].
  repeat (split; [by apply (bool_decide_unpack _); vm_compute | split; [split; vm_compute; lia | split; [done |]]]). done.
Defined.

(** A short portion of a buffer that ends too early is read behind its end. *)
Example jh_over_read : feed (Init some_state 256) [([1; 2], 2%nat); ([4], 1%nat)] = None.
Proof. by vm_compute. Qed.

(** the interface of the file: for 224, 256, 384 and 512 bits the digest
    of the message is written to the first bytes of [hashval]; for any other
    length BAD_HASHLEN is returned and nothing is written. *)
Theorem jh_hash_spec S0 n data hashval :
  buffer 64 (buffer_ S0) -> bytes data -> 8 * Z.of_nat (length data) < 2 ^ 64 - 512 ->
  jh_hash S0 n data (8 * Z.of_nat (length data)) hashval =
  Some (if known_size n then (SUCCESS, write_at 0 (JhSpec.hash n data) hashval) else (BAD_HASHLEN, hashval)).
Proof.
  intros Hb Hd HL. unfold jh_hash. fold (known_size n). destruct (known_size n) eqn:Hn; [| done].
  destruct (jh_digest S0 n [(data, length data)] Hb Hn) as (st & E & H).
  - split; [done |]. split; [split; [done |] | done]. rewrite Nat.Div0.mod_0_l. lia.
  - unfold fed. cbn [map concat fst snd]. rewrite app_nil_r, take_ge by done. lia.
  - unfold fed in H. cbn [map concat fst snd] in H. rewrite app_nil_r, take_ge in H by done. rewrite <- H.
    cbn [feed] in E. destruct (Update _ _ _) as [st' |]; [next | done]. by injection E as ->.
Qed.

Lemma jh_hash_spec_witness :
  jh_hash some_state 256 [97; 98; 99] 24 (replicate 32 0)
  = Some (SUCCESS, write_at 0 (JhSpec.hash 256 [97; 98; 99]) (replicate 32 0)) /\
  jh_hash some_state 255 [97; 98; 99] 24 (replicate 32 0) = Some (BAD_HASHLEN, replicate 32 0).
Proof.
  split; [apply (jh_hash_spec some_state 256 [97; 98; 99] (replicate 32 0))
    | apply (jh_hash_spec some_state 255 [97; 98; 99] (replicate 32 0))];
    (by apply (bool_decide_unpack _)) || done.
Defined.
