(* ===== verification/Groestl.v ===== *)
(** * Groestl-256: [xmrig/crypto/cn/c_groestl.c] and [groestl_tables.h]

    The implementation for 32-bit machines on a little-endian host: a state
    is a list of sixteen words, two for each column, and a round looks up
    two words of the table [T] for each byte.  The reference ([GroestlSpec])
    is the byte matrix of the submission: AES S-box, shifts of the rows and
    a multiplication of the columns in GF(2^8). *)

From S2P Require Import Prelude Endian Streaming Gf256.

(** ** The code: tables and rounds *)

Definition T : list Z := [
  0xA5F432C6; 0xC6A597F4; 0x84976FF8; 0xF884EB97; 0x99B05EEE; 0xEE99C7B0; 0x8D8C7AF6; 0xF68DF78C;
  0x0D17E8FF; 0xFF0DE517; 0xBDDC0AD6; 0xD6BDB7DC; 0xB1C816DE; 0xDEB1A7C8; 0x54FC6D91; 0x915439FC;
  0x50F09060; 0x6050C0F0; 0x03050702; 0x02030405; 0xA9E02ECE; 0xCEA987E0; 0x7D87D156; 0x567DAC87;
  0x192BCCE7; 0xE719D52B; 0x62A613B5; 0xB56271A6; 0xE6317C4D; 0x4DE69A31; 0x9AB559EC; 0xEC9AC3B5;
  0x45CF408F; 0x8F4505CF; 0x9DBCA31F; 0x1F9D3EBC; 0x40C04989; 0x894009C0; 0x879268FA; 0xFA87EF92;
  0x153FD0EF; 0xEF15C53F; 0xEB2694B2; 0xB2EB7F26; 0xC940CE8E; 0x8EC90740; 0x0B1DE6FB; 0xFB0BED1D;
  0xEC2F6E41; 0x41EC822F; 0x67A91AB3; 0xB3677DA9; 0xFD1C435F; 0x5FFDBE1C; 0xEA256045; 0x45EA8A25;
  0xBFDAF923; 0x23BF46DA; 0xF7025153; 0x53F7A602; 0x96A145E4; 0xE496D3A1; 0x5BED769B; 0x9B5B2DED;
  0xC25D2875; 0x75C2EA5D; 0x1C24C5E1; 0xE11CD924; 0xAEE9D43D; 0x3DAE7AE9; 0x6ABEF24C; 0x4C6A98BE;
  0x5AEE826C; 0x6C5AD8EE; 0x41C3BD7E; 0x7E41FCC3; 0x0206F3F5; 0xF502F106; 0x4FD15283; 0x834F1DD1;
  0x5CE48C68; 0x685CD0E4; 0xF4075651; 0x51F4A207; 0x345C8DD1; 0xD134B95C; 0x0818E1F9; 0xF908E918;
  0x93AE4CE2; 0xE293DFAE; 0x73953EAB; 0xAB734D95; 0x53F59762; 0x6253C4F5; 0x3F416B2A; 0x2A3F5441;
  0x0C141C08; 0x080C1014; 0x52F66395; 0x955231F6; 0x65AFE946; 0x46658CAF; 0x5EE27F9D; 0x9D5E21E2;
  0x28784830; 0x30286078; 0xA1F8CF37; 0x37A16EF8; 0x0F111B0A; 0x0A0F1411; 0xB5C4EB2F; 0x2FB55EC4;
  0x091B150E; 0x0E091C1B; 0x365A7E24; 0x2436485A; 0x9BB6AD1B; 0x1B9B36B6; 0x3D4798DF; 0xDF3DA547;
  0x266AA7CD; 0xCD26816A; 0x69BBF54E; 0x4E699CBB; 0xCD4C337F; 0x7FCDFE4C; 0x9FBA50EA; 0xEA9FCFBA;
  0x1B2D3F12; 0x121B242D; 0x9EB9A41D; 0x1D9E3AB9; 0x749CC458; 0x5874B09C; 0x2E724634; 0x342E6872;
  0x2D774136; 0x362D6C77; 0xB2CD11DC; 0xDCB2A3CD; 0xEE299DB4; 0xB4EE7329; 0xFB164D5B; 0x5BFBB616;
  0xF601A5A4; 0xA4F65301; 0x4DD7A176; 0x764DECD7; 0x61A314B7; 0xB76175A3; 0xCE49347D; 0x7DCEFA49;
  0x7B8DDF52; 0x527BA48D; 0x3E429FDD; 0xDD3EA142; 0x7193CD5E; 0x5E71BC93; 0x97A2B113; 0x139726A2;
  0xF504A2A6; 0xA6F55704; 0x68B801B9; 0xB96869B8; 0x00000000; 0x00000000; 0x2C74B5C1; 0xC12C9974;
  0x60A0E040; 0x406080A0; 0x1F21C2E3; 0xE31FDD21; 0xC8433A79; 0x79C8F243; 0xED2C9AB6; 0xB6ED772C;
  0xBED90DD4; 0xD4BEB3D9; 0x46CA478D; 0x8D4601CA; 0xD9701767; 0x67D9CE70; 0x4BDDAF72; 0x724BE4DD;
  0xDE79ED94; 0x94DE3379; 0xD467FF98; 0x98D42B67; 0xE82393B0; 0xB0E87B23; 0x4ADE5B85; 0x854A11DE;
  0x6BBD06BB; 0xBB6B6DBD; 0x2A7EBBC5; 0xC52A917E; 0xE5347B4F; 0x4FE59E34; 0x163AD7ED; 0xED16C13A;
  0xC554D286; 0x86C51754; 0xD762F89A; 0x9AD72F62; 0x55FF9966; 0x6655CCFF; 0x94A7B611; 0x119422A7;
  0xCF4AC08A; 0x8ACF0F4A; 0x1030D9E9; 0xE910C930; 0x060A0E04; 0x0406080A; 0x819866FE; 0xFE81E798;
  0xF00BABA0; 0xA0F05B0B; 0x44CCB478; 0x7844F0CC; 0xBAD5F025; 0x25BA4AD5; 0xE33E754B; 0x4BE3963E;
  0xF30EACA2; 0xA2F35F0E; 0xFE19445D; 0x5DFEBA19; 0xC05BDB80; 0x80C01B5B; 0x8A858005; 0x058A0A85;
  0xADECD33F; 0x3FAD7EEC; 0xBCDFFE21; 0x21BC42DF; 0x48D8A870; 0x7048E0D8; 0x040CFDF1; 0xF104F90C;
  0xDF7A1963; 0x63DFC67A; 0xC1582F77; 0x77C1EE58; 0x759F30AF; 0xAF75459F; 0x63A5E742; 0x426384A5;
  0x30507020; 0x20304050; 0x1A2ECBE5; 0xE51AD12E; 0x0E12EFFD; 0xFD0EE112; 0x6DB708BF; 0xBF6D65B7;
  0x4CD45581; 0x814C19D4; 0x143C2418; 0x1814303C; 0x355F7926; 0x26354C5F; 0x2F71B2C3; 0xC32F9D71;
  0xE13886BE; 0xBEE16738; 0xA2FDC835; 0x35A26AFD; 0xCC4FC788; 0x88CC0B4F; 0x394B652E; 0x2E395C4B;
  0x57F96A93; 0x93573DF9; 0xF20D5855; 0x55F2AA0D; 0x829D61FC; 0xFC82E39D; 0x47C9B37A; 0x7A47F4C9;
  0xACEF27C8; 0xC8AC8BEF; 0xE73288BA; 0xBAE76F32; 0x2B7D4F32; 0x322B647D; 0x95A442E6; 0xE695D7A4;
  0xA0FB3BC0; 0xC0A09BFB; 0x98B3AA19; 0x199832B3; 0xD168F69E; 0x9ED12768; 0x7F8122A3; 0xA37F5D81;
  0x66AAEE44; 0x446688AA; 0x7E82D654; 0x547EA882; 0xABE6DD3B; 0x3BAB76E6; 0x839E950B; 0x0B83169E;
  0xCA45C98C; 0x8CCA0345; 0x297BBCC7; 0xC729957B; 0xD36E056B; 0x6BD3D66E; 0x3C446C28; 0x283C5044;
  0x798B2CA7; 0xA779558B; 0xE23D81BC; 0xBCE2633D; 0x1D273116; 0x161D2C27; 0x769A37AD; 0xAD76419A;
  0x3B4D96DB; 0xDB3BAD4D; 0x56FA9E64; 0x6456C8FA; 0x4ED2A674; 0x744EE8D2; 0x1E223614; 0x141E2822;
  0xDB76E492; 0x92DB3F76; 0x0A1E120C; 0x0C0A181E; 0x6CB4FC48; 0x486C90B4; 0xE4378FB8; 0xB8E46B37;
  0x5DE7789F; 0x9F5D25E7; 0x6EB20FBD; 0xBD6E61B2; 0xEF2A6943; 0x43EF862A; 0xA6F135C4; 0xC4A693F1;
  0xA8E3DA39; 0x39A872E3; 0xA4F7C631; 0x31A462F7; 0x37598AD3; 0xD337BD59; 0x8B8674F2; 0xF28BFF86;
  0x325683D5; 0xD532B156; 0x43C54E8B; 0x8B430DC5; 0x59EB856E; 0x6E59DCEB; 0xB7C218DA; 0xDAB7AFC2;
  0x8C8F8E01; 0x018C028F; 0x64AC1DB1; 0xB16479AC; 0xD26DF19C; 0x9CD2236D; 0xE03B7249; 0x49E0923B;
  0xB4C71FD8; 0xD8B4ABC7; 0xFA15B9AC; 0xACFA4315; 0x0709FAF3; 0xF307FD09; 0x256FA0CF; 0xCF25856F;
  0xAFEA20CA; 0xCAAF8FEA; 0x8E897DF4; 0xF48EF389; 0xE9206747; 0x47E98E20; 0x18283810; 0x10182028;
  0xD5640B6F; 0x6FD5DE64; 0x888373F0; 0xF088FB83; 0x6FB1FB4A; 0x4A6F94B1; 0x7296CA5C; 0x5C72B896;
  0x246C5438; 0x3824706C; 0xF1085F57; 0x57F1AE08; 0xC7522173; 0x73C7E652; 0x51F36497; 0x975135F3;
  0x2365AECB; 0xCB238D65; 0x7C8425A1; 0xA17C5984; 0x9CBF57E8; 0xE89CCBBF; 0x21635D3E; 0x3E217C63;
  0xDD7CEA96; 0x96DD377C; 0xDC7F1E61; 0x61DCC27F; 0x86919C0D; 0x0D861A91; 0x85949B0F; 0x0F851E94;
  0x90AB4BE0; 0xE090DBAB; 0x42C6BA7C; 0x7C42F8C6; 0xC4572671; 0x71C4E257; 0xAAE529CC; 0xCCAA83E5;
  0xD873E390; 0x90D83B73; 0x050F0906; 0x06050C0F; 0x0103F4F7; 0xF701F503; 0x12362A1C; 0x1C123836;
  0xA3FE3CC2; 0xC2A39FFE; 0x5FE18B6A; 0x6A5FD4E1; 0xF910BEAE; 0xAEF94710; 0xD06B0269; 0x69D0D26B;
  0x91A8BF17; 0x17912EA8; 0x58E87199; 0x995829E8; 0x2769533A; 0x3A277469; 0xB9D0F727; 0x27B94ED0;
  0x384891D9; 0xD938A948; 0x1335DEEB; 0xEB13CD35; 0xB3CEE52B; 0x2BB356CE; 0x33557722; 0x22334455;
  0xBBD604D2; 0xD2BBBFD6; 0x709039A9; 0xA9704990; 0x89808707; 0x07890E80; 0xA7F2C133; 0x33A766F2;
  0xB6C1EC2D; 0x2DB65AC1; 0x22665A3C; 0x3C227866; 0x92ADB815; 0x15922AAD; 0x2060A9C9; 0xC9208960;
  0x49DB5C87; 0x874915DB; 0xFF1AB0AA; 0xAAFF4F1A; 0x7888D850; 0x5078A088; 0x7A8E2BA5; 0xA57A518E;
  0x8F8A8903; 0x038F068A; 0xF8134A59; 0x59F8B213; 0x809B9209; 0x0980129B; 0x1739231A; 0x1A173439;
  0xDA751065; 0x65DACA75; 0x315384D7; 0xD731B553; 0xC651D584; 0x84C61351; 0xB8D303D0; 0xD0B8BBD3;
  0xC35EDC82; 0x82C31F5E; 0xB0CBE229; 0x29B052CB; 0x7799C35A; 0x5A77B499; 0x11332D1E; 0x1E113C33;
  0xCB463D7B; 0x7BCBF646; 0xFC1FB7A8; 0xA8FC4B1F; 0xD6610C6D; 0x6DD6DA61; 0x3A4E622C; 0x2C3A584E ].

(** The words seen through [(uint8_t* )x]. *)
Definition byte_of (x : list Z) (k : nat) : Z := u8 (Z.shiftr x.[k / 4] (8 * Z.of_nat (k mod 4))).

(** The new [v1] and [v2]. *)
Definition ROTATE_COLUMN_DOWN (v1 v2 amount_bytes : Z) : Z * Z :=
  (Z.lor (u32 (Z.shiftl v1 (8 * amount_bytes))) (Z.shiftr v2 (8 * (4 - amount_bytes))),
   Z.lor (u32 (Z.shiftl v2 (8 * amount_bytes))) (Z.shiftr v1 (8 * (4 - amount_bytes)))).

(** [T[2*x]], [T[2*x+1]]. *)
Definition T_pair (b : Z) : Z * Z := (T.[Z.to_nat (2 * b)], T.[Z.to_nat (2 * b + 1)]).
(** [tv1 = T[2*b]; tv2 = T[2*b+1]; ROTATE_COLUMN_DOWN(tv1,tv2,amount,t)]. *)
Definition T_rotated (b amount : Z) : Z * Z :=
  let '(tv1, tv2) := T_pair b in ROTATE_COLUMN_DOWN tv1 tv2 amount.

Definition COLUMN (x y : list Z) (i c0 c1 c2 c3 c4 c5 c6 c7 : nat) : list Z :=
  let '(tu, tl) := T_pair (byte_of x (4 * c0 + 0)) in
  let '(tv1, tv2) := T_rotated (byte_of x (4 * c1 + 1)) 1 in
  let tu := Z.lxor tu tv1 in let tl := Z.lxor tl tv2 in
  let '(tv1, tv2) := T_rotated (byte_of x (4 * c2 + 2)) 2 in
  let tu := Z.lxor tu tv1 in let tl := Z.lxor tl tv2 in
  let '(tv1, tv2) := T_rotated (byte_of x (4 * c3 + 3)) 3 in
  let tu := Z.lxor tu tv1 in let tl := Z.lxor tl tv2 in
  let '(tv1, tv2) := T_pair (byte_of x (4 * c4 + 0)) in
  let tl := Z.lxor tl tv1 in let tu := Z.lxor tu tv2 in
  let '(tv1, tv2) := T_rotated (byte_of x (4 * c5 + 1)) 1 in
  let tl := Z.lxor tl tv1 in let tu := Z.lxor tu tv2 in
  let '(tv1, tv2) := T_rotated (byte_of x (4 * c6 + 2)) 2 in
  let tl := Z.lxor tl tv1 in let tu := Z.lxor tu tv2 in
  let '(tv1, tv2) := T_rotated (byte_of x (4 * c7 + 3)) 3 in
  let tl := Z.lxor tl tv1 in let tu := Z.lxor tu tv2 in
  <[(i + 1)%nat := tl]> (<[i := tu]> y).

(** [x[i] ^= c]. *)
Definition xor_word (x : list Z) (ic : nat * Z) : list Z :=
  <[fst ic := Z.lxor x.[fst ic] (snd ic)]> x.

(** One round of P and of Q: the new [x] and the new [y]. *)
Definition RND512P (x y : list Z) (r : Z) : list Z * list Z :=
  let x := fold_left xor_word [
    (0%nat, Z.lxor 0x00000000 r); (2%nat, Z.lxor 0x00000010 r); (4%nat, Z.lxor 0x00000020 r);
    (6%nat, Z.lxor 0x00000030 r); (8%nat, Z.lxor 0x00000040 r); (10%nat, Z.lxor 0x00000050 r);
    (12%nat, Z.lxor 0x00000060 r); (14%nat, Z.lxor 0x00000070 r)] x in
  let y := COLUMN x y 0 0 2 4 6 9 11 13 15 in
  let y := COLUMN x y 2 2 4 6 8 11 13 15 1 in
  let y := COLUMN x y 4 4 6 8 10 13 15 1 3 in
  let y := COLUMN x y 6 6 8 10 12 15 1 3 5 in
  let y := COLUMN x y 8 8 10 12 14 1 3 5 7 in
  let y := COLUMN x y 10 10 12 14 0 3 5 7 9 in
  let y := COLUMN x y 12 12 14 0 2 5 7 9 11 in
  let y := COLUMN x y 14 14 0 2 4 7 9 11 13 in
  (x, y).

Definition not_word (x : list Z) (i : nat) : list Z := <[i := not32 x.[i]]> x.

Definition RND512Q (x y : list Z) (r : Z) : list Z * list Z :=
  let x := xor_word (not_word x 0) (1%nat, Z.lxor 0xffffffff r) in
  let x := xor_word (not_word x 2) (3%nat, Z.lxor 0xefffffff r) in
  let x := xor_word (not_word x 4) (5%nat, Z.lxor 0xdfffffff r) in
  let x := xor_word (not_word x 6) (7%nat, Z.lxor 0xcfffffff r) in
  let x := xor_word (not_word x 8) (9%nat, Z.lxor 0xbfffffff r) in
  let x := xor_word (not_word x 10) (11%nat, Z.lxor 0xafffffff r) in
  let x := xor_word (not_word x 12) (13%nat, Z.lxor 0x9fffffff r) in
  let x := xor_word (not_word x 14) (15%nat, Z.lxor 0x8fffffff r) in
  let y := COLUMN x y 0 2 6 10 14 1 5 9 13 in
  let y := COLUMN x y 2 4 8 12 0 3 7 11 15 in
  let y := COLUMN x y 4 6 10 14 2 5 9 13 1 in
  let y := COLUMN x y 6 8 12 0 4 7 11 15 3 in
  let y := COLUMN x y 8 10 14 2 6 9 13 1 5 in
  let y := COLUMN x y 10 12 0 4 8 11 15 3 7 in
  let y := COLUMN x y 12 14 2 6 10 13 1 5 9 in
  let y := COLUMN x y 14 0 4 8 12 15 3 7 11 in
  (x, y).

(** [y] and [Qtmp] are uninitialised; the contents of the arrays that a round
    has left behind are the next round's scratch. *)
Definition F512_scratch (y Qtmp h m : list Z) : list Z :=
  let z := m in
  let Ptmp := map (fun i => Z.lxor h.[i] m.[i]) (seq 0 16) in
  let '(z, y) := RND512Q z y 0x00000000 in
  let '(y, z) := RND512Q y z 0x01000000 in
  let '(z, y) := RND512Q z y 0x02000000 in
  let '(y, z) := RND512Q y z 0x03000000 in
  let '(z, y) := RND512Q z y 0x04000000 in
  let '(y, z) := RND512Q y z 0x05000000 in
  let '(z, y) := RND512Q z y 0x06000000 in
  let '(y, z) := RND512Q y z 0x07000000 in
  let '(z, y) := RND512Q z y 0x08000000 in
  let '(y, Qtmp) := RND512Q y Qtmp 0x09000000 in
  let '(Ptmp, y) := RND512P Ptmp y 0x00000000 in
  let '(y, z) := RND512P y z 0x00000001 in
  let '(z, y) := RND512P z y 0x00000002 in
  let '(y, z) := RND512P y z 0x00000003 in
  let '(z, y) := RND512P z y 0x00000004 in
  let '(y, z) := RND512P y z 0x00000005 in
  let '(z, y) := RND512P z y 0x00000006 in
  let '(y, z) := RND512P y z 0x00000007 in
  let '(z, y) := RND512P z y 0x00000008 in
  let '(y, Ptmp) := RND512P y Ptmp 0x00000009 in
  fold_left (fun h i => <[i := Z.lxor h.[i] (Z.lxor Ptmp.[i] Qtmp.[i])]> h) (seq 0 16) h.
Definition F512 : list Z -> list Z -> list Z := F512_scratch (replicate 16 0) (replicate 16 0).

(** ** The code: the hash function *)

Definition SIZE512 : Z := 64.
Definition LENGTHFIELDLEN : Z := 8.
Definition HASH_BIT_LEN : Z := 256.

Record groestlHashState := {
  chaining : list Z; block_counter1 : Z; block_counter2 : Z;
  buffer_ : list Z; buf_ptr : Z; bits_in_last_byte : Z
}.
Definition set_chaining (ctx : groestlHashState) (h : list Z) : groestlHashState :=
  {| chaining := h; block_counter1 := ctx.(block_counter1); block_counter2 := ctx.(block_counter2);
     buffer_ := ctx.(buffer_); buf_ptr := ctx.(buf_ptr); bits_in_last_byte := ctx.(bits_in_last_byte) |}.
Definition set_counters (ctx : groestlHashState) (c1 c2 : Z) : groestlHashState :=
  {| chaining := ctx.(chaining); block_counter1 := c1; block_counter2 := c2;
     buffer_ := ctx.(buffer_); buf_ptr := ctx.(buf_ptr); bits_in_last_byte := ctx.(bits_in_last_byte) |}.
Definition set_buffer (ctx : groestlHashState) (b : list Z) (ptr : Z) : groestlHashState :=
  {| chaining := ctx.(chaining); block_counter1 := ctx.(block_counter1);
     block_counter2 := ctx.(block_counter2); buffer_ := b; buf_ptr := ptr;
     bits_in_last_byte := ctx.(bits_in_last_byte) |}.
Definition set_bits (ctx : groestlHashState) (bits : Z) : groestlHashState :=
  {| chaining := ctx.(chaining); block_counter1 := ctx.(block_counter1);
     block_counter2 := ctx.(block_counter2); buffer_ := ctx.(buffer_); buf_ptr := ctx.(buf_ptr);
     bits_in_last_byte := bits |}.

(** [ctx->block_counter1++; if (ctx->block_counter1 == 0) ctx->block_counter2++;]. *)
Definition count_block (ctx : groestlHashState) : groestlHashState :=
  let c1 := u32 (ctx.(block_counter1) + 1) in
  set_counters ctx c1 (if c1 =? 0 then u32 (ctx.(block_counter2) + 1) else ctx.(block_counter2)).

(** [(uint32_t* )input], [n] words. *)
Definition words32 (n : nat) (p : list Z) : list Z := map le_word (pieces 4 n p).

(** [for (; msglen >= SIZE512; ...)]. *)
Fixpoint transform_loop (fuel : nat) (ctx : groestlHashState) (input : list Z) (msglen : Z) :
  groestlHashState :=
  match fuel with
  | O => ctx
  | S fuel =>
      if SIZE512 <=? msglen then
        let ctx := set_chaining ctx (F512 ctx.(chaining) (words32 16 input)) in
        transform_loop fuel (count_block ctx) (drop 64 input) (msglen - SIZE512)
      else ctx
  end.
Definition Transform (ctx : groestlHashState) (input : list Z) (msglen : Z) : groestlHashState :=
  transform_loop (Z.to_nat (msglen / SIZE512)) ctx input msglen.

(** [y] and [z] are uninitialised. *)
Definition P512_scratch (y z temp : list Z) : list Z :=
  let '(temp, y) := RND512P temp y 0x00000000 in
  let '(y, z) := RND512P y z 0x00000001 in
  let '(z, y) := RND512P z y 0x00000002 in
  let '(y, z) := RND512P y z 0x00000003 in
  let '(z, y) := RND512P z y 0x00000004 in
  let '(y, z) := RND512P y z 0x00000005 in
  let '(z, y) := RND512P z y 0x00000006 in
  let '(y, z) := RND512P y z 0x00000007 in
  let '(z, y) := RND512P z y 0x00000008 in
  let '(y, temp) := RND512P y temp 0x00000009 in
  temp.
Definition OutputTransformation (ctx : groestlHashState) : groestlHashState :=
  let temp := map (fun j => ctx.(chaining).[j]) (seq 0 16) in
  let temp := P512_scratch (replicate 16 0) (replicate 16 0) temp in
  set_chaining ctx
    (fold_left (fun h j => <[j := Z.lxor h.[j] temp.[j]]> h) (seq 0 16) ctx.(chaining)).

Definition u32BIG (a : Z) : Z :=
  Z.lor (Z.land (rotl32 a 8) 0x00FF00FF) (Z.land (rotl32 a 24) 0xFF00FF00).

Definition Init (ctx : groestlHashState) : groestlHashState :=
  {| chaining := <[15%nat := u32BIG HASH_BIT_LEN]> (replicate 16 0);
     block_counter1 := 0; block_counter2 := 0; buffer_ := ctx.(buffer_); buf_ptr := 0;
     bits_in_last_byte := 0 |}.

(** The conversion to [int]. *)
Definition int_of (x : Z) : Z := let y := u32 x in if y <? 2 ^ 31 then y else y - 2 ^ 32.

(** [ctx->buffer[(int)ctx->buf_ptr++] = input[index++]], [n] times. *)
Fixpoint copy_loop (n : nat) (ctx : groestlHashState) (input : list Z) (index : Z) :
  groestlHashState :=
  match n with
  | O => ctx
  | S n =>
      let b := <[Z.to_nat ctx.(buf_ptr) := input.[Z.to_nat index]]> ctx.(buffer_) in
      copy_loop n (set_buffer ctx b (ctx.(buf_ptr) + 1)) input (index + 1)
  end.

(** [if (rem) { ctx->bits_in_last_byte = rem; .. = input[index]; }]. *)
Definition store_bits (ctx : groestlHashState) (input : list Z) (index rem : Z) : groestlHashState :=
  if rem =? 0 then ctx else set_bits (copy_loop 1 ctx input index) rem.

Definition Update (ctx : groestlHashState) (input : list Z) (databitlen : Z) : groestlHashState :=
  let msglen := int_of (databitlen / 8) in
  let rem := databitlen mod 8 in
  let n := if ctx.(buf_ptr) =? 0 then 0 else Z.max 0 (Z.min (SIZE512 - ctx.(buf_ptr)) msglen) in
  let ctx' := copy_loop (Z.to_nat n) ctx input 0 in
  if negb (ctx.(buf_ptr) =? 0) && (ctx'.(buf_ptr) <? SIZE512) then store_bits ctx' input n rem
  else
    let ctx := if ctx.(buf_ptr) =? 0 then ctx
      else Transform (set_buffer ctx' ctx'.(buffer_) 0) ctx'.(buffer_) SIZE512 in
    let ctx := Transform ctx (drop (Z.to_nat n) input) (msglen - n) in
    let index := n + Z.quot (msglen - n) SIZE512 * SIZE512 in
    let ctx := copy_loop (Z.to_nat (msglen - index)) ctx input index in
    store_bits ctx input (Z.max index msglen) rem.

(** [while (ctx->buf_ptr < limit) ctx->buffer[(int)ctx->buf_ptr++] = 0;]. *)
Definition zero_fill (ctx : groestlHashState) (limit : Z) : groestlHashState :=
  copy_loop (Z.to_nat (limit - ctx.(buf_ptr))) ctx [] 0.

(** [while (ctx->buf_ptr > limit) { ctx->buffer[(int)--ctx->buf_ptr] = (uint8_t)c; c >>= 8; }],
    [n] times: the new context and counter. *)
Fixpoint length_loop (n : nat) (ctx : groestlHashState) (c : Z) : groestlHashState * Z :=
  match n with
  | O => (ctx, c)
  | S n =>
      let ptr := ctx.(buf_ptr) - 1 in
      length_loop n (set_buffer ctx (<[Z.to_nat ptr := u8 c]> ctx.(buffer_)) ptr) (Z.shiftr c 8)
  end.

(** [Final], in three parts.  The '1'-bit; *)
Definition pad_bit (ctx : groestlHashState) : groestlHashState :=
  let BILB := ctx.(bits_in_last_byte) in
  let last := Z.to_nat (ctx.(buf_ptr) - 1) in
  if BILB =? 0 then
    set_buffer ctx (<[Z.to_nat ctx.(buf_ptr) := 0x80]> ctx.(buffer_)) (ctx.(buf_ptr) + 1)
  else
    let b := Z.land ctx.(buffer_).[last] (Z.shiftl (Z.shiftl 1 BILB - 1) (8 - BILB)) in
    let b := Z.lxor b (Z.shiftl 1 (7 - BILB)) in
    set_bits (set_buffer ctx (<[last := b]> ctx.(buffer_)) ctx.(buf_ptr)) 0.
(** [if (ctx->buf_ptr > SIZE512-LENGTHFIELDLEN)]: the padding requires two blocks; *)
Definition first_block (ctx : groestlHashState) : groestlHashState :=
  if SIZE512 - LENGTHFIELDLEN <? ctx.(buf_ptr) then
    let ctx := zero_fill ctx SIZE512 in
    let ctx := Transform ctx ctx.(buffer_) SIZE512 in
    set_buffer ctx ctx.(buffer_) 0
  else ctx.
(** '0'-bits, the length padding and the final padding block. *)
Definition last_block (ctx : groestlHashState) : groestlHashState :=
  let ctx := zero_fill ctx (SIZE512 - LENGTHFIELDLEN) in
  let ctx := count_block ctx in
  let ctx := set_buffer ctx ctx.(buffer_) SIZE512 in
  let '(ctx, c1) := length_loop 4 ctx ctx.(block_counter1) in
  let '(ctx, c2) := length_loop 4 ctx ctx.(block_counter2) in
  let ctx := set_counters ctx c1 c2 in
  Transform ctx ctx.(buffer_) SIZE512.

(** The bytes written to [output] and the context left behind. *)
Definition Final (ctx : groestlHashState) : list Z * groestlHashState :=
  let ctx := last_block (first_block (pad_bit ctx)) in
  let ctx := OutputTransformation ctx in
  let s := concat (map (le_bytes 4) ctx.(chaining)) in
  let output := drop (Z.to_nat (SIZE512 - HASH_BIT_LEN / 8)) s in
  let ctx := set_chaining ctx (write_at 0 (replicate 8 0) ctx.(chaining)) in
  (output, set_buffer ctx (replicate 64 0) ctx.(buf_ptr)).

(** [context] is the uninitialised local variable. *)
Definition groestl (context : groestlHashState) (data : list Z) (databitlen : Z) : list Z :=
  fst (Final (Update (Init context) data databitlen)).

(** ** Groestl on the byte matrix *)

Module GroestlSpec.
(** The matrix, column by column: element (i, j), row [i] and column [j], is
    byte [8 j + i]. *)
Definition at_ (s : list Z) (i j : nat) : Z := s.[8 * j + i].
Definition build (f : nat -> nat -> Z) : list Z :=
  concat (map (fun j => map (fun i => f i j) (seq 0 8)) (seq 0 8)).

Definition AddRoundConstantP (r : Z) (s : list Z) : list Z :=
  build (fun i j => Z.lxor (at_ s i j) (if (i =? 0)%nat then Z.lxor (16 * Z.of_nat j) r else 0)).
Definition AddRoundConstantQ (r : Z) (s : list Z) : list Z :=
  build (fun i j => Z.lxor (Z.lxor (at_ s i j) 0xFF)
    (if (i =? 7)%nat then Z.lxor (16 * Z.of_nat j) r else 0)).
Definition SubBytes (s : list Z) : list Z := build (fun i j => Gf256.sbox (at_ s i j)).
Definition sigmaP : list nat := [0; 1; 2; 3; 4; 5; 6; 7]%nat.
Definition sigmaQ : list nat := [1; 3; 5; 7; 0; 2; 4; 6]%nat.
Definition ShiftBytes (sigma : list nat) (s : list Z) : list Z :=
  build (fun i j => at_ s i ((j + nth i sigma 0%nat) mod 8)).
(** The circulant matrix with this first row. *)
Definition circ : list Z := [2; 2; 3; 4; 5; 3; 5; 7].
Definition MixBytes (s : list Z) : list Z :=
  build (fun i j => fold_left Z.lxor
    (map (fun k => Gf256.gmul circ.[(k + 8 - i) mod 8] (at_ s k j)) (seq 0 8)) 0).
Definition roundP (s : list Z) (r : Z) : list Z :=
  MixBytes (ShiftBytes sigmaP (SubBytes (AddRoundConstantP r s))).
Definition roundQ (s : list Z) (r : Z) : list Z :=
  MixBytes (ShiftBytes sigmaQ (SubBytes (AddRoundConstantQ r s))).
Definition P (s : list Z) : list Z := fold_left roundP [0; 1; 2; 3; 4; 5; 6; 7; 8; 9] s.
Definition Q (s : list Z) : list Z := fold_left roundQ [0; 1; 2; 3; 4; 5; 6; 7; 8; 9] s.

Definition f (h m : list Z) : list Z := xor_bytes h (xor_bytes (P (xor_bytes h m)) (Q m)).
Definition Omega (h : list Z) : list Z := drop 32 (xor_bytes h (P h)).
Definition iv : list Z := be_bytes 64 256.

(** The padding: a message of whole bytes and of [rem] more bits, the high
    ones of [last]; the 1 bit that follows, zeroes, and the number of blocks. *)
Definition marker (rem last : Z) : Z :=
  Z.lor (Z.land last (256 - 2 ^ (8 - rem))) (2 ^ (7 - rem)).
Definition pad (m : list Z) (rem last : Z) : list Z :=
  let zeroes := ((119 - length m mod 64) mod 64)%nat in
  m ++ [marker rem last] ++ replicate zeroes 0
    ++ be_bytes 8 (Z.of_nat (length m + zeroes + 9) / 64).
Definition hash_bits (m : list Z) (rem last : Z) : list Z := Omega (absorb_all f 64 iv (pad m rem last)).
Definition hash (m : list Z) : list Z := hash_bits m 0 0.
End GroestlSpec.

(** ** A column *)

(** The words of a state as its bytes. *)
Definition state_bytes (x : list Z) : list Z := concat (map (le_bytes 4) x).
Definition state_wf (x : list Z) : Prop := length x = 16%nat /\ Forall (word 32) x.

Lemma byte_of_state x k : (k < 4 * length x)%nat -> byte_of x k = (state_bytes x).[k].
Proof.
  intros Hk. unfold state_bytes, byte_of. pose proof (Nat.div_mod_eq k 4) as Hd.
  pose proof (Nat.mod_upper_bound k 4 ltac:(lia)).
  rewrite Hd at 3. rewrite nth_concat_le, nth_le_bytes; [done | lia | lia |].
  apply Nat.Div0.div_lt_upper_bound. lia.
Qed.

(** The table: rotated by [k] rows, the entry of [b] is column [k] of the
    matrix times the S-box of [b]. *)
Definition entry (k : nat) (b : Z) : Z * Z :=
  let '(u, l) := if (k mod 4 =? 0)%nat then T_pair b else T_rotated b (Z.of_nat (k mod 4)) in
  if (k <? 4)%nat then (u, l) else (l, u).
Definition entry_bytes (e : Z * Z) : list Z := le_bytes 4 (fst e) ++ le_bytes 4 (snd e).
Definition matrix_column (k : nat) (b : Z) : list Z :=
  let s := Gf256.sbox b in
  map (fun i => Gf256.gmul GroestlSpec.circ.[(k + 8 - i) mod 8] s) (seq 0 8).

Lemma T_entries k b : (k < 8)%nat -> is_byte b -> entry_bytes (entry k b) = matrix_column k b.
Proof.
  intros Hk Hb.
  assert (H : forallb (fun b => let s := Gf256.sbox b in forallb (fun k =>
    bool_decide (entry_bytes (entry k b) =
      map (fun i => Gf256.gmul GroestlSpec.circ.[(k + 8 - i) mod 8] s) (seq 0 8))) (seq 0 8))
    (seqZ 0 256) = true) by (vm_compute; reflexivity).
  rewrite forallb_forall in H.
  assert (Hb' : In b (seqZ 0 256)) by (apply list_elem_of_In, elem_of_seqZ; unfold word in Hb; lia).
  specialize (H b Hb'). cbv zeta in H. rewrite forallb_forall in H.
  unfold matrix_column. apply (bool_decide_eq_true _), H, in_seq. lia.
Qed.

Lemma T_words : Forall (word 32) T.
Proof. by apply (bool_decide_unpack _); vm_compute. Qed.
Lemma T_pair_words b : word 32 (fst (T_pair b)) /\ word 32 (snd (T_pair b)).
Proof. split; apply word_nth; (lia || apply T_words). Qed.
Lemma T_rotated_words b a :
  0 <= a <= 4 -> word 32 (fst (T_rotated b a)) /\ word 32 (snd (T_rotated b a)).
Proof.
  intros Ha. unfold T_rotated. destruct (T_pair_words b) as [H1 H2].
  destruct (T_pair b) as [u l]. cbn [fst snd ROTATE_COLUMN_DOWN] in *. split; auto with words.
Qed.
Lemma entry_words k b : word 32 (fst (entry k b)) /\ word 32 (snd (entry k b)).
Proof.
  unfold entry. pose proof (Nat.mod_upper_bound k 4 ltac:(lia)).
  pose proof (T_pair_words b). pose proof (T_rotated_words b (Z.of_nat (k mod 4)) ltac:(lia)).
  destruct (k mod 4 =? 0)%nat; [destruct (T_pair b) | destruct (T_rotated b _)];
    destruct (k <? 4)%nat; cbn [fst snd] in *; tauto.
Qed.

Definition lxor_pair (p q : Z * Z) : Z * Z := (Z.lxor (fst p) (fst q), Z.lxor (snd p) (snd q)).
(** The two words of the column that the bytes [bs] give. *)
Definition column_words (bs : list Z) : Z * Z :=
  fold_left (fun acc k => lxor_pair acc (entry k bs.[k])) (seq 1 7) (entry 0 bs.[0]).

Lemma COLUMN_eq x y i c0 c1 c2 c3 c4 c5 c6 c7 (bs := [
    byte_of x (4 * c0 + 0); byte_of x (4 * c1 + 1); byte_of x (4 * c2 + 2); byte_of x (4 * c3 + 3);
    byte_of x (4 * c4 + 0); byte_of x (4 * c5 + 1); byte_of x (4 * c6 + 2); byte_of x (4 * c7 + 3)]) :
  COLUMN x y i c0 c1 c2 c3 c4 c5 c6 c7 =
  <[(i + 1)%nat := snd (column_words bs)]> (<[i := fst (column_words bs)]> y).
Proof.
  subst bs. unfold COLUMN.
  repeat match goal with |- context [byte_of x ?k] => generalize (byte_of x k); intros ? end.
  unfold column_words, entry, lxor_pair. cbn [seq fold_left nth].
  change (Z.of_nat (1 mod 4)) with 1. change (Z.of_nat (2 mod 4)) with 2. change (Z.of_nat (3 mod 4)) with 3.
  change (Z.of_nat (5 mod 4)) with 1. change (Z.of_nat (6 mod 4)) with 2. change (Z.of_nat (7 mod 4)) with 3.
  cbn -[T_pair T_rotated insert Z.lxor].
  repeat match goal with |- context [T_pair ?b] => destruct (T_pair b) end.
  repeat match goal with |- context [T_rotated ?b ?a] => destruct (T_rotated b a) end.
  reflexivity.
Qed.

Lemma column_words_words bs :
  word 32 (fst (column_words bs)) /\ word 32 (snd (column_words bs)).
Proof.
  unfold column_words. generalize (entry_words 0 bs.[0]). generalize (entry 0 bs.[0]).
  generalize (seq 1 7). intros l. induction l as [| k l IH]; intros a [H1 H2]; [done |].
  rewrite fold_left_one. apply IH. destruct (entry_words k bs.[k]).
  unfold lxor_pair. cbn [fst snd]. auto with words.
Qed.

Lemma entry_bytes_lxor p q : entry_bytes (lxor_pair p q) = xor_bytes (entry_bytes p) (entry_bytes q).
Proof.
  unfold entry_bytes, lxor_pair, xor_bytes. cbn [fst snd].
  rewrite !le_bytes_lxor. symmetry. apply zip_with_app. by rewrite !length_le_bytes.
Qed.

(** Column of the matrix product. *)
Definition mixed (bs : list Z) : list Z :=
  map (fun i => fold_left Z.lxor
    (map (fun k => Gf256.gmul GroestlSpec.circ.[(k + 8 - i) mod 8] (Gf256.sbox bs.[k])) (seq 0 8)) 0)
    (seq 0 8).

Lemma column_bytes bs : length bs = 8%nat -> bytes bs -> entry_bytes (column_words bs) = mixed bs.
Proof.
  intros Hl Hb. unfold column_words. cbn [seq fold_left]. rewrite !entry_bytes_lxor.
  rewrite !T_entries by (lia || (apply word_nth; [lia | done])).
  unfold mixed, matrix_column, xor_bytes. cbn [seq map zip_with fold_left].
  rewrite !Z.lxor_0_l. reflexivity.
Qed.

(** ** A round *)

Lemma length_state_bytes x : length x = 16%nat -> length (state_bytes x) = 64%nat.
Proof. intros Hl. unfold state_bytes. by rewrite length_concat_le, Hl. Qed.
Lemma bytes_state_bytes x : bytes (state_bytes x).
Proof. apply bytes_concat_le. Qed.

Lemma at_build f i j :
  (i < 8)%nat -> (j < 8)%nat -> GroestlSpec.at_ (GroestlSpec.build f) i j = f i j.
Proof.
  intros Hi Hj. unfold GroestlSpec.at_.
  do 8 (destruct j as [| j]; [do 8 (destruct i as [| i]; [reflexivity |]); lia |]). lia.
Qed.
Lemma length_build f : length (GroestlSpec.build f) = 64%nat.
Proof. reflexivity. Qed.
Lemma nth_build f k : (k < 64)%nat -> (GroestlSpec.build f).[k] = f (k mod 8)%nat (k / 8)%nat.
Proof.
  intros Hk. pose proof (Nat.div_mod_eq k 8) as E. pose proof (Nat.mod_upper_bound k 8 ltac:(lia)).
  rewrite E at 1. apply at_build; [lia |]. apply Nat.Div0.div_lt_upper_bound. lia.
Qed.
Lemma matrix_ext f s :
  length s = 64%nat -> (forall i j, (i < 8)%nat -> (j < 8)%nat -> GroestlSpec.at_ s i j = f i j) ->
  s = GroestlSpec.build f.
Proof.
  intros Hs H. apply nth_ext_Z; [by rewrite length_build |]. intros k Hk. rewrite Hs in Hk.
  pose proof (Nat.div_mod_eq k 8) as E. pose proof (Nat.mod_upper_bound k 8 ltac:(lia)).
  assert (k / 8 < 8)%nat by (apply Nat.Div0.div_lt_upper_bound; lia).
  rewrite nth_build, <- (H (k mod 8) (k / 8))%nat by lia. unfold GroestlSpec.at_. by rewrite <- E.
Qed.
Lemma matrix_ext' f g :
  (forall i j, (i < 8)%nat -> (j < 8)%nat -> f i j = g i j) -> GroestlSpec.build f = GroestlSpec.build g.
Proof. intros H. apply matrix_ext; [done |]. intros. by rewrite at_build, H. Qed.

(** Everything between the constants and the product, and the product, for
    one column. *)
Definition gathered (sigma : list nat) (s : list Z) (j : nat) : list Z :=
  map (fun k => s.[8 * ((j + nth k sigma 0%nat) mod 8) + k]) (seq 0 8).

Lemma round_columns sigma s :
  GroestlSpec.MixBytes (GroestlSpec.ShiftBytes sigma (GroestlSpec.SubBytes s))
  = concat (map (fun j => mixed (gathered sigma s j)) (seq 0 8)).
Proof.
  unfold GroestlSpec.MixBytes, GroestlSpec.build at 1. f_equal. apply map_ext_in. intros j Hj%in_seq.
  unfold mixed. apply map_ext. intros i. f_equal. apply map_ext_in. intros k Hk%in_seq.
  assert ((j + nth k sigma 0%nat) mod 8 < 8)%nat by (apply Nat.mod_upper_bound; lia).
  unfold GroestlSpec.ShiftBytes, GroestlSpec.SubBytes. rewrite !at_build by lia.
  unfold gathered. rewrite nth_map_seq by lia. done.
Qed.

(** The words of a state, one by one. *)
Lemma state_cases (x : list Z) (R : list Z -> Prop) :
  (forall x0 x1 x2 x3 x4 x5 x6 x7 x8 x9 x10 x11 x12 x13 x14 x15,
    R [x0; x1; x2; x3; x4; x5; x6; x7; x8; x9; x10; x11; x12; x13; x14; x15]) ->
  length x = 16%nat -> R x.
Proof.
  intros H Hl. do 16 (destruct x as [| ? x]; [done |]). destruct x; [apply H | done].
Qed.

Lemma state_bytes_two a b x : state_bytes (a :: b :: x) = entry_bytes (a, b) ++ state_bytes x.
Proof. unfold state_bytes, entry_bytes. cbn [map concat fst snd]. by rewrite app_assoc. Qed.

(** The array that holds the eight columns of a round. *)
Definition column (sigma : list nat) (x : list Z) (j : nat) : Z * Z :=
  column_words (gathered sigma (state_bytes x) j).
Definition flat_pairs (f : nat -> Z * Z) : list Z :=
  [fst (f 0%nat); snd (f 0%nat); fst (f 1%nat); snd (f 1%nat); fst (f 2%nat); snd (f 2%nat);
   fst (f 3%nat); snd (f 3%nat); fst (f 4%nat); snd (f 4%nat); fst (f 5%nat); snd (f 5%nat);
   fst (f 6%nat); snd (f 6%nat); fst (f 7%nat); snd (f 7%nat)].
Definition columns (sigma : list nat) (x : list Z) : list Z := flat_pairs (column sigma x).

Lemma flat_pairs_bytes f : state_bytes (flat_pairs f) = concat (map (fun j => entry_bytes (f j)) (seq 0 8)).
Proof.
  unfold flat_pairs. rewrite !state_bytes_two, <- !surjective_pairing.
  cbn [seq]. rewrite !map_cons, !concat_cons. done.
Qed.

Lemma columns_wf sigma x : state_wf (columns sigma x).
Proof.
  split; [done |]. unfold columns.
  assert (H : forall j, word 32 (fst (column sigma x j)) /\ word 32 (snd (column sigma x j)))
    by (intros; apply column_words_words).
  revert H. generalize (column sigma x). intros f H. unfold flat_pairs.
  repeat (apply Forall_cons_2; [apply H |]). apply Forall_nil_2.
Qed.

Lemma columns_bytes sigma x :
  state_bytes (columns sigma x)
  = GroestlSpec.MixBytes (GroestlSpec.ShiftBytes sigma (GroestlSpec.SubBytes (state_bytes x))).
Proof.
  rewrite round_columns. unfold columns. rewrite flat_pairs_bytes. f_equal. apply map_ext.
  intros j. unfold column. apply column_bytes; [done |].
  apply Forall_nth_Z. intros i Hi. unfold gathered in *. rewrite length_map, length_seq in Hi.
  rewrite nth_map_seq by lia. apply word_nth; [lia | apply bytes_state_bytes].
Qed.

Lemma rows_P x y :
  length x = 16%nat -> length y = 16%nat ->
  (let y := COLUMN x y 0 0 2 4 6 9 11 13 15 in
   let y := COLUMN x y 2 2 4 6 8 11 13 15 1 in
   let y := COLUMN x y 4 4 6 8 10 13 15 1 3 in
   let y := COLUMN x y 6 6 8 10 12 15 1 3 5 in
   let y := COLUMN x y 8 8 10 12 14 1 3 5 7 in
   let y := COLUMN x y 10 10 12 14 0 3 5 7 9 in
   let y := COLUMN x y 12 12 14 0 2 5 7 9 11 in
   COLUMN x y 14 14 0 2 4 7 9 11 13) = columns GroestlSpec.sigmaP x.
Proof.
  intros Hx Hy. cbv zeta. rewrite !COLUMN_eq, !byte_of_state by lia.
  pattern y. apply state_cases; [| exact Hy]. intros. reflexivity.
Qed.
Lemma rows_Q x y :
  length x = 16%nat -> length y = 16%nat ->
  (let y := COLUMN x y 0 2 6 10 14 1 5 9 13 in
   let y := COLUMN x y 2 4 8 12 0 3 7 11 15 in
   let y := COLUMN x y 4 6 10 14 2 5 9 13 1 in
   let y := COLUMN x y 6 8 12 0 4 7 11 15 3 in
   let y := COLUMN x y 8 10 14 2 6 9 13 1 5 in
   let y := COLUMN x y 10 12 0 4 8 11 15 3 7 in
   let y := COLUMN x y 12 14 2 6 10 13 1 5 9 in
   COLUMN x y 14 0 4 8 12 15 3 7 11) = columns GroestlSpec.sigmaQ x.
Proof.
  intros Hx Hy. cbv zeta. rewrite !COLUMN_eq, !byte_of_state by lia.
  pattern y. apply state_cases; [| exact Hy]. intros. reflexivity.
Qed.

(** Constants enter word by word. *)
Lemma le_bytes_small w b : is_byte b -> le_bytes (S w) b = b :: replicate w 0.
Proof.
  intros Hb. unfold word in Hb. cbn [le_bytes]. rewrite Z.mod_small, Z.div_small by lia. f_equal.
  induction w as [| w IH]; [done |]. cbn [le_bytes replicate]. change (0 / 256) with 0. by rewrite IH.
Qed.
Lemma le_bytes_top b : is_byte b -> le_bytes 4 (Z.shiftl b 24) = [0; 0; 0; b].
Proof.
  intros Hb. rewrite <- (le_bytes_le_word [0; 0; 0; b]).
  - cbn [length]. f_equal. rewrite Z.shiftl_mul_pow2 by lia. cbn [le_word]. lia.
  - repeat apply Forall_cons_2; (done || apply Forall_nil_2).
Qed.
Lemma le_bytes_not32 w : le_bytes 4 (not32 w) = xor_bytes (le_bytes 4 w) [0xFF; 0xFF; 0xFF; 0xFF].
Proof.
  change [0xFF; 0xFF; 0xFF; 0xFF] with (le_bytes 4 0xFFFFFFFF). rewrite <- le_bytes_lxor.
  unfold not32. rewrite u32_mod, le_bytes_mod by lia.
  rewrite <- (le_bytes_mod 4 32 (Z.lnot w)), <- (le_bytes_mod 4 32 (Z.lxor w _)) by lia. f_equal.
  apply Z.bits_inj'. intros i Hi. destruct (decide (i < 32)).
  - rewrite !Z.mod_pow2_bits_low, Z.lnot_spec, Z.lxor_spec by lia.
    change 0xFFFFFFFF with (Z.ones 32). rewrite Z.ones_spec_low by lia. by rewrite xorb_true_r.
  - by rewrite !Z.mod_pow2_bits_high by lia.
Qed.

Lemma state_bytes_cons w x : state_bytes (w :: x) = le_bytes 4 w ++ state_bytes x.
Proof. done. Qed.

(** Four bytes of a word, as a list. *)
Lemma le_bytes_4 w : exists a b c d, le_bytes 4 w = [a; b; c; d].
Proof. cbn [le_bytes]. eauto. Qed.

Definition constants_P (r : Z) (x : list Z) : list Z :=
  fold_left xor_word [
    (0%nat, Z.lxor 0x00000000 r); (2%nat, Z.lxor 0x00000010 r); (4%nat, Z.lxor 0x00000020 r);
    (6%nat, Z.lxor 0x00000030 r); (8%nat, Z.lxor 0x00000040 r); (10%nat, Z.lxor 0x00000050 r);
    (12%nat, Z.lxor 0x00000060 r); (14%nat, Z.lxor 0x00000070 r)] x.
Definition constants_Q (r : Z) (x : list Z) : list Z :=
  fold_left (fun x '(i, c) => xor_word (not_word x i) ((i + 1)%nat, Z.lxor c r)) [
    (0%nat, 0xFFFFFFFF); (2%nat, 0xEFFFFFFF); (4%nat, 0xDFFFFFFF); (6%nat, 0xCFFFFFFF);
    (8%nat, 0xBFFFFFFF); (10%nat, 0xAFFFFFFF); (12%nat, 0x9FFFFFFF); (14%nat, 0x8FFFFFFF)] x.

Lemma constants_P_bytes r x :
  is_byte r -> length x = 16%nat ->
  state_bytes (constants_P r x) = GroestlSpec.AddRoundConstantP r (state_bytes x).
Proof.
  intros Hr Hx. pattern x. apply state_cases; [| exact Hx]. intros.
  unfold constants_P. cbn [fold_left]. unfold xor_word. cbn [fst snd nth insert list_insert].
  rewrite !state_bytes_cons, !le_bytes_lxor, (le_bytes_small 3 r Hr).
  repeat match goal with |- context [le_bytes 4 (Zpos ?p)] =>
    let v := eval vm_compute in (le_bytes 4 (Zpos p)) in change (le_bytes 4 (Zpos p)) with v end.
  change (le_bytes 4 0) with [0; 0; 0; 0].
  repeat match goal with |- context [le_bytes 4 ?w] =>
    destruct (le_bytes_4 w) as (? & ? & ? & ? & ->) end.
  cbn -[Z.lxor]. rewrite !Z.lxor_0_r. reflexivity.
Qed.

Lemma constants_Q_bytes r x :
  is_byte r -> length x = 16%nat ->
  state_bytes (constants_Q (Z.shiftl r 24) x) = GroestlSpec.AddRoundConstantQ r (state_bytes x).
Proof.
  intros Hr Hx. pattern x. apply state_cases; [| exact Hx]. intros.
  unfold constants_Q. cbn [fold_left Nat.add]. unfold xor_word, not_word. cbn [fst snd nth insert list_insert].
  rewrite !state_bytes_cons, !le_bytes_lxor, !le_bytes_not32, (le_bytes_top r Hr).
  repeat match goal with |- context [le_bytes 4 (Zpos ?p)] =>
    let v := eval vm_compute in (le_bytes 4 (Zpos p)) in change (le_bytes 4 (Zpos p)) with v end.
  repeat match goal with |- context [le_bytes 4 ?w] =>
    destruct (le_bytes_4 w) as (? & ? & ? & ? & ->) end.
  cbn -[Z.lxor]. change (16 * Z.of_nat 0) with 0.
  change 239 with (Z.lxor 255 (16 * Z.of_nat 1)). change 223 with (Z.lxor 255 (16 * Z.of_nat 2)).
  change 207 with (Z.lxor 255 (16 * Z.of_nat 3)). change 191 with (Z.lxor 255 (16 * Z.of_nat 4)).
  change 175 with (Z.lxor 255 (16 * Z.of_nat 5)). change 159 with (Z.lxor 255 (16 * Z.of_nat 6)).
  change 143 with (Z.lxor 255 (16 * Z.of_nat 7)).
  rewrite !Z.lxor_0_r, <- !Z.lxor_assoc, !Z.lxor_0_r. reflexivity.
Qed.

Lemma length_xor_word x ic : length (xor_word x ic) = length x.
Proof. apply length_insert. Qed.
Lemma length_not_word x i : length (not_word x i) = length x.
Proof. apply length_insert. Qed.
Lemma length_constants_P r x : length (constants_P r x) = length x.
Proof. unfold constants_P. cbn [fold_left]. by rewrite !length_xor_word. Qed.
Lemma length_constants_Q r x : length (constants_Q r x) = length x.
Proof.
  unfold constants_Q. cbn [fold_left]. by repeat rewrite length_xor_word, length_not_word.
Qed.

(** A round leaves the constants in [x] and the round's result in [y]. *)
Lemma RND512P_eq x y r :
  length x = 16%nat -> length y = 16%nat ->
  RND512P x y r = (constants_P r x, columns GroestlSpec.sigmaP (constants_P r x)).
Proof.
  intros Hx Hy. assert (Hc : length (constants_P r x) = 16%nat) by (rewrite length_constants_P; exact Hx).
  rewrite <- (rows_P (constants_P r x) y Hc Hy).
  unfold RND512P, constants_P. reflexivity.
Qed.
Lemma RND512Q_eq x y r :
  length x = 16%nat -> length y = 16%nat ->
  RND512Q x y r = (constants_Q r x, columns GroestlSpec.sigmaQ (constants_Q r x)).
Proof.
  intros Hx Hy. assert (Hc : length (constants_Q r x) = 16%nat) by (rewrite length_constants_Q; exact Hx).
  rewrite <- (rows_Q (constants_Q r x) y Hc Hy).
  unfold RND512Q.
  change (constants_Q r x) with (
    let x := xor_word (not_word x 0) (1%nat, Z.lxor 0xffffffff r) in
    let x := xor_word (not_word x 2) (3%nat, Z.lxor 0xefffffff r) in
    let x := xor_word (not_word x 4) (5%nat, Z.lxor 0xdfffffff r) in
    let x := xor_word (not_word x 6) (7%nat, Z.lxor 0xcfffffff r) in
    let x := xor_word (not_word x 8) (9%nat, Z.lxor 0xbfffffff r) in
    let x := xor_word (not_word x 10) (11%nat, Z.lxor 0xafffffff r) in
    let x := xor_word (not_word x 12) (13%nat, Z.lxor 0x9fffffff r) in
    xor_word (not_word x 14) (15%nat, Z.lxor 0x8fffffff r)).
  reflexivity.
Qed.

(** ** The permutations and the compression function *)

Definition code_roundP (x : list Z) (r : Z) : list Z := columns GroestlSpec.sigmaP (constants_P r x).
Definition code_roundQ (x : list Z) (r : Z) : list Z := columns GroestlSpec.sigmaQ (constants_Q r x).

Lemma length_columns sigma x : length (columns sigma x) = 16%nat.
Proof. apply columns_wf. Qed.

Ltac state_length :=
  rewrite ?length_constants_P, ?length_constants_Q, ?length_columns; assumption || reflexivity.

#[local] Opaque RND512P RND512Q columns constants_P constants_Q.

Lemma P512_scratch_eq y z x :
  length x = 16%nat -> length y = 16%nat -> length z = 16%nat ->
  P512_scratch y z x = fold_left code_roundP [0; 1; 2; 3; 4; 5; 6; 7; 8; 9] x.
Proof.
  intros Hx Hy Hz. unfold P512_scratch. repeat (rewrite RND512P_eq by state_length; cbv beta iota).
  reflexivity.
Qed.

Lemma map_xor h m :
  length h = 16%nat -> length m = 16%nat ->
  map (fun i => Z.lxor h.[i] m.[i]) (seq 0 16) = xor_bytes h m.
Proof.
  intros Hh Hm. apply nth_ext_Z; [rewrite length_xor_bytes, length_map, length_seq; lia |].
  rewrite length_map, length_seq. intros i Hi. rewrite nth_map_seq, nth_xor_bytes by lia. done.
Qed.

(** [for (i = 0; i < 16; i++) h[i] ^= src(i);]. *)
Lemma xor_fold src s h :
  length h = 16%nat -> length s = 16%nat -> (forall i, src i = s.[i]) ->
  fold_left (fun h i => <[i := Z.lxor h.[i] (src i)]> h) (seq 0 16) h = xor_bytes h s.
Proof.
  intros Hh Hs Hi. rewrite <- (xor_loop_full 16 h s Hh Hs). unfold xor_loop.
  apply (fold_left_agree (fun _ => True) (fun _ => True)); [| done | by apply List.Forall_forall].
  intros a b _ _. by rewrite Hi.
Qed.

Lemma F512_scratch_eq y Qtmp h m :
  length y = 16%nat -> length Qtmp = 16%nat -> length h = 16%nat -> length m = 16%nat ->
  F512_scratch y Qtmp h m =
  xor_bytes h (xor_bytes
    (fold_left code_roundP [0; 1; 2; 3; 4; 5; 6; 7; 8; 9] (xor_bytes h m))
    (fold_left code_roundQ (map (fun r => Z.shiftl r 24) [0; 1; 2; 3; 4; 5; 6; 7; 8; 9]) m)).
Proof.
  intros Hy HQ Hh Hm. unfold F512_scratch. rewrite (map_xor h m Hh Hm).
  assert (Hp : length (xor_bytes h m) = 16%nat) by (rewrite length_xor_bytes; lia).
  repeat (rewrite RND512Q_eq by state_length; cbv beta iota).
  repeat (rewrite RND512P_eq by state_length; cbv beta iota).
  cbn [fold_left map]. unfold code_roundP, code_roundQ. apply xor_fold; [done | |].
  - rewrite length_xor_bytes, !length_columns. done.
  - intros i. rewrite nth_xor_bytes by (by rewrite !length_columns). reflexivity.
Qed.

Lemma code_round_bytes r x :
  is_byte r -> length x = 16%nat ->
  state_bytes (code_roundP x r) = GroestlSpec.roundP (state_bytes x) r /\
  state_bytes (code_roundQ x (Z.shiftl r 24)) = GroestlSpec.roundQ (state_bytes x) r.
Proof.
  intros Hr Hx. unfold code_roundP, code_roundQ. rewrite !columns_bytes.
  by rewrite constants_P_bytes, constants_Q_bytes.
Qed.

Lemma rounds_bytes l x :
  Forall is_byte l -> state_wf x ->
  (state_wf (fold_left code_roundP l x) /\
   state_bytes (fold_left code_roundP l x) = fold_left GroestlSpec.roundP l (state_bytes x)) /\
  state_wf (fold_left code_roundQ (map (fun r => Z.shiftl r 24) l) x) /\
  state_bytes (fold_left code_roundQ (map (fun r => Z.shiftl r 24) l) x)
  = fold_left GroestlSpec.roundQ l (state_bytes x).
Proof.
  intros Hl. assert (H : forall y, state_wf y ->
    (state_wf (fold_left code_roundP l y) /\
     state_bytes (fold_left code_roundP l y) = fold_left GroestlSpec.roundP l (state_bytes y)) /\
    state_wf (fold_left code_roundQ (map (fun r => Z.shiftl r 24) l) y) /\
    state_bytes (fold_left code_roundQ (map (fun r => Z.shiftl r 24) l) y)
    = fold_left GroestlSpec.roundQ l (state_bytes y)); [| apply H].
  induction Hl as [| r l Hr _ IH]; intros y Hy; [done |]. rewrite map_cons, !fold_left_one.
  destruct (code_round_bytes r y Hr (proj1 Hy)) as [<- <-].
  split; apply IH; apply columns_wf.
Qed.

Lemma ten_rounds : Forall is_byte [0; 1; 2; 3; 4; 5; 6; 7; 8; 9].
Proof. by apply (bool_decide_unpack _). Qed.

Lemma state_bytes_xor h m :
  length h = length m -> state_bytes (xor_bytes h m) = xor_bytes (state_bytes h) (state_bytes m).
Proof.
  revert m. induction h as [| a h IH]; intros [| b m] Hl; cbn in Hl; try done.
  change (xor_bytes (a :: h) (b :: m)) with (Z.lxor a b :: xor_bytes h m).
  rewrite !state_bytes_cons, IH, le_bytes_lxor by lia. unfold xor_bytes.
  symmetry. apply zip_with_app. by rewrite !length_le_bytes.
Qed.

Lemma xor_words_wf h m : state_wf h -> state_wf m -> state_wf (xor_bytes h m).
Proof.
  intros [Hh Wh] [Hm Wm]. split; [rewrite length_xor_bytes; lia |].
  apply Forall_nth_Z. intros i _. rewrite nth_xor_bytes by lia. auto with words.
Qed.

(** The permutation of the output transformation. *)
Lemma P512_bytes y z x :
  length y = 16%nat -> length z = 16%nat -> state_wf x ->
  state_wf (P512_scratch y z x) /\ state_bytes (P512_scratch y z x) = GroestlSpec.P (state_bytes x).
Proof.
  intros Hy Hz Hx. rewrite P512_scratch_eq by (done || apply Hx).
  destruct (rounds_bytes _ _ ten_rounds Hx) as [[W B] _]. split; [exact W |]. exact B.
Qed.

Lemma F512_bytes y Qtmp h m :
  length y = 16%nat -> length Qtmp = 16%nat -> state_wf h -> state_wf m ->
  state_wf (F512_scratch y Qtmp h m) /\
  state_bytes (F512_scratch y Qtmp h m) = GroestlSpec.f (state_bytes h) (state_bytes m).
Proof.
  intros Hy HQ Hh Hm. rewrite F512_scratch_eq by (done || apply Hh || apply Hm).
  pose proof (xor_words_wf _ _ Hh Hm) as Hx.
  destruct (rounds_bytes _ _ ten_rounds Hx) as [[WP BP] _].
  destruct (rounds_bytes _ _ ten_rounds Hm) as [_ [WQ BQ]].
  revert WP BP WQ BQ. generalize (fold_left code_roundP [0; 1; 2; 3; 4; 5; 6; 7; 8; 9] (xor_bytes h m)).
  generalize (fold_left code_roundQ (map (fun r => Z.shiftl r 24) [0; 1; 2; 3; 4; 5; 6; 7; 8; 9]) m).
  intros q p WP BP WQ BQ. split; [by repeat apply xor_words_wf |].
  assert (length h = 16%nat /\ length m = 16%nat /\ length p = 16%nat /\ length q = 16%nat) as (? & ? & ? & ?)
    by (unfold state_wf in *; tauto).
  rewrite !state_bytes_xor by (rewrite ?length_xor_bytes; lia). rewrite BP, BQ.
  rewrite state_bytes_xor by lia. reflexivity.
Qed.

(** ** Blocks *)

#[local] Opaque F512_scratch.

Lemma words32_bytes k p :
  bytes p -> (4 * k <= length p)%nat -> state_bytes (words32 k p) = take (4 * k) p.
Proof.
  intros Hp Hl. pose proof (pieces_Forall 4 k p Hp Hl) as H. unfold words32, state_bytes.
  rewrite map_map, (map_ext_Forall _ (fun q => q)).
  - rewrite map_id, <- pieces_take. apply concat_pieces. rewrite length_take. lia.
  - revert H. apply List.Forall_impl. intros q [Hq Hlq]. rewrite <- Hlq. by apply le_bytes_le_word.
Qed.

Lemma words32_wf p : bytes p -> (64 <= length p)%nat -> state_wf (words32 16 p).
Proof.
  intros Hp Hl. split; [unfold words32; by rewrite length_map, length_pieces |].
  unfold words32. apply Forall_map. generalize (pieces_Forall 4 16 p Hp Hl). apply List.Forall_impl.
  intros q [Hq Hlq]. pose proof (le_word_range q Hq) as H. by rewrite Hlq in H.
Qed.

(** The chaining value stands for [h] and [k] blocks have been counted. *)
Definition counted (ctx : groestlHashState) (k : nat) : Prop :=
  word 32 ctx.(block_counter1) /\ word 32 ctx.(block_counter2) /\
  ctx.(block_counter1) + 2 ^ 32 * ctx.(block_counter2) = Z.of_nat k mod 2 ^ 64.
Definition core (ctx : groestlHashState) (h : list Z) (k : nat) : Prop :=
  state_wf ctx.(chaining) /\ state_bytes ctx.(chaining) = h /\ counted ctx k.
(** Everything but the chaining value and the counters. *)
Definition same_input (c c' : groestlHashState) : Prop :=
  c'.(buffer_) = c.(buffer_) /\ c'.(buf_ptr) = c.(buf_ptr) /\
  c'.(bits_in_last_byte) = c.(bits_in_last_byte).

Lemma core_set_buffer ctx h k b p : core ctx h k -> core (set_buffer ctx b p) h k.
Proof. done. Qed.

Lemma count_block_counted ctx k : counted ctx k -> counted (count_block ctx) (S k).
Proof.
  intros (H1 & H2 & H). unfold counted, count_block.
  cbn [set_counters block_counter1 block_counter2]. split_and!; [apply u32_word | |].
  - case_match; [apply u32_word | done].
  - rewrite Nat2Z.inj_succ. unfold Z.succ. rewrite <- Zplus_mod_idemp_l, <- H. unfold word in *.
    rewrite !u32_mod. revert H1 H2. generalize (block_counter1 ctx) (block_counter2 ctx). clear.
    intros a b Ha Hb. change (2 ^ 32) with 4294967296 in *. change (2 ^ 64) with 18446744073709551616.
    destruct (decide (a = 4294967295)) as [-> |].
    + change ((4294967295 + 1) mod 4294967296) with 0. cbn [Z.eqb].
      replace (4294967295 + 4294967296 * b + 1) with (4294967296 * (b + 1)) by lia.
      change 18446744073709551616 with (4294967296 * 4294967296). rewrite Zmult_mod_distr_l. lia.
    + rewrite (Z.mod_small (a + 1)) by lia. rewrite (proj2 (Z.eqb_neq _ _)) by lia.
      rewrite Z.mod_small by lia. lia.
Qed.

Lemma block_core ctx h k input :
  core ctx h k -> bytes input -> (64 <= length input)%nat ->
  core (count_block (set_chaining ctx (F512 (chaining ctx) (words32 16 input))))
    (GroestlSpec.f h (take 64 input)) (S k).
Proof.
  intros (Hw & Hh & Hk) Hi Hl.
  destruct (F512_bytes (replicate 16 0) (replicate 16 0) (chaining ctx) (words32 16 input)
    eq_refl eq_refl Hw (words32_wf _ Hi Hl)) as [FW FB].
  rewrite (words32_bytes 16 input Hi Hl), Hh in FB.
  split; [exact FW |]. split; [exact FB |].
  exact (count_block_counted (set_chaining ctx (F512 (chaining ctx) (words32 16 input))) k Hk).
Qed.

Lemma transform_loop_core n : forall fuel ctx h k input,
  core ctx h k -> bytes input -> (n <= length input)%nat -> (n / 64 <= fuel)%nat ->
  core (transform_loop fuel ctx input (Z.of_nat n)) (absorb GroestlSpec.f 64 (n / 64) h input) (k + n / 64) /\
  same_input ctx (transform_loop fuel ctx input (Z.of_nat n)).
Proof.
  induction (Nat.lt_wf_0 n) as [n _ IH]. intros fuel ctx h k input Hc Hi Hl Hf.
  destruct (decide (n < 64)%nat) as [Hn | Hn].
  - assert (transform_loop fuel ctx input (Z.of_nat n) = ctx) as ->.
    { destruct fuel; [done |]. cbn [transform_loop]. unfold SIZE512. by rewrite (proj2 (Z.leb_gt 64 _)) by lia. }
    rewrite Nat.div_small by lia. rewrite Nat.add_0_r. done.
  - pose proof (Nat.div_str_pos n 64 ltac:(lia)) as Hp. destruct fuel as [| fuel]; [lia |].
    cbn [transform_loop]. change SIZE512 with 64.
    rewrite (proj2 (Z.leb_le 64 (Z.of_nat n))) by lia.
    replace (Z.of_nat n - 64) with (Z.of_nat (n - 64)) by lia.
    assert (E : (n / 64 = S ((n - 64) / 64))%nat).
    { replace n with (n - 64 + 1 * 64)%nat at 1 by lia. rewrite Nat.div_add by lia. lia. }
    rewrite E. cbn [absorb]. rewrite Nat.add_succ_r, <- Nat.add_succ_l.
    set (c1 := count_block (set_chaining ctx (F512 (chaining ctx) (words32 16 input)))).
    assert (Hc1 : core c1 (GroestlSpec.f h (take 64 input)) (S k)).
    { apply block_core; [done | done | lia]. }
    destruct (IH (n - 64)%nat ltac:(lia) fuel c1 _ _ (drop 64 input) Hc1) as [HC HS];
      [by apply Forall_drop | rewrite length_drop; lia | lia |].
    split; [exact HC | exact HS].
Qed.

Lemma Transform_core n ctx h k input :
  core ctx h k -> bytes input -> (n <= length input)%nat ->
  core (Transform ctx input (Z.of_nat n)) (absorb GroestlSpec.f 64 (n / 64) h input) (k + n / 64) /\
  same_input ctx (Transform ctx input (Z.of_nat n)).
Proof.
  intros. apply transform_loop_core; [done | done | done |]. unfold SIZE512.
  change 64 with (Z.of_nat 64). rewrite <- Nat2Z.inj_div, Nat2Z.id. lia.
Qed.

(** One full buffer. *)
Lemma Transform_block ctx h k b :
  core ctx h k -> bytes b -> length b = 64%nat ->
  core (Transform ctx b SIZE512) (GroestlSpec.f h b) (S k) /\ same_input ctx (Transform ctx b SIZE512).
Proof.
  intros Hc Hb Hl. pose proof (Transform_core 64 ctx h k b Hc Hb ltac:(lia)) as H.
  change (64 / 64)%nat with 1%nat in H. cbn [absorb] in H.
  rewrite take_ge, Nat.add_1_r in H by lia. exact H.
Qed.

(** The same whatever has been counted. *)
Lemma Transform_chaining ctx h b :
  state_wf ctx.(chaining) -> state_bytes ctx.(chaining) = h -> bytes b -> length b = 64%nat ->
  state_wf (Transform ctx b SIZE512).(chaining) /\
  state_bytes (Transform ctx b SIZE512).(chaining) = GroestlSpec.f h b.
Proof.
  intros Hw Hh Hb Hl.
  change (state_wf (count_block (set_chaining ctx (F512 (chaining ctx) (words32 16 b)))).(chaining) /\
    state_bytes (count_block (set_chaining ctx (F512 (chaining ctx) (words32 16 b)))).(chaining)
    = GroestlSpec.f h b).
  assert (Hl' : (64 <= length b)%nat) by lia.
  destruct (F512_bytes (replicate 16 0) (replicate 16 0) (chaining ctx) (words32 16 b)
    eq_refl eq_refl Hw (words32_wf _ Hb Hl')) as [FW FB].
  rewrite (words32_bytes 16 b Hb Hl'), Hh in FB. change (4 * 16)%nat with 64%nat in FB.
  rewrite take_ge in FB by lia. exact (conj FW FB).
Qed.

(** ** The byte loops *)

Lemma set_buffer_id ctx : set_buffer ctx (buffer_ ctx) (buf_ptr ctx) = ctx.
Proof. by destruct ctx. Qed.
Lemma set_buffer_twice ctx b p b' p' : set_buffer (set_buffer ctx b p) b' p' = set_buffer ctx b' p'.
Proof. done. Qed.

Lemma copy_loop_eq n ctx input i p :
  ctx.(buf_ptr) = Z.of_nat p -> (p + n <= length ctx.(buffer_))%nat ->
  copy_loop n ctx input (Z.of_nat i) =
  set_buffer ctx (write_at p (map (fun k => input.[i + k]) (seq 0 n)) ctx.(buffer_)) (Z.of_nat (p + n)).
Proof.
  revert ctx i p. induction n as [| n IH]; intros ctx i p Hp Hl.
  - cbn [copy_loop seq map]. unfold write_at. cbn [length app]. rewrite Nat.add_0_r, take_drop, <- Hp.
    by rewrite set_buffer_id.
  - cbn [copy_loop]. rewrite Hp, !Nat2Z.id.
    replace (Z.of_nat i + 1) with (Z.of_nat (S i)) by lia.
    replace (Z.of_nat p + 1) with (Z.of_nat (S p)) by lia.
    rewrite (IH _ _ (S p)); [| done | cbn [set_buffer buffer_]; rewrite length_insert; lia].
    cbn [set_buffer buffer_]. rewrite set_buffer_twice, write_at_cons by lia.
    cbn [seq map]. rewrite Nat.add_0_r, <- seq_shift, map_map.
    replace (p + S n)%nat with (S p + n)%nat by lia. do 3 f_equal. apply map_ext. intros k. f_equal. lia.
Qed.

Lemma nth_take_drop (input : list Z) i n :
  (i + n <= length input)%nat -> map (fun k => input.[i + k]) (seq 0 n) = take n (drop i input).
Proof.
  intros Hl. apply nth_ext_Z; [rewrite length_map, length_seq, length_take, length_drop; lia |].
  rewrite length_map, length_seq. intros k Hk. by rewrite nth_map_seq, nth_take_Z, nth_drop_Z by lia.
Qed.

Lemma copy_loop_0 n ctx input p :
  ctx.(buf_ptr) = Z.of_nat p -> (p + n <= length ctx.(buffer_))%nat -> (n <= length input)%nat ->
  copy_loop n ctx input 0 = set_buffer ctx (write_at p (take n input) ctx.(buffer_)) (Z.of_nat (p + n)).
Proof.
  intros Hp Hl Hn. change 0 with (Z.of_nat 0). rewrite (copy_loop_eq n ctx input 0 p Hp Hl).
  by rewrite nth_take_drop, drop_0 by lia.
Qed.

Lemma zero_fill_eq ctx p limit :
  ctx.(buf_ptr) = Z.of_nat p -> (limit <= length ctx.(buffer_))%nat -> (p <= limit)%nat ->
  zero_fill ctx (Z.of_nat limit) =
  set_buffer ctx (write_at p (replicate (limit - p) 0) ctx.(buffer_)) (Z.of_nat limit).
Proof.
  intros Hp Hl Hlim. unfold zero_fill. rewrite Hp, <- Nat2Z.inj_sub, Nat2Z.id by lia.
  rewrite (copy_loop_eq _ _ _ 0 p Hp) by lia. do 2 f_equal; [| lia]. f_equal.
  apply nth_ext_Z; [by rewrite length_map, length_seq, length_replicate |].
  rewrite length_map, length_seq. intros k Hk. rewrite nth_map_seq, nth_zeroes by lia. by destruct k.
Qed.

Lemma length_loop_eq n ctx c p :
  ctx.(buf_ptr) = Z.of_nat (p + n) -> (p + n <= length ctx.(buffer_))%nat ->
  length_loop n ctx c =
  (set_buffer ctx (write_at p (be_bytes n c) ctx.(buffer_)) (Z.of_nat p), Z.shiftr c (8 * Z.of_nat n)).
Proof.
  revert ctx c. induction n as [| n IH]; intros ctx c Hp Hl.
  - cbn [length_loop]. rewrite Nat.add_0_r in Hp. unfold be_bytes, write_at. cbn [le_bytes rev app length].
    rewrite Nat.add_0_r, take_drop, <- Hp, set_buffer_id, Z.shiftr_0_r. done.
  - cbn [length_loop]. rewrite Hp. replace (Z.of_nat (p + S n) - 1) with (Z.of_nat (p + n)) by lia.
    rewrite IH; [| done | cbn [set_buffer buffer_]; rewrite length_insert; lia].
    cbn [set_buffer buffer_]. rewrite set_buffer_twice, Nat2Z.id, Z.shiftr_shiftr by lia.
    f_equal; [| f_equal; lia]. f_equal. unfold be_bytes. cbn [le_bytes rev].
    rewrite Z.shiftr_div_pow2, u8_mod by lia. change (2 ^ 8) with 256.
    unfold write_at. rewrite length_app, length_rev, length_le_bytes. cbn [length].
    rewrite take_insert_ge by lia. rewrite <- app_assoc. do 2 f_equal.
    rewrite (drop_S _ (c mod 256) (p + n)) by (apply list_lookup_insert_eq; lia).
    rewrite drop_insert_lt by lia. cbn [app]. do 2 f_equal. lia.
Qed.

(** ** Update *)

Abbreviation blocks := (absorb_all GroestlSpec.f 64 GroestlSpec.iv).

(** The context stands for the message [m] of whole bytes. *)
Definition repr (ctx : groestlHashState) (m : list Z) : Prop :=
  core ctx (blocks m) (length m / 64) /\ buffer 64 ctx.(buffer_) /\
  ctx.(buf_ptr) = Z.of_nat (length m mod 64) /\ take (length m mod 64) ctx.(buffer_) = rest 64 m /\
  ctx.(bits_in_last_byte) = 0.

Lemma pos64 : (0 < 64)%nat.
Proof. lia. Qed.

Lemma groestl_Init_repr ctx : buffer 64 (buffer_ ctx) -> repr (Init ctx) [].
Proof.
  intros Hb. split; [| done]. split; [by apply (bool_decide_unpack _) |]. split; [by vm_compute | done].
Qed.

Lemma repr_aligned_rest m : (length m mod 64 = 0)%nat -> rest 64 m = [].
Proof. intros H. apply nil_length_inv. by rewrite (length_rest 64 pos64). Qed.

(** From an aligned position: the whole blocks of [d], then its tail. *)
Lemma bulk_repr ctx m data k L (d := drop k data) :
  core ctx (blocks m) (length m / 64) -> buffer 64 ctx.(buffer_) -> ctx.(buf_ptr) = 0 ->
  ctx.(bits_in_last_byte) = 0 -> (length m mod 64 = 0)%nat -> bytes data -> (k + L <= length data)%nat ->
  repr (copy_loop (L mod 64) (Transform ctx d (Z.of_nat L)) data (Z.of_nat (k + 64 * (L / 64)))) (m ++ take L d).
Proof.
  intros Hc Hb Hp Hbits Hm Hdata Hk.
  assert (Hd : bytes d) by by apply Forall_drop.
  assert (HL : (L <= length d)%nat) by (unfold d; rewrite length_drop; lia).
  destruct (Transform_core L ctx _ _ d Hc Hd HL) as [HC (Sb & Sp & Sbits)].
  pose proof (Nat.div_mod_eq L 64) as EL. pose proof (Nat.mod_upper_bound L 64 ltac:(lia)) as HL64.
  set (c1 := Transform ctx d (Z.of_nat L)) in *. destruct Hb as [Hbl Hbb].
  rewrite (copy_loop_eq _ _ _ _ 0) by (rewrite ?Sp, ?Sb; (done || lia)).
  rewrite nth_take_drop by lia. rewrite <- drop_drop, Nat.add_0_l. fold d.
  assert (Hlt : length (take L d) = L) by (rewrite length_take; lia).
  assert (Hrest : rest 64 (m ++ take L d) = take (L mod 64) (drop (64 * (L / 64)) d)).
  { rewrite (rest_app 64 pos64), (repr_aligned_rest m Hm), app_nil_l. unfold rest. rewrite Hlt.
    rewrite skipn_firstn_comm. f_equal. lia. }
  assert (Hmod : (length (m ++ take L d) mod 64 = L mod 64)%nat).
  { rewrite length_app, Hlt, Nat.Div0.add_mod, Hm, Nat.add_0_l. apply Nat.Div0.mod_mod. }
  assert (Hlen : length (take (L mod 64) (drop (64 * (L / 64)) d)) = (L mod 64)%nat)
    by (rewrite length_take, length_drop; lia).
  split.
  - rewrite (absorb_all_app _ 64 pos64), (repr_aligned_rest m Hm), app_nil_l.
    assert (absorb_all GroestlSpec.f 64 (blocks m) (take L d) = absorb GroestlSpec.f 64 (L / 64) (blocks m) d) as ->.
    { unfold absorb_all at 1. rewrite Hlt, <- (take_drop L d) at 1.
      rewrite (take_drop L d). symmetry. rewrite <- (take_drop L d) at 1. apply absorb_prefix; lia. }
    assert (length (m ++ take L d) / 64 = length m / 64 + L / 64)%nat as ->; [| exact HC].
    rewrite length_app, Hlt. pose proof (Nat.div_mod_eq (length m) 64) as E. rewrite E at 1.
    rewrite Hm, Nat.add_0_r, (Nat.mul_comm 64), Nat.div_add_l by lia. done.
  - cbn [set_buffer buffer_ buf_ptr bits_in_last_byte]. rewrite Hmod, Hrest, Sb, Sbits. split_and!; try done.
    + apply buffer_write_at; [done | by apply Forall_take, Forall_drop | lia].
    + rewrite (take_write_at' (L mod 64) 0) by lia. by rewrite take_0.
Qed.

Lemma int_of_small n : (Z.of_nat n < 2 ^ 31) -> int_of (Z.of_nat n) = Z.of_nat n.
Proof.
  intros Hn. unfold int_of. rewrite u32_mod, Z.mod_small by lia.
  by rewrite (proj2 (Z.ltb_lt _ _)) by lia.
Qed.

(** [Update] from [index = n] with an empty buffer. *)
Definition bulk (ctx : groestlHashState) (input : list Z) (msglen n rem : Z) : groestlHashState :=
  let ctx := Transform ctx (drop (Z.to_nat n) input) (msglen - n) in
  let index := n + Z.quot (msglen - n) SIZE512 * SIZE512 in
  let ctx := copy_loop (Z.to_nat (msglen - index)) ctx input index in
  store_bits ctx input (Z.max index msglen) rem.

Lemma bulk_eq ctx m data k L rem :
  core ctx (blocks m) (length m / 64) -> buffer 64 ctx.(buffer_) -> ctx.(buf_ptr) = 0 ->
  ctx.(bits_in_last_byte) = 0 -> (length m mod 64 = 0)%nat -> bytes data -> (k + L <= length data)%nat ->
  exists c, repr c (m ++ take L (drop k data)) /\
    bulk ctx data (Z.of_nat (k + L)) (Z.of_nat k) rem = store_bits c data (Z.of_nat (k + L)) rem.
Proof.
  intros Hc Hb Hp Hbits Hm Hd HL. pose proof (bulk_repr ctx m data k L Hc Hb Hp Hbits Hm Hd HL) as Hr.
  eexists. split; [exact Hr |]. unfold bulk. rewrite Nat2Z.id.
  replace (Z.of_nat (k + L) - Z.of_nat k) with (Z.of_nat L) by lia. unfold SIZE512.
  rewrite Z.quot_div_nonneg by lia. change 64 with (Z.of_nat 64). rewrite <- Nat2Z.inj_div.
  pose proof (Nat.div_mod_eq L 64) as E.
  replace (Z.of_nat k + Z.of_nat (L / 64) * Z.of_nat 64) with (Z.of_nat (k + 64 * (L / 64))) by lia.
  replace (Z.to_nat (Z.of_nat (k + L) - Z.of_nat (k + 64 * (L / 64)))) with (L mod 64)%nat by lia.
  by rewrite Z.max_r by lia.
Qed.

(** What [Update] does with [L] whole bytes and [rem] more bits: the bytes are
    processed, then the bits stored. *)
Lemma Update_eq ctx m data L rem :
  repr ctx m -> bytes data -> (L <= length data)%nat -> Z.of_nat L < 2 ^ 31 -> 0 <= rem < 8 ->
  exists c, repr c (m ++ take L data) /\
    Update ctx data (8 * Z.of_nat L + rem) = store_bits c data (Z.of_nat L) rem.
Proof.
  intros (Hc & Hb & Hp & Ht & Hbits) Hd HL Hint Hrem. unfold Update.
  rewrite (Z.mul_comm 8), Z.div_add_l, (Z.div_small rem), Z.add_0_r by lia.
  rewrite Z.add_comm, Z.mod_add, (Z.mod_small rem) by lia.
  rewrite int_of_small by done. rewrite Hp.
  pose proof (Nat.mod_upper_bound (length m) 64 ltac:(lia)) as Hr.
  pose proof (Nat.div_mod_eq (length m) 64) as Em.
  set (r := (length m mod 64)%nat) in *.
  assert (Hlt : length (take L data) = L) by (rewrite length_take; lia).
  destruct (decide (r = 0%nat)) as [E | E].
  - rewrite E in Hp |- *. change (Z.of_nat 0 =? 0) with true. cbv beta iota zeta delta [negb andb].
    destruct (bulk_eq ctx m data 0 L rem) as (c & Hrc & Eq); try done. rewrite drop_0 in Hrc.
    exists c. split; [exact Hrc |]. exact Eq.
  - rewrite (proj2 (Z.eqb_neq (Z.of_nat r) 0)) by lia. cbn [negb andb]. change SIZE512 with 64.
    destruct (decide (L < 64 - r)%nat) as [Hs | Hs].
    + rewrite Z.min_r, Z.max_r, Nat2Z.id by lia.
      rewrite (copy_loop_0 L ctx data r Hp) by (destruct Hb; lia).
      cbn [set_buffer buf_ptr]. rewrite (proj2 (Z.ltb_lt _ 64)) by lia.
      eexists. split; [| reflexivity].
      destruct (absorb_all_nofill GroestlSpec.f 64 pos64 GroestlSpec.iv m (take L data)) as [HA HR];
        [rewrite (length_rest 64 pos64); lia |].
      assert (Hm : (length (m ++ take L data) mod 64 = r + L)%nat)
        by (symmetry; apply (Nat.mod_unique _ _ (length m / 64)); rewrite ?length_app; lia).
      assert (Hdiv : (length (m ++ take L data) / 64 = length m / 64)%nat)
        by (symmetry; apply (Nat.div_unique _ _ _ (r + L)); rewrite ?length_app; lia).
      split; [rewrite HA, Hdiv; exact Hc |]. cbn [set_buffer buffer_ buf_ptr bits_in_last_byte].
      rewrite Hm, HR. split_and!; try done.
      * apply buffer_write_at; [done | by apply Forall_take | lia].
      * rewrite (take_write_at' (r + L) r) by (destruct Hb; lia). by rewrite Ht.
    + rewrite Z.min_l, Z.max_r by lia.
      replace (64 - Z.of_nat r) with (Z.of_nat (64 - r)) by lia. rewrite Nat2Z.id.
      rewrite (copy_loop_0 (64 - r) ctx data r Hp) by (destruct Hb; lia).
      cbn [set_buffer buf_ptr buffer_]. replace (r + (64 - r))%nat with 64%nat by lia.
      change (Z.of_nat 64 <? 64) with false. cbv beta iota.
      rewrite set_buffer_twice. set (b := write_at r (take (64 - r) data) (buffer_ ctx)).
      set (c1 := set_buffer ctx b 0).
      assert (Hbb : buffer 64 b).
      { apply buffer_write_at; [done | by apply Forall_take | rewrite length_take; lia]. }
      assert (Eb : b = rest 64 m ++ take (64 - r) data).
      { unfold b. rewrite write_at_full, Ht by (destruct Hb; rewrite length_take; lia). done. }
      destruct (Transform_block c1 (blocks m) (length m / 64) b Hc (proj2 Hbb) (proj1 Hbb)) as [HC (Sb & Sp & Sbits)].
      set (m1 := m ++ take (64 - r) data).
      assert (Hl1 : length m1 = (64 * S (length m / 64))%nat)
        by (unfold m1; rewrite length_app, length_take; lia).
      destruct (bulk_eq (Transform c1 b SIZE512) m1 data (64 - r) (L - (64 - r)) rem) as (c & Hrc & Eq).
      * rewrite Hl1, Nat.mul_comm, Nat.div_mul by lia.
        assert (blocks m1 = GroestlSpec.f (blocks m) b) as ->; [| exact HC].
        unfold m1. rewrite (absorb_all_app _ 64 pos64), <- Eb. rewrite <- (app_nil_r b) at 1.
        rewrite (absorb_all_block _ 64 pos64) by apply Hbb. apply absorb_all_small; cbn; lia.
      * rewrite Sb. exact Hbb.
      * rewrite Sp. done.
      * rewrite Sbits. exact Hbits.
      * rewrite Hl1, Nat.mul_comm. apply Nat.Div0.mod_mul.
      * exact Hd.
      * lia.
      * exists c. replace (64 - r + (L - (64 - r)))%nat with L in Eq by lia. unfold bulk in Eq.
        rewrite Nat2Z.id in Eq. split; [| exact Eq].
        unfold m1 in Hrc. rewrite <- app_assoc in Hrc.
        rewrite take_take_drop in Hrc. replace (64 - r + (L - (64 - r)))%nat with L in Hrc by lia. exact Hrc.
Qed.

(** ** Final *)

(** The context with the 1 bit in the buffer: [x] is the byte it is in. *)
Definition marked (ctx : groestlHashState) (m : list Z) (x : Z) : Prop :=
  core ctx (blocks m) (length m / 64) /\ buffer 64 ctx.(buffer_) /\
  ctx.(buf_ptr) = Z.of_nat (length m mod 64 + 1) /\
  take (length m mod 64 + 1) ctx.(buffer_) = rest 64 m ++ [x].

Lemma marker_facts :
  forallb (fun rem => forallb (fun b =>
    (Z.lxor (Z.land b (Z.shiftl (Z.shiftl 1 rem - 1) (8 - rem))) (Z.shiftl 1 (7 - rem)) =? GroestlSpec.marker rem b)
    && bool_decide (is_byte (GroestlSpec.marker rem b))) (seqZ 0 256)) (seqZ 0 8) = true.
Proof. vm_compute. reflexivity. Qed.

Lemma marker_eq rem b :
  0 <= rem < 8 -> is_byte b ->
  Z.lxor (Z.land b (Z.shiftl (Z.shiftl 1 rem - 1) (8 - rem))) (Z.shiftl 1 (7 - rem)) = GroestlSpec.marker rem b /\
  is_byte (GroestlSpec.marker rem b).
Proof.
  intros Hr Hb. pose proof marker_facts as H. rewrite forallb_forall in H.
  assert (Hr' : In rem (seqZ 0 8)) by (apply list_elem_of_In, elem_of_seqZ; lia).
  specialize (H rem Hr'). rewrite forallb_forall in H.
  assert (Hb' : In b (seqZ 0 256)) by (apply list_elem_of_In, elem_of_seqZ; unfold word in Hb; lia).
  specialize (H b Hb'). apply andb_true_iff in H as [H1%Z.eqb_eq H2%bool_decide_eq_true]. done.
Qed.

Lemma pad_bit_marked ctx m data L rem :
  repr ctx m -> bytes data -> (L + (if (rem =? 0)%Z then 0 else 1) <= length data)%nat -> 0 <= rem < 8 ->
  marked (pad_bit (store_bits ctx data (Z.of_nat L) rem)) m (GroestlSpec.marker rem data.[L]).
Proof.
  intros (Hc & Hb & Hp & Ht & Hbits) Hd HL Hrem. pose proof (Nat.mod_upper_bound (length m) 64 ltac:(lia)) as Hr.
  pose proof (word_nth 8 data L ltac:(lia) Hd) as Hbyte.
  destruct (marker_eq rem data.[L] Hrem Hbyte) as [Em Hx]. unfold store_bits.
  set (r := (length m mod 64)%nat) in *.
  destruct (Z.eqb_spec rem 0) as [-> | Hne].
  - unfold pad_bit. rewrite Hbits, Hp, Nat2Z.id. change (0 =? 0) with true. cbv beta iota zeta.
    assert (E : GroestlSpec.marker 0 data.[L] = 0x80)
      by (unfold GroestlSpec.marker; change (256 - 2 ^ (8 - 0)) with 0; by rewrite Z.land_0_r).
    rewrite E. split; [exact Hc |]. cbn [set_buffer buffer_ buf_ptr]. split_and!.
    + apply buffer_insert; done.
    + lia.
    + fold r. rewrite take_insert_last, Ht by (destruct Hb; lia). done.
  - cbv iota in HL. rewrite (copy_loop_eq 1 ctx data L r Hp) by (destruct Hb; lia). rewrite nth_take_drop by lia.
    unfold pad_bit. cbn [set_bits set_buffer bits_in_last_byte buf_ptr buffer_].
    rewrite (proj2 (Z.eqb_neq rem 0)) by done.
    replace (Z.to_nat (Z.of_nat (r + 1) - 1)) with r by lia.
    assert (E1 : take 1 (drop L data) = [data.[L]]).
    { apply nth_ext_Z; [rewrite length_take, length_drop; change (length [data.[L]]) with 1%nat; lia |].
      rewrite length_take, length_drop. intros [| i] Hi; [| lia]. rewrite nth_take_Z, nth_drop_Z by lia.
      by rewrite Nat.add_0_r. }
    rewrite E1.
    assert (Eb : (write_at r [data.[L]] (buffer_ ctx)).[r] = data.[L]).
    { unfold write_at. rewrite app_nth2; rewrite length_take; [| destruct Hb; lia].
      replace (r - r `min` length (buffer_ ctx))%nat with 0%nat by (destruct Hb; lia). done. }
    rewrite Eb, Em. split; [exact Hc |]. cbn [set_bits set_buffer buffer_ buf_ptr].
    assert (Hw : buffer 64 (write_at r [data.[L]] (buffer_ ctx))).
    { apply buffer_write_at; [done | by apply Forall_cons_2 | cbn; lia]. }
    split_and!; [by apply buffer_insert | done |]. fold r.
    rewrite take_insert_last by (destruct Hw; lia). unfold write_at.
    rewrite take_app_le by (rewrite length_take; destruct Hb; lia).
    rewrite take_take, Nat.min_id, Ht. done.
Qed.

(** After [first_block] the blocks [pre] of the padded message are absorbed
    and the buffer holds [p]. *)
Definition pending (ctx : groestlHashState) (h : list Z) (k : nat) (p : list Z) : Prop :=
  core ctx h k /\ buffer 64 ctx.(buffer_) /\ ctx.(buf_ptr) = Z.of_nat (length p) /\
  (length p <= 56)%nat /\ take (length p) ctx.(buffer_) = p.

Lemma first_block_pending ctx m x (r := (length m mod 64)%nat) :
  marked ctx m x -> is_byte x -> bytes m ->
  if (r <? 56)%nat then pending (first_block ctx) (blocks m) (length m / 64) (rest 64 m ++ [x])
  else pending (first_block ctx)
    (GroestlSpec.f (blocks m) (rest 64 m ++ [x] ++ replicate (63 - r) 0)) (S (length m / 64)) [].
Proof.
  intros (Hc & Hb & Hp & Ht) Hx Hm. pose proof (Nat.mod_upper_bound (length m) 64 ltac:(lia)) as Hr.
  fold r in Hp, Ht, Hr. unfold first_block. rewrite Hp. change (SIZE512 - LENGTHFIELDLEN) with 56.
  assert (Hrl : length (rest 64 m) = r) by apply (length_rest 64 pos64).
  destruct (Nat.ltb_spec r 56).
  - rewrite (proj2 (Z.ltb_ge _ _)) by lia. unfold pending. rewrite length_app, Hrl. cbn [length].
    split_and!; done || lia.
  - rewrite (proj2 (Z.ltb_lt _ _)) by lia. cbv zeta.
    change (zero_fill ctx SIZE512) with (zero_fill ctx (Z.of_nat 64)).
    rewrite (zero_fill_eq ctx (r + 1) 64 Hp) by (destruct Hb; lia).
    cbn [set_buffer buffer_]. set (b := write_at (r + 1) _ _).
    assert (Eb : b = rest 64 m ++ [x] ++ replicate (63 - r) 0).
    { unfold b. rewrite write_at_full by (destruct Hb; rewrite length_replicate; lia).
      rewrite Ht, <- app_assoc. replace (64 - (r + 1))%nat with (63 - r)%nat by lia. done. }
    assert (Hbb : buffer 64 b).
    { apply buffer_write_at; [done | by apply bytes_replicate | rewrite length_replicate; lia]. }
    destruct (Transform_block (set_buffer ctx b (Z.of_nat 64)) _ _ b Hc (proj2 Hbb) (proj1 Hbb)) as [HC (Sb & _ & _)].
    rewrite <- Eb. split; [apply core_set_buffer; exact HC |]. cbn [set_buffer buffer_ buf_ptr]. rewrite Sb.
    split_and!; [exact Hbb | done | cbn; lia | apply take_0].
Qed.

Lemma count_bytes c1 c2 k :
  word 32 c1 -> word 32 c2 -> c1 + 2 ^ 32 * c2 = Z.of_nat k mod 2 ^ 64 ->
  be_bytes 4 c2 ++ be_bytes 4 c1 = be_bytes 8 (Z.of_nat k).
Proof.
  intros H1 H2 E. rewrite <- (be_bytes_u64 8 (Z.of_nat k)) by lia. rewrite u64_mod, <- E.
  unfold word in *. rewrite (be_bytes_split 4 4). change (2 ^ (8 * Z.of_nat 4)) with (2 ^ 32).
  rewrite (Z.mul_comm (2 ^ 32)), Z.div_add, (Z.div_small c1), Z.add_0_l by lia. f_equal.
  unfold be_bytes. f_equal. rewrite <- (le_bytes_mod 4 32 (c1 + _)), Z.mod_add by lia.
  by rewrite le_bytes_mod by lia.
Qed.

Lemma last_block_core ctx h k p :
  pending ctx h k p -> bytes p ->
  state_wf (last_block ctx).(chaining) /\
  state_bytes (last_block ctx).(chaining)
  = GroestlSpec.f h (p ++ replicate (56 - length p) 0 ++ be_bytes 8 (Z.of_nat (S k))).
Proof.
  intros (Hc & Hb & Hp & Hl & Ht) Hpb. unfold last_block. change (SIZE512 - LENGTHFIELDLEN) with (Z.of_nat 56).
  rewrite (zero_fill_eq ctx (length p) 56 Hp) by (destruct Hb; lia).
  set (b1 := write_at (length p) _ _).
  assert (Hb1 : buffer 64 b1).
  { apply buffer_write_at; [done | by apply bytes_replicate | rewrite length_replicate; lia]. }
  assert (Et : take 56 b1 = p ++ replicate (56 - length p) 0).
  { unfold b1. rewrite (take_write_at' 56) by (rewrite ?length_replicate; destruct Hb; lia). by rewrite Ht. }
  cbv zeta. set (c1 := count_block (set_buffer ctx b1 (Z.of_nat 56))).
  assert (Hcnt : counted c1 (S k)) by (apply (count_block_counted (set_buffer ctx b1 (Z.of_nat 56))), Hc).
  change (buffer_ c1) with b1.
  rewrite (length_loop_eq 4 _ _ 60) by (done || (cbn [set_buffer buffer_]; destruct Hb1; lia)).
  cbn [set_buffer buffer_ block_counter1]. rewrite set_buffer_twice.
  rewrite (length_loop_eq 4 _ _ 56); [| done | cbn [set_buffer buffer_]; rewrite length_write_at;
    rewrite ?length_be_bytes; destruct Hb1; lia].
  cbn [set_counters set_buffer buffer_ block_counter2]. rewrite set_buffer_twice.
  set (b2 := write_at 56 _ _).
  assert (E2 : b2 = p ++ replicate (56 - length p) 0 ++ be_bytes 8 (Z.of_nat (S k))).
  { unfold b2. unfold write_at at 1. rewrite length_be_bytes.
    rewrite (write_at_full 60) by (rewrite length_be_bytes; destruct Hb1; lia).
    rewrite take_app_le by (rewrite length_take; destruct Hb1; lia). rewrite take_take.
    change (56 `min` 60)%nat with 56%nat. rewrite Et.
    rewrite drop_app_ge by (rewrite length_take; destruct Hb1; lia). rewrite length_take.
    replace (56 + 4 - 60 `min` length b1)%nat with 0%nat by (destruct Hb1; lia). rewrite drop_0.
    destruct Hcnt as (W1 & W2 & E). rewrite (count_bytes _ _ (S k) W1 W2 E). by rewrite <- app_assoc. }
  assert (Hb2 : buffer 64 b2).
  { rewrite E2. split; [rewrite !length_app, length_replicate, length_be_bytes; lia |].
    apply bytes_app; [done |]. apply bytes_app; [by apply bytes_replicate | apply bytes_be_bytes]. }
  rewrite <- E2. destruct Hc as (Hw & Hh & _).
  apply (Transform_chaining _ h b2 Hw Hh (proj2 Hb2) (proj1 Hb2)).
Qed.

(** ** The digest *)

Lemma pad_blocks m x (r := (length m mod 64)%nat) (q := (length m / 64)%nat)
    (z := ((119 - length m mod 64) mod 64)%nat) (c := be_bytes 8 (Z.of_nat (length m + z + 9) / 64)) :
  blocks (m ++ [x] ++ replicate z 0 ++ c) =
  if (r <? 56)%nat
  then GroestlSpec.f (blocks m) (rest 64 m ++ [x] ++ replicate (55 - r) 0 ++ be_bytes 8 (Z.of_nat (S q)))
  else GroestlSpec.f (GroestlSpec.f (blocks m) (rest 64 m ++ [x] ++ replicate (63 - r) 0))
    (replicate 56 0 ++ be_bytes 8 (Z.of_nat (S (S q)))).
Proof.
  pose proof (Nat.div_mod_eq (length m) 64) as Em. pose proof (Nat.mod_upper_bound (length m) 64 ltac:(lia)) as Hr.
  pose proof (length_rest 64 pos64 m) as Hrest. fold r q in Em, Hr, Hrest. subst c. fold r in z.
  assert (Hdiv : Z.of_nat (length m + z + 9) / 64 = Z.of_nat ((length m + z + 9) / 64)) by by rewrite Nat2Z.inj_div.
  rewrite Hdiv. clear Hdiv.
  rewrite (absorb_all_app GroestlSpec.f 64 pos64). destruct (Nat.ltb_spec r 56) as [H | H].
  - assert (Hz : z = (55 - r)%nat).
    { unfold z. replace (119 - r)%nat with (55 - r + 1 * 64)%nat by lia. rewrite Nat.Div0.mod_add, Nat.mod_small; lia. }
    rewrite Hz. replace ((length m + (55 - r) + 9) / 64)%nat with (S q)
      by (apply (Nat.div_unique _ _ _ 0); lia).
    set (b := rest 64 m ++ _). rewrite <- (app_nil_r b) at 1. rewrite (absorb_all_block _ 64 pos64).
    + apply absorb_all_small; [exact pos64 |]. cbn. lia.
    + unfold b. rewrite !length_app, length_replicate, length_be_bytes, Hrest. cbn [length]. lia.
  - assert (Hz : z = (119 - r)%nat) by (unfold z; apply Nat.mod_small; lia).
    rewrite Hz. replace ((length m + (119 - r) + 9) / 64)%nat with (S (S q))
      by (apply (Nat.div_unique _ _ _ 0); lia).
    replace (119 - r)%nat with (63 - r + 56)%nat by lia. rewrite replicate_add.
    set (t := be_bytes 8 _).
    replace (rest 64 m ++ [x] ++ (replicate (63 - r) 0 ++ replicate 56 0) ++ t)
      with ((rest 64 m ++ [x] ++ replicate (63 - r) 0) ++ (replicate 56 0 ++ t) ++ [])
      by by rewrite app_nil_r, <- !app_assoc.
    rewrite !(absorb_all_block _ 64 pos64).
    + apply absorb_all_small; [exact pos64 |]. cbn. lia.
    + unfold t. by rewrite length_app, length_replicate, length_be_bytes.
    + rewrite !length_app, length_replicate, Hrest. cbn [length]. lia.
Qed.

Lemma OutputTransformation_bytes ctx :
  state_wf ctx.(chaining) ->
  state_bytes (OutputTransformation ctx).(chaining)
  = xor_bytes (state_bytes ctx.(chaining)) (GroestlSpec.P (state_bytes ctx.(chaining))).
Proof.
  intros Hw. pose proof Hw as [Hl _]. unfold OutputTransformation. cbv zeta. cbn [set_chaining chaining].
  assert (map (fun j => (chaining ctx).[j]) (seq 0 16) = chaining ctx) as ->.
  { apply nth_ext_Z; [by rewrite length_map, length_seq |]. rewrite length_map, length_seq.
    intros i Hi. by rewrite nth_map_seq. }
  destruct (P512_bytes (replicate 16 0) (replicate 16 0) _ eq_refl eq_refl Hw) as [HP HB].
  rewrite <- HB. revert HP. generalize (P512_scratch (replicate 16 0) (replicate 16 0) (chaining ctx)).
  intros p [Hp _]. rewrite (xor_fold (fun j => p.[j]) p) by done.
  apply state_bytes_xor. by rewrite Hp.
Qed.

Lemma Final_out ctx :
  fst (Final ctx) =
  drop 32 (state_bytes (OutputTransformation (last_block (first_block (pad_bit ctx)))).(chaining)).
Proof.
  unfold Final, state_bytes. cbv zeta. cbn [fst].
  change (Z.to_nat (SIZE512 - HASH_BIT_LEN / 8)) with 32%nat. exact eq_refl.
Qed.

Lemma groestl_Final_digest ctx m data L rem :
  repr ctx m -> bytes m -> bytes data -> (L + (if (rem =? 0)%Z then 0 else 1) <= length data)%nat ->
  0 <= rem < 8 ->
  fst (Final (store_bits ctx data (Z.of_nat L) rem)) = GroestlSpec.hash_bits m rem data.[L].
Proof.
  intros Hr Hm Hd HL Hrem. pose proof (pad_bit_marked ctx m data L rem Hr Hd HL Hrem) as Hmark.
  destruct (marker_eq rem data.[L] Hrem (word_nth 8 data L ltac:(lia) Hd)) as [_ Hx].
  rewrite Final_out. revert Hmark. generalize (pad_bit (store_bits ctx data (Z.of_nat L) rem)). intros c Hmark.
  pose proof (first_block_pending c m _ Hmark Hx Hm) as Hp. cbv zeta in Hp. clear Hmark.
  revert Hp. generalize (first_block c). clear c. intros c Hp.
  unfold GroestlSpec.hash_bits, GroestlSpec.Omega, GroestlSpec.pad. rewrite pad_blocks.
  pose proof (length_rest 64 pos64 m) as Hrest.
  assert (Hbr : bytes (rest 64 m)) by by apply rest_bytes.
  destruct (Nat.ltb_spec (length m mod 64) 56) as [H | H].
  - assert (Hb : bytes (rest 64 m ++ [GroestlSpec.marker rem data.[L]])).
    { apply bytes_app; [done |]. apply Forall_cons_2; [done | apply Forall_nil_2]. }
    destruct (last_block_core c _ _ _ Hp Hb) as [HW HB].
    rewrite length_app, Hrest, <- app_assoc in HB.
    replace (56 - (length m mod 64 + length [GroestlSpec.marker rem data.[L]]))%nat with (55 - length m mod 64)%nat
      in HB by (cbn [length]; lia).
    rewrite (OutputTransformation_bytes _ HW), HB. reflexivity.
  - destruct (last_block_core c _ _ _ Hp ltac:(apply Forall_nil_2)) as [HW HB].
    rewrite (OutputTransformation_bytes _ HW), HB. reflexivity.
Qed.

(** ** Theorems *)

Definition feed (ctx : groestlHashState) (portions : list (list Z)) : groestlHashState :=
  fold_left (fun ctx d => Update ctx d (8 * Z.of_nat (length d))) portions ctx.
(** Lengths in bytes fit an [int]. *)
Definition portion_ok (d : list Z) : Prop := bytes d /\ Z.of_nat (length d) < 2 ^ 31.

Lemma groestl_feed_repr ctx m portions :
  repr ctx m -> Forall portion_ok portions -> repr (feed ctx portions) (m ++ concat portions).
Proof.
  intros Hr Hp. revert ctx m Hr. unfold feed. induction Hp as [| d ds [Hd Hs] _ IH]; intros ctx m Hr.
  - by rewrite app_nil_r.
  - rewrite fold_left_one, concat_cons, app_assoc. apply IH.
    destruct (Update_eq ctx m d (length d) 0 Hr Hd (le_n _) Hs ltac:(lia)) as (c & Hc & E).
    rewrite Z.add_0_r in E. rewrite take_ge in Hc by done. rewrite E. exact Hc.
Qed.

Lemma groestl_digest ctx portions data L rem :
  buffer 64 (buffer_ ctx) -> Forall portion_ok portions -> bytes data ->
  (L + (if (rem =? 0)%Z then 0 else 1) <= length data)%nat -> Z.of_nat L < 2 ^ 31 -> 0 <= rem < 8 ->
  fst (Final (Update (feed (Init ctx) portions) data (8 * Z.of_nat L + rem)))
  = GroestlSpec.hash_bits (concat portions ++ take L data) rem data.[L].
Proof.
  intros Hb Hp Hd HL Hs Hrem. pose proof (groestl_feed_repr _ _ _ (groestl_Init_repr ctx Hb) Hp) as Hr.
  assert (HL' : (L <= length data)%nat) by (destruct (rem =? 0); lia).
  destruct (Update_eq _ _ data L rem Hr Hd HL' Hs Hrem) as (c & Hc & ->).
  apply (groestl_Final_digest c _ data L rem Hc); [| done | done | done].
  apply bytes_app; [| by apply Forall_take].
  apply Forall_concat. revert Hp. apply List.Forall_impl. by intros ? [? _].
Qed.

(** C25: the rounds of the 32-bit implementation, which look up two words of
    [T] for every byte and rotate them, are the rounds of Groestl: round
    constants, AES S-box, shifted rows, and the circulant matrix over
    GF(2^8), whatever the array for the result held. *)
Theorem RND512_refines r x y :
  is_byte r -> state_wf x -> length y = 16%nat ->
  state_bytes (snd (RND512P x y r)) = GroestlSpec.roundP (state_bytes x) r /\
  state_bytes (snd (RND512Q x y (Z.shiftl r 24))) = GroestlSpec.roundQ (state_bytes x) r /\
  state_wf (snd (RND512P x y r)) /\ state_wf (snd (RND512Q x y (Z.shiftl r 24))).
Proof.
  intros Hr [Hl _] Hy. rewrite RND512P_eq, RND512Q_eq by done. cbn [snd].
  destruct (code_round_bytes r x Hr Hl) as [HP HQ].
  split; [exact HP |]. split; [exact HQ |]. split; apply columns_wf.
Qed.

Lemma RND512_refines_witness :
  state_bytes (snd (RND512P (replicate 16 5) (replicate 16 7) 3))
  = GroestlSpec.roundP (state_bytes (replicate 16 5)) 3 /\
  state_bytes (snd (RND512Q (replicate 16 5) (replicate 16 7) 0x03000000))
  = GroestlSpec.roundQ (state_bytes (replicate 16 5)) 3 /\
  state_wf (snd (RND512P (replicate 16 5) (replicate 16 7) 3)) /\
  state_wf (snd (RND512Q (replicate 16 5) (replicate 16 7) 0x03000000)).
Proof.
  apply (RND512_refines 3 (replicate 16 5) (replicate 16 7)); [done | | done].
  by apply (bool_decide_unpack _).
Defined.

(** C29: [Init], any number of [Update]s of whole bytes, one more [Update] of
    any number of bits and [Final] compute Groestl-256 of the concatenated
    bits, whatever the context held before, and the one-call [groestl] computes
    it of its data, when each call is given less than 2^31 bytes (beyond that
    see [groestl_int_wrap]). *)
Theorem groestl_portions ctx portions data L rem :
  buffer 64 (buffer_ ctx) -> Forall portion_ok portions -> bytes data ->
  (L + (if (rem =? 0)%Z then 0 else 1) <= length data)%nat -> Z.of_nat L < 2 ^ 31 -> 0 <= rem < 8 ->
  fst (Final (Update (feed (Init ctx) portions) data (8 * Z.of_nat L + rem)))
  = GroestlSpec.hash_bits (concat portions ++ take L data) rem data.[L] /\
  groestl ctx data (8 * Z.of_nat L + rem) = GroestlSpec.hash_bits (take L data) rem data.[L].
Proof.
  intros Hb Hp Hd HL Hs Hrem. split; [by apply groestl_digest |].
  exact (groestl_digest ctx [] data L rem Hb (Forall_nil_2 _) Hd HL Hs Hrem).
Qed.

Definition some_state : groestlHashState :=
  {| chaining := []; block_counter1 := 9; block_counter2 := 9; buffer_ := replicate 64 7;
     buf_ptr := 5; bits_in_last_byte := 3 |}.

Lemma groestl_portions_witness :
  fst (Final (Update (feed (Init some_state) [[1; 2]; replicate 63 3]) [4; 5; 6] (8 * Z.of_nat 1 + 3)))
  = GroestlSpec.hash_bits (concat [[1; 2]; replicate 63 3] ++ take 1 [4; 5; 6]) 3 ([4; 5; 6].[1]) /\
  groestl some_state [4; 5; 6] (8 * Z.of_nat 1 + 3) = GroestlSpec.hash_bits (take 1 [4; 5; 6]) 3 ([4; 5; 6].[1]).
Proof.
  apply (groestl_portions some_state [[1; 2]; replicate 63 3] [4; 5; 6] 1 3);
    [by apply (bool_decide_unpack _) | | by apply (bool_decide_unpack _) | cbn; lia | done | done].
  repeat (apply Forall_cons_2; [split; [by apply (bool_decide_unpack _) | done] |]). apply Forall_nil_2.
Defined.

(** Nothing happens in an [Update] whose length, as an [int], is negative. *)
Lemma Update_negative ctx data databitlen :
  ctx.(buf_ptr) = 0 -> databitlen mod 8 = 0 -> 2 ^ 31 <= (databitlen / 8) mod 2 ^ 32 ->
  Update ctx data databitlen = ctx.
Proof.
  intros Hp Hrem Hbig. unfold Update. rewrite Hp, Hrem.
  pose proof (Z.mod_pos_bound (databitlen / 8) (2 ^ 32) ltac:(lia)) as Hm.
  set (l := int_of (databitlen / 8)).
  assert (Hl : - 2 ^ 31 <= l < 0).
  { unfold l, int_of. rewrite u32_mod. rewrite (proj2 (Z.ltb_ge _ _)) by lia. lia. }
  change (0 =? 0) with true. cbv beta iota zeta delta [negb andb]. change (Z.to_nat 0) with 0%nat.
  rewrite drop_0, Z.sub_0_r, Z.add_0_l. change SIZE512 with 64.
  assert (E : Transform ctx data l = ctx).
  { unfold Transform. change SIZE512 with 64. replace (Z.to_nat (l / 64)) with 0%nat; [done |].
    pose proof (Z.div_lt_upper_bound l 64 0 ltac:(lia) ltac:(lia)). lia. }
  rewrite E. pose proof (Z.quot_rem' l 64) as Eq. pose proof (Z.rem_nonpos l 64 ltac:(lia)) as Hneg.
  replace (Z.to_nat (l - Z.quot l 64 * 64)) with 0%nat by lia. done.
Qed.

(** [databitlen] has 64 bits, but the number of bytes is kept in an [int]:
    when it is 2^31 or more (modulo 2^32) all the data are ignored, and the
    result is the digest of the empty message. *)
Theorem groestl_int_wrap ctx data databitlen :
  buffer 64 (buffer_ ctx) -> databitlen mod 8 = 0 -> 2 ^ 31 <= (databitlen / 8) mod 2 ^ 32 ->
  groestl ctx data databitlen = GroestlSpec.hash [].
Proof.
  intros Hb Hrem Hbig. unfold groestl. rewrite Update_negative by done.
  exact (groestl_Final_digest (Init ctx) [] [] 0 0 (groestl_Init_repr ctx Hb) (Forall_nil_2 _) (Forall_nil_2 _)
    (le_n _) ltac:(lia)).
Qed.

Lemma groestl_int_wrap_witness : groestl some_state [1; 2; 3] (2 ^ 34) = GroestlSpec.hash [].
Proof.
  apply (groestl_int_wrap some_state [1; 2; 3] (2 ^ 34)); [by apply (bool_decide_unpack _) | done | done].
Defined.

(** The words that [Final] zeroises are the first half of the state; the
    digest stays in the other half. *)
Lemma Final_keeps_digest ctx :
  length (OutputTransformation (last_block (first_block (pad_bit ctx)))).(chaining) = 16%nat ->
  state_bytes (drop 8 (snd (Final ctx)).(chaining)) = fst (Final ctx).
Proof.
  intros Hl. rewrite Final_out. unfold Final. cbv zeta. cbn [snd set_buffer set_chaining chaining].
  revert Hl. generalize (chaining (OutputTransformation (last_block (first_block (pad_bit ctx))))).
  intros h Hl. pattern h. apply state_cases; [| exact Hl]. intros. reflexivity.
Qed.
