(* ===== verification/Skein.v ===== *)
(** * Skein-512: [xmrig/crypto/cn/c_skein.c]

    The default build: no error checks ([Skein_Assert] is empty), the block
    function unrolled ([SKEIN_UNROLL_512 = 0]), a little-endian machine
    ([Skein_Swap64] is the identity, [Skein_Get64_LSB_First] and
    [Skein_Put64_LSB_First] copy).  The reference ([SkeinSpec]) is Threefish
    with its word permutation and subkeys, UBI chaining with 128-bit tweaks
    and the output function of the Skein specification. *)

From S2P Require Import Prelude Endian Streaming.

(** ** The code: constants *)

Definition SKEIN_512_BLOCK_BYTES : Z := 64.
Definition SKEIN_T1_FLAG_FIRST : Z := Z.shiftl 1 (126 - 64).
Definition SKEIN_T1_FLAG_FINAL : Z := Z.shiftl 1 (127 - 64).
Definition SKEIN_T1_FLAG_BIT_PAD : Z := Z.shiftl 1 (119 - 64).
Definition SKEIN_T1_BLK_TYPE_CFG : Z := Z.shiftl 4 (120 - 64).
Definition SKEIN_T1_BLK_TYPE_MSG : Z := Z.shiftl 48 (120 - 64).
Definition SKEIN_T1_BLK_TYPE_OUT : Z := Z.shiftl 63 (120 - 64).
Definition SKEIN_T1_BLK_TYPE_CFG_FINAL : Z := Z.lor SKEIN_T1_BLK_TYPE_CFG SKEIN_T1_FLAG_FINAL.
Definition SKEIN_T1_BLK_TYPE_OUT_FINAL : Z := Z.lor SKEIN_T1_BLK_TYPE_OUT SKEIN_T1_FLAG_FINAL.
Definition SKEIN_MK_64 (hi32 lo32 : Z) : Z := u64 (lo32 + u64 (Z.shiftl hi32 32)).
Definition SKEIN_SCHEMA_VER : Z := SKEIN_MK_64 1 0x33414853.
Definition SKEIN_KS_PARITY : Z := SKEIN_MK_64 0x1BD11BDA 0xA9FC1A22.
Definition SKEIN_CFG_STR_LEN : Z := 4 * 8.
Definition SKEIN_CFG_TREE_INFO (leaf node maxLvl : Z) : Z :=
  Z.lor (Z.lor (Z.shiftl leaf 0) (u64 (Z.shiftl node 8))) (u64 (Z.shiftl maxLvl 16)).

(** [R_512_i_j] is element [j] of row [i]. *)
Definition R_512 : list (list Z) := [
  [46; 36; 19; 37]; [33; 27; 14; 42]; [17; 49; 36; 39]; [44; 9; 54; 56];
  [39; 30; 34; 24]; [13; 50; 10; 17]; [25; 29; 39; 43]; [8; 35; 56; 22] ].

Definition SKEIN_512_IV_256 : list Z := [
  SKEIN_MK_64 0xCCD044A1 0x2FDB3E13; SKEIN_MK_64 0xE8359030 0x1A79A9EB;
  SKEIN_MK_64 0x55AEA061 0x4F816E6F; SKEIN_MK_64 0x2A2767A4 0xAE9B94DB;
  SKEIN_MK_64 0xEC06025E 0x74DD7683; SKEIN_MK_64 0xE7A436CD 0xC4746251;
  SKEIN_MK_64 0xC36FBAF9 0x393AD185; SKEIN_MK_64 0x3EEDBA18 0x33EDFC13 ].

(** [Skein_512_Ctxt_t], with its header. *)
Record Skein_512_Ctxt_t := {
  hashBitLen : Z; bCnt : Z; T0 : Z; T1 : Z; X : list Z; b : list Z
}.
Definition set_tweak (ctx : Skein_512_Ctxt_t) (t0 t1 : Z) : Skein_512_Ctxt_t :=
  {| hashBitLen := ctx.(hashBitLen); bCnt := ctx.(bCnt); T0 := t0; T1 := t1; X := ctx.(X); b := ctx.(b) |}.
Definition set_X (ctx : Skein_512_Ctxt_t) (x : list Z) : Skein_512_Ctxt_t :=
  {| hashBitLen := ctx.(hashBitLen); bCnt := ctx.(bCnt); T0 := ctx.(T0); T1 := ctx.(T1); X := x; b := ctx.(b) |}.
Definition set_b (ctx : Skein_512_Ctxt_t) (n : Z) (buf : list Z) : Skein_512_Ctxt_t :=
  {| hashBitLen := ctx.(hashBitLen); bCnt := n; T0 := ctx.(T0); T1 := ctx.(T1); X := ctx.(X); b := buf |}.
Definition Skein_Start_New_Type (ctx : Skein_512_Ctxt_t) (BLK_TYPE : Z) : Skein_512_Ctxt_t :=
  set_b (set_tweak ctx 0 (Z.lor SKEIN_T1_FLAG_FIRST BLK_TYPE)) 0 ctx.(b).

(** ** The code: the block function *)

(** [X##p += X##q; X##q = RotL_64(X##q,R); X##q ^= X##p;]. *)
Definition mix (p q : nat) (R : Z) (X : list Z) : list Z :=
  let X := <[p := u64 (X.[p] + X.[q])]> X in
  let X := <[q := rotl64 X.[q] R]> X in
  <[q := Z.lxor X.[q] X.[p]]> X.
Definition Round512 (p0 p1 p2 p3 p4 p5 p6 p7 : nat) (ROT : list Z) (X : list Z) : list Z :=
  let X := mix p0 p1 ROT.[0] X in
  let X := mix p2 p3 ROT.[1] X in
  let X := mix p4 p5 ROT.[2] X in
  mix p6 p7 ROT.[3] X.

Definition I512 (ks ts : list Z) (R : nat) (X : list Z) : list Z := [
  u64 (X.[0] + ks.[(R + 1) mod 9]);
  u64 (X.[1] + ks.[(R + 2) mod 9]);
  u64 (X.[2] + ks.[(R + 3) mod 9]);
  u64 (X.[3] + ks.[(R + 4) mod 9]);
  u64 (X.[4] + ks.[(R + 5) mod 9]);
  u64 (X.[5] + u64 (ks.[(R + 6) mod 9] + ts.[(R + 1) mod 3]));
  u64 (X.[6] + u64 (ks.[(R + 7) mod 9] + ts.[(R + 2) mod 3]));
  u64 (X.[7] + u64 (ks.[(R + 8) mod 9] + (Z.of_nat R + 1))) ].

Definition R512_8_rounds (ks ts : list Z) (X : list Z) (R : nat) : list Z :=
  let rot i := nth i R_512 [] in
  let X := Round512 0 1 2 3 4 5 6 7 (rot 0%nat) X in
  let X := Round512 2 1 4 7 6 5 0 3 (rot 1%nat) X in
  let X := Round512 4 1 6 3 0 5 2 7 (rot 2%nat) X in
  let X := Round512 6 1 0 7 2 5 4 3 (rot 3%nat) X in
  let X := I512 ks ts (2 * R) X in
  let X := Round512 0 1 2 3 4 5 6 7 (rot 4%nat) X in
  let X := Round512 2 1 4 7 6 5 0 3 (rot 5%nat) X in
  let X := Round512 4 1 6 3 0 5 2 7 (rot 6%nat) X in
  let X := Round512 6 1 0 7 2 5 4 3 (rot 7%nat) X in
  I512 ks ts (2 * R + 1) X.

(** [Skein_Get64_LSB_First(w,p,n)]. *)
Definition get64 (n : nat) (p : list Z) : list Z := map le_word (pieces 8 n p).
(** [Skein_Put64_LSB_First], all the bytes. *)
Definition put64 (w : list Z) : list Z := concat (map (le_bytes 8) w).

(** One turn of the [do] loop on [ts[0]], [ts[1]] and the chaining variables. *)
Definition block_turn (byteCntAdd : Z) '((t0, t1, X) : Z * Z * list Z) (blkPtr : list Z) :
  Z * Z * list Z :=
  let t0 := u64 (t0 + byteCntAdd) in
  let ks := X ++ [Z.lxor (Z.lxor (Z.lxor (Z.lxor (Z.lxor (Z.lxor (Z.lxor (Z.lxor
    X.[0] X.[1]) X.[2]) X.[3]) X.[4]) X.[5]) X.[6]) X.[7]) SKEIN_KS_PARITY] in
  let ts := [t0; t1; Z.lxor t0 t1] in
  let w := get64 8 blkPtr in
  let Y := [
    u64 (w.[0] + ks.[0]); u64 (w.[1] + ks.[1]); u64 (w.[2] + ks.[2]); u64 (w.[3] + ks.[3]);
    u64 (w.[4] + ks.[4]); u64 (u64 (w.[5] + ks.[5]) + ts.[0]); u64 (u64 (w.[6] + ks.[6]) + ts.[1]);
    u64 (w.[7] + ks.[7]) ] in
  let Y := fold_left (R512_8_rounds ks ts) [0; 1; 2; 3; 4; 5; 6; 7; 8]%nat Y in
  let X := [
    Z.lxor Y.[0] w.[0]; Z.lxor Y.[1] w.[1]; Z.lxor Y.[2] w.[2]; Z.lxor Y.[3] w.[3];
    Z.lxor Y.[4] w.[4]; Z.lxor Y.[5] w.[5]; Z.lxor Y.[6] w.[6]; Z.lxor Y.[7] w.[7] ] in
  (t0, Z.land t1 (not64 SKEIN_T1_FLAG_FIRST), X).

(** [do .. while (--blkCnt)], for [blkCnt] of at least one. *)
Fixpoint block_loop (blkCnt : nat) (byteCntAdd : Z) (st : Z * Z * list Z) (blkPtr : list Z) :
  Z * Z * list Z :=
  match blkCnt with
  | O => st
  | S n => block_loop n byteCntAdd (block_turn byteCntAdd st blkPtr) (drop 64 blkPtr)
  end.
Definition Skein_512_Process_Block (ctx : Skein_512_Ctxt_t) (blkPtr : list Z) (blkCnt : nat)
    (byteCntAdd : Z) : Skein_512_Ctxt_t :=
  let '(t0, t1, x) := block_loop blkCnt byteCntAdd (ctx.(T0), ctx.(T1), ctx.(X)) blkPtr in
  set_X (set_tweak ctx t0 t1) x.

(** ** The code: hashing *)

Definition Skein_512_Init (ctx : Skein_512_Ctxt_t) (hashBitLen_ : Z) : Z * Skein_512_Ctxt_t :=
  let ctx := {| hashBitLen := hashBitLen_; bCnt := ctx.(bCnt); T0 := ctx.(T0); T1 := ctx.(T1);
                X := ctx.(X); b := ctx.(b) |} in
  let ctx :=
    if hashBitLen_ =? 256 then set_X ctx SKEIN_512_IV_256
    else
      let ctx := Skein_Start_New_Type ctx SKEIN_T1_BLK_TYPE_CFG_FINAL in
      let cfg := put64 ([SKEIN_SCHEMA_VER; hashBitLen_; SKEIN_CFG_TREE_INFO 0 0 0] ++ replicate 5 0) in
      let ctx := set_X ctx (replicate 8 0) in
      Skein_512_Process_Block ctx cfg 1 SKEIN_CFG_STR_LEN in
  (0, Skein_Start_New_Type ctx SKEIN_T1_BLK_TYPE_MSG).

(** [msg] are the [msgByteCnt] bytes at the pointer. *)
Definition Skein_512_Update (ctx : Skein_512_Ctxt_t) (msg : list Z) : Z * Skein_512_Ctxt_t :=
  let '(ctx, msg) :=
    if 64 <? u64 (Z.of_nat (length msg) + ctx.(bCnt)) then
      let '(ctx, msg) :=
        if ctx.(bCnt) =? 0 then (ctx, msg)
        else
          let n := Z.to_nat (64 - ctx.(bCnt)) in
          let '(ctx, msg) :=
            if (n =? 0)%nat then (ctx, msg)
            else (set_b ctx (ctx.(bCnt) + Z.of_nat n)
                    (write_at (Z.to_nat ctx.(bCnt)) (take n msg) ctx.(b)), drop n msg) in
          let ctx := Skein_512_Process_Block ctx ctx.(b) 1 64 in
          (set_b ctx 0 ctx.(b), msg) in
      if (64 <? length msg)%nat then
        let n := ((length msg - 1) / 64)%nat in
        (Skein_512_Process_Block ctx msg n 64, drop (n * 64) msg)
      else (ctx, msg)
    else (ctx, msg) in
  if (length msg =? 0)%nat then (0, ctx)
  else (0, set_b ctx (ctx.(bCnt) + Z.of_nat (length msg))
             (write_at (Z.to_nat ctx.(bCnt)) msg ctx.(b))).

(** [for (i=0;i*SKEIN_512_BLOCK_BYTES < byteCnt;i++)]: [x] is the local copy of
    the chaining variables, [out] the bytes written to [hashVal]. *)
Fixpoint output_loop (fuel : nat) (i byteCnt : Z) (x : list Z) (ctx : Skein_512_Ctxt_t)
    (out : list Z) : list Z * Skein_512_Ctxt_t :=
  match fuel with
  | O => (out, ctx)
  | S fuel =>
      if i * 64 <? byteCnt then
        let ctx := set_b ctx ctx.(bCnt) (write_at 0 (le_bytes 8 i) ctx.(b)) in
        let ctx := Skein_Start_New_Type ctx SKEIN_T1_BLK_TYPE_OUT_FINAL in
        let ctx := Skein_512_Process_Block ctx ctx.(b) 1 8 in
        let n := byteCnt - i * 64 in
        let n := if 64 <=? n then 64 else n in
        let out := out ++ take (Z.to_nat n) (put64 ctx.(X)) in
        output_loop fuel (i + 1) byteCnt x (set_X ctx x) out
      else (out, ctx)
  end.

(** The bytes written to [hashVal] and the context left behind. *)
Definition Skein_512_Final (ctx : Skein_512_Ctxt_t) : list Z * Skein_512_Ctxt_t :=
  let ctx := set_tweak ctx ctx.(T0) (Z.lor ctx.(T1) SKEIN_T1_FLAG_FINAL) in
  let ctx :=
    if ctx.(bCnt) <? 64 then
      set_b ctx ctx.(bCnt) (write_at (Z.to_nat ctx.(bCnt)) (replicate (Z.to_nat (64 - ctx.(bCnt))) 0) ctx.(b))
    else ctx in
  let ctx := Skein_512_Process_Block ctx ctx.(b) 1 ctx.(bCnt) in
  let byteCnt := Z.shiftr (u64 (ctx.(hashBitLen) + 7)) 3 in
  let ctx := set_b ctx ctx.(bCnt) (replicate 64 0) in
  output_loop (S (Z.to_nat (byteCnt / 64))) 0 byteCnt ctx.(X) ctx [].

(** The generic interface; [statebits] is set and never read. *)
Record hashState := { statebits : Z; ctx_512 : Skein_512_Ctxt_t }.
Definition Init (state : hashState) (hashbitlen : Z) : Z * hashState :=
  let '(r, ctx) := Skein_512_Init state.(ctx_512) (u64 hashbitlen) in
  (r, {| statebits := 64 * 8; ctx_512 := ctx |}).

(** The last byte with its bit padding: [b = (u08b_t) ((data[bCnt-1] & (0-mask)) | mask)]. *)
Definition pad_byte (last databitlen : Z) : Z :=
  let mask := u8 (Z.shiftl 1 (7 - Z.land databitlen 7)) in
  u8 (Z.lor (Z.land last (0 - mask)) mask).
Definition Update (state : hashState) (data : list Z) (databitlen : Z) : Z * hashState :=
  if Z.land databitlen 7 =? 0 then
    let '(r, ctx) :=
      Skein_512_Update state.(ctx_512) (take (Z.to_nat (Z.shiftr databitlen 3)) data) in
    (r, {| statebits := state.(statebits); ctx_512 := ctx |})
  else
    let n := Z.to_nat (Z.shiftr databitlen 3) in
    let '(_, ctx) := Skein_512_Update state.(ctx_512) (take n data) in
    let '(_, ctx) := Skein_512_Update ctx [pad_byte data.[n] databitlen] in
    let ctx := set_tweak ctx ctx.(T0) (Z.lor ctx.(T1) SKEIN_T1_FLAG_BIT_PAD) in
    (0, {| statebits := state.(statebits); ctx_512 := ctx |}).
Definition Final (state : hashState) : list Z * hashState :=
  let '(out, ctx) := Skein_512_Final state.(ctx_512) in
  (out, {| statebits := state.(statebits); ctx_512 := ctx |}).

(** [state] is the uninitialised local variable; the result and the bytes
    written to [hashval]. *)
Definition skein_hash (state : hashState) (hashbitlen : Z) (data : list Z) (databitlen : Z) :
  Z * list Z :=
  let '(r, state) := Init state hashbitlen in
  if r =? 0 then
    let '(r, state) := Update state data databitlen in (r, fst (Final state))
  else (r, []).

(** For the 200 bytes of a Keccak state, with the precomputed IV. *)
Definition xmr_skein (state : hashState) (data : list Z) : list Z :=
  let ctx := state.(ctx_512) in
  let ctx := {| hashBitLen := 256; bCnt := ctx.(bCnt); T0 := ctx.(T0); T1 := ctx.(T1);
                X := SKEIN_512_IV_256; b := ctx.(b) |} in
  let ctx := Skein_Start_New_Type ctx SKEIN_T1_BLK_TYPE_MSG in
  let '(_, ctx) := Skein_512_Update ctx (take (Z.to_nat (Z.shiftr 1600 3)) data) in
  fst (Skein_512_Final ctx).

(** ** The Skein specification, version 1.3 *)

Module SkeinSpec.
(** Threefish-512: key [K] of eight words, tweak words [t0] and [t1]. *)
Definition C240 : Z := 0x1BD11BDAA9FC1A22.
Definition key (K : list Z) (i : nat) : Z :=
  if (i =? 8)%nat then fold_left Z.lxor K C240 else K.[i].
Definition twk (t0 t1 : Z) (i : nat) : Z := nth i [t0; t1; Z.lxor t0 t1] 0.
Definition subkey (K : list Z) (t0 t1 : Z) (s : nat) : list Z :=
  map (fun i => (key K ((s + i) mod 9) +
    (if (i =? 5)%nat then twk t0 t1 (s mod 3)
     else if (i =? 6)%nat then twk t0 t1 ((s + 1) mod 3)
     else if (i =? 7)%nat then Z.of_nat s else 0)) mod 2 ^ 64) (seq 0 8).
Definition add_words : list Z -> list Z -> list Z := zip_with (fun x y => (x + y) mod 2 ^ 64).
(** The four MIX functions of round [d], then the permutation of the words. *)
Definition mixed (d : nat) (v : list Z) : list Z :=
  concat (map (fun j =>
    let y0 := (v.[2 * j] + v.[2 * j + 1]) mod 2 ^ 64 in
    [y0; Z.lxor (rotl64 v.[2 * j + 1] (nth (d mod 8) R_512 []).[j]) y0]) (seq 0 4)).
Definition pi : list nat := [2; 1; 4; 7; 6; 5; 0; 3]%nat.
Definition permuted (v : list Z) : list Z := map (fun i => v.[i]) pi.
Definition round (K : list Z) (t0 t1 : Z) (v : list Z) (d : nat) : list Z :=
  let v := if (d mod 4 =? 0)%nat then add_words v (subkey K t0 t1 (d / 4)) else v in
  permuted (mixed d v).
Definition threefish (K : list Z) (t0 t1 : Z) (P : list Z) : list Z :=
  add_words (fold_left (round K t0 t1) (seq 0 72) P) (subkey K t0 t1 18).

(** UBI: the tweak has the position in its low 96 bits, then flags and type. *)
Definition tweak (ty pos : Z) (first final pad : bool) : Z :=
  pos + Z.b2z pad * 2 ^ 119 + ty * 2 ^ 120 + Z.b2z first * 2 ^ 126 + Z.b2z final * 2 ^ 127.
Definition block (G : list Z) (T : Z) (M : list Z) : list Z :=
  let w := map le_word (pieces 8 8 M) in
  xor_bytes (threefish G (T mod 2 ^ 64) (T / 2 ^ 64) w) w.
(** The first [k] blocks of [M], not the last one. *)
Fixpoint chain (G M : list Z) (ty : Z) (k : nat) : list Z :=
  match k with
  | O => G
  | S k => block (chain G M ty k) (tweak ty (64 * Z.of_nat (S k)) (k =? 0)%nat false false)
             (take 64 (drop (64 * k) M))
  end.
Definition ubi (G M : list Z) (ty : Z) (pad : bool) : list Z :=
  let k := ((length M - 1) / 64)%nat in
  let last := drop (64 * k) M in
  block (chain G M ty k) (tweak ty (Z.of_nat (length M)) (k =? 0)%nat true pad)
    (last ++ replicate (64 - length last) 0).

(** "SHA3", version 1, the length of the output in bits. *)
Definition config (N : Z) : list Z := [0x53; 0x48; 0x41; 0x33; 1; 0; 0; 0] ++ le_bytes 8 N ++ replicate 16 0.
Definition output (G : list Z) (N : Z) : list Z :=
  let n := Z.to_nat ((N + 7) / 8) in
  take n (concat (map (fun i =>
    concat (map (le_bytes 8) (ubi G (le_bytes 8 (Z.of_nat i)) 63 false))) (seq 0 ((n + 63) / 64)))).
Definition skein (N : Z) (M : list Z) (pad : bool) : list Z :=
  output (ubi (ubi (replicate 8 0) (config N) 4 false) M 48 pad) N.
(** A message of whole bytes and of [rem] more bits, the high ones of [last]:
    these are completed with a 1 bit and zeroes. *)
Definition hash_bits (N : Z) (m : list Z) (rem last : Z) : list Z :=
  if rem =? 0 then skein N m false
  else skein N (m ++ [Z.lor (Z.land last (256 - 2 ^ (8 - rem))) (2 ^ (7 - rem))]) true.
End SkeinSpec.

(** ** The block function *)

(** The roles of the words after [k] rounds: the code rotates them where
    Threefish moves the words. *)
Definition roles (k : nat) (X : list Z) : list Z := Nat.iter k SkeinSpec.permuted X.

Lemma eight_cases (X : list Z) (R : list Z -> Prop) :
  (forall x0 x1 x2 x3 x4 x5 x6 x7, R [x0; x1; x2; x3; x4; x5; x6; x7]) -> length X = 8%nat -> R X.
Proof.
  intros H Hl. do 8 (destruct X as [| ? X]; [done |]). destruct X; [apply H | done].
Qed.

Ltac eight X H := pattern X; apply eight_cases; [| exact H].

(** The two operations of MIX, to be kept folded. *)
Definition addw (a b : Z) : Z := u64 (a + b).
Definition rotw (r x : Z) (y : Z) : Z := Z.lxor (rotl64 x r) y.

Lemma mixed_eq d v (rot := nth (d mod 8) R_512 []) :
  SkeinSpec.mixed d v =
  [addw v.[0] v.[1]; rotw rot.[0] v.[1] (addw v.[0] v.[1]);
   addw v.[2] v.[3]; rotw rot.[1] v.[3] (addw v.[2] v.[3]);
   addw v.[4] v.[5]; rotw rot.[2] v.[5] (addw v.[4] v.[5]);
   addw v.[6] v.[7]; rotw rot.[3] v.[7] (addw v.[6] v.[7])].
Proof. unfold addw, rotw. rewrite !u64_mod. reflexivity. Qed.

Lemma mix_eq p q R X :
  (p < length X)%nat -> (q < length X)%nat -> p <> q ->
  mix p q R X = <[q := rotw R X.[q] (addw X.[p] X.[q])]> (<[p := addw X.[p] X.[q]]> X).
Proof.
  intros Hp Hq Hpq. unfold mix. rewrite list_insert_insert_eq.
  rewrite !nth_insert_eq, !(nth_insert_ne _ q p), (nth_insert_ne _ p q), nth_insert_eq
    by (rewrite ?length_insert; (done || lia)). reflexivity.
Qed.

Lemma length_mix p q R X : length (mix p q R X) = length X.
Proof. unfold mix. by rewrite !length_insert. Qed.

#[local] Opaque addw rotw.

Lemma Round512_roles d X (rot := nth (d mod 8) R_512 []) :
  length X = 8%nat ->
  SkeinSpec.permuted (SkeinSpec.mixed d X) = roles 1 (Round512 0 1 2 3 4 5 6 7 rot X) /\
  SkeinSpec.permuted (SkeinSpec.mixed d (roles 1 X)) = roles 2 (Round512 2 1 4 7 6 5 0 3 rot X) /\
  SkeinSpec.permuted (SkeinSpec.mixed d (roles 2 X)) = roles 3 (Round512 4 1 6 3 0 5 2 7 rot X) /\
  SkeinSpec.permuted (SkeinSpec.mixed d (roles 3 X)) = Round512 6 1 0 7 2 5 4 3 rot X.
Proof.
  intros HX. rewrite !mixed_eq. fold rot. clearbody rot. unfold Round512.
  rewrite !mix_eq by (rewrite ?length_mix, ?length_insert, ?length_mix, ?HX; lia).
  eight X HX. intros. split_and!; reflexivity.
Qed.

(** Four rounds, with the rotations of the first or of the second half of the
    table. *)
Definition four_rounds (g : nat) (X : list Z) : list Z :=
  let rot i := nth (4 * g + i) R_512 [] in
  Round512 6 1 0 7 2 5 4 3 (rot 3%nat) (Round512 4 1 6 3 0 5 2 7 (rot 2%nat)
    (Round512 2 1 4 7 6 5 0 3 (rot 1%nat) (Round512 0 1 2 3 4 5 6 7 (rot 0%nat) X))).

Lemma length_Round512 p0 p1 p2 p3 p4 p5 p6 p7 rot X :
  length (Round512 p0 p1 p2 p3 p4 p5 p6 p7 rot X) = length X.
Proof. unfold Round512. by rewrite !length_mix. Qed.
Lemma length_four_rounds g X : length (four_rounds g X) = length X.
Proof. unfold four_rounds. by rewrite !length_Round512. Qed.
Lemma length_add_words v w : length w = 8%nat -> length v = 8%nat -> length (SkeinSpec.add_words v w) = 8%nat.
Proof. intros. unfold SkeinSpec.add_words. rewrite length_zip_with. lia. Qed.
Lemma length_subkey K t0 t1 s : length (SkeinSpec.subkey K t0 t1 s) = 8%nat.
Proof. done. Qed.

Lemma R512_8_rounds_eq ks ts X R :
  R512_8_rounds ks ts X R =
  I512 ks ts (2 * R + 1) (four_rounds 1 (I512 ks ts (2 * R) (four_rounds 0 X))).
Proof. unfold R512_8_rounds, four_rounds. reflexivity. Qed.

Section Threefish.
Context (K : list Z) (t0 t1 : Z).
Abbreviation subkey := (SkeinSpec.subkey K t0 t1).
Abbreviation add := SkeinSpec.add_words.

Lemma round_first s v :
  SkeinSpec.round K t0 t1 v (4 * s) = SkeinSpec.permuted (SkeinSpec.mixed (4 * s) (add v (subkey s))).
Proof.
  unfold SkeinSpec.round. rewrite Nat.mul_comm, Nat.Div0.mod_mul, Nat.div_mul by lia. done.
Qed.
Lemma round_next s i v :
  (0 < i < 4)%nat -> SkeinSpec.round K t0 t1 v (4 * s + i) = SkeinSpec.permuted (SkeinSpec.mixed (4 * s + i) v).
Proof.
  intros Hi. unfold SkeinSpec.round.
  assert ((4 * s + i) mod 4 = i)%nat as ->.
  { rewrite Nat.add_comm, Nat.mul_comm, Nat.Div0.mod_add. apply Nat.mod_small. lia. }
  by rewrite (proj2 (Nat.eqb_neq i 0)) by lia.
Qed.

Lemma row_mod s i : (i < 4)%nat -> ((4 * s + i) mod 8 = 4 * (s mod 2) + i)%nat.
Proof.
  intros Hi. pose proof (Nat.div_mod_eq s 2). pose proof (Nat.mod_upper_bound s 2 ltac:(lia)).
  symmetry. apply (Nat.mod_unique _ _ (s / 2)); lia.
Qed.

Lemma four_rounds_spec s v :
  length v = 8%nat ->
  fold_left (SkeinSpec.round K t0 t1) (seq (4 * s) 4) v = four_rounds (s mod 2) (add v (subkey s)).
Proof.
  intros Hv. cbn [seq]. rewrite !fold_left_one. cbn [fold_left].
  replace (S (S (S (4 * s)))) with (4 * s + 3)%nat by lia.
  replace (S (S (4 * s))) with (4 * s + 2)%nat by lia. replace (S (4 * s)) with (4 * s + 1)%nat by lia.
  rewrite round_first, !round_next by lia. unfold four_rounds.
  pose proof (length_add_words v (subkey s) (length_subkey _ _ _ _) Hv) as Hl.
  generalize dependent (add v (subkey s)). intros x Hx.
  destruct (Round512_roles (4 * s) x Hx) as (-> & _).
  destruct (Round512_roles (4 * s + 1) (Round512 0 1 2 3 4 5 6 7 (nth ((4 * s) mod 8) R_512 []) x))
    as (_ & -> & _); [by rewrite length_Round512 |].
  destruct (Round512_roles (4 * s + 2) (Round512 2 1 4 7 6 5 0 3 (nth ((4 * s + 1) mod 8) R_512 [])
    (Round512 0 1 2 3 4 5 6 7 (nth ((4 * s) mod 8) R_512 []) x)))
    as (_ & _ & -> & _); [by rewrite !length_Round512 |].
  destruct (Round512_roles (4 * s + 3) (Round512 4 1 6 3 0 5 2 7 (nth ((4 * s + 2) mod 8) R_512 [])
    (Round512 2 1 4 7 6 5 0 3 (nth ((4 * s + 1) mod 8) R_512 [])
    (Round512 0 1 2 3 4 5 6 7 (nth ((4 * s) mod 8) R_512 []) x))))
    as (_ & _ & _ & ->); [by rewrite !length_Round512 |].
  pose proof (row_mod s 0 ltac:(lia)) as E0. rewrite Nat.add_0_r in E0.
  by rewrite E0, !row_mod, !Nat.add_0_r by lia.
Qed.

#[local] Opaque four_rounds SkeinSpec.round.
(** Subkeys before groups of four rounds, and after them. *)
Definition before (v : list Z) (s : nat) : list Z := four_rounds (s mod 2) (add v (subkey s)).
Definition after (v : list Z) (s : nat) : list Z := add (four_rounds (s mod 2) v) (subkey (S s)).

Lemma length_before v s : length v = 8%nat -> length (before v s) = 8%nat.
Proof. intros. unfold before. rewrite length_four_rounds. by apply length_add_words. Qed.

Lemma rounds_before n v :
  length v = 8%nat ->
  fold_left (SkeinSpec.round K t0 t1) (seq 0 (4 * n)) v = fold_left before (seq 0 n) v /\
  length (fold_left before (seq 0 n) v) = 8%nat.
Proof.
  intros Hv. induction n as [| n [IH Hl]]; [done |].
  replace (4 * S n)%nat with (4 * n + 4)%nat by lia.
  rewrite seq_app, fold_left_app, IH, (seq_S n 0), fold_left_app, !Nat.add_0_l, fold_left_one.
  cbn [fold_left]. split; [by apply four_rounds_spec | by apply length_before].
Qed.

Lemma before_after n v :
  fold_left after (seq 0 n) (add v (subkey 0)) = add (fold_left before (seq 0 n) v) (subkey n).
Proof.
  induction n as [| n IH]; [done |]. rewrite seq_S, !fold_left_app, IH, Nat.add_0_l, !fold_left_one.
  cbn [fold_left]. unfold after, before. reflexivity.
Qed.

Lemma threefish_after v :
  length v = 8%nat -> SkeinSpec.threefish K t0 t1 v = fold_left after (seq 0 18) (add v (subkey 0)).
Proof.
  intros Hv. unfold SkeinSpec.threefish. destruct (rounds_before 18 v Hv) as [E _].
  change (4 * 18)%nat with 72%nat in E. by rewrite E, before_after.
Qed.

(** The code's key schedule. *)
Hypothesis K_length : length K = 8%nat.
Definition ks : list Z := K ++ [Z.lxor (Z.lxor (Z.lxor (Z.lxor (Z.lxor (Z.lxor (Z.lxor (Z.lxor
  K.[0] K.[1]) K.[2]) K.[3]) K.[4]) K.[5]) K.[6]) K.[7]) SKEIN_KS_PARITY].
Definition ts : list Z := [t0; t1; Z.lxor t0 t1].

Lemma ks_key i : (i < 9)%nat -> ks.[i] = SkeinSpec.key K i.
Proof.
  intros Hi. unfold ks, SkeinSpec.key. destruct (Nat.eqb_spec i 8) as [-> |].
  - rewrite app_nth2 by lia. rewrite K_length. cbn [nth Nat.sub].
    change SKEIN_KS_PARITY with SkeinSpec.C240. generalize SkeinSpec.C240. intros c.
    eight K K_length. intros. cbn [nth fold_left]. bitblast.
  - by rewrite app_nth1 by lia.
Qed.

Lemma I512_subkey R x : length x = 8%nat -> I512 ks ts R x = add x (subkey (S R)).
Proof.
  intros Hx. unfold I512, SkeinSpec.add_words, SkeinSpec.subkey.
  assert (Hk : forall i, ks.[(R + i) mod 9] = SkeinSpec.key K ((R + i) mod 9)).
  { intros i. apply ks_key, Nat.mod_upper_bound. lia. }
  rewrite !Hk. cbn [seq map Nat.eqb]. unfold ts.
  change (fun j => [t0; t1; Z.lxor t0 t1].[j]) with (SkeinSpec.twk t0 t1).
  eight x Hx. intros x0 x1 x2 x3 x4 x5 x6 x7. cbn [nth zip_with].
  rewrite <- !u64_mod, !u64_add_r, !Z.add_0_r.
  replace (S R + 0)%nat with (R + 1)%nat by lia. replace (S R + 1)%nat with (R + 2)%nat by lia.
  replace (S R + 2)%nat with (R + 3)%nat by lia. replace (S R + 3)%nat with (R + 4)%nat by lia.
  replace (S R + 4)%nat with (R + 5)%nat by lia. replace (S R + 5)%nat with (R + 6)%nat by lia.
  replace (S R + 6)%nat with (R + 7)%nat by lia. replace (S R + 7)%nat with (R + 8)%nat by lia.
  replace (S R) with (R + 1)%nat by lia. rewrite Nat2Z.inj_add. reflexivity.
Qed.

Lemma eight_rounds_after R x :
  length x = 8%nat -> R512_8_rounds ks ts x R = fold_left after (seq (2 * R) 2) x /\
  length (R512_8_rounds ks ts x R) = 8%nat.
Proof.
  intros Hx. split; [| done]. cbn [seq]. rewrite !fold_left_one. rewrite R512_8_rounds_eq. unfold after. cbn [fold_left].
  assert (E0 : ((2 * R) mod 2 = 0)%nat) by (rewrite Nat.mul_comm; apply Nat.Div0.mod_mul).
  assert (E1 : (S (2 * R) mod 2 = 1)%nat)
    by (replace (S (2 * R)) with (1 + R * 2)%nat by lia; rewrite Nat.Div0.mod_add; done).
  rewrite E0, E1. replace (2 * R + 1)%nat with (S (2 * R)) by lia.
  rewrite !I512_subkey; [reflexivity | ..]; rewrite ?length_four_rounds; (done || exact Hx).
Qed.

Lemma rounds_after n x :
  length x = 8%nat -> fold_left (R512_8_rounds ks ts) (seq 0 n) x = fold_left after (seq 0 (2 * n)) x /\
  length (fold_left (R512_8_rounds ks ts) (seq 0 n) x) = 8%nat.
Proof.
  intros Hx. induction n as [| n [IH Hl]]; [done |].
  replace (2 * S n)%nat with (2 * n + 2)%nat by lia.
  rewrite seq_app, !fold_left_app, (seq_S n 0), fold_left_app, <- IH, !Nat.add_0_l, fold_left_one.
  cbn [fold_left]. by apply eight_rounds_after.
Qed.
End Threefish.

(** ** Blocks and tweaks *)

Lemma length_get64 p : length (get64 8 p) = 8%nat.
Proof. unfold get64. by rewrite length_map, length_pieces. Qed.

Lemma first_injection x t t1 w :
  length x = 8%nat -> length w = 8%nat ->
  [ u64 (w.[0] + (ks x).[0]); u64 (w.[1] + (ks x).[1]); u64 (w.[2] + (ks x).[2]); u64 (w.[3] + (ks x).[3]);
    u64 (w.[4] + (ks x).[4]); u64 (u64 (w.[5] + (ks x).[5]) + (ts t t1).[0]);
    u64 (u64 (w.[6] + (ks x).[6]) + (ts t t1).[1]); u64 (w.[7] + (ks x).[7]) ]
  = SkeinSpec.add_words w (SkeinSpec.subkey x t t1 0).
Proof.
  intros Hx Hw. unfold SkeinSpec.subkey. rewrite !(ks_key x Hx) by lia. cbn [seq map Nat.eqb].
  eight w Hw. intros. unfold SkeinSpec.add_words. cbn [nth zip_with ts].
  change (SkeinSpec.twk t t1 (0 mod 3)) with t. change (SkeinSpec.twk t t1 ((0 + 1) mod 3)) with t1.
  change (Z.of_nat 0) with 0. rewrite !Z.add_0_r, <- !u64_mod, !u64_add_l, !u64_add_r, <- !Z.add_assoc.
  reflexivity.
Qed.

Lemma block_turn_eq add t0 t1 x blk T :
  length x = 8%nat -> u64 (t0 + add) = T mod 2 ^ 64 -> t1 = T / 2 ^ 64 ->
  block_turn add (t0, t1, x) blk =
  (T mod 2 ^ 64, Z.land t1 (not64 SKEIN_T1_FLAG_FIRST), SkeinSpec.block x T (take 64 blk)).
Proof.
  intros Hx H0 H1. unfold block_turn. rewrite H0. cbv zeta.
  unfold SkeinSpec.block. rewrite (pieces_take 8 8 blk : pieces 8 8 (take 64 blk) = _).
  fold (get64 8 blk). pose proof (length_get64 blk) as Hw. generalize dependent (get64 8 blk). intros w Hw.
  rewrite <- H1. generalize (T mod 2 ^ 64). intros t.
  fold (ks x) (ts t t1). change (t :: t1 :: [Z.lxor t t1]) with (ts t t1).
  rewrite (first_injection x t t1 w Hx Hw).
  pose proof (length_add_words w (SkeinSpec.subkey x t t1 0) (length_subkey _ _ _ _) Hw) as Ha.
  destruct (rounds_after x t t1 Hx 9 _ Ha) as [E Hl].
  rewrite E in Hl. change (seq 0 9) with [0; 1; 2; 3; 4; 5; 6; 7; 8]%nat in E. rewrite E. clear E.
  rewrite (threefish_after x t t1 w Hw). change (2 * 9)%nat with 18%nat in *.
  generalize dependent (fold_left (after x t t1) (seq 0 18)
    (SkeinSpec.add_words w (SkeinSpec.subkey x t t1 0))). intros y Hy.
  do 2 f_equal. revert Hw. pattern y. apply eight_cases; [| exact Hy]. intros y0 y1 y2 y3 y4 y5 y6 y7 Hw.
  pattern w. apply eight_cases; [| exact Hw]. intros. reflexivity.
Qed.

Lemma block_length G T M : length (SkeinSpec.block G T M) = 8%nat.
Proof.
  unfold SkeinSpec.block. set (w := map le_word _).
  assert (Hw : length w = 8%nat) by (unfold w; by rewrite length_map, length_pieces).
  rewrite length_xor_bytes, Hw. unfold SkeinSpec.threefish.
  destruct (rounds_before G (T mod 2 ^ 64) (T / 2 ^ 64) 18 w Hw) as [E Hl].
  change (4 * 18)%nat with 72%nat in E. rewrite E. by rewrite length_add_words by done.
Qed.

#[local] Opaque SkeinSpec.block block_turn.

(** The upper word of a tweak. *)
Definition flags (ty : Z) (first final pad : bool) : Z :=
  Z.b2z pad * 2 ^ 55 + ty * 2 ^ 56 + Z.b2z first * 2 ^ 62 + Z.b2z final * 2 ^ 63.
Lemma tweak_words ty pos first final pad (T := SkeinSpec.tweak ty pos first final pad) :
  0 <= pos < 2 ^ 64 -> T mod 2 ^ 64 = pos /\ T / 2 ^ 64 = flags ty first final pad.
Proof.
  intros Hp. assert (E : T = pos + flags ty first final pad * 2 ^ 64).
  { unfold T, SkeinSpec.tweak, flags. lia. }
  rewrite E, Z.mod_add, Z.div_add, Z.mod_small, Z.div_small by lia. by rewrite Z.add_0_l.
Qed.

(** One block, in terms of tweaks. *)
Lemma block_turn_tweak add t0 x blk ty pos first final pad :
  length x = 8%nat -> u64 (t0 + add) = pos -> 0 <= pos < 2 ^ 64 ->
  block_turn add (t0, flags ty first final pad, x) blk =
  (pos, Z.land (flags ty first final pad) (not64 SKEIN_T1_FLAG_FIRST),
   SkeinSpec.block x (SkeinSpec.tweak ty pos first final pad) (take 64 blk)).
Proof.
  intros Hx H0 Hp. destruct (tweak_words ty pos first final pad Hp) as [E0 E1].
  rewrite (block_turn_eq _ _ _ _ _ (SkeinSpec.tweak ty pos first final pad) Hx).
  - by rewrite E0.
  - by rewrite E0.
  - by rewrite E1.
Qed.

Lemma not_first first : Z.land (flags 48 first false false) (not64 SKEIN_T1_FLAG_FIRST) = flags 48 false false false.
Proof. by destruct first. Qed.
Lemma flag_final first pad :
  Z.lor (flags 48 first false pad) SKEIN_T1_FLAG_FINAL = flags 48 first true pad.
Proof. by destruct first, pad. Qed.
Lemma flag_pad first : Z.lor (flags 48 first false false) SKEIN_T1_FLAG_BIT_PAD = flags 48 first false true.
Proof. by destruct first. Qed.

(** ** Streaming *)

Section Hashing.
Context (G : list Z) (N : Z).
Hypothesis G_length : length G = 8%nat.
Abbreviation chain := (fun m => SkeinSpec.chain G m 48).

Lemma skein_chain_length m k : length (chain m k) = 8%nat.
Proof. destruct k; [exact G_length | apply block_length]. Qed.

Lemma skein_chain_app m d k : (64 * k <= length m)%nat -> chain (m ++ d) k = chain m k.
Proof.
  induction k as [| k IH]; intros Hk; [done |]. cbn [SkeinSpec.chain].
  assert (Hb : take 64 (drop (64 * k) (m ++ d)) = take 64 (drop (64 * k) m))
    by (rewrite !take_drop_commute; by rewrite take_app_le by lia).
  rewrite IH, Hb by lia. reflexivity.
Qed.

(** Tweak and chaining variables after [k] blocks of [m]. *)
Definition after_blocks (m : list Z) (k : nat) : Z * Z * list Z :=
  (64 * Z.of_nat k, flags 48 (k =? 0)%nat false false, chain m k).

Lemma block_turn_next m k blk :
  (64 * S k <= length m)%nat -> Z.of_nat (length m) < 2 ^ 64 -> take 64 blk = take 64 (drop (64 * k) m) ->
  block_turn 64 (after_blocks m k) blk = after_blocks m (S k).
Proof.
  intros Hk Hm Hb. unfold after_blocks. cbn [SkeinSpec.chain Nat.eqb]. rewrite <- Hb.
  rewrite (block_turn_tweak _ _ _ _ _ (64 * Z.of_nat (S k))).
  - by rewrite not_first.
  - apply skein_chain_length.
  - rewrite u64_small; unfold word; lia.
  - lia.
Qed.

Lemma block_loop_next m n : forall k blk,
  (64 * (k + n) <= length m)%nat -> Z.of_nat (length m) < 2 ^ 64 -> blk = drop (64 * k) m ->
  block_loop n 64 (after_blocks m k) blk = after_blocks m (k + n).
Proof.
  induction n as [| n IH]; intros k blk Hk Hm Hb; cbn [block_loop]; [by rewrite Nat.add_0_r |].
  rewrite (block_turn_next m k blk) by (done || lia || by rewrite Hb).
  rewrite IH; [f_equal; lia | lia | done |]. rewrite Hb, drop_drop. f_equal. lia.
Qed.

(** The context's tweak and chaining variables. *)
Definition triple (ctx : Skein_512_Ctxt_t) : Z * Z * list Z := (ctx.(T0), ctx.(T1), ctx.(X)).
Lemma Process_Block_eq ctx blk n add :
  Skein_512_Process_Block ctx blk n add =
  let '(t0, t1, x) := block_loop n add (triple ctx) blk in set_X (set_tweak ctx t0 t1) x.
Proof. done. Qed.
Definition with_triple (ctx : Skein_512_Ctxt_t) (s : Z * Z * list Z) : Skein_512_Ctxt_t :=
  set_X (set_tweak ctx s.1.1 s.1.2) s.2.
Lemma Process_Block_triple ctx blk n add :
  Skein_512_Process_Block ctx blk n add = with_triple ctx (block_loop n add (triple ctx) blk).
Proof. rewrite Process_Block_eq. by destruct (block_loop _ _ _ _) as [[? ?] ?]. Qed.
Lemma triple_with ctx s : triple (with_triple ctx s) = s.
Proof. by destruct s as [[? ?] ?]. Qed.

(** The context stands for [m]: all blocks but the last, which may be full,
    have been processed. *)
Abbreviation before_last := (lazy_blocks 64).
Lemma before_last_spec n k :
  before_last n = k <-> (64 * k < n <= 64 * (k + 1))%nat \/ (n = 0 /\ k = 0)%nat.
Proof. apply lazy_blocks_spec. lia. Qed.

Definition skein_repr (ctx : Skein_512_Ctxt_t) (m : list Z) : Prop :=
  let k := before_last (length m) in
  triple ctx = after_blocks m k /\ ctx.(hashBitLen) = N /\ buffer 64 ctx.(b) /\
  ctx.(bCnt) = Z.of_nat (length m - 64 * k) /\ take (length m - 64 * k) ctx.(b) = drop (64 * k) m.

(** What is left after some blocks goes to the buffer. *)
Lemma tail_repr ctx D k (msg := drop (64 * k) D) :
  triple ctx = after_blocks D k -> ctx.(hashBitLen) = N -> buffer 64 ctx.(b) -> ctx.(bCnt) = 0 ->
  bytes D -> (64 * k < length D)%nat -> Z.of_nat (length D) < 2 ^ 64 ->
  exists ctx' msg', (if (64 <? length msg)%nat then
      (Skein_512_Process_Block ctx msg ((length msg - 1) / 64) 64, drop ((length msg - 1) / 64 * 64) msg)
    else (ctx, msg)) = (ctx', msg') /\ msg' <> [] /\ ctx'.(bCnt) = 0 /\
    skein_repr (set_b ctx' (Z.of_nat (length msg')) (write_at 0 msg' ctx'.(b))) D.
Proof.
  intros Ht HN Hb Hc HD Hk HL. set (K := before_last (length D)).
  assert (HK : (64 * K < length D <= 64 * (K + 1))%nat).
  { destruct (proj1 (before_last_spec (length D) K) eq_refl); lia. }
  assert (Hmsg : length msg = (length D - 64 * k)%nat) by apply length_drop.
  assert (Hlast : length (drop (64 * K) D) = (length D - 64 * K)%nat) by apply length_drop.
  assert (Hrepr : forall c, triple c = after_blocks D K -> hashBitLen c = N -> buffer 64 (b c) ->
    skein_repr (set_b c (Z.of_nat (length (drop (64 * K) D))) (write_at 0 (drop (64 * K) D) (b c))) D).
  { intros c Htc HNc Hbc. unfold skein_repr. fold K. cbn [set_b hashBitLen b bCnt].
    split; [exact Htc |]. split; [done |]. rewrite Hlast. split_and!; [| done |].
    - apply buffer_write_at; [done | by apply Forall_drop | lia].
    - rewrite (take_write_at' _ 0) by (destruct Hbc; lia). by rewrite take_0. }
  assert (Hne : drop (64 * K) D <> []) by (intros E; rewrite E in Hlast; cbn [length] in Hlast; lia).
  destruct (Nat.ltb_spec 64 (length msg)) as [Hlt | Hge].
  - assert (En : ((length msg - 1) / 64 = K - k)%nat).
    { symmetry. apply (Nat.div_unique _ _ _ (length D - 64 * K - 1)); lia. }
    rewrite En. rewrite Process_Block_triple, Ht, (block_loop_next D (K - k) k msg) by (done || lia).
    replace (k + (K - k))%nat with K by lia. unfold msg. rewrite drop_drop.
    replace (64 * k + (K - k) * 64)%nat with (64 * K)%nat by lia.
    eexists _, _. split; [reflexivity |]. split; [exact Hne |]. split; [exact Hc |].
    apply Hrepr; [apply triple_with | exact HN | exact Hb].
  - assert (E : K = k) by lia. unfold msg. rewrite <- E.
    eexists _, _. split; [reflexivity |]. split; [exact Hne |]. split; [exact Hc |].
    apply Hrepr; [by rewrite E | exact HN | exact Hb].
Qed.

Lemma skein_Update_repr ctx m d :
  skein_repr ctx m -> bytes m -> bytes d -> Z.of_nat (length (m ++ d)) < 2 ^ 64 ->
  exists ctx', Skein_512_Update ctx d = (0, ctx') /\ skein_repr ctx' (m ++ d).
Proof.
  intros Hr Hm Hd HL. pose proof Hr as (Ht & HN & Hb & Hc & Htake).
  set (k := before_last (length m)) in *. rewrite length_app in HL.
  assert (Hk : (64 * k < length m <= 64 * (k + 1))%nat \/ (length m = 0 /\ k = 0)%nat)
    by (by apply before_last_spec).
  set (c := (length m - 64 * k)%nat) in *. unfold Skein_512_Update. rewrite Hc.
  rewrite u64_small by (unfold word; lia).
  destruct (Z.ltb_spec 64 (Z.of_nat (length d) + Z.of_nat c)) as [Hlt | Hge].
  - (* everything from the position [k1] on is left *)
    assert (Htail : forall ctx1 k1, triple ctx1 = after_blocks (m ++ d) k1 -> hashBitLen ctx1 = N ->
      buffer 64 (b ctx1) -> bCnt ctx1 = 0 -> (64 * k1 < length (m ++ d))%nat ->
      exists ctx', (let '(ctx, msg) :=
        if (64 <? length (drop (64 * k1) (m ++ d)))%nat then
          (Skein_512_Process_Block ctx1 (drop (64 * k1) (m ++ d)) ((length (drop (64 * k1) (m ++ d)) - 1) / 64) 64,
           drop ((length (drop (64 * k1) (m ++ d)) - 1) / 64 * 64) (drop (64 * k1) (m ++ d)))
        else (ctx1, drop (64 * k1) (m ++ d)) in
        if (length msg =? 0)%nat then (0, ctx)
        else (0, set_b ctx (ctx.(bCnt) + Z.of_nat (length msg)) (write_at (Z.to_nat ctx.(bCnt)) msg ctx.(b))))
        = (0, ctx') /\ skein_repr ctx' (m ++ d)).
    { intros ctx1 k1 Ht1 HN1 Hb1 Hc1 Hk1.
      destruct (tail_repr ctx1 (m ++ d) k1 Ht1 HN1 Hb1 Hc1 ltac:(by apply bytes_app) Hk1) as (ctx' & msg' & -> & Hne & Hc' & Hrep);
        [rewrite length_app; lia |].
      destruct msg' as [| z msg']; [done |]. rewrite Hc'. eexists. split; [reflexivity |]. exact Hrep. }
    destruct (decide (c = 0%nat)) as [E | E].
    + assert (Em : m = []) by (destruct m; [done | cbn [length] in *; lia]).
      assert (Ek : k = 0%nat) by lia. rewrite E. change (Z.of_nat 0 =? 0) with true. cbv iota.
      specialize (Htail ctx 0%nat). rewrite Nat.mul_0_r, drop_0, Em in Htail. rewrite Em.
      apply Htail; [| done | done | by rewrite Hc, E | cbn [app] in *; lia].
      rewrite Ht, Ek, Em. reflexivity.
    + rewrite (proj2 (Z.eqb_neq _ _)) by lia.
      replace (Z.to_nat (64 - Z.of_nat c)) with (64 - c)%nat by lia.
      set (blk := take 64 (drop (64 * k) (m ++ d))).
      assert (Hblk : length blk = 64%nat) by (unfold blk; rewrite length_take, length_drop, length_app; lia).
      assert (Hw : write_at c (take (64 - c) d) (b ctx) = blk).
      { destruct Hb as [Hbl _]. rewrite write_at_full by (rewrite length_take; lia). rewrite Htake. unfold blk.
        rewrite drop_app_le by lia. rewrite take_app, (take_ge (drop _ _)) by (rewrite length_drop; lia).
        do 2 f_equal. rewrite length_drop. lia. }
      assert (Hdrop : drop (64 - c) d = drop (64 * (k + 1)) (m ++ d))
        by (rewrite drop_app_ge by lia; f_equal; lia).
      assert (Hfill : exists ctx0, (if (64 - c =? 0)%nat then (ctx, d)
          else (set_b ctx (bCnt ctx + Z.of_nat (64 - c)) (write_at (Z.to_nat (bCnt ctx)) (take (64 - c) d) (b ctx)),
                drop (64 - c) d)) = (ctx0, drop (64 * (k + 1)) (m ++ d)) /\
          b ctx0 = blk /\ triple ctx0 = triple ctx /\ hashBitLen ctx0 = N).
      { destruct (Nat.eqb_spec (64 - c) 0) as [E64 | _].
        - rewrite <- Hdrop, E64, drop_0. exists ctx. split_and!; try done.
          rewrite <- Hw, E64, take_0. unfold write_at. cbn [length app]. by rewrite Nat.add_0_r, take_drop.
        - rewrite Hdrop, Hc, Nat2Z.id, Hw. eexists. split; [reflexivity |]. done. }
      destruct Hfill as (ctx0 & EQ & Hb0 & Ht0 & HN0). rewrite Hc in EQ. rewrite EQ. clear EQ. cbv beta iota zeta.
      assert (Ea : after_blocks m k = after_blocks (m ++ d) k).
      { unfold after_blocks. rewrite skein_chain_app by lia. done. }
      assert (EP : Skein_512_Process_Block ctx0 (b ctx0) 1 64 = with_triple ctx0 (after_blocks (m ++ d) (k + 1))).
      { rewrite Process_Block_triple, Hb0, Ht0, Ht, Ea. cbn [block_loop].
        rewrite (block_turn_next (m ++ d) k blk); [by rewrite Nat.add_1_r | rewrite length_app; lia | rewrite length_app; lia |].
        unfold blk. by rewrite take_take. }
      rewrite EP. clear EP.
      apply (Htail _ (k + 1)%nat); [| exact HN0 | | done | rewrite length_app; lia].
      * apply triple_with.
      * cbn [set_b b with_triple set_X set_tweak]. rewrite Hb0. split; [done |]. unfold blk.
        apply Forall_take, Forall_drop. by apply bytes_app.
  - assert (EK : before_last (length (m ++ d)) = k) by (apply before_last_spec; rewrite length_app; lia).
    assert (Hx : triple ctx = after_blocks (m ++ d) k).
    { rewrite Ht. unfold after_blocks. rewrite skein_chain_app by lia. done. }
    destruct (Nat.eqb_spec (length d) 0) as [E | E].
    + destruct d; [| done]. rewrite app_nil_r. by exists ctx.
    + eexists. split; [reflexivity |]. unfold skein_repr. rewrite EK.
      cbn [set_b hashBitLen b bCnt]. rewrite length_app, Hc, Nat2Z.id.
      replace (length m + length d - 64 * k)%nat with (c + length d)%nat by lia.
      split; [exact Hx |]. split; [done |]. split_and!.
      * apply buffer_write_at; [done | done | lia].
      * lia.
      * rewrite (take_write_at' _ c) by (destruct Hb; lia). rewrite Htake, drop_app_le by lia. done.
Qed.

(** The message is complete, with or without bit padding. *)
Definition complete (ctx : Skein_512_Ctxt_t) (m : list Z) (pad : bool) : Prop :=
  let k := before_last (length m) in
  triple ctx = (64 * Z.of_nat k, flags 48 (k =? 0)%nat false pad, chain m k) /\
  ctx.(hashBitLen) = N /\ buffer 64 ctx.(b) /\ ctx.(bCnt) = Z.of_nat (length m - 64 * k) /\
  take (length m - 64 * k) ctx.(b) = drop (64 * k) m.

Lemma last_block_ubi ctx m pad :
  complete ctx m pad -> Z.of_nat (length m) < 2 ^ 64 ->
  let ctx := set_tweak ctx ctx.(T0) (Z.lor ctx.(T1) SKEIN_T1_FLAG_FINAL) in
  let ctx :=
    if ctx.(bCnt) <? 64 then
      set_b ctx ctx.(bCnt) (write_at (Z.to_nat ctx.(bCnt)) (replicate (Z.to_nat (64 - ctx.(bCnt))) 0) ctx.(b))
    else ctx in
  let ctx := Skein_512_Process_Block ctx ctx.(b) 1 ctx.(bCnt) in
  ctx.(X) = SkeinSpec.ubi G m 48 pad /\ ctx.(hashBitLen) = N.
Proof.
  intros (Ht & HN & Hb & Hc & Htake) HL. cbv zeta. set (k := before_last (length m)) in *.
  assert (Hk : (64 * k < length m <= 64 * (k + 1))%nat \/ (length m = 0 /\ k = 0)%nat)
    by (by apply before_last_spec).
  set (c := (length m - 64 * k)%nat) in *. unfold triple in Ht. injection Ht as E0 E1 EX.
  set (ctx1 := set_tweak ctx (T0 ctx) (Z.lor (T1 ctx) SKEIN_T1_FLAG_FINAL)).
  assert (Hpad : exists ctx2, (if bCnt ctx1 <? 64 then set_b ctx1 (bCnt ctx1)
      (write_at (Z.to_nat (bCnt ctx1)) (replicate (Z.to_nat (64 - bCnt ctx1)) 0) (b ctx1)) else ctx1) = ctx2 /\
      triple ctx2 = triple ctx1 /\ hashBitLen ctx2 = N /\ bCnt ctx2 = Z.of_nat c /\
      b ctx2 = drop (64 * k) m ++ replicate (64 - length (drop (64 * k) m)) 0).
  { change (bCnt ctx1) with (bCnt ctx). change (b ctx1) with (b ctx). rewrite Hc, length_drop. fold c.
    destruct Hb as [Hbl _]. destruct (Z.ltb_spec (Z.of_nat c) 64) as [Hlt | Hge].
    - eexists. split; [reflexivity |]. split_and!; try done. cbn [set_b b].
      rewrite Nat2Z.id. replace (Z.to_nat (64 - Z.of_nat c)) with (64 - c)%nat by lia.
      rewrite write_at_full by (rewrite length_replicate; lia). by rewrite Htake.
    - assert (Ec : c = 64%nat) by lia. exists ctx1. split_and!; try done.
      change (b ctx1) with (b ctx). rewrite <- Htake, Ec, app_nil_r, take_ge by lia. done. }
  destruct Hpad as (ctx2 & -> & Ht2 & HN2 & Hc2 & Hb2).
  rewrite Process_Block_triple, Ht2, Hc2, Hb2. unfold triple. cbn [ctx1 set_tweak T0 T1 X block_loop].
  rewrite E0, E1, EX, flag_final.
  rewrite (block_turn_tweak _ _ _ _ _ (Z.of_nat (length m))); [| apply skein_chain_length | | lia].
  - cbn [with_triple set_X X hashBitLen set_tweak]. split; [| exact HN2].
    rewrite take_ge; [reflexivity |]. rewrite length_app, length_replicate, length_drop. fold c. lia.
  - rewrite u64_small; unfold word; lia.
Qed.
End Hashing.

(** ** Output *)

Definition out_block (G : list Z) (i : nat) : list Z := put64 (SkeinSpec.ubi G (le_bytes 8 (Z.of_nat i)) 63 false).

Lemma length_put64 w : length w = 8%nat -> length (put64 w) = 64%nat.
Proof. intros H. unfold put64. by rewrite length_concat_le, H. Qed.
Lemma length_out_block G i : length (out_block G i) = 64%nat.
Proof. apply length_put64, block_length. Qed.

(** A buffer of zeroes but for the counter in its first eight bytes. *)
Definition counter_block (b : list Z) : Prop := length b = 64%nat /\ drop 8 b = replicate 56 0.

Lemma output_turn ctx x i :
  counter_block ctx.(b) -> ctx.(X) = x -> length x = 8%nat ->
  let ctx1 := set_b ctx ctx.(bCnt) (write_at 0 (le_bytes 8 (Z.of_nat i)) ctx.(b)) in
  let ctx2 := Skein_Start_New_Type ctx1 SKEIN_T1_BLK_TYPE_OUT_FINAL in
  let ctx3 := Skein_512_Process_Block ctx2 ctx2.(b) 1 8 in
  put64 ctx3.(X) = out_block x i /\ counter_block (set_X ctx3 x).(b).
Proof.
  intros [Hl Hd] HX Hx. cbv zeta. set (ctx1 := set_b _ _ _). set (ctx2 := Skein_Start_New_Type _ _).
  assert (Eb : b ctx2 = le_bytes 8 (Z.of_nat i) ++ replicate 56 0).
  { unfold ctx2, ctx1. cbn [Skein_Start_New_Type set_b set_tweak b]. unfold write_at.
    rewrite take_0, length_le_bytes, app_nil_l. change (0 + 8)%nat with 8%nat. by rewrite Hd. }
  rewrite Process_Block_triple, Eb. change (triple ctx2) with (0, flags 63 true true false, X ctx). rewrite HX.
  cbn [block_loop]. rewrite (block_turn_tweak _ _ _ _ _ 8 true true false Hx) by (done || lia).
  split.
  - cbn [with_triple set_X X]. unfold out_block, SkeinSpec.ubi. rewrite length_le_bytes.
    change ((8 - 1) / 64)%nat with 0%nat. rewrite Nat.mul_0_r, drop_0, length_le_bytes.
    rewrite take_ge by (rewrite length_app, length_le_bytes, length_replicate; lia). reflexivity.
  - cbn [with_triple set_X set_tweak b]. rewrite Eb. split.
    + by rewrite length_app, length_le_bytes, length_replicate.
    + rewrite drop_app_length' by (by rewrite length_le_bytes). done.
Qed.

Lemma output_loop_spec fuel : forall i n x ctx out,
  counter_block ctx.(b) -> ctx.(X) = x -> length x = 8%nat -> (n <= 64 * (i + fuel))%nat ->
  fst (output_loop fuel (Z.of_nat i) (Z.of_nat n) x ctx out) =
  out ++ take (n - 64 * i) (concat (map (out_block x) (seq i ((n - 64 * i + 63) / 64)))).
Proof.
  induction fuel as [| fuel IH]; intros i n x ctx out Hb HX Hx Hf; cbn [output_loop].
  - replace (n - 64 * i)%nat with 0%nat by lia. by rewrite take_0, app_nil_r.
  - destruct (Z.ltb_spec (Z.of_nat i * 64) (Z.of_nat n)) as [Hlt | Hge].
    2: { replace (n - 64 * i)%nat with 0%nat by lia. by rewrite take_0, app_nil_r. }
    destruct (output_turn ctx x i Hb HX Hx) as [E Hb']. rewrite E.
    replace (Z.of_nat i + 1) with (Z.of_nat (S i)) by lia.
    rewrite (IH (S i) n x _ _ Hb' eq_refl Hx ltac:(lia)). rewrite <- app_assoc. apply (f_equal (app out)).
    assert (Ec : ((n - 64 * i + 63) / 64 = S ((n - 64 * S i + 63) / 64))%nat).
    { destruct (decide (n - 64 * i < 64)%nat).
      - replace (n - 64 * S i)%nat with 0%nat by lia. change ((0 + 63) / 64)%nat with 0%nat.
        symmetry. apply (Nat.div_unique _ _ _ (n - 64 * i - 1)); lia.
      - replace (n - 64 * i + 63)%nat with (n - 64 * S i + 63 + 1 * 64)%nat by lia. rewrite Nat.div_add by lia. lia. }
    rewrite Ec. cbn [seq]. rewrite map_cons, concat_cons, take_app, length_out_block.
    replace (n - 64 * i - 64)%nat with (n - 64 * S i)%nat by lia. f_equal.
    destruct (Z.leb_spec 64 (Z.of_nat n - Z.of_nat i * 64)).
    + change (Z.to_nat 64) with 64%nat. rewrite !take_ge by (rewrite length_out_block; lia). done.
    + f_equal. lia.
Qed.

Lemma output_loop_output G N ctx n :
  counter_block ctx.(b) -> ctx.(X) = G -> length G = 8%nat -> 0 <= N -> n = (N + 7) / 8 ->
  fst (output_loop (S (Z.to_nat (n / 64))) 0 n ctx.(X) ctx []) = SkeinSpec.output G N.
Proof.
  intros Hb HX HG HN En. unfold SkeinSpec.output. rewrite <- En.
  assert (Hn : 0 <= n) by (subst n; apply Z.div_pos; lia). clear En.
  rewrite HX. rewrite <- (Z2Nat.id n Hn) at 1 2. change 0 with (Z.of_nat 0) at 1.
  rewrite output_loop_spec; [| done | done | done |].
  - by rewrite Nat.mul_0_r, Nat.sub_0_r, app_nil_l.
  - rewrite Z2Nat.id by done. rewrite Z2Nat.inj_div by lia. change (Z.to_nat 64) with 64%nat.
    pose proof (Nat.div_mod_eq (Z.to_nat n) 64). pose proof (Nat.mod_upper_bound (Z.to_nat n) 64 ltac:(lia)). lia.
Qed.

Lemma skein_Final_digest G N ctx m pad :
  length G = 8%nat -> 0 <= N < 2 ^ 63 -> complete G N ctx m pad -> Z.of_nat (length m) < 2 ^ 64 ->
  fst (Skein_512_Final ctx) = SkeinSpec.output (SkeinSpec.ubi G m 48 pad) N.
Proof.
  intros HG HN Hc HL. destruct (last_block_ubi G N HG ctx m pad Hc HL) as [HX HB].
  unfold Skein_512_Final. cbv zeta in HX, HB |- *. revert HX HB.
  match goal with |- context [Skein_512_Process_Block ?c ?d 1 ?n] =>
    generalize (Skein_512_Process_Block c d 1 n) end.
  intros c HX HB. rewrite HB. rewrite u64_small by (unfold word; lia). rewrite Z.shiftr_div_pow2 by lia.
  apply (output_loop_output _ N (set_b c (bCnt c) (replicate 64 0))); [done | exact HX | | lia | done].
  unfold SkeinSpec.ubi. apply block_length.
Qed.

(** ** The interface *)

(** The chaining value for an output of [N] bits. *)
Definition config_value (N : Z) : list Z := SkeinSpec.ubi (replicate 8 0) (SkeinSpec.config N) 4 false.
Lemma length_config_value N : length (config_value N) = 8%nat.
Proof. apply block_length. Qed.

#[local] Transparent SkeinSpec.block.
Lemma IV_256 : SKEIN_512_IV_256 = config_value 256.
Proof. vm_compute. reflexivity. Qed.
#[local] Opaque SkeinSpec.block.

Lemma start_repr N ctx G :
  ctx.(X) = G -> ctx.(hashBitLen) = N -> buffer 64 ctx.(b) ->
  skein_repr G N (Skein_Start_New_Type ctx SKEIN_T1_BLK_TYPE_MSG) [].
Proof. intros HX HN Hb. unfold skein_repr, triple, after_blocks. cbn [length]. rewrite <- HX. done. Qed.

Lemma skein_Init_repr ctx N :
  0 <= N < 2 ^ 64 -> buffer 64 ctx.(b) ->
  exists c, Skein_512_Init ctx N = (0, c) /\ skein_repr (config_value N) N c [].
Proof.
  intros HN Hb. unfold Skein_512_Init. eexists. split; [reflexivity |]. destruct (Z.eqb_spec N 256) as [-> | _].
  { apply start_repr; [apply IV_256 | done | done]. }
  set (cfg := put64 _).
  assert (Ecfg : cfg = SkeinSpec.config N ++ replicate 32 0).
  { unfold cfg, put64, SkeinSpec.config. rewrite map_app, concat_app, map_cons, concat_cons.
    rewrite map_cons, concat_cons, <- !app_assoc. reflexivity. }
  assert (Hlen : length (SkeinSpec.config N) = 32%nat).
  { unfold SkeinSpec.config. rewrite !length_app, length_le_bytes, length_replicate. done. }
  rewrite Process_Block_triple. set (c := set_X (Skein_Start_New_Type _ _) _).
  change (triple c) with (0, flags 4 true true false, replicate 8 0). cbn [block_loop].
  rewrite (block_turn_tweak _ _ _ _ _ 32 true true false) by done.
  apply start_repr; [| done | done]. cbn [with_triple set_X X snd].
  unfold config_value, SkeinSpec.ubi. rewrite Hlen. change ((32 - 1) / 64)%nat with 0%nat.
  rewrite Nat.mul_0_r, drop_0, Hlen, Ecfg, take_ge; [reflexivity |].
  rewrite length_app, Hlen, length_replicate. lia.
Qed.

Lemma repr_complete G N ctx m : skein_repr G N ctx m -> complete G N ctx m false.
Proof. intros (Ht & H). split; [exact Ht | exact H]. Qed.

Lemma pad_byte_facts :
  forallb (fun rem => forallb (fun x =>
    let mask := u8 (Z.shiftl 1 (7 - rem)) in
    (u8 (Z.lor (Z.land x (0 - mask)) mask) =? Z.lor (Z.land x (256 - 2 ^ (8 - rem))) (2 ^ (7 - rem)))
    && bool_decide (is_byte (u8 (Z.lor (Z.land x (0 - mask)) mask)))) (seqZ 0 256)) (seqZ 0 8) = true.
Proof. vm_compute. reflexivity. Qed.

Lemma pad_byte_eq x d rem :
  Z.land d 7 = rem -> 0 <= rem < 8 -> is_byte x ->
  pad_byte x d = Z.lor (Z.land x (256 - 2 ^ (8 - rem))) (2 ^ (7 - rem)) /\ is_byte (pad_byte x d).
Proof.
  intros Hd Hr Hb. unfold pad_byte. rewrite Hd. pose proof pad_byte_facts as H. rewrite forallb_forall in H.
  assert (Hr' : In rem (seqZ 0 8)) by (apply list_elem_of_In, elem_of_seqZ; lia).
  specialize (H rem Hr'). rewrite forallb_forall in H.
  assert (Hb' : In x (seqZ 0 256)) by (apply list_elem_of_In, elem_of_seqZ; unfold word in Hb; lia).
  specialize (H x Hb'). apply andb_true_iff in H as [H1%Z.eqb_eq H2%bool_decide_eq_true]. done.
Qed.

Lemma bit_count L rem :
  0 <= rem < 8 ->
  Z.land (8 * Z.of_nat L + rem) 7 = rem /\ Z.to_nat (Z.shiftr (8 * Z.of_nat L + rem) 3) = L.
Proof.
  intros Hr. split.
  - change 7 with (Z.ones 3). rewrite Z.land_ones by lia. change (2 ^ 3) with 8.
    rewrite Z.add_comm, Z.mul_comm, Z.mod_add, Z.mod_small by lia. done.
  - rewrite Z.shiftr_div_pow2 by lia. change (2 ^ 3) with 8.
    rewrite (Z.mul_comm 8), Z.div_add_l, (Z.div_small rem), Z.add_0_r by lia. apply Nat2Z.id.
Qed.

(** [Update] with [L] bytes and [rem] more bits. *)
Lemma skein_Update_complete G N st m data L rem :
  length G = 8%nat -> skein_repr G N st.(ctx_512) m -> bytes m -> bytes data ->
  (L + (if (rem =? 0)%Z then 0 else 1) <= length data)%nat -> 0 <= rem < 8 ->
  Z.of_nat (length m + L) < 2 ^ 64 - 1 ->
  exists st', Update st data (8 * Z.of_nat L + rem) = (0, st') /\
    if rem =? 0 then skein_repr G N st'.(ctx_512) (m ++ take L data)
    else complete G N st'.(ctx_512)
      (m ++ take L data ++ [Z.lor (Z.land data.[L] (256 - 2 ^ (8 - rem))) (2 ^ (7 - rem))]) true.
Proof.
  intros HG Hr Hm Hd HL Hrem Hlen. unfold Update. destruct (bit_count L rem Hrem) as [E7 E3].
  rewrite E7, E3.
  assert (HLd : (L <= length data)%nat) by (destruct (rem =? 0); lia).
  assert (Hlt : length (take L data) = L) by (rewrite length_take; lia).
  destruct (skein_Update_repr G N HG _ m (take L data) Hr Hm ltac:(by apply Forall_take)) as (c & Hu & Hc);
    [rewrite length_app, Hlt; lia |].
  rewrite Hu. destruct (Z.eqb_spec rem 0) as [-> | Hne].
  - eexists. split; [reflexivity |]. exact Hc.
  - destruct (pad_byte_eq data.[L] (8 * Z.of_nat L + rem) rem E7 Hrem (word_nth 8 data L ltac:(lia) Hd)) as [Ep Hp].
    destruct (skein_Update_repr G N HG c (m ++ take L data) [pad_byte data.[L] (8 * Z.of_nat L + rem)] Hc) as (c2 & Hu2 & Hc2).
    + apply bytes_app; [done | by apply Forall_take].
    + apply Forall_cons_2; [done | apply Forall_nil_2].
    + rewrite !length_app, Hlt. cbn [length]. lia.
    + rewrite Hu2. eexists. split; [reflexivity |]. cbn [ctx_512].
      rewrite Ep, <- app_assoc in Hc2. destruct Hc2 as (Ht & Hrest).
      split; [| exact Hrest]. unfold triple, after_blocks in Ht |- *. cbn [set_tweak T0 T1 X].
      injection Ht as -> -> ->. by rewrite flag_pad.
Qed.

(** Portions of whole bytes. *)
Definition feed (st : hashState) (portions : list (list Z)) : hashState :=
  fold_left (fun st d => snd (Update st d (8 * Z.of_nat (length d)))) portions st.

Lemma skein_feed_repr G N st m portions :
  length G = 8%nat -> skein_repr G N st.(ctx_512) m -> bytes m -> Forall (Forall is_byte) portions ->
  Z.of_nat (length (m ++ concat portions)) < 2 ^ 64 - 1 ->
  skein_repr G N (feed st portions).(ctx_512) (m ++ concat portions).
Proof.
  intros HG Hr Hm Hp. revert st m Hr Hm. unfold feed. induction Hp as [| d ds Hd _ IH]; intros st m Hr Hm HL.
  - by rewrite app_nil_r.
  - rewrite fold_left_one, concat_cons in *. rewrite app_assoc in HL |- *.
    destruct (skein_Update_complete G N st m d (length d) 0 HG Hr Hm Hd) as (st' & Hu & Hc);
      [cbn [Z.eqb]; lia | lia | rewrite !length_app in HL; lia |].
    rewrite Z.add_0_r in Hu. rewrite Hu. cbn [Z.eqb snd] in Hc |- *.
    rewrite take_ge in Hc by done. apply IH; [exact Hc | by apply bytes_app | exact HL].
Qed.

Lemma skein_digest st N portions data L rem :
  0 <= N < 2 ^ 31 -> buffer 64 st.(ctx_512).(b) -> Forall (Forall is_byte) portions -> bytes data ->
  (L + (if (rem =? 0)%Z then 0 else 1) <= length data)%nat -> 0 <= rem < 8 ->
  Z.of_nat (length (concat portions) + L) < 2 ^ 64 - 1 ->
  fst (Init st N) = 0 /\
  exists st', Update (feed (snd (Init st N)) portions) data (8 * Z.of_nat L + rem) = (0, st') /\
    fst (Final st') = SkeinSpec.hash_bits N (concat portions ++ take L data) rem data.[L].
Proof.
  intros HN Hb Hp Hd HL Hrem Hlen. unfold Init. rewrite u64_small by (unfold word; lia).
  destruct (skein_Init_repr (ctx_512 st) N ltac:(lia) Hb) as (c & -> & Hc). split; [done |]. cbn [snd].
  pose proof (length_config_value N) as HG.
  pose proof (skein_feed_repr _ N {| statebits := 64 * 8; ctx_512 := c |} [] portions HG Hc
    ltac:(apply Forall_nil_2) Hp ltac:(rewrite app_nil_l; lia)) as Hf.
  rewrite app_nil_l in Hf.
  assert (Hbp : bytes (concat portions)) by by apply Forall_concat.
  destruct (skein_Update_complete _ N _ _ data L rem HG Hf Hbp Hd HL Hrem Hlen) as (st' & Hu & Hcomp).
  exists st'. split; [exact Hu |].
  assert (HLd : (L <= length data)%nat) by (destruct (rem =? 0); lia).
  assert (EF : fst (Final st') = fst (Skein_512_Final (ctx_512 st'))) by (unfold Final; by destruct (Skein_512_Final _)).
  rewrite EF. unfold SkeinSpec.hash_bits, SkeinSpec.skein. fold (config_value N).
  destruct (Z.eqb_spec rem 0) as [-> | Hne].
  - apply (skein_Final_digest _ N _ _ false HG); [lia | by apply repr_complete |].
    rewrite length_app, length_take. lia.
  - rewrite <- app_assoc. apply (skein_Final_digest _ N _ _ true HG); [lia | exact Hcomp |].
    rewrite !length_app, length_take. cbn [length]. lia.
Qed.

Lemma xmr_skein_eq st data :
  buffer 64 st.(ctx_512).(b) -> bytes data ->
  xmr_skein st data = SkeinSpec.skein 256 (take 200 data) false.
Proof.
  intros Hb Hd. unfold xmr_skein. change (Z.to_nat (Z.shiftr 1600 3)) with 200%nat.
  match goal with |- context [Skein_512_Update ?c _] => set (c0 := c) end.
  assert (Hc : skein_repr (config_value 256) 256 c0 []) by (apply start_repr; [apply IV_256 | done | done]).
  destruct (skein_Update_repr _ 256 (length_config_value 256) c0 [] (take 200 data) Hc) as (c & -> & Hr);
    [apply Forall_nil_2 | by apply Forall_take | rewrite app_nil_l, length_take; lia |].
  rewrite app_nil_l in Hr. unfold SkeinSpec.skein. fold (config_value 256).
  apply (skein_Final_digest _ 256 _ _ false (length_config_value 256)); [lia | by apply repr_complete |].
  rewrite length_take. lia.
Qed.

(** C26: a block of the block function with its rotating registers is one UBI
    step: Threefish-512 in encryption mode with the chaining variables as key
    and the tweak [T], of which the code keeps the two words, xored with the
    block; then the "first" flag is cleared. *)
Theorem Process_Block_refines ctx blkPtr byteCntAdd T :
  length ctx.(X) = 8%nat -> u64 (ctx.(T0) + byteCntAdd) = T mod 2 ^ 64 -> ctx.(T1) = T / 2 ^ 64 ->
  Skein_512_Process_Block ctx blkPtr 1 byteCntAdd =
  set_X (set_tweak ctx (T mod 2 ^ 64) (Z.land ctx.(T1) (not64 SKEIN_T1_FLAG_FIRST)))
    (SkeinSpec.block ctx.(X) T (take 64 blkPtr)).
Proof.
  intros HX H0 H1. rewrite Process_Block_triple. unfold triple. cbn [block_loop].
  by rewrite (block_turn_eq _ _ _ _ _ T HX H0 H1).
Qed.

Definition some_ctx : Skein_512_Ctxt_t :=
  {| hashBitLen := 256; bCnt := 5; T0 := 64; T1 := SKEIN_T1_FLAG_FIRST; X := replicate 8 3; b := replicate 64 7 |}.
Definition some_state : hashState := {| statebits := 1; ctx_512 := some_ctx |}.

Lemma Process_Block_refines_witness :
  Skein_512_Process_Block some_ctx (replicate 64 9) 1 64 =
  set_X (set_tweak some_ctx (SkeinSpec.tweak 0 128 true false false mod 2 ^ 64)
    (Z.land some_ctx.(T1) (not64 SKEIN_T1_FLAG_FIRST)))
    (SkeinSpec.block some_ctx.(X) (SkeinSpec.tweak 0 128 true false false) (take 64 (replicate 64 9))).
Proof. apply (Process_Block_refines some_ctx (replicate 64 9) 64); by vm_compute. Defined.

(** C30: for an output of any number [N] of bits, [Init], [Update]s of whole
    bytes in any portions, one of any number of bits and [Final] compute
    Skein-512 of the concatenated bits (not even the precomputed IV makes a
    difference), and so do [skein_hash] and, for the first 200 bytes and 256
    bits, [xmr_skein]. *)
Theorem skein_portions st N portions data L rem :
  0 <= N < 2 ^ 31 -> buffer 64 st.(ctx_512).(b) -> Forall (Forall is_byte) portions -> bytes data ->
  (L + (if (rem =? 0)%Z then 0 else 1) <= length data)%nat -> 0 <= rem < 8 ->
  Z.of_nat (length (concat portions) + L) < 2 ^ 64 - 1 ->
  fst (Final (snd (Update (feed (snd (Init st N)) portions) data (8 * Z.of_nat L + rem))))
  = SkeinSpec.hash_bits N (concat portions ++ take L data) rem data.[L] /\
  skein_hash st N data (8 * Z.of_nat L + rem) = (0, SkeinSpec.hash_bits N (take L data) rem data.[L]) /\
  ((200 <= length data)%nat -> xmr_skein st data = SkeinSpec.skein 256 (take 200 data) false).
Proof.
  intros HN Hb Hp Hd HL Hrem Hlen. split_and!.
  - destruct (skein_digest st N portions data L rem HN Hb Hp Hd HL Hrem Hlen) as (_ & st' & Hu & Hf).
    by rewrite Hu.
  - destruct (skein_digest st N [] data L rem HN Hb (Forall_nil_2 _) Hd HL Hrem ltac:(cbn [concat length]; lia))
      as (Hi & st' & Hu & Hf).
    unfold skein_hash. destruct (Init st N) as [r s]. cbn [fst] in Hi. subst r. cbn [Z.eqb].
    cbn [feed fold_left snd] in Hu. rewrite Hu. by rewrite Hf.
  - intros _. by apply xmr_skein_eq.
Qed.

Lemma skein_portions_witness :
  fst (Final (snd (Update (feed (snd (Init some_state 384)) [[1; 2]; replicate 63 3]) (replicate 200 9) (8 * Z.of_nat 199 + 3))))
  = SkeinSpec.hash_bits 384 (concat [[1; 2]; replicate 63 3] ++ take 199 (replicate 200 9)) 3 (replicate 200 9).[199] /\
  skein_hash some_state 384 (replicate 200 9) (8 * Z.of_nat 199 + 3)
  = (0, SkeinSpec.hash_bits 384 (take 199 (replicate 200 9)) 3 (replicate 200 9).[199]) /\
  ((200 <= length (replicate 200 9))%nat -> xmr_skein some_state (replicate 200 9) = SkeinSpec.skein 256 (take 200 (replicate 200 9)) false).
Proof.
  apply (skein_portions some_state 384 [[1; 2]; replicate 63 3] (replicate 200 9) 199 3);
    [done | by apply (bool_decide_unpack _) | by apply (bool_decide_unpack _)
    | by apply (bool_decide_unpack _) | rewrite length_replicate; cbn [Z.eqb]; lia | done | done].
Defined.
