(* ===== verification/Variant4.v ===== *)
(** * CryptoNightR's random programs: [xmrig/crypto/cn/r/variant4_random_math.h]

    The generator that turns a block height into a program for nine registers
    and the interpreter that runs it in the main loop of CryptoNight.  The
    random bytes are BLAKE-256 of themselves ([hash_extra_blake] is
    [blake256_hash], CryptoNight_monero.h).  An access outside [data],
    [alu_busy] or [code] is [None]; the other arrays are read at masked
    indices.  The [int8_t] bytes of [data] are bytes here. *)

From S2P Require Import Prelude Endian Blake256.

(** ** The code: instructions *)

Definition TOTAL_LATENCY : Z := 15 * 3.
Definition NUM_INSTRUCTIONS_MIN : Z := 60.
Definition NUM_INSTRUCTIONS_MAX : Z := 70.
Definition ALU_COUNT_MUL : nat := 1.
Definition ALU_COUNT : nat := 3.

Definition MUL : Z := 0.
Definition ADD : Z := 1.
Definition SUB : Z := 2.
Definition ROR : Z := 3.
Definition ROL : Z := 4.
Definition XOR : Z := 5.
Definition RET : Z := 6.

Record V4_Instruction := { opcode : Z; dst_index : Z; src_index : Z; C : Z }.

(** ** The code: the interpreter *)

Section Interpreter.
(** [sizeof(v4_reg) * 8]. *)
Variable REG_BITS : Z.
Definition reg (x : Z) : Z := x mod 2 ^ REG_BITS.

(** [V4_EXEC] but for [RET]; other opcodes do not occur ([None]). *)
Definition V4_EXEC (op : V4_Instruction) (r : list Z) : option (list Z) :=
  let d := Z.to_nat op.(dst_index) in
  src ← r !! Z.to_nat op.(src_index);
  dst ← r !! d;
  let shift := u32 (src mod REG_BITS) in
  dst ← (if op.(opcode) =? MUL then Some (reg (dst * src))
    else if op.(opcode) =? ADD then Some (reg (dst + reg (src + op.(C))))
    else if op.(opcode) =? SUB then Some (reg (dst - src))
    else if op.(opcode) =? ROR then
      Some (Z.lor (Z.shiftr dst shift) (reg (Z.shiftl dst ((REG_BITS - shift) mod REG_BITS))))
    else if op.(opcode) =? ROL then
      Some (Z.lor (reg (Z.shiftl dst shift)) (Z.shiftr dst ((REG_BITS - shift) mod REG_BITS)))
    else if op.(opcode) =? XOR then Some (Z.lxor dst src)
    else None);
  Some (<[d := dst]> r).

(** The unrolled instructions [i], [i + 1], ... *)
Fixpoint v4_exec_from (n : nat) (i : nat) (code : list V4_Instruction) (r : list Z) : option (list Z) :=
  match n with
  | O => Some r
  | S n =>
      op ← code !! i;
      if op.(opcode) =? RET then Some r else
      r ← V4_EXEC op r;
      v4_exec_from n (S i) code r
  end.
Definition v4_random_math : list V4_Instruction -> list Z -> option (list Z) := v4_exec_from 70 0.
End Interpreter.

(** ** The code: the generator *)

Definition op_latency : list Z := [3; 2; 1; 2; 2; 1].
Definition asic_op_latency : list Z := [3; 1; 1; 1; 1; 1].
Definition op_ALUs : list nat := [ALU_COUNT_MUL; ALU_COUNT; ALU_COUNT; ALU_COUNT; ALU_COUNT; ALU_COUNT].
Definition is_rotation (opcode : Z) : bool := (opcode =? ROR) || (opcode =? ROL).

(** The random bytes, and the variables of the loop. *)
Record source := { data : list Z; data_index : Z }.
Record gen := {
  src : source; code : list V4_Instruction; code_size : Z; r8_used : bool;
  latency : list Z; asic_latency : list Z; inst_data : list Z; alu_busy : list (list bool);
  rotated : list bool; rotate_count : Z; num_retries : Z; total_iterations : Z
}.
Definition set_src (g : gen) (s : source) : gen :=
  {| src := s; code := g.(code); code_size := g.(code_size); r8_used := g.(r8_used);
     latency := g.(latency); asic_latency := g.(asic_latency); inst_data := g.(inst_data);
     alu_busy := g.(alu_busy); rotated := g.(rotated); rotate_count := g.(rotate_count);
     num_retries := g.(num_retries); total_iterations := g.(total_iterations) |}.
Definition set_iterations (g : gen) (n : Z) : gen :=
  {| src := g.(src); code := g.(code); code_size := g.(code_size); r8_used := g.(r8_used);
     latency := g.(latency); asic_latency := g.(asic_latency); inst_data := g.(inst_data);
     alu_busy := g.(alu_busy); rotated := g.(rotated); rotate_count := g.(rotate_count);
     num_retries := g.(num_retries); total_iterations := n |}.
Definition set_retries (g : gen) (n : Z) : gen :=
  {| src := g.(src); code := g.(code); code_size := g.(code_size); r8_used := g.(r8_used);
     latency := g.(latency); asic_latency := g.(asic_latency); inst_data := g.(inst_data);
     alu_busy := g.(alu_busy); rotated := g.(rotated); rotate_count := g.(rotate_count);
     num_retries := n; total_iterations := g.(total_iterations) |}.

Section Generator.
(** The uninitialised local variable of [blake256_hash]. *)
Variable S0 : state.

Definition check_data (s : source) (bytes_needed : Z) : source :=
  if Z.of_nat (length s.(data)) <? s.(data_index) + bytes_needed
  then {| data := write_at 0 (blake256_hash S0 s.(data)) s.(data); data_index := 0 |}
  else s.

(** [check_data(1); data[data_index++]]. *)
Definition next_byte (s : source) : option (Z * source) :=
  let s := check_data s 1 in
  c ← s.(data) !! Z.to_nat s.(data_index);
  Some (c, {| data := s.(data); data_index := s.(data_index) + 1 |}).
(** [check_data(4)] and the [memcpy] to [t]. *)
Definition next_word (s : source) : option (Z * source) :=
  let s := check_data s 4 in
  if Z.of_nat (length s.(data)) <? s.(data_index) + 4 then None else
  Some (le32dec (take 4 (drop (Z.to_nat s.(data_index)) s.(data))),
        {| data := s.(data); data_index := s.(data_index) + 4 |}).

Definition decode_opcode (c : Z) (s : source) : option (Z * source) :=
  let opcode := Z.land c (Z.shiftl 1 3 - 1) in
  if opcode =? 5 then
    '(sign, s) ← next_byte s; Some (if sign <? 128 then ROR else ROL, s)
  else Some ((if 6 <=? opcode then XOR else if opcode <=? 2 then MUL else opcode - 2), s).

Definition busy (alu_busy : list (list bool)) (cycle : Z) (i : nat) : option bool :=
  row ← alu_busy !! Z.to_nat cycle; row !! i.

(** [for (int i = op_ALUs[opcode] - 1; i >= 0; --i)]: [alu_index], if not -1. *)
Fixpoint find_alu (n : nat) (alu_busy : list (list bool)) (opcode next_latency rotate_count : Z) :
  option (option nat) :=
  match n with
  | O => Some None
  | S i =>
      b ← busy alu_busy next_latency i;
      if b : bool then find_alu i alu_busy opcode next_latency rotate_count else
      b ← (if opcode =? ADD then busy alu_busy (next_latency + 1) i else Some false);
      if b : bool then find_alu i alu_busy opcode next_latency rotate_count else
      if is_rotation opcode && (next_latency <? rotate_count * op_latency.[Z.to_nat opcode])
      then find_alu i alu_busy opcode next_latency rotate_count
      else Some (Some i)
  end.

(** [while (next_latency < TOTAL_LATENCY)]: [next_latency] and [alu_index]. *)
Fixpoint find_latency (fuel : nat) (alu_busy : list (list bool)) (opcode next_latency rotate_count : Z) :
  option (Z * option nat) :=
  match fuel with
  | O => None
  | S fuel =>
      if next_latency <? TOTAL_LATENCY then
        alu_index ← find_alu (nth (Z.to_nat opcode) op_ALUs O) alu_busy opcode next_latency rotate_count;
        match alu_index with
        | Some i => Some (next_latency, Some i)
        | None => find_latency fuel alu_busy opcode (next_latency + 1) rotate_count
        end
      else Some (next_latency, None)
  end.

Definition mark_busy (alu_busy : list (list bool)) (cycle : Z) (i : nat) : option (list (list bool)) :=
  row ← alu_busy !! Z.to_nat cycle;
  if (i <? length row)%nat then Some (<[Z.to_nat cycle := <[i := true]> row]> alu_busy) else None.

(** [code[i] = ...]. *)
Definition emit (code : list V4_Instruction) (i : Z) (op : V4_Instruction) : option (list V4_Instruction) :=
  if (i <? 0) || (Z.of_nat (length code) <=? i) then None else Some (<[Z.to_nat i := op]> code).

(** From "Find which ALU is available" to the end of the body: the next state
    and whether the loop is left. *)
Definition place (g : gen) (opcode dst_index src_index : Z) : option (gen * bool) :=
  let a := Z.to_nat dst_index in let b := Z.to_nat src_index in
  let next_latency := Z.max g.(latency).[a] g.(latency).[b] in
  '(next_latency, alu_index) ←
    find_latency 46 g.(alu_busy) opcode next_latency g.(rotate_count);
  if g.(latency).[a] + 7 <? next_latency then Some (g, false) else
  let op_lat := op_latency.[Z.to_nat opcode] in
  let next_latency := next_latency + op_lat in
  if TOTAL_LATENCY <? next_latency then Some (set_retries g (g.(num_retries) + 1), false) else
  alu_index ← alu_index;
  alu_busy ← mark_busy g.(alu_busy) (next_latency - op_lat) alu_index;
  alu_busy ← (if opcode =? ADD then mark_busy alu_busy (next_latency - op_lat + 1) alu_index else Some alu_busy);
  '(Cword, s) ← (if opcode =? ADD then next_word g.(src) else Some (0, g.(src)));
  code ← emit g.(code) g.(code_size)
    {| opcode := opcode; dst_index := dst_index; src_index := src_index; C := Cword |};
  Some ({| src := s; code := code; code_size := g.(code_size) + 1;
           r8_used := (src_index =? 8) || g.(r8_used);
           latency := <[a := next_latency]> g.(latency);
           asic_latency := <[a := Z.max g.(asic_latency).[a] g.(asic_latency).[b] +
             asic_op_latency.[Z.to_nat opcode]]> g.(asic_latency);
           inst_data := <[a := u32 (g.(code_size) + Z.shiftl opcode 8 +
             Z.shiftl (Z.land g.(inst_data).[b] 255) 16)]> g.(inst_data);
           alu_busy := alu_busy; rotated := <[a := is_rotation opcode]> g.(rotated);
           rotate_count := if is_rotation opcode then g.(rotate_count) + 1 else g.(rotate_count);
           num_retries := g.(num_retries); total_iterations := g.(total_iterations) |},
        NUM_INSTRUCTIONS_MIN <=? g.(code_size) + 1).

(** The body of the loop after the fail-safe. *)
Definition gen_body (g : gen) : option (gen * bool) :=
  '(c, s) ← next_byte g.(src);
  '(opcode, s) ← decode_opcode c s;
  let g := set_src g s in
  let dst_index := Z.land (Z.shiftr c 3) (Z.shiftl 1 2 - 1) in
  let src_index := Z.land (Z.shiftr c (3 + 2)) (Z.shiftl 1 3 - 1) in
  let src_index :=
    if ((opcode =? ADD) || (opcode =? SUB) || (opcode =? XOR)) && (dst_index =? src_index)
    then 8 else src_index in
  let a := Z.to_nat dst_index in let b := Z.to_nat src_index in
  if is_rotation opcode && nth a g.(rotated) false then Some (g, false) else
  if negb (opcode =? MUL) &&
     (Z.land g.(inst_data).[a] 0xFFFF00 =?
        Z.shiftl opcode 8 + Z.shiftl (Z.land g.(inst_data).[b] 255) 16)
  then Some (g, false) else place g opcode dst_index src_index.

Definition wants_more (g : gen) : bool :=
  existsb (fun i => g.(latency).[i] <? TOTAL_LATENCY) [0; 1; 2; 3]%nat && (g.(num_retries) <? 64).

Fixpoint gen_loop (fuel : nat) (g : gen) : option gen :=
  match fuel with
  | O => None
  | S fuel =>
      if wants_more g then
        let g := set_iterations g (g.(total_iterations) + 1) in
        if 256 <? g.(total_iterations) then Some g else
        '(g, leave) ← gen_body g;
        if leave : bool then Some g else gen_loop fuel g
      else Some g
  end.

(** [min_idx] and [max_idx]. *)
Definition min_max (asic_latency : list Z) : nat * nat :=
  fold_left (fun '(min_idx, max_idx) i =>
    ((if asic_latency.[i] <? asic_latency.[min_idx] then i else min_idx),
     (if asic_latency.[max_idx] <? asic_latency.[i] then i else max_idx))) (seq 1 3) (O, O).

(** The instructions added for the latency of an ASIC. *)
Fixpoint asic_loop (fuel : nat) (prev_code_size : Z) (g : gen) : option gen :=
  match fuel with
  | O => None
  | S fuel =>
      if (g.(code_size) <? NUM_INSTRUCTIONS_MAX) &&
         forallb (fun i => g.(asic_latency).[i] <? TOTAL_LATENCY) [0; 1; 2; 3]%nat then
        let '(min_idx, max_idx) := min_max g.(asic_latency) in
        let opcode := [ROR; MUL; MUL].[Z.to_nat ((g.(code_size) - prev_code_size) mod 3)] in
        code ← emit g.(code) g.(code_size)
          {| opcode := opcode; dst_index := Z.of_nat min_idx; src_index := Z.of_nat max_idx; C := 0 |};
        asic_loop fuel prev_code_size
          {| src := g.(src); code := code; code_size := g.(code_size) + 1; r8_used := g.(r8_used);
             latency := <[min_idx := g.(latency).[max_idx] + op_latency.[Z.to_nat opcode]]> g.(latency);
             asic_latency := <[min_idx := g.(asic_latency).[max_idx] + asic_op_latency.[Z.to_nat opcode]]>
               g.(asic_latency);
             inst_data := g.(inst_data); alu_busy := g.(alu_busy); rotated := g.(rotated);
             rotate_count := g.(rotate_count); num_retries := g.(num_retries);
             total_iterations := g.(total_iterations) |}
      else Some g
  end.

Definition start (s : source) (code : list V4_Instruction) : gen :=
  {| src := s; code := code; code_size := 0; r8_used := false;
     latency := replicate 9 0; asic_latency := replicate 9 0;
     inst_data := [0; 1; 2; 3; 0xFFFFFF; 0xFFFFFF; 0xFFFFFF; 0xFFFFFF; 0xFFFFFF];
     alu_busy := replicate (Z.to_nat (TOTAL_LATENCY + 1)) (replicate ALU_COUNT false);
     rotated := replicate 4 false; rotate_count := 0; num_retries := 0; total_iterations := 0 |}.

(** One turn of the [do] loop. *)
Definition attempt (s : source) (code : list V4_Instruction) : option gen :=
  g ← gen_loop 258 (start s code);
  asic_loop 71 g.(code_size) g.

(** The [do] loop, with a bound on its turns: [None] is an access outside an
    array, [Some None] that more turns are needed. *)
Fixpoint attempts (turns : nat) (s : source) (code_ : list V4_Instruction) : option (option gen) :=
  match turns with
  | O => Some None
  | S turns =>
      g ← attempt s code_;
      if negb g.(r8_used) || (g.(code_size) <? NUM_INSTRUCTIONS_MIN) || (NUM_INSTRUCTIONS_MAX <? g.(code_size))
      then attempts turns g.(src) g.(code) else Some (Some g)
  end.

(** The size of the program and [code]; [cn_r] is [ALGO == CN_R]. *)
Definition v4_random_math_init (turns : nat) (cn_r : bool) (code_ : list V4_Instruction) (height : Z) :
  option (option (Z * list V4_Instruction)) :=
  let data := write_at 0 (le_bytes 8 height) (replicate 32 0) in
  let data := if cn_r then <[20%nat := u8 (-38)]> data else data in
  g ← attempts turns {| data := data; data_index := 32 |} code_;
  match g with
  | None => Some None
  | Some g =>
      code ← emit g.(code) g.(code_size) {| opcode := RET; dst_index := 0; src_index := 0; C := 0 |};
      Some (Some (g.(code_size), code))
  end.
End Generator.

(** ** Types: instructions and programs *)

Definition instr_ok (op : V4_Instruction) : Prop :=
  0 <= op.(opcode) < RET /\ 0 <= op.(dst_index) < 4 /\ 0 <= op.(src_index) < 9 /\ word 32 op.(C) /\
  (op.(opcode) <> ADD -> op.(C) = 0) /\
  (op.(opcode) = ADD \/ op.(opcode) = SUB \/ op.(opcode) = XOR -> op.(dst_index) <> op.(src_index)).
Definition ret_op : V4_Instruction := {| opcode := RET; dst_index := 0; src_index := 0; C := 0 |}.

#[global] Instance instr_ok_dec op : Decision (instr_ok op).
Proof. unfold instr_ok. apply _. Defined.

(** A program of [size] instructions and a final [RET] at the start of [code]. *)
Definition program_ok (size : Z) (code : list V4_Instruction) : Prop :=
  NUM_INSTRUCTIONS_MIN <= size <= NUM_INSTRUCTIONS_MAX /\
  Forall instr_ok (take (Z.to_nat size) code) /\
  List.Exists (fun op => op.(src_index) = 8) (take (Z.to_nat size) code) /\
  code !! Z.to_nat size = Some ret_op.

Definition source_ok (s : source) : Prop :=
  buffer 32 s.(data) /\ 0 <= s.(data_index) <= 32.

Section Invariant.
Variable S0 : state.
Hypothesis S0_buf : buffer 64 (buf S0).
(** The array [code] as it was. *)
Variable code_ : list V4_Instruction.
Hypothesis code_space : (71 <= length code_)%nat.

Lemma check_data_ok s n : source_ok s -> 0 <= n <= 32 ->
  source_ok (check_data S0 s n) /\ data_index (check_data S0 s n) + n <= 32.
Proof.
  intros [[Hl Hb] Hi] Hn. unfold check_data. rewrite Hl.
  destruct (Z.ltb_spec (Z.of_nat 32) (data_index s + n)); [| by repeat split; try done; lia].
  cbn [data data_index]. split; [| lia]. split; [| cbn; lia]. cbn [data].
  rewrite blake256_hash_eq by (done || by unfold short_portion; rewrite Hl).
  assert (Hlen : length (Blake.blake256 (data s)) = 32%nat) by by apply hash_length.
  apply buffer_write_at; [done | apply hash_bytes | rewrite Hlen; lia].
Qed.

Lemma next_byte_ok s : source_ok s ->
  exists c s', next_byte S0 s = Some (c, s') /\ is_byte c /\ source_ok s'.
Proof.
  intros Hs. unfold next_byte. destruct (check_data_ok s 1 Hs ltac:(lia)) as [[[Hl Hb] Hi] Hn].
  set (s1 := check_data S0 s 1) in *.
  rewrite lookup_nth_Z by (rewrite Hl; lia). cbn [mbind option_bind].
  eexists _, _. split; [reflexivity |]. split; [by apply word_nth; [lia |] |]. split; [done | cbn; lia].
Qed.

Lemma next_word_ok s : source_ok s ->
  exists c s', next_word S0 s = Some (c, s') /\ word 32 c /\ source_ok s'.
Proof.
  intros Hs. unfold next_word. destruct (check_data_ok s 4 Hs ltac:(lia)) as [[[Hl Hb] Hi] Hn].
  set (s1 := check_data S0 s 4) in *. rewrite Hl, (proj2 (Z.ltb_ge _ _)) by lia.
  eexists _, _. split; [reflexivity |]. split; [apply le32dec_word |]. split; [done | cbn; lia].
Qed.

Lemma decode_opcode_ok c s : source_ok s ->
  exists op s', decode_opcode S0 c s = Some (op, s') /\ 0 <= op < RET /\ source_ok s'.
Proof.
  intros Hs. unfold decode_opcode.
  assert (Hc : 0 <= Z.land c 7 < 8).
  { change 7 with (Z.ones 3). rewrite Z.land_ones by lia. by apply Z.mod_pos_bound. }
  change (Z.shiftl 1 3 - 1) with 7. destruct (Z.eqb_spec (Z.land c 7) 5).
  - destruct (next_byte_ok s Hs) as (sign & s' & -> & _ & Hs'). cbn [mbind option_bind].
    eexists _, _. split; [reflexivity |]. split; [| done]. destruct (sign <? 128); unfold ROR, ROL, RET; lia.
  - eexists _, _. split; [reflexivity |]. split; [| done]. unfold XOR, MUL, RET.
    destruct (Z.leb_spec 6 (Z.land c 7)); [lia |]. destruct (Z.leb_spec (Z.land c 7) 2); lia.
Qed.

(** [alu_busy] has the dimensions of the array. *)
Definition alus_ok (alu_busy : list (list bool)) : Prop :=
  length alu_busy = 46%nat /\ Forall (fun row => length row = 3%nat) alu_busy.

Lemma alus_row alu_busy cycle : alus_ok alu_busy -> 0 <= cycle < 46 ->
  exists row, alu_busy !! Z.to_nat cycle = Some row /\ length row = 3%nat.
Proof.
  intros [Hl Hf] Hc. destruct (lookup_lt_is_Some_2 alu_busy (Z.to_nat cycle)) as [row Hrow]; [lia |].
  exists row. split; [done |]. by apply (Forall_lookup_1 _ _ _ _ Hf Hrow).
Qed.

Lemma busy_ok alu_busy cycle i : alus_ok alu_busy -> 0 <= cycle < 46 -> (i < 3)%nat ->
  exists b, busy alu_busy cycle i = Some b.
Proof.
  intros Ha Hc Hi. unfold busy. destruct (alus_row alu_busy cycle Ha Hc) as (row & -> & Hr).
  cbn [mbind option_bind]. apply lookup_lt_is_Some_2. lia.
Qed.

Lemma mark_busy_ok alu_busy cycle i : alus_ok alu_busy -> 0 <= cycle < 46 -> (i < 3)%nat ->
  exists a', mark_busy alu_busy cycle i = Some a' /\ alus_ok a'.
Proof.
  intros Ha Hc Hi. unfold mark_busy. destruct (alus_row alu_busy cycle Ha Hc) as (row & -> & Hr).
  cbn [mbind option_bind]. rewrite (proj2 (Nat.ltb_lt _ _)) by lia. eexists. split; [reflexivity |].
  destruct Ha as [Hl Hf]. split; [by rewrite length_insert |]. apply Forall_insert; [done | by rewrite length_insert].
Qed.

Lemma find_alu_ok n alu_busy op cycle rc : alus_ok alu_busy -> 0 <= cycle < 45 -> (n <= 3)%nat ->
  exists i, find_alu n alu_busy op cycle rc = Some i /\ (forall j, i = Some j -> (j < 3)%nat).
Proof.
  intros Ha Hc. induction n as [| n IH]; intros Hn; cbn [find_alu]; [by exists None |].
  destruct (IH ltac:(lia)) as (i & Hi & Hlt).
  destruct (busy_ok alu_busy cycle n Ha ltac:(lia) ltac:(lia)) as [b ->]. cbn [mbind option_bind].
  destruct b; [by exists i |].
  destruct (busy_ok alu_busy (cycle + 1) n Ha ltac:(lia) ltac:(lia)) as [b' Hb'].
  destruct (op =? ADD); rewrite ?Hb'; cbn [mbind option_bind].
  - destruct b'; [by exists i |]. destruct (_ && _); [by exists i |]. exists (Some n). split; [done |].
    intros j [= <-]. lia.
  - destruct (_ && _); [by exists i |]. exists (Some n). split; [done |]. intros j [= <-]. lia.
Qed.

Lemma find_latency_ok fuel alu_busy op cycle rc : alus_ok alu_busy -> 0 <= op < RET ->
  0 <= cycle <= 45 -> (Z.to_nat (45 - cycle) < fuel)%nat ->
  exists n i, find_latency fuel alu_busy op cycle rc = Some (n, i) /\ cycle <= n <= 45 /\
    (forall j, i = Some j -> (j < 3)%nat /\ n < 45) /\ (i = None -> n = 45).
Proof.
  intros Ha Ho. revert cycle. induction fuel as [| fuel IH]; intros cycle Hc Hf; [lia |]. cbn [find_latency].
  change TOTAL_LATENCY with 45. destruct (Z.ltb_spec cycle 45) as [Hlt | Hge].
  - assert (Hn : (nth (Z.to_nat op) op_ALUs O <= 3)%nat).
    { unfold RET in Ho. assert (op = 0 \/ op = 1 \/ op = 2 \/ op = 3 \/ op = 4 \/ op = 5) as Hops by lia.
      by destruct Hops as [-> | [-> | [-> | [-> | [-> | ->]]]]]; apply Nat.leb_le. }
    destruct (find_alu_ok _ alu_busy op cycle rc Ha ltac:(lia) Hn) as (i & -> & Hi). cbn [mbind option_bind].
    destruct i as [j |].
    + exists cycle, (Some j). split; [done |]. split; [lia |]. split; [| done]. intros j' [= <-]. auto.
    + destruct (IH (cycle + 1) ltac:(lia) ltac:(lia)) as (n & i & -> & Hr & Hi1 & Hi2). exists n, i.
      split; [done |]. split; [lia |]. by split.
  - exists cycle, None. split; [done |]. split; [lia |]. split; [done | lia].
Qed.

(** The state of the loops: the instructions so far are typed and the use of
    register 8 is recorded; the rest of [code] is as it was. *)
Record gen_ok (g : gen) : Prop := {
  ok_src : source_ok g.(src);
  ok_size : 0 <= g.(code_size) <= 70;
  ok_length : length g.(code) = length code_;
  ok_instrs : Forall instr_ok (take (Z.to_nat g.(code_size)) g.(code));
  ok_r8 : g.(r8_used) = true -> List.Exists (fun op => op.(src_index) = 8) (take (Z.to_nat g.(code_size)) g.(code));
  ok_rest : drop 71 g.(code) = drop 71 code_;
  ok_latency : length g.(latency) = 9%nat;
  ok_alus : alus_ok g.(alu_busy)
}.
(** In the first loop no register has more than the total latency. *)
Definition latency_ok (g : gen) : Prop := Forall (fun x => 0 <= x <= 45) g.(latency).

Lemma emit_ok g op : gen_ok g -> g.(code_size) < 70 -> instr_ok op ->
  exists code', emit g.(code) g.(code_size) op = Some code' /\
    length code' = length code_ /\ drop 71 code' = drop 71 code_ /\
    take (Z.to_nat (g.(code_size) + 1)) code' = take (Z.to_nat g.(code_size)) g.(code) ++ [op].
Proof.
  intros [] Hs Hop. unfold emit.
  rewrite (proj2 (Z.ltb_ge _ _)), (proj2 (Z.leb_gt _ _)) by (rewrite ?ok_length0; lia). cbn [orb].
  eexists. split; [reflexivity |]. rewrite length_insert. split; [done |].
  rewrite drop_insert_lt by lia. split; [done |].
  replace (Z.to_nat (code_size g + 1)) with (S (Z.to_nat (code_size g))) by lia.
  rewrite (take_S_r _ _ op) by (apply list_lookup_insert_eq; lia). by rewrite take_insert_ge by lia.
Qed.

Lemma instrs_snoc n (code code' : list V4_Instruction) op n' :
  take n' code' = take n code ++ [op] -> instr_ok op ->
  Forall instr_ok (take n code) -> Forall instr_ok (take n' code').
Proof. intros -> Hop Hf. apply Forall_app_2; [done | by constructor]. Qed.

Lemma r8_snoc n (code code' : list V4_Instruction) op n' (used : bool) :
  take n' code' = take n code ++ [op] ->
  (used = true -> List.Exists (fun op => op.(src_index) = 8) (take n code)) ->
  (op.(src_index) =? 8) || used = true -> List.Exists (fun op => op.(src_index) = 8) (take n' code').
Proof.
  intros -> Hu [H%Z.eqb_eq | H]%orb_true_iff; apply List.Exists_app; [right; by constructor | auto].
Qed.

Lemma emitted_ok (g g' : gen) op :
  gen_ok g -> instr_ok op -> source_ok g'.(src) -> g'.(code_size) = g.(code_size) + 1 -> g.(code_size) < 70 ->
  length g'.(code) = length code_ -> drop 71 g'.(code) = drop 71 code_ ->
  take (Z.to_nat (g.(code_size) + 1)) g'.(code) = take (Z.to_nat g.(code_size)) g.(code) ++ [op] ->
  (g'.(r8_used) = true -> (op.(src_index) =? 8) || g.(r8_used) = true) ->
  length g'.(latency) = 9%nat -> alus_ok g'.(alu_busy) -> gen_ok g'.
Proof.
  intros [] Hop Hs Hsize Hlt Hl Hd Ht Hr Hlat Ha. constructor; try done.
  - lia.
  - rewrite Hsize. eapply instrs_snoc; done.
  - rewrite Hsize. intros H. eapply r8_snoc; [done | done | by apply Hr].
Qed.

Lemma op_latency_bound op : 0 <= op < RET -> 1 <= op_latency.[Z.to_nat op] <= 3.
Proof.
  unfold RET. intros Ho. assert (op = 0 \/ op = 1 \/ op = 2 \/ op = 3 \/ op = 4 \/ op = 5) as Hops by lia.
  by destruct Hops as [-> | [-> | [-> | [-> | [-> | ->]]]]]; apply (bool_decide_unpack _).
Qed.

Lemma latency_nth g i : latency_ok g -> 0 <= g.(latency).[i] <= 45.
Proof.
  intros Hl. destruct (Nat.lt_ge_cases i (length (latency g))) as [H | H].
  - apply (Forall_lookup_1 _ _ i _ Hl). by apply lookup_nth_Z.
  - rewrite nth_overflow by done. lia.
Qed.

(** The body ends without an instruction. *)
Ltac no_instruction g :=
  exists g, false; split; [reflexivity |]; split; [by constructor |]; split; [done |];
  split; [reflexivity |]; split; [cbn; lia | cbn; lia].

(** [place] never leaves an array, and places at most one instruction. *)
Lemma place_ok g op dst sr :
  gen_ok g -> latency_ok g -> g.(code_size) < 60 ->
  0 <= op < RET -> 0 <= dst < 4 -> 0 <= sr < 9 -> (op = ADD \/ op = SUB \/ op = XOR -> dst <> sr) ->
  exists g' leave, place S0 g op dst sr = Some (g', leave) /\ gen_ok g' /\ latency_ok g' /\
    g'.(total_iterations) = g.(total_iterations) /\ g'.(code_size) <= 60 /\
    (leave = false -> g'.(code_size) < 60).
Proof.
  intros Hg Hlat Hsz Ho Hd Hs Hne. unfold place. cbv zeta. pose proof Hg as [].
  pose proof (latency_nth g (Z.to_nat dst) Hlat) as Ha. pose proof (latency_nth g (Z.to_nat sr) Hlat) as Hb.
  pose proof (op_latency_bound op Ho) as Hop. set (ol := op_latency.[Z.to_nat op]) in *.
  destruct (find_latency_ok 46 (alu_busy g) op (Z.max (latency g).[Z.to_nat dst] (latency g).[Z.to_nat sr])
    (rotate_count g) ok_alus0 Ho ltac:(lia) ltac:(lia)) as (n & i & -> & Hn & Hi & Hnone). next.
  destruct (Z.ltb_spec ((latency g).[Z.to_nat dst] + 7) n); [no_instruction g |].
  change TOTAL_LATENCY with 45. destruct (Z.ltb_spec 45 (n + ol)) as [Hgt | Hle].
  { no_instruction (set_retries g (num_retries g + 1)). }
  destruct i as [i |]; [| specialize (Hnone eq_refl); lia]. next.
  destruct (Hi i eq_refl) as [Hi3 Hn45]. replace (n + ol - ol) with n by lia.
  destruct (mark_busy_ok (alu_busy g) n i ok_alus0 ltac:(lia) Hi3) as (a1 & -> & Ha1). next.
  assert (Hbusy : exists a2, (if op =? ADD then mark_busy a1 (n + 1) i else Some a1) = Some a2 /\ alus_ok a2).
  { destruct (op =? ADD); [apply mark_busy_ok; (done || lia) | by exists a1]. }
  destruct Hbusy as (a2 & -> & Ha2). next.
  assert (Hword : exists w s', (if op =? ADD then next_word S0 (src g) else Some (0, src g)) = Some (w, s') /\
    word 32 w /\ source_ok s' /\ (op <> ADD -> w = 0)).
  { destruct (Z.eqb_spec op ADD) as [-> | Hadd].
    - destruct (next_word_ok (src g) ok_src0) as (w & s' & -> & Hw & Hs'). by exists w, s'.
    - by exists 0, (src g). }
  destruct Hword as (w & s' & -> & Hw & Hs' & Hw0). next.
  set (ins := {| opcode := op; dst_index := dst; src_index := sr; C := w |}).
  assert (Hins : instr_ok ins) by (unfold instr_ok; cbn; tauto).
  destruct (emit_ok g ins Hg ltac:(lia) Hins) as (code' & Hemit & Hl' & Hd' & Ht'). rewrite Hemit. next.
  eexists _, _. split; [reflexivity |]. split.
  { eapply (emitted_ok g _ ins); try done; cbn; [lia | by rewrite length_insert]. }
  split; [unfold latency_ok; cbn [latency]; apply Forall_insert; [done | cbv beta; lia] |].
  split; [reflexivity |]. cbn [code_size]. split; [lia |].
  unfold NUM_INSTRUCTIONS_MIN. intros Hleave%Z.leb_gt. lia.
Qed.

Lemma gen_body_ok g :
  gen_ok g -> latency_ok g -> g.(code_size) < 60 ->
  exists g' leave, gen_body S0 g = Some (g', leave) /\ gen_ok g' /\ latency_ok g' /\
    g'.(total_iterations) = g.(total_iterations) /\ g'.(code_size) <= 60 /\
    (leave = false -> g'.(code_size) < 60).
Proof.
  intros Hg Hlat Hsz. unfold gen_body. cbv zeta. pose proof Hg as [].
  destruct (next_byte_ok (src g) ok_src0) as (c & s1 & -> & Hc & Hs1). next.
  destruct (decode_opcode_ok c s1 Hs1) as (op & s2 & -> & Ho & Hs2). next.
  assert (Hg2 : gen_ok (set_src g s2)) by by constructor.
  assert (Hmask : forall n x, 0 <= n -> 0 <= Z.land x (Z.shiftl 1 n - 1) < 2 ^ n).
  { intros n x Hn. replace (Z.shiftl 1 n - 1) with (Z.ones n)
      by (rewrite Z.ones_equiv, Z.shiftl_mul_pow2 by lia; lia).
    rewrite Z.land_ones by lia. apply Z.mod_pos_bound. lia. }
  pose proof (Hmask 2 (Z.shiftr c 3) ltac:(lia)) as Hd. pose proof (Hmask 3 (Z.shiftr c (3 + 2)) ltac:(lia)) as Hs.
  set (dst := Z.land (Z.shiftr c 3) _) in *. set (sr0 := Z.land (Z.shiftr c (3 + 2)) _) in *.
  set (sr := if _ : bool then 8 else sr0).
  assert (Hsr : 0 <= sr < 9 /\ (op = ADD \/ op = SUB \/ op = XOR -> dst <> sr)).
  { unfold sr. destruct ((op =? ADD) || (op =? SUB) || (op =? XOR)) eqn:Hk; cbn [andb].
    - destruct (Z.eqb_spec dst sr0); split; (lia || (intros _; lia)).
    - split; [lia |]. intros Hop. rewrite !orb_false_iff, !Z.eqb_neq in Hk. tauto. }
  destruct Hsr as [Hsr Hne]. clearbody sr dst.
  destruct (_ && nth _ _ _); [no_instruction (set_src g s2) |].
  destruct (_ && _); [no_instruction (set_src g s2) |].
  by apply (place_ok (set_src g s2)).
Qed.

Lemma gen_loop_ok fuel g :
  gen_ok g -> latency_ok g -> g.(code_size) < 60 -> 0 <= g.(total_iterations) <= 256 ->
  (Z.to_nat (257 - g.(total_iterations)) < fuel)%nat ->
  exists g', gen_loop S0 fuel g = Some g' /\ gen_ok g' /\ g'.(code_size) <= 60.
Proof.
  revert g. induction fuel as [| fuel IH]; intros g Hg Hlat Hsz Hit Hf; [lia |]. cbn [gen_loop].
  destruct (wants_more g); [| exists g; split; [done |]; split; [done | lia]].
  set (g1 := set_iterations g (total_iterations g + 1)).
  assert (Hg1 : gen_ok g1) by by destruct Hg; constructor.
  change (total_iterations g1) with (total_iterations g + 1).
  destruct (Z.ltb_spec 256 (total_iterations g + 1)) as [Hgt | Hle].
  { exists g1. split; [done |]. split; [done |]. cbn. lia. }
  destruct (gen_body_ok g1 Hg1 Hlat Hsz) as (g2 & leave & -> & Hg2 & Hlat2 & Hit2 & Hle2 & Hlt2). next.
  destruct leave; [by exists g2 |]. apply IH; try done; rewrite ?Hit2; [by apply Hlt2 | cbn; lia | cbn; lia].
Qed.

Lemma min_max_bound l : (fst (min_max l) < 4)%nat /\ (snd (min_max l) < 4)%nat.
Proof.
  unfold min_max. cbn [seq fold_left]. repeat (destruct (_ <? _); cbn [fst snd]); lia.
Qed.

Lemma asic_loop_ok fuel prev g :
  gen_ok g -> prev <= g.(code_size) -> (Z.to_nat (70 - g.(code_size)) < fuel)%nat ->
  exists g', asic_loop fuel prev g = Some g' /\ gen_ok g'.
Proof.
  revert g. induction fuel as [| fuel IH]; intros g Hg Hp Hf; [lia |]. cbn [asic_loop].
  change NUM_INSTRUCTIONS_MAX with 70. pose proof Hg as [].
  destruct (Z.ltb_spec (code_size g) 70) as [Hlt | Hge]; cbn [andb]; [| by exists g].
  destruct (forallb _ _); [| by exists g].
  destruct (min_max (asic_latency g)) as [mn mx] eqn:Hmm.
  pose proof (min_max_bound (asic_latency g)) as [Hmn Hmx]. rewrite Hmm in Hmn, Hmx. cbn [fst snd] in Hmn, Hmx.
  set (op := [ROR; MUL; MUL].[_]).
  assert (Hop : op = ROR \/ op = MUL).
  { unfold op. pose proof (Z.mod_pos_bound (code_size g - prev) 3 ltac:(lia)) as Hm.
    assert ((code_size g - prev) mod 3 = 0 \/ (code_size g - prev) mod 3 = 1 \/ (code_size g - prev) mod 3 = 2)
      as [-> | [-> | ->]] by lia; auto. }
  clearbody op. set (ins := {| opcode := op; dst_index := Z.of_nat mn; src_index := Z.of_nat mx; C := 0 |}).
  assert (Hins : instr_ok ins).
  { unfold instr_ok, ins, word, RET, ADD, SUB, XOR, ROR, MUL in *. cbn. lia. }
  destruct (emit_ok g ins Hg Hlt Hins) as (code' & Hemit & Hl' & Hd' & Ht'). rewrite Hemit. cbn [mbind option_bind].
  apply IH; cbn [code_size]; [| lia | lia].
  eapply (emitted_ok g _ ins); try done; cbn [r8_used latency];
    first [by rewrite length_insert | intros ->; apply orb_true_r].
Qed.

Lemma attempt_ok s code0 :
  source_ok s -> length code0 = length code_ -> drop 71 code0 = drop 71 code_ ->
  exists g, attempt S0 s code0 = Some g /\ gen_ok g.
Proof.
  intros Hs Hl Hd. unfold attempt.
  assert (Hg : gen_ok (start s code0)).
  { constructor; try done. split; [done |]. by apply Forall_replicate. }
  destruct (gen_loop_ok 258 (start s code0) Hg) as (g & -> & Hg' & Hsz);
    [by apply Forall_replicate; lia | done | cbn; lia | cbn; lia |].
  cbn [mbind option_bind]. apply asic_loop_ok; [done | lia |]. destruct Hg'. lia.
Qed.

Lemma attempts_ok turns s code0 :
  source_ok s -> length code0 = length code_ -> drop 71 code0 = drop 71 code_ ->
  exists r, attempts S0 turns s code0 = Some r /\
    (forall g, r = Some g -> gen_ok g /\ g.(r8_used) = true /\ 60 <= g.(code_size) <= 70).
Proof.
  revert s code0. induction turns as [| turns IH]; intros s code0 Hs Hl Hd; cbn [attempts]; [by exists None |].
  destruct (attempt_ok s code0 Hs Hl Hd) as (g & -> & Hg). cbn [mbind option_bind]. pose proof Hg as [].
  destruct (_ || _) eqn:Hagain; [by apply IH |].
  rewrite !orb_false_iff, negb_false_iff, !Z.ltb_ge in Hagain. destruct Hagain as [[Hr Hmin] Hmax].
  exists (Some g). split; [done |]. intros g' [= <-]. by split.
Qed.
End Invariant.

Lemma v4_init_typed S0 turns cn_r code_ height :
  buffer 64 (buf S0) -> (71 <= length code_)%nat ->
  exists r, v4_random_math_init S0 turns cn_r code_ height = Some r /\
    forall size code, r = Some (size, code) ->
      program_ok size code /\ length code = length code_ /\ drop 71 code = drop 71 code_.
Proof.
  intros HS0 Hc. unfold v4_random_math_init. cbv zeta. set (d := if cn_r then _ else _).
  assert (Hd : buffer 32 d).
  { assert (Hb : buffer 32 (write_at 0 (le_bytes 8 height) (replicate 32 0))).
    { apply buffer_write_at; [| apply bytes_le_bytes | rewrite length_le_bytes; lia].
      split; [done | by apply bytes_replicate; unfold word; lia]. }
    unfold d. destruct cn_r; [| done]. apply buffer_insert; [done | by apply u8_word]. }
  destruct (attempts_ok S0 HS0 code_ Hc turns {| data := d; data_index := 32 |} code_) as (r & -> & Hr);
    [by split; [| cbn; lia] | done | done |].
  cbn [mbind option_bind]. destruct r as [g |]; [| by exists None].
  destruct (Hr g eq_refl) as (Hg & Hr8 & Hsz). destruct Hg. unfold emit.
  rewrite (proj2 (Z.ltb_ge _ _)), (proj2 (Z.leb_gt _ _)) by lia. cbn [orb mbind option_bind].
  eexists. split; [reflexivity |]. intros size code1 [= <- <-]. unfold program_ok.
  rewrite take_insert_ge, list_lookup_insert_eq, length_insert, drop_insert_lt by lia.
  unfold NUM_INSTRUCTIONS_MIN, NUM_INSTRUCTIONS_MAX. repeat split; try done; [lia | lia | by apply ok_r9].
Qed.

(** C11: the generator is safe for every height, every array of at least 71
    instructions and any number of turns of its outer loop: it never reads or
    writes outside an array, each turn ends, and when a turn succeeds the
    result is a well-typed program: 60 to 70 instructions with valid opcodes,
    a variable register as destination, one of nine registers as source, the
    constant only in additions, no ADD, SUB or XOR of a register with itself,
    register 8 used, and RET behind the last one; the array past the 71st
    instruction is not touched. *)
Theorem v4_program_typed S0 turns cn_r code_ height :
  buffer 64 (buf S0) -> (71 <= length code_)%nat ->
  exists r, v4_random_math_init S0 turns cn_r code_ height = Some r /\
    forall size code, r = Some (size, code) ->
      program_ok size code /\ length code = length code_ /\ drop 71 code = drop 71 code_.
Proof. apply v4_init_typed. Qed.

Definition blank : V4_Instruction := {| opcode := 0; dst_index := 0; src_index := 0; C := 0 |}.

Lemma v4_program_typed_witness :
  exists r, v4_random_math_init some_state 4 true (replicate 256 blank) 1806260 = Some r /\
    forall size code, r = Some (size, code) ->
      program_ok size code /\ length code = length (replicate 256 blank) /\
      drop 71 code = drop 71 (replicate 256 blank).
Proof.
  apply (v4_program_typed some_state 4 true (replicate 256 blank) 1806260);
    [by apply (bool_decide_unpack _) | vm_compute; lia].
Defined.

(** The program of the first height of the tests: 63 instructions, found in
    the first turn. *)
Definition program_of (r : option (option (Z * list V4_Instruction))) : Z * list V4_Instruction :=
  match r with Some (Some p) => p | _ => (0, []) end.
Example program_1806260 :
  let p := program_of (v4_random_math_init some_state 1 true (replicate 256 blank) 1806260) in
  fst p = 63 /\
  take 4 (snd p) = [
    {| opcode := ROL; dst_index := 0; src_index := 7; C := 0 |};
    {| opcode := MUL; dst_index := 3; src_index := 1; C := 0 |};
    {| opcode := ADD; dst_index := 2; src_index := 7; C := 3553557725 |};
    {| opcode := SUB; dst_index := 0; src_index := 8; C := 0 |}].
Proof. by vm_compute. Qed.

(** ** The meaning of programs *)

(** One instruction on 32-bit registers, with rotations as rotations. *)
Module V4.
Definition value (op : V4_Instruction) (dst src : Z) : Z :=
  if op.(opcode) =? MUL then (dst * src) mod 2 ^ 32
  else if op.(opcode) =? ADD then (dst + src + op.(C)) mod 2 ^ 32
  else if op.(opcode) =? SUB then (dst - src) mod 2 ^ 32
  else if op.(opcode) =? ROR then rotr32 dst (src mod 32)
  else if op.(opcode) =? ROL then rotl32 dst (src mod 32)
  else Z.lxor dst src.
Definition exec (r : list Z) (op : V4_Instruction) : list Z :=
  let d := Z.to_nat op.(dst_index) in
  <[d := value op r.[d] r.[Z.to_nat op.(src_index)]]> r.
Definition run (program : list V4_Instruction) (r : list Z) : list Z := fold_left exec program r.
End V4.

Definition regs_ok (r : list Z) : Prop := length r = 9%nat /\ Forall (word 32) r.

Lemma rotate_code x n (s := n mod 32) :
  word 32 x ->
  Z.lor (Z.shiftr x s) (reg 32 (Z.shiftl x ((32 - s) mod 32))) = rotr32 x s /\
  Z.lor (reg 32 (Z.shiftl x s)) (Z.shiftr x ((32 - s) mod 32)) = rotl32 x s.
Proof.
  intros Hx. assert (Hs : 0 <= s < 32) by (apply Z.mod_pos_bound; lia).
  unfold rotr32, rotl32, reg. rewrite !u32_mod. destruct (decide (s = 0)) as [-> | Hne].
  - change ((32 - 0) mod 32) with 0. rewrite Z.shiftr_0_r, !Z.shiftl_0_r, Z.mod_small, Z.lor_diag by done.
    rewrite Z.shiftl_mul_pow2, Z.mod_mul, Z.lor_0_r by lia.
    change (32 - 0) with 32. rewrite Z.shiftr_div_pow2, (Z.div_small x), Z.lor_0_r by (done || lia). done.
  - by rewrite (Z.mod_small (32 - s)) by lia.
Qed.

Lemma value_word op dst src :
  instr_ok op -> word 32 dst -> word 32 src -> word 32 (V4.value op dst src).
Proof.
  intros _ Hd Hs. unfold V4.value. assert (0 <= src mod 32 < 32) by (apply Z.mod_pos_bound; lia).
  assert (Hm : forall z, word 32 (z mod 2 ^ 32)) by (intros z; unfold word; apply Z.mod_pos_bound; lia).
  repeat (destruct (_ =? _); [first [apply Hm | apply rotr32_word | apply rotl32_word]; (lia || done) |]).
  by apply word_lxor.
Qed.

Lemma V4_EXEC_spec op r :
  instr_ok op -> regs_ok r -> V4_EXEC 32 op r = Some (V4.exec r op) /\ regs_ok (V4.exec r op).
Proof.
  intros Hop [Hl Hr]. pose proof Hop as (Ho & Hd & Hs & HC & _). unfold V4_EXEC, V4.exec. cbv zeta.
  assert (Hdw : word 32 r.[Z.to_nat (dst_index op)]) by (apply word_nth; [lia | done]).
  assert (Hsw : word 32 r.[Z.to_nat (src_index op)]) by (apply word_nth; [lia | done]).
  rewrite !lookup_nth_Z by (rewrite Hl; lia). cbn [mbind option_bind].
  set (dst := r.[Z.to_nat (dst_index op)]) in *. set (src := r.[Z.to_nat (src_index op)]) in *.
  assert (Hsh : u32 (src mod 32) = src mod 32).
  { apply u32_small. pose proof (Z.mod_pos_bound src 32 ltac:(lia)). unfold word. lia. }
  rewrite Hsh. destruct (rotate_code dst src Hdw) as [-> ->]. split.
  - unfold V4.value, reg. rewrite Zplus_mod_idemp_r, Z.add_assoc.
    repeat match goal with |- context [opcode op =? ?k] => destruct (Z.eqb_spec (opcode op) k); [reflexivity |] end.
    exfalso. unfold MUL, ADD, SUB, ROR, ROL, XOR, RET in *. lia.
  - split; [by rewrite length_insert |]. apply Forall_insert; [done | by apply value_word].
Qed.

Lemma V4_exec_constants r op : instr_ok op -> drop 4 (V4.exec r op) = drop 4 r.
Proof. intros (_ & Hd & _). unfold V4.exec. by rewrite drop_insert_lt by lia. Qed.

Lemma run_ok program r :
  Forall instr_ok program -> regs_ok r ->
  regs_ok (V4.run program r) /\ drop 4 (V4.run program r) = drop 4 r.
Proof.
  intros Hp. revert r. induction Hp as [| op program Hop _ IH]; intros r Hr; [done |].
  cbn [V4.run fold_left]. destruct (V4_EXEC_spec op r Hop Hr) as [_ Hr'].
  destruct (IH _ Hr') as [H1 H2]. split; [done |]. unfold V4.run in H2. rewrite H2. by apply V4_exec_constants.
Qed.

Lemma v4_exec_from_spec code size n i r :
  Forall instr_ok (take size code) -> code !! size = Some ret_op -> (i <= size)%nat -> (size <= i + n)%nat ->
  regs_ok r -> v4_exec_from 32 n i code r = Some (V4.run (drop i (take size code)) r).
Proof.
  intros Hp Hret. revert i r. induction n as [| n IH]; intros i r Hi Hn Hr; cbn [v4_exec_from].
  { assert (i = size) as -> by lia. rewrite drop_ge by (rewrite length_take; lia). done. }
  destruct (decide (i = size)) as [-> | Hne].
  { rewrite Hret. cbn. rewrite drop_ge by (rewrite length_take; lia). done. }
  assert (Hlt : (i < length code)%nat) by (apply lookup_lt_Some in Hret; lia).
  destruct (lookup_lt_is_Some_2 code i Hlt) as [op Hop]. rewrite Hop. cbn [mbind option_bind].
  assert (Hop' : take size code !! i = Some op) by by rewrite lookup_take_lt by lia.
  pose proof (Forall_lookup_1 _ _ _ _ Hp Hop') as Hok.
  destruct Hok as (Ho & Hrest). assert (Hnr : (opcode op =? RET) = false) by (apply Z.eqb_neq; lia). rewrite Hnr.
  destruct (V4_EXEC_spec op r (conj Ho Hrest) Hr) as [-> Hr']. cbn [mbind option_bind].
  rewrite IH by (done || lia). by rewrite (drop_S _ _ _ Hop').
Qed.

(** C31: on a well-typed program the unrolled interpreter never stops in the
    middle and never leaves the registers: its 70 steps execute exactly the
    instructions before RET, each with the meaning of [V4.exec] (products,
    sums and differences modulo 2^32, rotations by the low five bits, also by
    zero), and the five constant registers are never changed. *)
Theorem v4_random_math_spec size code r :
  program_ok size code -> regs_ok r ->
  v4_random_math 32 code r = Some (V4.run (take (Z.to_nat size) code) r) /\
  regs_ok (V4.run (take (Z.to_nat size) code) r) /\
  drop 4 (V4.run (take (Z.to_nat size) code) r) = drop 4 r.
Proof.
  intros (Hs & Hp & _ & Hret) Hr. unfold NUM_INSTRUCTIONS_MIN, NUM_INSTRUCTIONS_MAX in Hs.
  split; [| by apply run_ok]. unfold v4_random_math. by rewrite (v4_exec_from_spec code (Z.to_nat size)) by (done || lia).
Qed.

Lemma v4_random_math_spec_witness :
  let p := program_of (v4_random_math_init some_state 1 true (replicate 256 blank) 1806260) in
  let r := [1; 2; 3; 4; 5; 6; 7; 8; 0xffffffff] in
  v4_random_math 32 (snd p) r = Some (V4.run (take 63 (snd p)) r) /\
  regs_ok (V4.run (take 63 (snd p)) r) /\ drop 4 (V4.run (take 63 (snd p)) r) = drop 4 r.
Proof.
  intros p r. apply (v4_random_math_spec 63 (snd p) r).
  - split; [by apply (bool_decide_unpack _) |]. split; [| split; [| by vm_compute]].
    + apply (bool_decide_unpack _). by vm_compute.
    + apply (bool_decide_unpack _). by vm_compute.
  - split; [done | by apply (bool_decide_unpack _)].
Defined.
