(* ===== verification/CnAlgo.v ===== *)
(** * The CryptoNight algorithms: [base/crypto/Algorithm.h] and [cn/CnAlgo.h]

    An algorithm is the 32-bit number that encodes its family, the size of its
    scratchpad and its base variant.  The traits of [CnAlgo<ALGO>] are
    functions of that number; template specialisations come first.  The facts
    at the end are what the scratchpad and the main loop rely on. *)

From S2P Require Import Prelude.

(** ** [Algorithm.h] *)

Definition INVALID : Z := 0.
Definition CN_0 : Z := 0x63150000.
Definition CN_1 : Z := 0x63150100.
Definition CN_2 : Z := 0x63150200.
Definition CN_R : Z := 0x63150272.
Definition CN_FAST : Z := 0x63150166.
Definition CN_HALF : Z := 0x63150268.
Definition CN_XAO : Z := 0x63150078.
Definition CN_RTO : Z := 0x63150172.
Definition CN_RWZ : Z := 0x63150277.
Definition CN_ZLS : Z := 0x6315027a.
Definition CN_DOUBLE : Z := 0x63150264.
Definition CN_CCX : Z := 0x63150063.
Definition CN_LITE_0 : Z := 0x63140000.
Definition CN_LITE_1 : Z := 0x63140100.
Definition CN_HEAVY_0 : Z := 0x63160000.
Definition CN_HEAVY_TUBE : Z := 0x63160172.
Definition CN_HEAVY_XHV : Z := 0x63160068.
Definition CN_PICO_0 : Z := 0x63120200.
Definition CN_PICO_TLO : Z := 0x63120274.
Definition CN_UPX2 : Z := 0x63110200.
Definition CN_GR_0 : Z := 0x63130100.
Definition CN_GR_1 : Z := 0x63130101.
Definition CN_GR_2 : Z := 0x63150102.
Definition CN_GR_3 : Z := 0x63140103.
Definition CN_GR_4 : Z := 0x63120104.
Definition CN_GR_5 : Z := 0x63120105.

Definition CN_ANY : Z := 0x63000000.
Definition CN_HEAVY : Z := 0x63160000.

Definition isCN (id : Z) : bool := Z.land id 0xff000000 =? CN_ANY.
Definition base_of (id : Z) : Z := if isCN id then Z.lor CN_0 (Z.land id 0xff00) else INVALID.
Definition l3 (id : Z) : Z := Z.shiftl 1 (Z.land (Z.shiftr id 16) 0xff).
Definition family (id : Z) : Z := Z.land id (if isCN id then 0xffff0000 else 0xff000000).

(** The traits are defined for these. *)
Definition cn_algos : list Z := [
  CN_0; CN_1; CN_2; CN_R; CN_FAST; CN_HALF; CN_XAO; CN_RTO; CN_RWZ; CN_ZLS; CN_DOUBLE; CN_CCX;
  CN_LITE_0; CN_LITE_1; CN_HEAVY_0; CN_HEAVY_TUBE; CN_HEAVY_XHV; CN_PICO_0; CN_PICO_TLO; CN_UPX2;
  CN_GR_0; CN_GR_1; CN_GR_2; CN_GR_3; CN_GR_4; CN_GR_5].

(** ** [CnAlgo<ALGO>] *)

Definition base (ALGO : Z) : Z := base_of ALGO.
Definition isHeavy (ALGO : Z) : bool := family ALGO =? CN_HEAVY.
Definition isR (ALGO : Z) : bool := ALGO =? CN_R.
Definition memory (ALGO : Z) : Z := l3 ALGO.
Definition CN_ITER : Z := 0x80000.

Definition iterations (ALGO : Z) : Z :=
  if bool_decide (ALGO ∈ [CN_FAST; CN_HALF; CN_LITE_0; CN_LITE_1; CN_HEAVY_0; CN_HEAVY_TUBE; CN_HEAVY_XHV; CN_CCX])
  then CN_ITER / 2
  else if bool_decide (ALGO ∈ [CN_XAO; CN_DOUBLE]) then CN_ITER * 2
  else if bool_decide (ALGO ∈ [CN_RWZ; CN_ZLS]) then 0x60000
  else if bool_decide (ALGO ∈ [CN_PICO_0; CN_PICO_TLO]) then CN_ITER / 8
  else if ALGO =? CN_UPX2 then CN_ITER / 32
  else if bool_decide (ALGO ∈ [CN_GR_0; CN_GR_1]) then CN_ITER / 4
  else if bool_decide (ALGO ∈ [CN_GR_2; CN_GR_3]) then CN_ITER / 2
  else if bool_decide (ALGO ∈ [CN_GR_4; CN_GR_5]) then CN_ITER / 8
  else CN_ITER.

Definition mask (ALGO : Z) : Z :=
  if bool_decide (ALGO ∈ [CN_PICO_0; CN_UPX2; CN_GR_5]) then 0x1FFF0
  else if ALGO =? CN_GR_1 then 0x3FFF0
  else u32 ((memory ALGO - 1) / 16 * 16).
Definition half_mem (ALGO : Z) : bool := mask ALGO <? memory ALGO / 2.

(** The functions of the same names with the algorithm as an argument. *)
Definition iterations_at (algo : Z) : Z :=
  if bool_decide (algo ∈ [CN_0; CN_1; CN_2; CN_R; CN_RTO]) then CN_ITER
  else if bool_decide (algo ∈ [CN_FAST; CN_HALF; CN_LITE_0; CN_LITE_1; CN_HEAVY_0; CN_HEAVY_TUBE; CN_HEAVY_XHV; CN_CCX])
  then CN_ITER / 2
  else if bool_decide (algo ∈ [CN_RWZ; CN_ZLS]) then 0x60000
  else if bool_decide (algo ∈ [CN_XAO; CN_DOUBLE]) then CN_ITER * 2
  else if bool_decide (algo ∈ [CN_PICO_0; CN_PICO_TLO]) then CN_ITER / 8
  else if algo =? CN_UPX2 then CN_ITER / 32
  else 0.
Definition mask_at (algo : Z) : Z :=
  if algo =? CN_PICO_0 then 0x1FFF0
  else if algo =? CN_UPX2 then 0x1FFF0
  else if algo =? CN_GR_1 then 0x3FFF0
  else if algo =? CN_GR_5 then 0x1FFF0
  else u32 ((l3 algo - 1) / 16 * 16).

(** ** What the hash relies on *)

(** The registers-worth of scratchpad that one pass fills: the constant [N] of
    [cn_explode_scratchpad] and [cn_implode_scratchpad]. *)
Definition N (ALGO : Z) : Z := memory ALGO / 16 / (if half_mem ALGO then 2 else 1).

Lemma on_algos (P : Z -> Prop) {dec : forall a, Decision (P a)} :
  bool_decide (Forall P cn_algos) = true -> forall a, a ∈ cn_algos -> P a.
Proof. intros Hb a Ha. apply bool_decide_eq_true_1 in Hb. rewrite List.Forall_forall in Hb. by apply Hb, list_elem_of_In. Qed.

Ltac on_all_algos :=
  match goal with |- forall a, a ∈ cn_algos -> @?P a =>
    apply (on_algos P (dec := ltac:(intros a; cbv beta; apply _))); by vm_compute end.

(** Everything the main loop can address is what is filled: the mask is a run
    of bits above the lowest four, and one pass fills exactly mask + 16 bytes. *)
Lemma geometry a : a ∈ cn_algos ->
  16 * N a = mask a + 16 /\ 16 * N a = 2 ^ Z.log2 (16 * N a) /\ 2 ^ 13 <= N a <= 2 ^ 18 /\ N a mod 8 = 0 /\
  memory a = 16 * N a * (if half_mem a then 2 else 1).
Proof. revert a. on_all_algos. Qed.

Lemma algo_classes a : a ∈ cn_algos ->
  (base a = CN_0 \/ base a = CN_1 \/ base a = CN_2) /\ (a = CN_R -> base a = CN_2) /\ 0 <= iterations a /\
  (isHeavy a = true -> half_mem a = false /\ base a <> CN_2) /\ mask a = mask_at a.
Proof. revert a. on_all_algos. Qed.

(** The two iteration counts agree, except that the function with an argument
    does not know the six variants of GhostRider. *)
Lemma iterations_at_spec a : a ∈ cn_algos ->
  iterations_at a = if bool_decide (a ∈ [CN_GR_0; CN_GR_1; CN_GR_2; CN_GR_3; CN_GR_4; CN_GR_5]) then 0 else iterations a.
Proof. revert a. on_all_algos. Qed.
