(* ===== verification/Scratchpad.v ===== *)
(** * The scratchpad of CryptoNight: [cn_explode_scratchpad] and
    [cn_implode_scratchpad] of [CryptoNight_x86.h]

    The scratchpad is filled from the Keccak state by AES rounds, and folded
    back into the state at the end.  It is a list of 128-bit registers, every
    access checked; [il] is the template argument [interleave], which is 0 in
    every instance.  Algorithms with half of their memory ([half_mem]) keep
    the first half only: the second half is generated again, from
    [save_state], while the scratchpad is folded. *)

From S2P Require Import Prelude Endian SoftAes CnAlgo.

(** ** The code *)

(** [cryptonight_ctx]: the state as 64-bit words, the memory and [save_state]
    as registers.  The pointers to tables and generated code are left out. *)
Record cryptonight_ctx := Ctx {
  state : list Z; memory : list m128i; save_state : list m128i; first_half : bool }.

Definition set_memory (c : cryptonight_ctx) (m : list m128i) : cryptonight_ctx :=
  {| state := c.(state); memory := m; save_state := c.(save_state); first_half := c.(first_half) |}.
Definition set_state (c : cryptonight_ctx) (s : list Z) : cryptonight_ctx :=
  {| state := s; memory := c.(memory); save_state := c.(save_state); first_half := c.(first_half) |}.
Definition set_save_state (c : cryptonight_ctx) (s : list m128i) : cryptonight_ctx :=
  {| state := c.(state); memory := c.(memory); save_state := s; first_half := c.(first_half) |}.
Definition set_first_half (c : cryptonight_ctx) (h : bool) : cryptonight_ctx :=
  {| state := c.(state); memory := c.(memory); save_state := c.(save_state); first_half := h |}.

(** [_mm_load_si128] and [_mm_store_si128] at the register [p] of the memory. *)
Definition load (mem : list m128i) (p : Z) : option m128i :=
  if 0 <=? p then mem !! Z.to_nat p else None.
Definition store (mem : list m128i) (p : Z) (x : m128i) : option (list m128i) :=
  if (0 <=? p) && (p <? Z.of_nat (length mem)) then Some (<[Z.to_nat p := x]> mem) else None.
Fixpoint load_list (n : nat) (mem : list m128i) (p : Z) : option (list m128i) :=
  match n with
  | O => Some []
  | S n => x ← load mem p; l ← load_list n mem (p + 1); Some (x :: l)
  end.
Fixpoint store_list (mem : list m128i) (p : Z) (l : list m128i) : option (list m128i) :=
  match l with
  | [] => Some mem
  | x :: l => mem ← store mem p x; store_list mem (p + 1) l
  end.

(** Register [k] of the state. *)
Definition state_lane (st : list Z) (k : nat) : m128i := M128 st.[2 * k] st.[2 * k + 1].
Definition state_lanes (st : list Z) : list m128i := map (state_lane st) (seq 4 8).
Definition words_of (l : list m128i) : list Z := concat (map (fun x => [x.(lo64); x.(hi64)]) l).

Section Pad.
Context `{AesRounds} (ALGO il : Z).

(** The calls of [aes_round] with [k0] .. [k9]. *)
Definition ten_rounds (k x : list m128i) : list m128i := fold_left (fun x key => aes_round key x) k x.

(** Sixteen times ten rounds and a mix, for the heavy algorithms. *)
Definition heavy_rounds (k x : list m128i) : list m128i :=
  Nat.iter 16 (fun x => mix_and_propagate (ten_rounds k x)) x.

Definition increment : Z := Z.shiftl 64 il / 16.
Definition prefetch_dist : Z := 2048 / 16.

(** The inner loop of [cn_explode_scratchpad], [do ... while (output < e)]. *)
Fixpoint explode_loop (fuel : nat) (k : list m128i) (mem x : list m128i) (output e : Z) :
  option (list m128i * list m128i * Z) :=
  match fuel with
  | O => None
  | S fuel =>
    let x := ten_rounds k x in
    mem ← store_list mem output (take 4 x);
    mem ← store_list mem (output + increment) (drop 4 x);
    let output := output + increment * 2 in
    if output <? e then explode_loop fuel k mem x output e else Some (mem, x, output)
  end.

Definition cn_explode_scratchpad (ctx : cryptonight_ctx) : option cryptonight_ctx :=
  let k := aes_genkey (state_lane ctx.(state) 0) (state_lane ctx.(state) 1) in
  let xin := if half_mem ALGO && negb ctx.(first_half) then take 8 ctx.(save_state) else state_lanes ctx.(state) in
  let xin := if isHeavy ALGO then heavy_rounds k xin else xin in
  let output := 0 in
  let e := Z.shiftl (N ALGO) il - prefetch_dist in
  let fuel := Z.to_nat (N ALGO) in
  '(mem, xin, output) ← explode_loop fuel k ctx.(memory) xin output e;
  '(mem, xin, output) ← explode_loop fuel k mem xin output (e + prefetch_dist);
  let ctx := set_memory ctx mem in
  Some (if half_mem ALGO && ctx.(first_half) then set_save_state ctx (write_at 0 xin ctx.(save_state)) else ctx).

(** The loops of [cn_implode_scratchpad], [for (i = 0; i < N;)]: the first one
    for each half, the second one only for the heavy algorithms. *)
Fixpoint implode_loop (fuel : nat) (k : list m128i) (mem x : list m128i) (input i : Z) : option (list m128i) :=
  if i <? N ALGO then
    match fuel with
    | O => None
    | S fuel =>
      a ← load_list 4 mem input;
      b ← load_list 4 mem (input + increment);
      let x := zip_with _mm_xor_si128 (a ++ b) x in
      let input := input + increment * 2 in
      let i := i + 8 in
      let x := ten_rounds k x in
      implode_loop fuel k mem (if isHeavy ALGO then mix_and_propagate x else x) input i
    end
  else Some x.
Fixpoint implode_heavy_loop (fuel : nat) (k : list m128i) (mem x : list m128i) (input i : Z) : option (list m128i) :=
  if i <? N ALGO then
    match fuel with
    | O => None
    | S fuel =>
      a ← load_list 4 mem input;
      let input := input + increment in
      b ← load_list 4 mem input;
      let input := input + increment in
      let x := zip_with _mm_xor_si128 (a ++ b) x in
      let i := i + 8 in
      implode_heavy_loop fuel k mem (mix_and_propagate (ten_rounds k x)) input i
    end
  else Some x.

Definition cn_implode_scratchpad (ctx : cryptonight_ctx) : option cryptonight_ctx :=
  let k := aes_genkey (state_lane ctx.(state) 2) (state_lane ctx.(state) 3) in
  let xout := state_lanes ctx.(state) in
  let fuel := Z.to_nat (N ALGO) in
  (* part 0 *)
  xout ← implode_loop fuel k ctx.(memory) xout 0 0;
  (* part 1 *)
  '(ctx, xout) ← (if half_mem ALGO then
      ctx ← cn_explode_scratchpad (set_first_half ctx false);
      xout ← implode_loop fuel k ctx.(memory) xout 0 0;
      Some (ctx, xout)
    else Some (ctx, xout));
  xout ← (if isHeavy ALGO then
      xout ← implode_heavy_loop fuel k ctx.(memory) xout 0 0;
      Some (heavy_rounds k xout)
    else Some xout);
  Some (set_state ctx (write_at 8 (words_of xout) ctx.(state))).
End Pad.

(** ** What it computes, for [interleave = 0] *)

Lemma load_list_spec n mem p :
  0 <= p -> (Z.to_nat p + n <= length mem)%nat -> load_list n mem p = Some (take n (drop (Z.to_nat p) mem)).
Proof.
  revert p. induction n as [| n IH]; intros p Hp Hl; [done |]. cbn [load_list]. unfold load.
  rewrite (proj2 (Z.leb_le _ _)) by done.
  destruct (lookup_lt_is_Some_2 mem (Z.to_nat p)) as [x Hx]; [lia |]. rewrite Hx. next.
  rewrite IH by lia. next. replace (Z.to_nat (p + 1)) with (S (Z.to_nat p)) by lia.
  by rewrite (drop_S mem x _ Hx).
Qed.

Lemma store_list_spec l : forall mem p,
  0 <= p -> (Z.to_nat p + length l <= length mem)%nat -> store_list mem p l = Some (write_at (Z.to_nat p) l mem).
Proof.
  induction l as [| x l IH]; intros mem p Hp Hl; cbn [store_list length] in *.
  - unfold write_at. cbn [length app]. by rewrite Nat.add_0_r, take_drop.
  - unfold store. rewrite (proj2 (Z.leb_le _ _)), (proj2 (Z.ltb_lt _ _)) by lia. cbn [andb]. next.
    rewrite IH by (rewrite ?length_insert; lia). replace (Z.to_nat (p + 1)) with (S (Z.to_nat p)) by lia.
    f_equal. apply write_at_cons. lia.
Qed.

Lemma write_at_app {A} p (l1 l2 buf : list A) :
  (p + length l1 <= length buf)%nat ->
  write_at (p + length l1) l2 (write_at p l1 buf) = write_at p (l1 ++ l2) buf.
Proof.
  intros Hl. unfold write_at. rewrite length_app, take_app_add' by (rewrite length_take; lia).
  rewrite take_app_length, <- !app_assoc. do 2 f_equal. rewrite drop_app_ge by (rewrite length_take; lia).
  rewrite length_take, drop_app_ge, drop_drop by lia. do 2 f_equal. lia.
Qed.

Section Spec.
Context (A : AesRounds).

(** [n] groups of eight registers, each ten rounds after the one before. *)
Fixpoint fill (n : nat) (k x : list m128i) : list m128i :=
  match n with O => [] | S n => let x := ten_rounds k x in x ++ fill n k x end.

(** The groups of a scratchpad absorbed one after the other. *)
Fixpoint fold_in (n : nat) (round : list m128i -> list m128i) (pad x : list m128i) : list m128i :=
  match n with O => x | S n => fold_in n round (drop 8 pad) (round (zip_with _mm_xor_si128 (take 8 pad) x)) end.

Lemma length_aes_round key x : length (aes_round key x) = length x.
Proof. apply length_map. Qed.
Lemma length_ten_rounds k x : length (ten_rounds k x) = length x.
Proof. unfold ten_rounds. revert x. induction k as [| key k IH]; intros x; [done |]. cbn [fold_left]. by rewrite IH, length_aes_round. Qed.
Lemma length_iter_rounds n k x : length (Nat.iter n (ten_rounds k) x) = length x.
Proof. induction n as [| n IH]; [done |]. cbn [Nat.iter nat_rect]. by rewrite length_ten_rounds. Qed.
Lemma length_fill n : forall k x, length (fill n k x) = (n * length x)%nat.
Proof. induction n as [| n IH]; intros k x; [done |]. cbn [fill]. cbv zeta. rewrite length_app, IH, length_ten_rounds. lia. Qed.

Lemma fill_add n m k x : fill (n + m) k x = fill n k x ++ fill m k (Nat.iter n (ten_rounds k) x).
Proof.
  revert x. induction n as [| n IH]; intros x; [done |]. cbn [Nat.add fill]. cbv zeta.
  by rewrite IH, <- app_assoc, <- Nat.iter_succ_r.
Qed.

Lemma fold_in_app n m round pad x :
  fold_in (n + m) round pad x = fold_in m round (drop (8 * n) pad) (fold_in n round pad x).
Proof.
  revert pad x. induction n as [| n IH]; intros pad x; [done |]. cbn [Nat.add fold_in].
  rewrite IH, drop_drop. do 2 f_equal. lia.
Qed.

Lemma fold_in_take n round : forall pad x, fold_in n round (take (8 * n) pad) x = fold_in n round pad x.
Proof.
  induction n as [| n IH]; intros pad x; [done |]. cbn [fold_in].
  rewrite take_take, Nat.min_l by lia.
  replace (drop 8 (take (8 * S n) pad)) with (take (8 * n) (drop 8 pad)) by (rewrite take_drop_commute; do 2 f_equal; lia).
  apply IH.
Qed.

Lemma store_two mem p y :
  length y = 8%nat -> 0 <= p -> (Z.to_nat p + 8 <= length mem)%nat ->
  exists m1, store_list mem p (take 4 y) = Some m1 /\
    store_list m1 (p + 4) (drop 4 y) = Some (write_at (Z.to_nat p) y mem).
Proof.
  intros Hy Hp Hl. assert (H4 : length (take 4 y) = 4%nat) by (rewrite length_take; lia).
  eexists. rewrite store_list_spec by lia. split; [done |].
  rewrite store_list_spec by (rewrite ?length_write_at, ?length_drop by lia; lia).
  replace (Z.to_nat (p + 4)) with (Z.to_nat p + length (take 4 y))%nat by lia. by rewrite write_at_app, take_drop by lia.
Qed.

Lemma explode_loop_spec n : forall fuel k mem x output e,
  length x = 8%nat -> 0 <= output -> output + 8 * Z.of_nat n < e <= output + 8 * Z.of_nat (S n) ->
  (Z.to_nat output + 8 * S n <= length mem)%nat -> (n < fuel)%nat ->
  explode_loop 0 fuel k mem x output e
  = Some (write_at (Z.to_nat output) (fill (S n) k x) mem, Nat.iter (S n) (ten_rounds k) x, output + 8 * Z.of_nat (S n)).
Proof.
  induction n as [| n IH]; intros [| fuel] k mem x output e Hx Ho He Hm Hf; try lia;
    cbn [explode_loop]; change (increment 0) with 4; cbv zeta;
    set (y := ten_rounds k x); assert (Hy : length y = 8%nat) by (subst y; by rewrite length_ten_rounds).
  all: destruct (store_two mem output y Hy Ho ltac:(lia)) as (m1 & -> & E); next; rewrite E; next.
  - rewrite (proj2 (Z.ltb_ge _ _)) by lia. cbn [fill Nat.iter nat_rect]. cbv zeta. rewrite app_nil_r. fold y. do 3 f_equal; lia.
  - rewrite (proj2 (Z.ltb_lt _ _)) by lia. rewrite IH by (rewrite ?length_write_at; lia).
    replace (Z.to_nat (output + 4 * 2)) with (Z.to_nat output + length y)%nat by lia.
    rewrite write_at_app by lia. rewrite (Nat.iter_succ_r (S n) _ x). cbn [fill]. cbv zeta. fold y. do 2 f_equal; lia.
Qed.

(** Both passes together. *)
Lemma explode_passes fuel (n : nat) k mem x :
  length x = 8%nat -> (17 <= n)%nat -> (8 * n <= length mem)%nat -> (n <= fuel)%nat ->
  ('(mem, x, output) ← explode_loop 0 fuel k mem x 0 (8 * Z.of_nat n - 128);
   explode_loop 0 fuel k mem x output (8 * Z.of_nat n - 128 + 128))
  = Some (write_at 0 (fill n k x) mem, Nat.iter n (ten_rounds k) x, 8 * Z.of_nat n).
Proof.
  intros Hx Hn Hm Hf. rewrite (explode_loop_spec (n - 17)) by lia. next.
  assert (E : (n = S (n - 17) + 16)%nat) by lia. set (m := S (n - 17)) in *.
  rewrite (explode_loop_spec 15) by
    (rewrite ?length_iter_rounds, ?length_write_at by (rewrite ?length_fill; lia); lia).
  replace (Z.to_nat (0 + 8 * Z.of_nat m)) with (0 + length (fill m k x))%nat by (rewrite length_fill; lia).
  change (Z.to_nat 0) with 0%nat. rewrite write_at_app by (rewrite length_fill; lia).
  rewrite <- fill_add, <- Nat.iter_add, (Nat.add_comm 16), <- E. do 3 f_equal. lia.
Qed.

(** ** The whole functions *)

(** The registers [cn_explode_scratchpad] starts from, and what it leaves. *)
Definition start_lanes (a : Z) (c : cryptonight_ctx) : list m128i :=
  let x := if half_mem a && negb c.(first_half) then take 8 c.(save_state) else state_lanes c.(state) in
  if isHeavy a then heavy_rounds (aes_genkey (state_lane c.(state) 0) (state_lane c.(state) 1)) x else x.
Definition groups (a : Z) : nat := Z.to_nat (N a / 8).
Definition exploded (a : Z) (c : cryptonight_ctx) : cryptonight_ctx :=
  let k := aes_genkey (state_lane c.(state) 0) (state_lane c.(state) 1) in
  let x := start_lanes a c in
  let c' := set_memory c (write_at 0 (fill (groups a) k x) c.(memory)) in
  if half_mem a && c.(first_half)
  then set_save_state c' (write_at 0 (Nat.iter (groups a) (ten_rounds k) x) c.(save_state)) else c'.

Definition round_of (a : Z) (k x : list m128i) : list m128i :=
  if isHeavy a then mix_and_propagate (ten_rounds k x) else ten_rounds k x.
Definition imploded (a : Z) (c : cryptonight_ctx) : cryptonight_ctx :=
  let k := aes_genkey (state_lane c.(state) 2) (state_lane c.(state) 3) in
  let x := fold_in (groups a) (round_of a k) c.(memory) (state_lanes c.(state)) in
  let c' := if half_mem a then exploded a (set_first_half c false) else c in
  let x := if half_mem a then fold_in (groups a) (round_of a k) c'.(memory) x else x in
  let x := if isHeavy a
    then heavy_rounds k (fold_in (groups a) (fun x => mix_and_propagate (ten_rounds k x)) c'.(memory) x) else x in
  set_state c' (write_at 8 (words_of x) c'.(state)).

(** What the two functions need of a context. *)
Record ctx_shape (a : Z) (c : cryptonight_ctx) : Prop := {
  shape_state : length c.(state) = 28%nat;
  shape_memory : (Z.to_nat (N a) <= length c.(memory))%nat;
  shape_save : length c.(save_state) = 8%nat
}.

Lemma groups_spec a : a ∈ cn_algos -> N a = 8 * Z.of_nat (groups a) /\ (1024 <= groups a)%nat.
Proof.
  intros Ha. destruct (geometry a Ha) as (_ & _ & Hr & Hm & _). unfold groups.
  pose proof (Z.div_mod (N a) 8 ltac:(lia)) as E. split; lia.
Qed.

Lemma length_mix_and_propagate x : length x = 8%nat -> length (mix_and_propagate x) = 8%nat.
Proof. intros Hx. do 8 (destruct x as [| ? x]; [done |]). by destruct x. Qed.
Lemma length_heavy k x : length x = 8%nat -> length (heavy_rounds k x) = 8%nat.
Proof.
  intros Hx. unfold heavy_rounds. generalize 16%nat. intros n. induction n as [| n IH]; [done |].
  cbn [Nat.iter nat_rect]. apply length_mix_and_propagate. by rewrite length_ten_rounds.
Qed.
Lemma length_start a c : ctx_shape a c -> length (start_lanes a c) = 8%nat.
Proof.
  intros [_ _ Hs]. unfold start_lanes. set (x := if half_mem a && _ then _ else _).
  assert (length x = 8%nat) by (subst x; destruct (half_mem a && _); [by rewrite length_take, Hs | done]).
  destruct (isHeavy a); [by apply length_heavy | done].
Qed.

Lemma cn_explode_scratchpad_spec a c :
  a ∈ cn_algos -> ctx_shape a c -> cn_explode_scratchpad a 0 c = Some (exploded a c).
Proof.
  intros Ha Hc. destruct (groups_spec a Ha) as [EN Hg]. pose proof (length_start a c Hc) as Hx. destruct Hc as [_ Hm _].
  unfold cn_explode_scratchpad, exploded. fold (start_lanes a c).
  set (k := aes_genkey _ _). set (x := start_lanes a c) in *.
  pose proof (explode_passes (Z.to_nat (N a)) (groups a) k c.(memory) x Hx ltac:(lia) ltac:(lia) ltac:(lia)) as E.
  rewrite <- EN in E. change prefetch_dist with 128. change (Z.shiftl (N a) 0) with (N a). cbv zeta.
  destruct (explode_loop 0 (Z.to_nat (N a)) k c.(memory) x 0 (N a - 128)) as [[[m1 x1] o1] |]; [| discriminate E].
  rewrite some_bind in E. next. cbv beta iota in E. rewrite E. next. done.
Qed.

Lemma implode_loop_spec a k fuel m : forall mem x input i,
  0 <= input -> N a - i = 8 * Z.of_nat m -> (Z.to_nat input + 8 * m <= length mem)%nat -> (m <= fuel)%nat ->
  implode_loop a 0 fuel k mem x input i = Some (fold_in m (round_of a k) (drop (Z.to_nat input) mem) x).
Proof.
  revert m. induction fuel as [| fuel IH]; intros m mem x input i Hi HN Hm Hf; cbn [implode_loop].
  - rewrite (proj2 (Z.ltb_ge _ _)) by lia. by replace m with O by lia.
  - destruct m as [| m]; [by rewrite (proj2 (Z.ltb_ge _ _)) by lia |].
    rewrite (proj2 (Z.ltb_lt _ _)) by lia. change (increment 0) with 4.
    rewrite (load_list_spec 4 mem input) by lia. next. rewrite (load_list_spec 4 mem (input + 4)) by lia. next.
    rewrite IH with (m := m) by lia. cbn [fold_in]. rewrite drop_drop. unfold round_of.
    replace (Z.to_nat (input + 4 * 2)) with (Z.to_nat input + 8)%nat by lia.
    replace (take 4 (drop (Z.to_nat input) mem) ++ take 4 (drop (Z.to_nat (input + 4)) mem))
      with (take 8 (drop (Z.to_nat input) mem)); [done |].
    replace (Z.to_nat (input + 4)) with (Z.to_nat input + 4)%nat by lia. rewrite <- drop_drop. symmetry. apply (take_take_drop _ 4 4).
Qed.

(** The loop of the heavy algorithms is the first loop with every round mixed. *)
Lemma implode_heavy_loop_eq a k fuel : isHeavy a = true -> forall mem x input i,
  implode_heavy_loop a 0 fuel k mem x input i = implode_loop a 0 fuel k mem x input i.
Proof.
  intros Hh. induction fuel as [| fuel IH]; intros mem x input i; [done |]. cbn [implode_loop implode_heavy_loop].
  rewrite Hh. destruct (i <? N a); [| done]. destruct (load_list 4 mem input); [next | done].
  destruct (load_list 4 mem (input + increment 0)); [next | done]. rewrite IH. by replace (input + increment 0 + increment 0) with (input + increment 0 * 2) by lia.
Qed.

Lemma exploded_shape a c : a ∈ cn_algos -> ctx_shape a c -> ctx_shape a (exploded a c).
Proof.
  intros Ha Hc. pose proof (length_start a c Hc) as Hx. destruct (groups_spec a Ha) as [EN _]. destruct Hc as [Hs Hm Hv].
  unfold exploded. set (k := aes_genkey _ _). set (x := start_lanes a c) in *.
  assert (Hw : length (write_at 0 (fill (groups a) k x) c.(memory)) = length c.(memory))
    by (rewrite length_write_at; [done | rewrite length_fill; lia]).
  destruct (half_mem a && _); split; cbn [state memory save_state set_memory set_save_state]; rewrite ?Hw; try done.
  rewrite length_write_at; [done | rewrite length_iter_rounds; lia].
Qed.

Lemma cn_implode_scratchpad_spec a c :
  a ∈ cn_algos -> ctx_shape a c -> cn_implode_scratchpad a 0 c = Some (imploded a c).
Proof.
  intros Ha Hc. destruct (groups_spec a Ha) as [EN Hg]. unfold cn_implode_scratchpad, imploded.
  set (k := aes_genkey _ _). set (x := state_lanes _).
  assert (L : forall c x, ctx_shape a c -> implode_loop a 0 (Z.to_nat (N a)) k c.(memory) x 0 0
    = Some (fold_in (groups a) (round_of a k) c.(memory) x)).
  { intros d y [_ Hm _]. rewrite (implode_loop_spec a k _ (groups a)) by lia. done. }
  cbv zeta. rewrite L by done. next.
  assert (Hc' : ctx_shape a (set_first_half c false)) by (by destruct Hc; split).
  destruct (half_mem a) eqn:Hh.
  - rewrite cn_explode_scratchpad_spec by done. next. rewrite L by by apply exploded_shape. next. next.
    destruct (isHeavy a) eqn:He; [| by next].
    destruct (algo_classes a Ha) as (_ & _ & _ & Hn & _). by destruct (Hn He) as [E _]; rewrite Hh in E.
  - next. destruct (isHeavy a) eqn:He; [| by next]. rewrite implode_heavy_loop_eq, L by done. next. next.
    unfold round_of at 1. by rewrite He.
Qed.

(** ** Registers stay registers *)

Context `{!AesRoundsOk A}.

Lemma aes_round_vec key x : vec key -> Forall vec x -> Forall vec (aes_round key x).
Proof. intros Hk Hx. apply Forall_map. eapply List.Forall_impl; [| exact Hx]. intros y Hy. by apply aesenc_vec. Qed.
Lemma ten_rounds_vec k x : Forall vec k -> Forall vec x -> Forall vec (ten_rounds k x).
Proof.
  intros Hk. unfold ten_rounds. revert x. induction Hk as [| key k Hkey Hk IH]; intros x Hx; [done |].
  cbn [fold_left]. by apply IH, aes_round_vec.
Qed.
Lemma iter_vec (f : list m128i -> list m128i) n x :
  (forall y, Forall vec y -> Forall vec (f y)) -> Forall vec x -> Forall vec (Nat.iter n f x).
Proof. intros Hf Hx. induction n as [| n IH]; [done |]. cbn [Nat.iter nat_rect]. by apply Hf. Qed.
Lemma mix_vec x : Forall vec x -> Forall vec (mix_and_propagate x).
Proof.
  intros Hx. unfold mix_and_propagate. do 9 (destruct x as [| ? x]; try exact Hx).
  repeat (apply Forall_cons_1 in Hx as [? Hx]).
  repeat (apply Forall_cons_2; [by apply xor_vec |]). apply Forall_nil_2.
Qed.
Lemma heavy_vec k x : Forall vec k -> Forall vec x -> Forall vec (heavy_rounds k x).
Proof. intros Hk Hx. apply iter_vec; [| done]. intros y Hy. by apply mix_vec, ten_rounds_vec. Qed.
Lemma fill_vec n : forall k x, Forall vec k -> Forall vec x -> Forall vec (fill n k x).
Proof.
  induction n as [| n IH]; intros k x Hk Hx; [apply Forall_nil_2 |]. cbn [fill]. cbv zeta.
  apply Forall_app. split; [| apply IH; [done |]]; by apply ten_rounds_vec.
Qed.
Lemma zip_xor_vec x y : Forall vec x -> Forall vec y -> Forall vec (zip_with _mm_xor_si128 x y).
Proof.
  intros Hx. revert y. induction Hx as [| a x Ha Hx IH]; intros y Hy; [apply Forall_nil_2 |].
  destruct Hy as [| b y Hb Hy]; [apply Forall_nil_2 |]. cbn [zip_with]. apply Forall_cons_2; [by apply xor_vec | by apply IH].
Qed.
Lemma fold_in_vec n round : (forall y, Forall vec y -> Forall vec (round y)) ->
  forall pad x, Forall vec pad -> Forall vec x -> Forall vec (fold_in n round pad x).
Proof.
  intros Hr. induction n as [| n IH]; intros pad x Hp Hx; [done |]. cbn [fold_in].
  apply IH; [by apply Forall_drop |]. apply Hr, zip_xor_vec; [by apply Forall_take | done].
Qed.

Lemma genkey_vec m0 m1 : vec m0 -> vec m1 -> Forall vec (aes_genkey m0 m1).
Proof. intros H0 H1. by destruct (aes_genkey_schedule A m0 m1 H0 H1). Qed.
Lemma round_of_vec a k x : Forall vec k -> Forall vec x -> Forall vec (round_of a k x).
Proof. intros Hk Hx. unfold round_of. destruct (isHeavy a); [apply mix_vec |]; by apply ten_rounds_vec. Qed.

Record ctx_ok (a : Z) (c : cryptonight_ctx) : Prop := {
  ok_shape : ctx_shape a c;
  ok_state : Forall (word 64) c.(state);
  ok_memory : Forall vec c.(memory);
  ok_save : Forall vec c.(save_state)
}.

Lemma state_lane_vec st k : Forall (word 64) st -> vec (state_lane st k).
Proof. intros Hs. split; apply word_nth; done || lia. Qed.
Lemma state_lanes_vec st : Forall (word 64) st -> Forall vec (state_lanes st).
Proof. intros Hs. unfold state_lanes. apply Forall_map, Forall_true. intros k. by apply state_lane_vec. Qed.
Lemma words_of_words x : Forall vec x -> Forall (word 64) (words_of x).
Proof.
  induction 1 as [| y x [H0 H1] Hx IH]; [apply Forall_nil_2 |]. unfold words_of. cbn [map concat app].
  by repeat (apply Forall_cons_2; [done |]).
Qed.
Lemma write_at_Forall {T} (P : T -> Prop) p (l buf : list T) :
  Forall P l -> Forall P buf -> Forall P (write_at p l buf).
Proof.
  intros Hl Hb. unfold write_at. apply Forall_app. split; [by apply Forall_take |].
  apply Forall_app. split; [done | by apply Forall_drop].
Qed.

Lemma start_vec a c : ctx_ok a c -> Forall vec (start_lanes a c).
Proof.
  intros [_ Hs _ Hv]. unfold start_lanes. set (x := if half_mem a && _ then _ else _).
  assert (Forall vec x) by (subst x; destruct (half_mem a && _); [by apply Forall_take | by apply state_lanes_vec]).
  destruct (isHeavy a); [| done]. apply heavy_vec; [| done]. by apply genkey_vec; apply state_lane_vec.
Qed.

Lemma exploded_ok a c : a ∈ cn_algos -> ctx_ok a c -> ctx_ok a (exploded a c).
Proof.
  intros Ha Hc. pose proof (start_vec a c Hc) as Hx. pose proof (exploded_shape a c Ha (ok_shape a c Hc)) as Hsh.
  destruct Hc as [_ Hs Hm Hv]. unfold exploded in *. set (k := aes_genkey _ _) in *.
  assert (Hk : Forall vec k) by (by apply genkey_vec; apply state_lane_vec).
  destruct (half_mem a && _); split; cbn [state memory save_state set_memory set_save_state]; try done.
  - apply write_at_Forall; [by apply fill_vec | done].
  - apply write_at_Forall; [| done]. apply iter_vec; [| done]. intros y. by apply ten_rounds_vec.
  - apply write_at_Forall; [by apply fill_vec | done].
Qed.

(** Eight registers, as all the steps keep them. *)
Definition lanes8 (x : list m128i) : Prop := length x = 8%nat /\ Forall vec x.

Lemma ten_rounds_lanes8 k x : Forall vec k -> lanes8 x -> lanes8 (ten_rounds k x).
Proof. intros Hk [Hl Hv]. split; [by rewrite length_ten_rounds | by apply ten_rounds_vec]. Qed.
Lemma mix_lanes8 x : lanes8 x -> lanes8 (mix_and_propagate x).
Proof. intros [Hl Hv]. split; [by apply length_mix_and_propagate | by apply mix_vec]. Qed.
Lemma heavy_lanes8 k x : Forall vec k -> lanes8 x -> lanes8 (heavy_rounds k x).
Proof. intros Hk [Hl Hv]. split; [by apply length_heavy | by apply heavy_vec]. Qed.
Lemma round_of_lanes8 a k x : Forall vec k -> lanes8 x -> lanes8 (round_of a k x).
Proof. intros Hk Hx. unfold round_of. destruct (isHeavy a); [apply mix_lanes8 |]; by apply ten_rounds_lanes8. Qed.
Lemma fold_in_lanes8 n round : (forall y, lanes8 y -> lanes8 (round y)) ->
  forall pad x, lanes8 x -> Forall vec pad -> (8 * n <= length pad)%nat -> lanes8 (fold_in n round pad x).
Proof.
  intros Hr. induction n as [| n IH]; intros pad x [Hl Hv] Hp Hn; [done |]. cbn [fold_in].
  apply IH; [apply Hr; split | by apply Forall_drop | rewrite length_drop; lia].
  - rewrite length_zip_with, length_take. lia.
  - apply zip_xor_vec; [by apply Forall_take | done].
Qed.
Lemma state_lanes8 st : Forall (word 64) st -> lanes8 (state_lanes st).
Proof. intros Hs. split; [done | by apply state_lanes_vec]. Qed.

Lemma length_words_of x : length (words_of x) = (2 * length x)%nat.
Proof. induction x as [| y x IH]; [done |]. unfold words_of in *. cbn [map concat app length]. rewrite IH. lia. Qed.

Lemma imploded_ok a c : a ∈ cn_algos -> ctx_ok a c -> ctx_ok a (imploded a c).
Proof.
  intros Ha Hc. unfold imploded. cbv zeta. destruct (groups_spec a Ha) as [EN _].
  set (k := aes_genkey _ _).
  assert (Hk : Forall vec k) by (by destruct Hc; apply genkey_vec; apply state_lane_vec).
  set (c' := if half_mem a then exploded a (set_first_half c false) else c).
  assert (Hc' : ctx_ok a c').
  { subst c'. destruct (half_mem a); [| done]. apply exploded_ok; [done |]. by destruct Hc as [[] ? ? ?]; repeat split. }
  assert (F : forall d round x, ctx_ok a d -> (forall y, lanes8 y -> lanes8 (round y)) -> lanes8 x ->
    lanes8 (fold_in (groups a) round d.(memory) x)).
  { intros d round x [[_ Hm _] _ Hv _] Hr Hx. apply fold_in_lanes8; [done | done | done | lia]. }
  assert (HR : forall y, lanes8 y -> lanes8 (round_of a k y)) by (intros; by apply round_of_lanes8).
  assert (HM : forall y, lanes8 y -> lanes8 (mix_and_propagate (ten_rounds k y))) by (intros; by apply mix_lanes8, ten_rounds_lanes8).
  set (x1 := fold_in _ _ (memory c) _). set (x2 := if half_mem a then _ else x1). set (x3 := if isHeavy a then _ else x2).
  assert (H1 : lanes8 x1) by (apply F; [done | done | apply state_lanes8; by destruct Hc]).
  assert (H2 : lanes8 x2) by (subst x2; destruct (half_mem a); [by apply F | done]).
  assert (H3 : lanes8 x3) by (subst x3; destruct (isHeavy a); [by apply heavy_lanes8, F | done]).
  destruct Hc' as [[Hs Hm Hv] Hw Hmv Hsv], H3 as [Hl3 Hv3]. split; [split |..]; cbn [state memory save_state set_state]; try done.
  - rewrite length_write_at; [done | rewrite length_words_of; lia].
  - apply write_at_Forall; [by apply words_of_words | done].
Qed.
End Spec.

(** ** Software and hardware rounds give the same scratchpad *)

Section Agree.
Context (A B : AesRounds) `{!AesRoundsOk A, !AesRoundsOk B}.

Lemma aesenc_agree x k : vec x -> vec k -> @aesenc A x k = @aesenc B x k.
Proof.
  intros Hx Hk. apply vec_bytes_inj; [by apply (aesenc_vec (A := A)) | by apply (aesenc_vec (A := B)) |].
  etrans; [by apply (aesenc_ok (A := A)) | symmetry; by apply (aesenc_ok (A := B))].
Qed.
Lemma ten_rounds_agree k x : Forall vec k -> Forall vec x -> @ten_rounds A k x = @ten_rounds B k x.
Proof.
  intros Hk. unfold ten_rounds. revert x. induction Hk as [| key k Hkey Hk IH]; intros x Hx; [done |].
  cbn [fold_left]. assert (E : @aes_round A key x = @aes_round B key x).
  { unfold aes_round. apply map_ext_in. intros y Hy. rewrite List.Forall_forall in Hx. by apply aesenc_agree; [apply Hx |]. }
  rewrite <- E. apply IH. by apply (aes_round_vec A).
Qed.
Lemma iter_agree (f g : list m128i -> list m128i) n x :
  (forall y, Forall vec y -> f y = g y /\ Forall vec (f y)) -> Forall vec x ->
  Nat.iter n f x = Nat.iter n g x /\ Forall vec (Nat.iter n f x).
Proof.
  intros Hfg Hx. induction n as [| n [IH Hv]]; [done |]. rewrite !Nat.iter_succ, <- IH. by apply Hfg.
Qed.
Lemma heavy_agree k x : Forall vec k -> Forall vec x -> @heavy_rounds A k x = @heavy_rounds B k x.
Proof.
  intros Hk Hx. unfold heavy_rounds. apply iter_agree; [| done]. intros y Hy.
  rewrite (ten_rounds_agree k y) by done. split; [done |]. by apply mix_vec, (ten_rounds_vec B).
Qed.
Lemma fill_agree n : forall k x, Forall vec k -> Forall vec x -> fill A n k x = fill B n k x.
Proof.
  induction n as [| n IH]; intros k x Hk Hx; [done |]. cbn [fill]. cbv zeta.
  rewrite ten_rounds_agree, IH by (done || by apply (ten_rounds_vec B)). done.
Qed.
Lemma fold_in_agree n (f g : list m128i -> list m128i) :
  (forall y, Forall vec y -> f y = g y /\ Forall vec (f y)) ->
  forall pad x, Forall vec pad -> Forall vec x -> fold_in n f pad x = fold_in n g pad x.
Proof.
  intros Hfg. induction n as [| n IH]; intros pad x Hp Hx; [done |]. cbn [fold_in].
  destruct (Hfg (zip_with _mm_xor_si128 (take 8 pad) x)) as [E V]; [by apply zip_xor_vec; [apply Forall_take |] |].
  rewrite <- E. apply IH; [by apply Forall_drop | done].
Qed.
Lemma round_agree a k y : Forall vec k -> Forall vec y ->
  @round_of A a k y = @round_of B a k y /\ Forall vec (@round_of A a k y).
Proof.
  intros Hk Hy. unfold round_of. rewrite (ten_rounds_agree k y) by done. split; [done |].
  destruct (isHeavy a); [apply mix_vec |]; by apply (ten_rounds_vec B).
Qed.

Lemma exploded_agree a c : ctx_ok a c -> exploded A a c = exploded B a c.
Proof.
  intros Hc. pose proof (start_vec A a c Hc) as Hx. destruct Hc as [Hsh Hs Hm Hv]. unfold exploded.
  assert (V0 : vec (state_lane (state c) 0)) by by apply state_lane_vec.
  assert (V1 : vec (state_lane (state c) 1)) by by apply state_lane_vec.
  assert (E : start_lanes A a c = start_lanes B a c).
  { unfold start_lanes. rewrite (keys_agree A B) by done. destruct (isHeavy a); [| done].
    apply heavy_agree; [by apply (genkey_vec B) |]. destruct (half_mem a && _); [by apply Forall_take | by apply state_lanes_vec]. }
  rewrite <- E, (keys_agree A B) by done. set (k := @aes_genkey B _ _).
  assert (Hk : Forall vec k) by by apply (genkey_vec B).
  rewrite fill_agree by done. destruct (half_mem a && _); [| done].
  destruct (iter_agree (@ten_rounds A k) (@ten_rounds B k) (groups a) (start_lanes A a c)) as [E' _]; [| done | by rewrite E'].
  intros y Hy. split; [by apply ten_rounds_agree | by apply (ten_rounds_vec A)].
Qed.

Lemma imploded_agree a c : a ∈ cn_algos -> ctx_ok a c -> imploded A a c = imploded B a c.
Proof.
  intros Ha Hc. unfold imploded. cbv zeta.
  assert (Hc0 : ctx_ok a (set_first_half c false)) by (by destruct Hc as [[] ? ? ?]; repeat split).
  pose proof (exploded_ok B a _ Ha Hc0) as Hc1.
  rewrite (exploded_agree a (set_first_half c false)) by done. set (c1 := exploded B a _) in *.
  destruct Hc as [[Hl Hm' _] Hs Hm Hv]. rewrite (keys_agree A B) by by apply state_lane_vec.
  set (k := @aes_genkey B _ _). assert (Hk : Forall vec k) by (by apply (genkey_vec B); apply state_lane_vec).
  set (c' := if half_mem a then c1 else c).
  assert (Hm2 : Forall vec c'.(memory)) by (subst c'; by destruct (half_mem a); [destruct Hc1 |]).
  assert (HR := round_agree a k). set (x0 := state_lanes (state c)).
  assert (V0 : Forall vec x0) by by apply state_lanes_vec.
  set (FA := fold_in (groups a) (@round_of A a k)). set (FB := fold_in (groups a) (@round_of B a k)).
  assert (EF : forall pad x, Forall vec pad -> Forall vec x -> FA pad x = FB pad x /\ Forall vec (FB pad x)).
  { intros pad x Hp Hx. split; [apply fold_in_agree; [intros; by apply HR | done | done] |].
    apply fold_in_vec; [| done | done]. intros y Hy. by apply (round_of_vec B). }
  destruct (EF _ x0 Hm V0) as [-> V1]. set (x1 := FB (memory c) x0) in *.
  assert (E2 : (if half_mem a then FA (memory c') x1 else x1) = (if half_mem a then FB (memory c') x1 else x1))
    by (destruct (half_mem a); [by apply EF | done]).
  assert (V2 : Forall vec (if half_mem a then FB (memory c') x1 else x1)) by (destruct (half_mem a); [by apply EF | done]).
  rewrite E2. set (x2 := if half_mem a then FB _ x1 else x1) in *. destruct (isHeavy a); [| done].
  assert (HM : forall y, Forall vec y -> mix_and_propagate (@ten_rounds A k y) = mix_and_propagate (@ten_rounds B k y)
    /\ Forall vec (mix_and_propagate (@ten_rounds A k y))).
  { intros y Hy. rewrite (ten_rounds_agree k y) by done. split; [done | by apply mix_vec, (ten_rounds_vec B)]. }
  rewrite (fold_in_agree _ _ (fun y => mix_and_propagate (@ten_rounds B k y))) by done.
  by rewrite heavy_agree by (done || (apply fold_in_vec; [intros; by apply mix_vec, (ten_rounds_vec B) | done | done])).
Qed.
End Agree.
