(* ===== verification/Conceal.v ===== *)
(** * The floating-point tweak of Conceal: [cryptonight_conceal_tweak] of
    [CryptoNight_x86.h]

    Single-precision numbers are their 32 bits.  The operations of the
    processor are those of the standard library's [SpecFloat] at 24 bits of
    precision, which rounds to nearest, ties to even: the mode that
    [RESTORE_ROUNDING_MODE] selects before the loop.  A register holds four
    numbers.  The integer indefinite value is what the conversion gives for
    NaN and for numbers out of range. *)

From Stdlib Require Import SpecFloat.
From S2P Require Import Prelude Endian SoftAes.

(** ** Single precision *)

Definition prec : Z := 24.
Definition emax : Z := 128.

(** The number of the bits, and the bits of a number. *)
Definition decode (b : Z) : spec_float :=
  let s := Z.testbit b 31 in
  let e := Z.land (Z.shiftr b 23) 0xff in
  let m := Z.land b 0x7fffff in
  if e =? 0xff then (if m =? 0 then S754_infinity s else S754_nan)
  else if e =? 0 then (if m =? 0 then S754_zero s else S754_finite s (Z.to_pos m) (-149))
  else S754_finite s (Z.to_pos (m + 2 ^ 23)) (e - 150).
Definition encode (f : spec_float) : Z :=
  let sign (s : bool) := if s then 2 ^ 31 else 0 in
  match f with
  | S754_zero s => sign s
  | S754_infinity s => sign s + 0x7f800000
  | S754_nan => 0xffc00000
  | S754_finite s m e =>
      if Z.pos m <? 2 ^ 23 then sign s + Z.pos m else sign s + (e + 150) * 2 ^ 23 + (Z.pos m - 2 ^ 23)
  end.

(** [_mm_cvtepi32_ps], [_mm_cvttps_epi32], [_mm_add_ps], [_mm_mul_ps] on one element. *)
Definition cvtepi32 (x : Z) : Z := encode (binary_normalize prec emax (signed32 x) 0 false).
Definition cvtt (b : Z) : Z :=
  match decode b with
  | S754_zero _ => 0
  | S754_finite s m e =>
      let n := Z.shiftl (Z.pos m) e in
      let v := if s then - n else n in
      if (v <? - 2 ^ 31) || (2 ^ 31 <=? v) then 0x80000000 else u32 v
  | _ => 0x80000000
  end.
Definition add_ss (a b : Z) : Z := encode (SFadd prec emax (decode a) (decode b)).
Definition mul_ss (a b : Z) : Z := encode (SFmul prec emax (decode a) (decode b)).

(** ** The code, on one element of the registers and on all four *)

Definition conceal_element (cx conc_var : Z) : Z * Z :=
  let r := add_ss (cvtepi32 cx) conc_var in
  let r := mul_ss r (mul_ss r r) in
  let r := Z.land 0x807FFFFF r in
  let r := Z.lor 0x40000000 r in
  let c_old := conc_var in
  let conc_var := add_ss conc_var r in
  let c_old := Z.land 0x807FFFFF c_old in
  let c_old := Z.lor 0x40000000 c_old in
  let nc := mul_ss c_old 0x4dffffff in
  (Z.lxor cx (cvtt nc), conc_var).

Definition cryptonight_conceal_tweak (cx conc_var : m128i) : m128i * m128i :=
  let el i := conceal_element (epi32 cx i) (epi32 conc_var i) in
  let '(x0, c0) := el 0 in let '(x1, c1) := el 1 in
  let '(x2, c2) := el 2 in let '(x3, c3) := el 3 in
  (_mm_set_epi32 x3 x2 x1 x0, _mm_set_epi32 c3 c2 c1 c0).
