(* ===== verification/CryptoNight.v ===== *)
(** * The CryptoNight hash: [cryptonight_single_hash] of [CryptoNight_x86.h]

    One hash on one thread, for every algorithm of [CnAlgo]: Keccak, the
    scratchpad ([Scratchpad]), the main loop with its variants, and one of
    four final hashes.  The model is the C++ code without generated machine
    code; [A : AesRounds] is the choice of [SOFT_AES].  [CnSpec] is the
    published algorithm for the variants 0, 1 and 2. *)

From S2P Require Import Prelude Endian Streaming SoftAes KeccakP KeccakSponge XmrKeccak CnMath CnAlgo Scratchpad Conceal.
From S2P Require Blake256 Jh Groestl Skein Variant4.

(** ** The code: registers and memory *)

Definition _mm_add_epi64 (a b : m128i) : m128i := M128 (u64 (a.(lo64) + b.(lo64))) (u64 (a.(hi64) + b.(hi64))).

Definition interleaved_index (il k : Z) : Z :=
  if il =? 0 then k else Z.lor (u64 (Z.shiftl (Z.land k (not64 63)) il)) (Z.land k 63).

(** Accesses to the 16 bytes at the offset [off]; other offsets than those of
    registers would fault or straddle two. *)
Definition load_at (mem : list m128i) (off : Z) : option m128i :=
  if off mod 16 =? 0 then load mem (off / 16) else None.
Definition store_at (mem : list m128i) (off : Z) (x : m128i) : option (list m128i) :=
  if off mod 16 =? 0 then store mem (off / 16) x else None.

(** ** The code: variants *)

Section MainLoop.
Context `{AesRounds} (ALGO il : Z).

(** The constants [BASE], [MASK], [IS_CN_HEAVY_TUBE] and the last argument of
    the shuffles. *)
Definition BASE : Z := base ALGO.
Definition MASK : Z := mask ALGO.
Definition IS_CN_HEAVY_TUBE : bool := ALGO =? CN_HEAVY_TUBE.
Definition reverse : bool := (ALGO =? CN_RWZ) || (ALGO =? CN_UPX2).

Definition VARIANT2_SHUFFLE (base_ptr : list m128i) (offset : Z) (_a _b _b1 _c : m128i) (reverse : bool) :
  option (list m128i * m128i) :=
  chunk1 ← load_at base_ptr (Z.lxor offset (if reverse then 0x30 else 0x10));
  chunk2 ← load_at base_ptr (Z.lxor offset 0x20);
  chunk3 ← load_at base_ptr (Z.lxor offset (if reverse then 0x10 else 0x30));
  base_ptr ← store_at base_ptr (Z.lxor offset 0x10) (_mm_add_epi64 chunk3 _b1);
  base_ptr ← store_at base_ptr (Z.lxor offset 0x20) (_mm_add_epi64 chunk1 _b);
  base_ptr ← store_at base_ptr (Z.lxor offset 0x30) (_mm_add_epi64 chunk2 _a);
  Some (base_ptr, if ALGO =? CN_R
    then _mm_xor_si128 (_mm_xor_si128 _c chunk3) (_mm_xor_si128 chunk1 chunk2) else _c).

Definition VARIANT2_SHUFFLE2 (base_ptr : list m128i) (offset : Z) (_a _b _b1 : m128i) (hi lo : Z) (reverse : bool) :
  option (list m128i * Z * Z) :=
  chunk1 ← load_at base_ptr (Z.lxor offset 0x10);
  let chunk1 := _mm_xor_si128 chunk1 (_mm_set_epi64x lo hi) in
  chunk2 ← load_at base_ptr (Z.lxor offset 0x20);
  let hi := Z.lxor hi chunk2.(lo64) in
  let lo := Z.lxor lo chunk2.(hi64) in
  chunk3 ← load_at base_ptr (Z.lxor offset 0x30);
  base_ptr ← store_at base_ptr (Z.lxor offset 0x10) (_mm_add_epi64 (if reverse then chunk1 else chunk3) _b1);
  base_ptr ← store_at base_ptr (Z.lxor offset 0x20) (_mm_add_epi64 (if reverse then chunk3 else chunk1) _b);
  base_ptr ← store_at base_ptr (Z.lxor offset 0x30) (_mm_add_epi64 chunk2 _a);
  Some (base_ptr, hi, lo).

(** [cryptonight_monero_tweak]: [mem_out] is an offset into [l]. *)
Definition cryptonight_monero_tweak (mem_out : Z) (l : list m128i) (idx : Z) (ax0 bx0 bx1 cx : m128i) :
  option (list m128i * m128i) :=
  if BASE =? CN_2 then
    '(l, cx) ← VARIANT2_SHUFFLE l idx ax0 bx0 bx1 cx reverse;
    l ← store_at l mem_out (_mm_xor_si128 bx0 cx);
    Some (l, cx)
  else
    let tmp := _mm_xor_si128 bx0 cx in
    l ← store_at l mem_out (M128 tmp.(lo64) (tweak1 tmp.(hi64)));
    Some (l, cx).

(** [VARIANT4_RANDOM_MATH_INIT]: the registers and the program.  [turns]
    bounds the outer loop of the generator. *)
Definition VARIANT4_RANDOM_MATH_INIT (turns : nat) (S0 : Blake256.state) (h r : list Z)
    (code : list Variant4.V4_Instruction) (height : Z) : option (list Z * list Variant4.V4_Instruction) :=
  if isR ALGO then
    let r := write_at 0 [u32 h.[12]; Z.shiftr h.[12] 32; u32 h.[13]; Z.shiftr h.[13] 32] r in
    g ← Variant4.v4_random_math_init S0 turns (ALGO =? CN_R) code height;
    '(_, code) ← g;
    Some (r, code)
  else Some (r, code).

Definition VARIANT4_RANDOM_MATH (code : list Variant4.V4_Instruction) (r : list Z) (al ah cl : Z) (bx0 bx1 : m128i) :
  option (list Z * Z) :=
  if isR ALGO then
    let cl := Z.lxor cl (Z.lor (u32 (r.[0] + r.[1])) (Z.shiftl (u32 (r.[2] + r.[3])) 32)) in
    let r := write_at 4 [u32 al; u32 ah; u32 bx0.(lo64); u32 bx1.(lo64); u32 bx1.(hi64)] r in
    r ← Variant4.v4_random_math 32 code r;
    Some (r, cl)
  else Some (r, cl).

(** Signed numbers, and the 64-bit division of the machine, which traps when
    the divisor is zero or the quotient does not fit. *)
Definition signed64 (x : Z) : Z := if x <? 2 ^ 63 then x else x - 2 ^ 64.
Definition div64 (n d : Z) : option Z :=
  if (d =? 0) || (Z.quot n d =? 2 ^ 63) then None else Some (Z.quot n d).

(** The last part of the loop for the heavy algorithms. *)
Definition heavy_division (l0 : list m128i) (idx0 : Z) : option (list m128i * Z) :=
  x ← load_at l0 (interleaved_index il (Z.land idx0 MASK));
  let n := signed64 x.(lo64) in
  let d := signed32 (u32 x.(hi64)) in
  let d5 := Z.lor d 5 in
  q ← div64 n d5;
  l0 ← store_at l0 (interleaved_index il (Z.land idx0 MASK)) (M128 (u64 (Z.lxor n q)) x.(hi64));
  let d := if ALGO =? CN_HEAVY_XHV then Z.lnot d else d in
  Some (l0, u64 (Z.lxor d q)).

(** ** The code: the main loop *)

(** The variables of the loop; [l0] is the scratchpad. *)
Record regs := Regs {
  al0 : Z; ah0 : Z; idx0 : Z; bx0 : m128i; bx1 : m128i; conc_var : m128i;
  division_result : Z; sqrt_result : Z; r0 : list Z; l0 : list m128i }.

(** Between the load of [cl] and the product. *)
Definition variant_math (code : list Variant4.V4_Instruction) (s : regs) (cl : Z) (cx : m128i) :
  option (Z * Z * Z * Z * Z * list Z) :=
  if BASE =? CN_2 then
    if isR ALGO then
      '(r, cl) ← VARIANT4_RANDOM_MATH code s.(r0) s.(al0) s.(ah0) cl s.(bx0) s.(bx1);
      if ALGO =? CN_R then
        Some (Z.lxor s.(al0) (Z.lor r.[2] (Z.shiftl r.[3] 32)), Z.lxor s.(ah0) (Z.lor r.[0] (Z.shiftl r.[1] 32)),
              cl, s.(division_result), s.(sqrt_result), r)
      else Some (s.(al0), s.(ah0), cl, s.(division_result), s.(sqrt_result), r)
    else
      '(cl, division_result, sqrt_result) ← VARIANT2_INTEGER_MATH s.(division_result) s.(sqrt_result) cl cx;
      Some (s.(al0), s.(ah0), cl, division_result, sqrt_result, s.(r0))
  else Some (s.(al0), s.(ah0), cl, s.(division_result), s.(sqrt_result), s.(r0)).

(** Between the product and its addition. *)
Definition variant_shuffle (l0 : list m128i) (idx0 : Z) (ax0 bx0 bx1 cx : m128i) (hi lo : Z) :
  option (list m128i * m128i * Z * Z) :=
  if BASE =? CN_2 then
    if ALGO =? CN_R then
      '(l0, cx) ← VARIANT2_SHUFFLE l0 (Z.land idx0 MASK) ax0 bx0 bx1 cx false;
      Some (l0, cx, hi, lo)
    else
      '(l0, hi, lo) ← VARIANT2_SHUFFLE2 l0 (Z.land idx0 MASK) ax0 bx0 bx1 hi lo reverse;
      Some (l0, cx, hi, lo)
  else Some (l0, cx, hi, lo).

(** One turn of [for (size_t i = 0; i < props.iterations(); i++)] without the
    division of the heavy algorithms, and with it.  The two 64-bit stores after
    the addition are one store of the register. *)
Definition before_division (tweak1_2 : Z) (code : list Variant4.V4_Instruction) (s : regs) : option regs :=
  let at_ i := interleaved_index il (Z.land i MASK) in
  cx ← load_at s.(l0) (at_ s.(idx0));
  let '(cx, conc_var) := if ALGO =? CN_CCX then cryptonight_conceal_tweak cx s.(conc_var) else (cx, s.(conc_var)) in
  let ax0 := _mm_set_epi64x s.(ah0) s.(al0) in
  let cx := if IS_CN_HEAVY_TUBE then aes_round_tweak_div cx ax0 else aesenc cx ax0 in
  '(l0, cx) ← (if (BASE =? CN_1) || (BASE =? CN_2)
    then cryptonight_monero_tweak (at_ s.(idx0)) s.(l0) (Z.land s.(idx0) MASK) ax0 s.(bx0) s.(bx1) cx
    else l0 ← store_at s.(l0) (at_ s.(idx0)) (_mm_xor_si128 s.(bx0) cx); Some (l0, cx));
  let idx0 := cx.(lo64) in
  c ← load_at l0 (at_ idx0);
  let cl := c.(lo64) in let ch := c.(hi64) in
  '(al0, ah0, cl, division_result, sqrt_result, r0) ← variant_math code s cl cx;
  let '(lo, hi) := _umul128 idx0 cl in
  '(l0, cx, hi, lo) ← variant_shuffle l0 idx0 ax0 s.(bx0) s.(bx1) cx hi lo;
  let al0 := u64 (al0 + hi) in
  let ah0 := u64 (ah0 + lo) in
  let second :=
    if IS_CN_HEAVY_TUBE || (ALGO =? CN_RTO) then Z.lxor (Z.lxor ah0 tweak1_2) al0
    else if BASE =? CN_1 then Z.lxor ah0 tweak1_2 else ah0 in
  l0 ← store_at l0 (at_ idx0) (M128 al0 second);
  let al0 := Z.lxor al0 cl in
  let ah0 := Z.lxor ah0 ch in
  let idx0 := al0 in
  let bx1 := if BASE =? CN_2 then s.(bx0) else s.(bx1) in
  Some {| al0 := al0; ah0 := ah0; idx0 := idx0; bx0 := cx; bx1 := bx1; conc_var := conc_var;
          division_result := division_result; sqrt_result := sqrt_result; r0 := r0; l0 := l0 |}.
Definition iteration (tweak1_2 : Z) (code : list Variant4.V4_Instruction) (s : regs) : option regs :=
  s ← before_division tweak1_2 code s;
  '(l0, idx0) ← (if isHeavy ALGO then heavy_division s.(l0) s.(idx0) else Some (s.(l0), s.(idx0)));
  Some {| al0 := s.(al0); ah0 := s.(ah0); idx0 := idx0; bx0 := s.(bx0); bx1 := s.(bx1); conc_var := s.(conc_var);
          division_result := s.(division_result); sqrt_result := s.(sqrt_result); r0 := s.(r0); l0 := l0 |}.

Fixpoint main_loop (n : nat) (tweak1_2 : Z) (code : list Variant4.V4_Instruction) (s : regs) : option regs :=
  match n with
  | O => Some s
  | S n => s ← iteration tweak1_2 code s; main_loop n tweak1_2 code s
  end.

(** ** The code: the hash *)

(** Uninitialised locals: contexts of the hashes, the block of [keccak], the
    registers and the program of CryptoNightR. *)
Record locals := Locals {
  blake_ctx : Blake256.state; groestl_ctx : Groestl.groestlHashState; jh_ctx : Jh.hashState; skein_ctx : Skein.hashState;
  keccak_temp : list Z; r_ : list Z; code_ : list Variant4.V4_Instruction }.

Definition extra_hashes (u : locals) (i : Z) (input output : list Z) : option (list Z) :=
  let len := Z.of_nat (length input) in
  if i =? 0 then Some (write_at 0 (Blake256.blake256_hash u.(blake_ctx) input) output)
  else if i =? 1 then Some (write_at 0 (Groestl.groestl u.(groestl_ctx) input (u64 (len * 8))) output)
  else if i =? 2 then '(_, output) ← Jh.jh_hash u.(jh_ctx) (32 * 8) input (u64 (8 * len)) output; Some output
  else Some (write_at 0 (Skein.xmr_skein u.(skein_ctx) input) output).

Definition state_bytes (st : list Z) : list Z := concat (map (le_bytes 8) (take 25 st)).

(** The first call, and [first_half]. *)
Definition absorb_input (u : locals) (input : list Z) (ctx : cryptonight_ctx) : option cryptonight_ctx :=
  K ← keccak_size u.(keccak_temp) input;
  let ctx := set_state ctx (write_at 0 (lanes K) ctx.(state)) in
  Some (if half_mem ALGO then set_first_half ctx true else ctx).

(** [VARIANT1_INIT]. *)
Definition VARIANT1_INIT (input st : list Z) : option Z :=
  if BASE =? CN_1 then x ← load64 input 35; Some (Z.lxor x st.[24]) else Some 0.

(** The variables at the start of the loop ([VARIANT2_INIT] included). *)
Definition init_regs (h : list Z) (r0 : list Z) (l0 : list m128i) : regs :=
  let al0 := Z.lxor h.[0] h.[4] in
  {| al0 := al0; ah0 := Z.lxor h.[1] h.[5]; idx0 := al0;
     bx0 := _mm_set_epi64x (Z.lxor h.[3] h.[7]) (Z.lxor h.[2] h.[6]);
     bx1 := _mm_set_epi64x (Z.lxor h.[9] h.[11]) (Z.lxor h.[8] h.[10]);
     conc_var := M128 0 0; division_result := h.[12]; sqrt_result := h.[13]; r0 := r0; l0 := l0 |}.

(** The part before the loop: the context, the tweak of variant 1, the program
    of CryptoNightR and the variables. *)
Definition before_loop (turns : nat) (u : locals) (input : list Z) (ctx : cryptonight_ctx) (height : Z) :
  option (cryptonight_ctx * Z * list Variant4.V4_Instruction * regs) :=
  ctx ← absorb_input u input ctx;
  ctx ← cn_explode_scratchpad ALGO il ctx;
  let h0 := ctx.(state) in
  tweak1_2 ← VARIANT1_INIT input h0;
  '(r, code) ← VARIANT4_RANDOM_MATH_INIT turns u.(blake_ctx) h0 u.(r_) u.(code_) height;
  Some (ctx, tweak1_2, code, init_regs h0 r ctx.(memory)).

(** The output and the context it leaves. *)
Definition cryptonight_single_hash (turns : nat) (u : locals) (input output : list Z) (ctx : cryptonight_ctx) (height : Z) :
  option (list Z * cryptonight_ctx) :=
  if (BASE =? CN_1) && (length input <? 43)%nat then Some (write_at 0 (replicate 32 0) output, ctx) else
  '(ctx, tweak1_2, code, s) ← before_loop turns u input ctx height;
  s ← main_loop (Z.to_nat (iterations ALGO)) tweak1_2 code s;
  ctx ← cn_implode_scratchpad ALGO il (set_memory ctx s.(l0));
  let st := write_at 0 (keccakf (take 25 ctx.(state)) 24) ctx.(state) in
  output ← extra_hashes u (Z.land (u8 st.[0]) 3) (state_bytes st) output;
  Some (output, set_state ctx st).
End MainLoop.

(** ** Addresses *)

Section Safe.
Context (a : Z) (Ha : a ∈ cn_algos).

(** The register that a number addresses. *)
Definition lane (i : Z) : Z := (i / 16) mod N a.
Definition pad_ok (mem : list m128i) : Prop := N a <= Z.of_nat (length mem) /\ Forall vec mem.

Lemma mask_lane i : Z.land i (mask a) = 16 * lane i /\ 0 <= lane i < N a.
Proof.
  destruct (geometry a Ha) as (E & P & R & _). unfold lane.
  assert (EN : N a = 2 ^ (Z.log2 (16 * N a) - 4)).
  { assert (4 <= Z.log2 (16 * N a)) by (change 4 with (Z.log2 16); apply Z.log2_le_mono; lia).
    rewrite Z.pow_sub_r by lia. change (2 ^ 4) with 16. rewrite <- P. symmetry. rewrite Z.mul_comm. by apply Z.div_mul. }
  set (n := Z.log2 (16 * N a) - 4) in *. assert (Hn : 0 <= n) by (destruct (Z.leb_spec 0 n); [done | rewrite Z.pow_neg_r in EN by done; lia]).
  split; [| apply Z.mod_pos_bound; lia].
  replace (mask a) with (Z.shiftl (Z.ones n) 4) by (rewrite Z.shiftl_mul_pow2, Z.ones_equiv by lia; lia).
  rewrite EN, <- Z.land_ones, (Z.mul_comm 16) by done. change 16 with (2 ^ 4).
  rewrite <- Z.shiftr_div_pow2, <- Z.shiftl_mul_pow2 by lia.
  rewrite Z.shiftl_land. apply Z.bits_inj'. intros j Hj. rewrite !Z.land_spec. destruct (Z.ltb_spec j 4).
  - rewrite (Z.shiftl_spec_low (Z.ones n)) by lia. by rewrite !andb_false_r.
  - rewrite (Z.shiftl_spec (Z.shiftr i 4)), Z.shiftr_spec by lia. by replace (j - 4 + 4) with j by lia.
Qed.

Lemma lxor_lane q c : 0 <= q < N a -> 0 <= c < 4 -> Z.lxor (16 * q) (16 * c) = 16 * Z.lxor q c /\ 0 <= Z.lxor q c < N a.
Proof.
  intros Hq Hc. destruct (geometry a Ha) as (_ & P & R & _).
  split.
  - rewrite !(Z.mul_comm 16). change 16 with (2 ^ 4). rewrite <- !Z.shiftl_mul_pow2 by lia. symmetry. apply Z.shiftl_lxor.
  - set (n := Z.log2 (16 * N a)) in *. assert (Hn : 4 <= n) by (subst n; change 4 with (Z.log2 16); apply Z.log2_le_mono; lia).
    assert (EN : N a = 2 ^ (n - 4)) by (rewrite Z.pow_sub_r by lia; change (2 ^ 4) with 16; rewrite <- P; symmetry; rewrite Z.mul_comm; by apply Z.div_mul).
    assert (W : word (n - 4) (Z.lxor q c)).
    { apply word_lxor; [lia | unfold word; lia |]. unfold word. lia. }
    unfold word in W. lia.
Qed.

Lemma load_at_ok mem q : pad_ok mem -> 0 <= q < N a -> exists x, load_at mem (16 * q) = Some x /\ mem !! Z.to_nat q = Some x /\ vec x.
Proof.
  intros [Hl Hv] Hq. unfold load_at, load. rewrite Z.mul_comm, Z.mod_mul, Z.div_mul by lia. cbn [Z.eqb].
  rewrite (proj2 (Z.leb_le _ _)) by lia. destruct (lookup_lt_is_Some_2 mem (Z.to_nat q)) as [x Hx]; [lia |].
  exists x. split; [done |]. split; [done |]. by apply (Forall_lookup_1 _ _ _ _ Hv Hx).
Qed.
Lemma store_at_ok mem q x : pad_ok mem -> 0 <= q < N a -> vec x ->
  store_at mem (16 * q) x = Some (<[Z.to_nat q := x]> mem) /\ pad_ok (<[Z.to_nat q := x]> mem).
Proof.
  intros [Hl Hv] Hq Hx. unfold store_at, store. rewrite Z.mul_comm, Z.mod_mul, Z.div_mul by lia. cbn [Z.eqb].
  rewrite (proj2 (Z.leb_le _ _)), (proj2 (Z.ltb_lt _ _)) by lia. split; [done |]. split; [by rewrite length_insert | by apply Forall_insert].
Qed.

(** ** One turn of the loop *)

Context (A : AesRounds) `{!AesRoundsOk A}.

Record regs_inv (s : regs) : Prop := {
  inv_al : word 64 s.(al0); inv_ah : word 64 s.(ah0);
  inv_bx0 : vec s.(bx0); inv_bx1 : vec s.(bx1); inv_div : word 64 s.(division_result);
  inv_r : isR a = true -> Variant4.regs_ok s.(r0); inv_pad : pad_ok s.(l0) }.

(** The program of CryptoNightR, when there is one. *)
Definition code_ok (code : list Variant4.V4_Instruction) : Prop :=
  isR a = true -> exists size, Variant4.program_ok size code.

Lemma add_epi64_vec x y : vec (_mm_add_epi64 x y).
Proof. split; apply u64_word. Qed.

(** Steps through an access at the register of [i], possibly with a constant
    xored into the offset. *)
Lemma shuffle_lane i : (forall c, 0 <= c < 4 -> Z.lxor (Z.land i (mask a)) (16 * c) = 16 * Z.lxor (lane i) c /\ 0 <= Z.lxor (lane i) c < N a).
Proof. intros c Hc. destruct (mask_lane i) as [-> Hl]. by apply lxor_lane. Qed.

Lemma VARIANT2_SHUFFLE_ok mem i x y z c rev :
  pad_ok mem -> vec c -> exists m' c', VARIANT2_SHUFFLE a mem (Z.land i (mask a)) x y z c rev = Some (m', c') /\ pad_ok m' /\ vec c'.
Proof.
  intros Hm Hc. unfold VARIANT2_SHUFFLE. change 0x10 with (16 * 1). change 0x20 with (16 * 2). change 0x30 with (16 * 3).
  destruct (shuffle_lane i 1) as [E1 R1]; [lia |]. destruct (shuffle_lane i 2) as [E2 R2]; [lia |]. destruct (shuffle_lane i 3) as [E3 R3]; [lia |].
  assert (HL : forall b : bool, exists q, 0 <= q < N a /\ Z.lxor (Z.land i (mask a)) (if b then 16 * 3 else 16 * 1) = 16 * q)
    by (intros []; [by exists (Z.lxor (lane i) 3) | by exists (Z.lxor (lane i) 1)]).
  assert (HL' : forall b : bool, exists q, 0 <= q < N a /\ Z.lxor (Z.land i (mask a)) (if b then 16 * 1 else 16 * 3) = 16 * q)
    by (intros []; [by exists (Z.lxor (lane i) 1) | by exists (Z.lxor (lane i) 3)]).
  destruct (HL rev) as (q1 & Hq1 & ->). destruct (HL' rev) as (q3 & Hq3 & ->). rewrite E1, E2, E3.
  destruct (load_at_ok mem q1 Hm Hq1) as (c1 & -> & _ & V1). next.
  destruct (load_at_ok mem _ Hm R2) as (c2 & -> & _ & V2). next.
  destruct (load_at_ok mem q3 Hm Hq3) as (c3 & -> & _ & V3). next.
  destruct (store_at_ok mem _ (_mm_add_epi64 c3 z) Hm R1 (add_epi64_vec _ _)) as [-> Hm1]. next.
  destruct (store_at_ok _ _ (_mm_add_epi64 c1 y) Hm1 R2 (add_epi64_vec _ _)) as [-> Hm2]. next.
  destruct (store_at_ok _ _ (_mm_add_epi64 c2 x) Hm2 R3 (add_epi64_vec _ _)) as [-> Hm3]. next.
  eexists _, _. split; [reflexivity |]. split; [done |]. destruct (a =? CN_R); [by repeat apply xor_vec | done].
Qed.

Lemma VARIANT2_SHUFFLE2_ok mem i x y z hi lo rev :
  pad_ok mem -> word 64 hi -> word 64 lo ->
  exists m' hi' lo', VARIANT2_SHUFFLE2 mem (Z.land i (mask a)) x y z hi lo rev = Some (m', hi', lo') /\ pad_ok m'.
Proof.
  intros Hm Hh Hl. unfold VARIANT2_SHUFFLE2. change 0x10 with (16 * 1). change 0x20 with (16 * 2). change 0x30 with (16 * 3).
  destruct (shuffle_lane i 1) as [-> R1]; [lia |]. destruct (shuffle_lane i 2) as [-> R2]; [lia |]. destruct (shuffle_lane i 3) as [-> R3]; [lia |].
  destruct (load_at_ok mem _ Hm R1) as (c1 & -> & _ & V1). next.
  destruct (load_at_ok mem _ Hm R2) as (c2 & -> & _ & V2). next.
  destruct (load_at_ok mem _ Hm R3) as (c3 & -> & _ & V3). next.
  cbv zeta. set (k1 := _mm_xor_si128 c1 _).
  destruct (store_at_ok mem _ (_mm_add_epi64 (if rev then k1 else c3) z) Hm R1 (add_epi64_vec _ _)) as [-> Hm1]. next.
  destruct (store_at_ok _ _ (_mm_add_epi64 (if rev then c3 else k1) y) Hm1 R2 (add_epi64_vec _ _)) as [-> Hm2]. next.
  destruct (store_at_ok _ _ (_mm_add_epi64 c2 x) Hm2 R3 (add_epi64_vec _ _)) as [-> Hm3]. next.
  by eexists _, _, _.
Qed.

Lemma cvtt_word b : word 32 (cvtt b).
Proof.
  unfold cvtt. destruct (decode b) as [| | | s m e]; try (unfold word; lia). cbv zeta.
  destruct (_ || _); [unfold word; lia | apply u32_word].
Qed.
Lemma conceal_vec cx conc : vec cx -> vec (cryptonight_conceal_tweak cx conc).1.
Proof.
  intros Hx. unfold cryptonight_conceal_tweak, conceal_element. cbv zeta. cbn [fst].
  apply set_vec; (apply word_lxor; [lia | by apply epi32_word | apply cvtt_word]).
Qed.
Lemma tweak_div_vec x k : vec k -> vec (aes_round_tweak_div x k).
Proof.
  intros Hk. unfold aes_round_tweak_div. cbv zeta.
  apply set_vec; repeat (apply word_lxor; [lia | |]); apply entry_word || by apply epi32_word.
Qed.

Lemma div64_ok n d : - 2 ^ 63 <= n < 2 ^ 63 -> d <> 0 -> div64 n d = None <-> n = - 2 ^ 63 /\ d = -1.
Proof.
  intros Hn Hd. unfold div64. rewrite (proj2 (Z.eqb_neq _ _)) by done. cbn [orb].
  assert (Hq : Z.abs (Z.quot n d) <= Z.abs n / Z.abs d) by (rewrite <- Z.quot_abs, Z.quot_div_nonneg by lia; lia).
  destruct (Z.eqb_spec (Z.quot n d) (2 ^ 63)) as [E | E]; [| split; [done |]].
  - split; [intros _ | done]. rewrite E in Hq.
    assert (Z.abs d = 1).
    { destruct (decide (2 <= Z.abs d)) as [H2 | H2]; [| lia].
      pose proof (Z.div_le_compat_l (Z.abs n) 2 (Z.abs d) ltac:(lia) ltac:(lia)).
      pose proof (Z.div_le_upper_bound (Z.abs n) 2 (2 ^ 62) ltac:(lia) ltac:(lia)). lia. }
    assert (d = 1 \/ d = -1) as [-> | ->] by lia.
    + rewrite Z.quot_1_r in E. lia.
    + change (-1) with (- (1)) in E. rewrite Z.quot_opp_r, Z.quot_1_r in E by lia. lia.
  - intros [-> ->]. by vm_compute in E.
Qed.

Lemma lor_5 d : Z.lor d 5 <> 0.
Proof. intros E. assert (Hb : Z.testbit (Z.lor d 5) 0 = false) by (by rewrite E). rewrite Z.lor_spec, orb_true_r in Hb. done. Qed.
Lemma signed64_range x : word 64 x -> - 2 ^ 63 <= signed64 x < 2 ^ 63.
Proof. unfold signed64, word. intros Hx. destruct (Z.ltb_spec x (2 ^ 63)); lia. Qed.

Lemma lor_5_trap d : Z.lor d 5 = -1 <-> d ∈ [-1; -2; -5; -6].
Proof.
  split.
  - intros E. set (e := Z.lnot d). assert (Ed : d = Z.lnot e) by (subst e; by rewrite Z.lnot_involutive).
    assert (Ee : e = Z.land e 5).
    { apply Z.bits_inj'. intros j Hj. assert (Hb : Z.testbit (Z.lor d 5) j = true) by (rewrite E; by apply Z.bits_m1).
      subst e. rewrite Z.land_spec, Z.lnot_spec by done. rewrite Z.lor_spec in Hb.
      by destruct (Z.testbit d j), (Z.testbit 5 j). }
    assert (E8 : e = Z.land (e mod 8) 5).
    { change 8 with (2 ^ 3). rewrite <- Z.land_ones, <- Z.land_assoc by lia. exact Ee. }
    assert (Hm : e mod 8 = 0 \/ e mod 8 = 1 \/ e mod 8 = 2 \/ e mod 8 = 3 \/ e mod 8 = 4 \/ e mod 8 = 5 \/ e mod 8 = 6 \/ e mod 8 = 7)
      by (pose proof (Z.mod_pos_bound e 8 ltac:(lia)); lia).
    rewrite Ed, E8. clear - Hm. destruct Hm as [-> | [-> | [-> | [-> | [-> | [-> | [-> | ->]]]]]]]; by apply (bool_decide_unpack _).
  - intros H. assert (HF : Forall (fun d => Z.lor d 5 = -1) [-1; -2; -5; -6]) by (by apply (bool_decide_unpack _)).
    rewrite List.Forall_forall in HF. by apply HF, list_elem_of_In.
Qed.

(** The register that makes the division of a heavy algorithm trap. *)
Definition trapping (x : m128i) : Prop := x.(lo64) = 2 ^ 63 /\ Z.lor (signed32 (u32 x.(hi64))) 5 = -1.

Lemma heavy_division_ok mem i :
  pad_ok mem -> exists x, mem !! Z.to_nat (lane i) = Some x /\ vec x /\
  ((trapping x /\ heavy_division a 0 mem i = None) \/
   (~ trapping x /\ exists m' i', heavy_division a 0 mem i = Some (m', i') /\ pad_ok m' /\ word 64 i')).
Proof.
  intros Hm. unfold heavy_division, interleaved_index, MASK. cbn [Z.eqb]. destruct (mask_lane i) as [-> Hl].
  destruct (load_at_ok mem _ Hm Hl) as (x & -> & Hx & [V0 V1]). exists x. split; [done |]. split; [done |]. next. cbv zeta.
  pose proof (div64_ok (signed64 x.(lo64)) (Z.lor (signed32 (u32 x.(hi64))) 5) (signed64_range _ V0) (lor_5 _)) as HD.
  assert (HT : trapping x <-> signed64 x.(lo64) = - 2 ^ 63 /\ Z.lor (signed32 (u32 x.(hi64))) 5 = -1).
  { unfold trapping, signed64, word in *. destruct (Z.ltb_spec x.(lo64) (2 ^ 63)); split; intros [? ?]; (split; [lia | done]). }
  rewrite <- HT in HD. destruct (div64 _ _) as [q |].
  - right. split; [intros H; by apply HD in H |]. next.
    assert (Vq : vec (M128 (u64 (Z.lxor (signed64 x.(lo64)) q)) x.(hi64))) by (split; [apply u64_word | done]).
    destruct (store_at_ok mem _ _ Hm Hl Vq) as [-> Hm']. next. eexists _, _. split; [done |]. split; [done | apply u64_word].
  - left. split; [by apply HD | done].
Qed.

Lemma v4_run_ok code r : code_ok code -> isR a = true -> Variant4.regs_ok r ->
  exists r', Variant4.v4_random_math 32 code r = Some r' /\ Variant4.regs_ok r'.
Proof.
  intros Hc Hr Hok. destruct (Hc Hr) as (size & Hs & Hp & Hx & Hret).
  unfold Variant4.NUM_INSTRUCTIONS_MIN, Variant4.NUM_INSTRUCTIONS_MAX in Hs. eexists. split.
  - unfold Variant4.v4_random_math. by rewrite (Variant4.v4_exec_from_spec code (Z.to_nat size)) by (done || lia).
  - by apply Variant4.run_ok.
Qed.

Lemma regs_word r i : Variant4.regs_ok r -> word 32 r.[i].
Proof. intros [_ Hr]. by apply word_nth. Qed.
Lemma pair_word x y : word 32 x -> word 32 y -> word 64 (Z.lor x (Z.shiftl y 32)).
Proof.
  intros Hx Hy. apply word_lor; [lia | by apply (word_mono 32) |]. unfold word in *. rewrite Z.shiftl_mul_pow2 by lia. lia.
Qed.

Lemma random_math_ok code s cl :
  code_ok code -> regs_inv s -> word 64 cl ->
  exists r cl', VARIANT4_RANDOM_MATH a code s.(r0) s.(al0) s.(ah0) cl s.(bx0) s.(bx1) = Some (r, cl') /\
    word 64 cl' /\ (isR a = true -> Variant4.regs_ok r).
Proof.
  intros Hc [_ _ _ _ _ Hr _] Hcl. unfold VARIANT4_RANDOM_MATH. destruct (isR a) eqn:E; [| by eexists _, _].
  specialize (Hr eq_refl). cbv zeta. set (r := write_at 4 _ _).
  assert (Hr' : Variant4.regs_ok r).
  { destruct Hr as [Hl Hw]. split.
    - subst r. rewrite length_write_at; [done | rewrite Hl; cbn; lia].
    - apply write_at_Forall; [| done]. repeat (apply Forall_cons_2; [apply u32_word |]). apply Forall_nil_2. }
  destruct (v4_run_ok code r Hc E Hr') as (r' & -> & Hr2). next. eexists _, _. split; [reflexivity |].
  split; [| done]. apply word_lxor; [lia | done |]. apply pair_word; apply u32_word.
Qed.

Lemma variant_math_ok code s cl cx :
  code_ok code -> regs_inv s -> word 64 cl -> vec cx ->
  exists al ah cl' dv sq r, variant_math a code s cl cx = Some (al, ah, cl', dv, sq, r) /\
    word 64 al /\ word 64 ah /\ word 64 cl' /\ word 64 dv /\ (isR a = true -> Variant4.regs_ok r).
Proof.
  intros Hc Hs Hcl Hx. pose proof Hs as [Hal Hah _ _ Hdv Hr _]. unfold variant_math.
  destruct (BASE a =? CN_2); [| by eexists _, _, _, _, _, _].
  destruct (isR a) eqn:ER.
  - destruct (random_math_ok code s cl Hc Hs Hcl) as (r & cl' & -> & Hcl' & Hr'). next.
    specialize (Hr' ER). destruct (a =? CN_R); eexists _, _, _, _, _, _; (split; [reflexivity |]); split_and!; try done.
    all: apply word_lxor; [lia | done |]; by apply pair_word; apply regs_word.
  - destruct (integer_math_value s.(division_result) s.(sqrt_result) cl cx Hdv Hcl Hx) as (sq & H).
    destruct (integer_math _ _ _ _ _) as [[cl1 dv1] sq1]. destruct H as (-> & Hcl1 & Hdv1 & _). next.
    by eexists _, _, _, _, _, _.
Qed.

Lemma variant_shuffle_ok mem i ax b0 b1 cx hi lo :
  pad_ok mem -> vec cx -> word 64 hi -> word 64 lo ->
  exists m' cx' hi' lo', variant_shuffle a mem i ax b0 b1 cx hi lo = Some (m', cx', hi', lo') /\ pad_ok m' /\ vec cx'.
Proof.
  intros Hm Hx Hh Hl. unfold variant_shuffle, MASK. destruct (BASE a =? CN_2); [| by eexists _, _, _, _].
  destruct (a =? CN_R).
  - destruct (VARIANT2_SHUFFLE_ok mem i ax b0 b1 cx false Hm Hx) as (m' & c' & -> & ? & ?). next. by eexists _, _, _, _.
  - destruct (VARIANT2_SHUFFLE2_ok mem i ax b0 b1 hi lo (reverse a) Hm Hh Hl) as (m' & h' & l' & -> & ?). next. by eexists _, _, _, _.
Qed.

Lemma monero_tweak_ok mem i ax b0 b1 cx :
  pad_ok mem -> vec b0 -> vec cx ->
  exists m' cx', cryptonight_monero_tweak a (Z.land i (mask a)) mem (Z.land i (mask a)) ax b0 b1 cx = Some (m', cx') /\
    pad_ok m' /\ vec cx'.
Proof.
  intros Hm Hb Hx. unfold cryptonight_monero_tweak. destruct (mask_lane i) as [E Hl]. destruct (BASE a =? CN_2).
  - destruct (VARIANT2_SHUFFLE_ok mem i ax b0 b1 cx (reverse a) Hm Hx) as (m' & c' & -> & Hm' & Hc'). next. rewrite E.
    destruct (store_at_ok m' _ (_mm_xor_si128 b0 c') Hm' Hl) as [-> ?]; [by apply xor_vec |]. next. by eexists _, _.
  - rewrite E. assert (V : vec (_mm_xor_si128 b0 cx)) by by apply xor_vec.
    destruct (store_at_ok mem _ (M128 (lo64 (_mm_xor_si128 b0 cx)) (tweak1 (hi64 (_mm_xor_si128 b0 cx)))) Hm Hl) as [-> ?].
    + destruct V. split; [done |]. by apply (tweak1_value 0); [unfold word; lia |].
    + next. by eexists _, _.
Qed.

(** Every turn succeeds and keeps the invariant; only the division of the
    heavy algorithms may trap. *)
Lemma before_division_ok tweak code s :
  word 64 tweak -> code_ok code -> regs_inv s ->
  exists s', before_division a 0 tweak code s = Some s' /\ regs_inv s'.
Proof.
  intros Ht Hcode Hs. pose proof Hs as [Hal Hah Hb0 Hb1 Hdv Hr Hm].
  unfold before_division, interleaved_index, MASK. cbn [Z.eqb]. cbv zeta.
  destruct (mask_lane s.(idx0)) as [E0 L0].
  destruct (load_at_ok _ _ Hm L0) as (x & Hx & _ & Vx). rewrite <- E0 in Hx. rewrite Hx. next.
  set (p := if a =? CN_CCX then _ else _).
  assert (Vp : vec p.1) by (subst p; destruct (a =? CN_CCX); [by apply conceal_vec | done]).
  destruct p as [x' conc]. cbn [fst] in Vp.
  assert (Vk : vec (_mm_set_epi64x s.(ah0) s.(al0))) by done.
  set (cx := if IS_CN_HEAVY_TUBE a then _ else _).
  assert (Vc : vec cx) by (subst cx; destruct (IS_CN_HEAVY_TUBE a); [by apply tweak_div_vec | by apply aesenc_vec]).
  set (tw := if (BASE a =? CN_1) || _ then _ else _).
  assert (Htw : exists m1 c1, tw = Some (m1, c1) /\ pad_ok m1 /\ vec c1).
  { subst tw. destruct (_ || _); [by apply monero_tweak_ok |]. rewrite E0.
    destruct (store_at_ok _ _ (_mm_xor_si128 s.(bx0) cx) Hm L0) as [-> ?]; [by apply xor_vec |]. next. by eexists _, _. }
  destruct Htw as (m1 & c1 & -> & Hm1 & Vc1). next.
  destruct (mask_lane (lo64 c1)) as [E1 L1].
  destruct (load_at_ok _ _ Hm1 L1) as (y & Hy & _ & Vy0 & Vy1). rewrite <- E1 in Hy. rewrite Hy. next.
  destruct (variant_math_ok code s y.(lo64) c1 Hcode Hs Vy0 Vc1) as (al & ah & cl & dv & sq & r & -> & Hal' & Hah' & Hcl & Hdv' & Hr'). next.
  destruct (umul128_words (lo64 c1) cl) as (lo & hi & -> & Hlo & Hhi); [by destruct Vc1 | done |].
  destruct (variant_shuffle_ok m1 (lo64 c1) (_mm_set_epi64x (ah0 s) (al0 s)) (bx0 s) (bx1 s) c1 hi lo Hm1 Vc1 Hhi Hlo)
    as (m2 & c2 & hi' & lo' & -> & Hm2 & Vc2). next.
  set (second := if _ || _ then _ else _).
  assert (Hsec : word 64 second).
  { subst second. assert (word 64 (Z.lxor (u64 (ah + lo')) tweak)) by (apply word_lxor; [lia | apply u64_word | done]).
    destruct (_ || _); [by apply word_lxor; [lia | | apply u64_word] |]. destruct (BASE a =? CN_1); [done | apply u64_word]. }
  rewrite E1. destruct (store_at_ok _ _ (M128 (u64 (al + hi')) second) Hm2 L1) as [-> Hm3]; [by split; [apply u64_word |] |]. next.
  assert (Hal2 : word 64 (Z.lxor (u64 (al + hi')) cl)) by (apply word_lxor; [lia | apply u64_word | done]).
  assert (Hah2 : word 64 (Z.lxor (u64 (ah + lo')) (hi64 y))) by (apply word_lxor; [lia | apply u64_word | done]).
  eexists. split; [reflexivity |]. split; cbn; try done. by destruct (BASE a =? CN_2).
Qed.

(** The division of the turn at [s] traps: it reads a register [x] with these
    contents. *)
Definition division_traps (tweak : Z) (code : list Variant4.V4_Instruction) (s : regs) : Prop :=
  isHeavy a = true /\ exists s' x, before_division a 0 tweak code s = Some s' /\
    s'.(l0) !! Z.to_nat (lane s'.(idx0)) = Some x /\ x.(lo64) = 2 ^ 63 /\ signed32 (u32 x.(hi64)) ∈ [-1; -2; -5; -6].

Lemma iteration_ok tweak code s :
  word 64 tweak -> code_ok code -> regs_inv s ->
  match iteration a 0 tweak code s with Some s' => regs_inv s' | None => division_traps tweak code s end.
Proof.
  intros Ht Hcode Hs. destruct (before_division_ok tweak code s Ht Hcode Hs) as (s' & E & Hs'). unfold iteration. rewrite E. next.
  pose proof Hs' as [Hal Hah Hb0 Hb1 Hdv Hr Hm]. destruct (isHeavy a) eqn:Eh; [| next; by split].
  destruct (heavy_division_ok s'.(l0) s'.(idx0) Hm) as (z & Hz & _ & [[[Hz0 Hz1] ->] | (_ & m' & i' & -> & ? & ?)]).
  - split; [done |]. exists s', z. by rewrite <- lor_5_trap.
  - next. by split.
Qed.

(** The loop fails at the turn whose division traps. *)
Lemma main_loop_ok tweak code n : forall s,
  word 64 tweak -> code_ok code -> regs_inv s ->
  match main_loop a 0 n tweak code s with
  | Some s' => regs_inv s'
  | None => exists m s', (m < n)%nat /\ main_loop a 0 m tweak code s = Some s' /\ division_traps tweak code s'
  end.
Proof.
  induction n as [| n IH]; intros s Ht Hc Hs; [done |]. cbn [main_loop].
  pose proof (iteration_ok tweak code s Ht Hc Hs) as H1. destruct (iteration a 0 tweak code s) as [s1 |] eqn:E.
  - next. pose proof (IH s1 Ht Hc H1) as H. destruct (main_loop a 0 n tweak code s1); [done |].
    destruct H as (m & s' & Hm & E' & Htr). exists (S m), s'. split; [lia |]. split; [| done]. cbn [main_loop]. rewrite E. by next.
  - exists 0%nat, s. split; [lia | done].
Qed.

(** ** The start and the end of the hash *)

(** The uninitialised locals have the sizes of their declarations. *)
Record locals_ok (u : locals) : Prop := {
  blake_buf : buffer 64 (Blake256.buf u.(blake_ctx));
  groestl_buf : buffer 64 (Groestl.buffer_ u.(groestl_ctx));
  jh_buf : buffer 64 (Jh.buffer_ u.(jh_ctx));
  skein_buf : buffer 64 (Skein.b (Skein.ctx_512 u.(skein_ctx)));
  temp_size : length u.(keccak_temp) = 144%nat;
  r_size : Variant4.regs_ok u.(r_);
  code_size : (71 <= length u.(code_))%nat }.

Lemma state_after_keccak temp input st K :
  length temp = 144%nat -> bytes input -> length st = 28%nat -> Forall (word 64) st -> keccak_size temp input = Some K ->
  let st' := write_at 0 (lanes K) st in length st' = 28%nat /\ Forall (word 64) st' /\ take 25 st' = lanes K.
Proof.
  intros Ht Hi Hl Hw HK. cbv zeta. pose proof (keccak_size_state temp input K Ht Hi HK) as Hs.
  destruct (lanes_state25 _ Hs) as [HlL HwL]. split; [rewrite length_write_at; lia |]. split; [by apply write_at_Forall |].
  by rewrite (take_write_at' 25 0) by lia.
Qed.

Lemma init_math_ok turns u h height :
  locals_ok u -> Forall (word 64) h ->
  match VARIANT4_RANDOM_MATH_INIT a turns u.(blake_ctx) h u.(r_) u.(code_) height with
  | Some (r, code) => (isR a = true -> Variant4.regs_ok r) /\ code_ok code
  | None => isR a = true /\ Variant4.v4_random_math_init u.(blake_ctx) turns true u.(code_) height = Some None
  end.
Proof.
  intros Hu Hh. unfold VARIANT4_RANDOM_MATH_INIT, code_ok. destruct (isR a) eqn:E; [| done].
  unfold isR in E. rewrite E.
  destruct (Variant4.v4_init_typed u.(blake_ctx) turns true u.(code_) height (blake_buf u Hu) (code_size u Hu)) as (g & Hg & Hp).
  rewrite Hg. next. destruct g as [[size code] |]; [| done]. next.
  destruct (Hp size code eq_refl) as (Hok & _). split; [intros _ | intros _; by exists size].
  destruct (r_size u Hu) as [Hl Hw]. split; [by rewrite length_write_at by (rewrite Hl; cbn; lia) |].
  apply write_at_Forall; [| done].
  assert (forall i, word 32 (Z.shiftr h.[i] 32)).
  { intros i. pose proof (word_nth 64 h i ltac:(lia) Hh) as H. unfold word in *. rewrite Z.shiftr_div_pow2 by lia.
    split; [apply Z.div_pos; lia | apply Z.div_lt_upper_bound; lia]. }
  repeat (apply Forall_cons_2; [apply u32_word || done |]). apply Forall_nil_2.
Qed.

Lemma init_regs_inv h r mem :
  Forall (word 64) h -> (isR a = true -> Variant4.regs_ok r) -> pad_ok mem -> regs_inv (init_regs h r mem).
Proof.
  intros Hh Hr Hm. assert (W : forall i j, word 64 (Z.lxor h.[i] h.[j])) by (intros; apply word_lxor; [lia | by apply word_nth; [lia |] ..]).
  split; cbn [al0 ah0 bx0 bx1 division_result r0 l0 init_regs]; try done; [split; apply W .. | by apply word_nth; [lia |]].
Qed.

Lemma load64_word input off x : bytes input -> load64 input off = Some x -> word 64 x.
Proof.
  intros Hi. unfold load64. destruct (_ <=? _)%nat; [| done]. intros [= <-]. set (p := take 8 _).
  assert (Hp : bytes p) by (subst p; by apply Forall_take, Forall_drop).
  apply (word_mono (8 * Z.of_nat (length p))); [subst p; rewrite length_take; lia | by apply le_word_range].
Qed.
Lemma tweak1_2_word input h tweak : bytes input -> Forall (word 64) h -> VARIANT1_INIT a input h = Some tweak -> word 64 tweak.
Proof.
  intros Hi Hh. unfold VARIANT1_INIT. destruct (BASE a =? CN_1); [| intros [= <-]; unfold word; lia].
  destruct (load64 input 35) as [x |] eqn:E; [next | done]. intros [= <-].
  apply word_lxor; [lia | by apply (load64_word input 35) | by apply word_nth; [lia |]].
Qed.
(** The guard of the hash keeps the load inside the input. *)
Lemma tweak1_2_reads input h : (BASE a =? CN_1) && (length input <? 43)%nat = false -> exists tweak, VARIANT1_INIT a input h = Some tweak.
Proof.
  unfold VARIANT1_INIT, load64. destruct (BASE a =? CN_1); [cbn [andb] | by exists 0]. intros H. apply Nat.ltb_ge in H.
  rewrite (proj2 (Nat.leb_le _ _)) by lia. next. by eexists.
Qed.

Lemma pad_of_ctx c : ctx_ok a c -> pad_ok c.(memory).
Proof. intros [[_ Hm _] _ Hv _]. split; [lia | done]. Qed.

Lemma absorb_input_ok u input c c' : locals_ok u -> bytes input -> ctx_ok a c -> absorb_input a u input c = Some c' -> ctx_ok a c'.
Proof.
  intros Hu Hi [[Hl Hm Hsv] Hw Hv Hsave]. unfold absorb_input. destruct (keccak_size _ _) as [K |] eqn:EK; [next | done]. intros [= <-].
  destruct (state_after_keccak u.(keccak_temp) input c.(state) K (temp_size u Hu) Hi Hl Hw EK) as (Hl' & Hw' & _).
  by destruct (half_mem a); split.
Qed.
Lemma absorb_input_int u input c : locals_ok u -> bytes input -> Z.of_nat (length input) < 2 ^ 31 -> is_Some (absorb_input a u input c).
Proof. intros Hu Hb Hi. unfold absorb_input. rewrite keccak_size_int by (done || apply Hu). by next. Qed.

(** The hash after the loop. *)
Definition finish (u : locals) (output : list Z) (ctx : cryptonight_ctx) : option (list Z * cryptonight_ctx) :=
  let st := write_at 0 (keccakf (take 25 ctx.(state)) 24) ctx.(state) in
  output ← extra_hashes u (Z.land (u8 st.[0]) 3) (state_bytes st) output;
  Some (output, set_state ctx st).

(** What the loop starts from is in order. *)
Lemma before_loop_unfold turns u input ctx height :
  locals_ok u -> bytes input -> ctx_ok a ctx ->
  before_loop a 0 turns u input ctx height =
  (c0 ← absorb_input a u input ctx;
   let c1 := exploded A a c0 in
   tweak ← VARIANT1_INIT a input c1.(state);
   '(r, code) ← VARIANT4_RANDOM_MATH_INIT a turns u.(blake_ctx) c1.(state) u.(r_) u.(code_) height;
   Some (c1, tweak, code, init_regs c1.(state) r c1.(memory))).
Proof.
  intros Hu Hi Hc. unfold before_loop. destruct (absorb_input a u input ctx) as [c0 |] eqn:E; [do 2 next | done].
  pose proof (absorb_input_ok u input ctx c0 Hu Hi Hc E) as H0.
  rewrite cn_explode_scratchpad_spec by (done || by destruct H0). by next.
Qed.
Lemma before_loop_ok turns u input ctx height c tweak code s :
  locals_ok u -> bytes input -> ctx_ok a ctx -> before_loop a 0 turns u input ctx height = Some (c, tweak, code, s) ->
  ctx_ok a c /\ word 64 tweak /\ code_ok code /\ regs_inv s.
Proof.
  intros Hu Hi Hc. rewrite before_loop_unfold by done. destruct (absorb_input a u input ctx) as [c0 |] eqn:E; [next | done].
  assert (H1 : ctx_ok a (exploded A a c0)) by by apply exploded_ok, (absorb_input_ok u input ctx).
  cbv zeta. set (c1 := exploded A a c0) in *. destruct (VARIANT1_INIT _ _ _) as [tw |] eqn:Et; [next | done].
  pose proof (init_math_ok turns u c1.(state) height Hu ltac:(by destruct H1)) as HI.
  destruct (VARIANT4_RANDOM_MATH_INIT _ _ _ _ _ _ _) as [[r code'] |]; [next | done]. destruct HI as [Hr Hcode].
  intros [= <- <- <- <-]. split; [done |]. destruct H1.
  split; [by apply (tweak1_2_word input (state c1)) | split; [done |]]. apply init_regs_inv; [done | done | by apply pad_of_ctx].
Qed.
Lemma before_loop_none turns u input ctx height :
  locals_ok u -> bytes input -> ctx_ok a ctx -> Z.of_nat (length input) < 2 ^ 31 ->
  (BASE a =? CN_1) && (length input <? 43)%nat = false -> before_loop a 0 turns u input ctx height = None ->
  isR a = true /\ Variant4.v4_random_math_init u.(blake_ctx) turns true u.(code_) height = Some None.
Proof.
  intros Hu Hi Hc Hint Hs. rewrite before_loop_unfold by done. destruct (absorb_input_int u input ctx Hu Hi Hint) as [c0 E]. rewrite E. next.
  assert (H1 : ctx_ok a (exploded A a c0)) by by apply exploded_ok, (absorb_input_ok u input ctx).
  cbv zeta. set (c1 := exploded A a c0) in *. destruct (tweak1_2_reads input c1.(state) Hs) as [tw ->]. next.
  pose proof (init_math_ok turns u c1.(state) height Hu ltac:(by destruct H1)) as HI.
  by destruct (VARIANT4_RANDOM_MATH_INIT _ _ _ _ _ _ _) as [[r code'] |].
Qed.

Lemma after_loop_ok c s : ctx_ok a c -> regs_inv s -> ctx_shape a (set_memory c s.(l0)) /\ ctx_ok a (imploded A a (set_memory c s.(l0))).
Proof.
  intros [[? ? ?] ? ? ?] Hs. destruct (inv_pad _ Hs). split; [split; cbn; done || lia |].
  apply imploded_ok; [done .. |]. split; [split |..]; cbn; done || lia.
Qed.

(** The hash with the second pass over the scratchpad as a function. *)
Lemma single_hash_unfold turns u input output ctx height :
  locals_ok u -> bytes input -> ctx_ok a ctx ->
  cryptonight_single_hash a 0 turns u input output ctx height =
  (if (BASE a =? CN_1) && (length input <? 43)%nat then Some (write_at 0 (replicate 32 0) output, ctx) else
   '(c1, tweak, code, s) ← before_loop a 0 turns u input ctx height;
   s ← main_loop a 0 (Z.to_nat (iterations a)) tweak code s;
   finish u output (imploded A a (set_memory c1 s.(l0)))).
Proof.
  intros Hu Hi Hc. unfold cryptonight_single_hash. destruct (_ && _); [done |].
  destruct (before_loop a 0 turns u input ctx height) as [[[[c1 tweak] code] s] |] eqn:E; [do 2 next | done].
  destruct (before_loop_ok turns u input ctx height c1 tweak code s Hu Hi Hc E) as (H1 & Ht & Hcode & Hs).
  pose proof (main_loop_ok tweak code (Z.to_nat (iterations a)) s Ht Hcode Hs) as HL.
  destruct (main_loop _ _ _ _ _ _) as [s' |]; [do 2 next | done].
  destruct (after_loop_ok c1 s' H1 HL) as [Hshape _]. rewrite cn_implode_scratchpad_spec by assumption. next. unfold finish. reflexivity.
Qed.

Lemma extra_hashes_some u i st output : locals_ok u -> length st = 28%nat -> Forall (word 64) st -> 
  let st := write_at 0 (keccakf (take 25 st) 24) st in
  length st = 28%nat /\ Forall (word 64) st /\ is_Some (extra_hashes u i (state_bytes st) output).
Proof.
  intros Hu Hl Hw. cbv zeta. assert (H25 : state25 (take 25 st)) by (split; [rewrite length_take; lia | by apply Forall_take]).
  destruct (keccakf_bytes _ H25) as [_ [Hlf Hwf]]. set (f := keccakf _ 24) in *.
  split; [rewrite length_write_at; lia |]. split; [by apply write_at_Forall |].
  unfold extra_hashes. destruct (i =? 0); [done |]. destruct (i =? 1); [done |]. destruct (i =? 2); [| done].
  set (m := state_bytes _). assert (Hm : state200 m).
  { assert (Et : take 25 (write_at 0 f st) = f) by (by rewrite (take_write_at' 25 0) by lia).
    assert (Em : m = lane_bytes f) by (unfold m, state_bytes, lane_bytes; by rewrite Et).
    rewrite Em. apply lane_bytes_state200. exact Hlf. }
  clearbody m. destruct Hm as [Hlm Hbm]. rewrite (u64_small (8 * _)) by (unfold word; lia).
  rewrite Jh.jh_hash_spec; [by next | by destruct Hu | done | lia].
Qed.
Lemma finish_ok u output c : locals_ok u -> ctx_ok a c -> exists out c', finish u output c = Some (out, c') /\ ctx_ok a c'.
Proof.
  intros Hu [[Hl Hm Hsv] Hw Hv Hsave]. unfold finish. cbv zeta.
  destruct (extra_hashes_some u (Z.land (u8 (write_at 0 (keccakf (take 25 (state c)) 24) (state c)).[0]) 3) (state c) output Hu Hl Hw)
    as (Hl' & Hw' & [out ->]). next. eexists _, _. split; [reflexivity |]. by split.
Qed.

(** Why a hash of a short enough input may fail. *)
Definition fails (turns : nat) (u : locals) (input : list Z) (ctx : cryptonight_ctx) (height : Z) : Prop :=
  (exists c tweak code s n s', before_loop a 0 turns u input ctx height = Some (c, tweak, code, s) /\
    (n < Z.to_nat (iterations a))%nat /\ main_loop a 0 n tweak code s = Some s' /\ division_traps tweak code s') \/
  (isR a = true /\ Variant4.v4_random_math_init u.(blake_ctx) turns true u.(code_) height = Some None).

Lemma single_hash_ok turns u input output ctx height :
  locals_ok u -> bytes input -> Z.of_nat (length input) < 2 ^ 31 -> ctx_ok a ctx ->
  match cryptonight_single_hash a 0 turns u input output ctx height with
  | Some (_, ctx') => ctx_ok a ctx'
  | None => fails turns u input ctx height
  end.
Proof.
  intros Hu Hi Hint Hc. rewrite single_hash_unfold by done. destruct (_ && _) eqn:Es; [done |].
  destruct (before_loop a 0 turns u input ctx height) as [[[[c1 tweak] code] s] |] eqn:E;
    [next | by right; apply (before_loop_none turns u input ctx height)].
  destruct (before_loop_ok turns u input ctx height c1 tweak code s Hu Hi Hc E) as (H1 & Ht & Hcode & Hs).
  pose proof (main_loop_ok tweak code (Z.to_nat (iterations a)) s Ht Hcode Hs) as HL.
  destruct (main_loop _ _ _ _ _ _) as [s' |]; [next |].
  - destruct (finish_ok u output (imploded A a (set_memory c1 (l0 s'))) Hu) as (out & c' & -> & Hc'); [by apply after_loop_ok | done].
  - left. destruct HL as (m & s' & Hm & E' & Htr). by exists c1, tweak, code, s, m, s'.
Qed.
End Safe.

(** ** Software and hardware rounds give the same hash *)

Section AgreeHash.
Context (a : Z) (Ha : a ∈ cn_algos) (A B : AesRounds) `{!AesRoundsOk A, !AesRoundsOk B}.

Lemma iteration_agree tweak code s :
  regs_inv a s -> @iteration A a 0 tweak code s = @iteration B a 0 tweak code s.
Proof.
  intros [Hal Hah _ _ _ _ Hm]. unfold iteration, before_division. cbv zeta. destruct (mask_lane a Ha s.(idx0)) as [E L].
  destruct (load_at_ok a s.(l0) _ Hm L) as (x & Hx & _ & Vx). rewrite <- E in Hx.
  change (interleaved_index 0 (Z.land (idx0 s) (MASK a))) with (Z.land (idx0 s) (mask a)). rewrite Hx. do 2 next.
  set (p := if a =? CN_CCX then _ else _).
  assert (Vp : vec p.1) by (subst p; destruct (a =? CN_CCX); [by apply conceal_vec | done]).
  destruct p as [x' conc]. cbn [fst] in Vp. by rewrite (aesenc_agree A B x' (_mm_set_epi64x (ah0 s) (al0 s))).
Qed.

Lemma main_loop_agree tweak code n : forall s, word 64 tweak -> code_ok a code -> regs_inv a s ->
  @main_loop A a 0 n tweak code s = @main_loop B a 0 n tweak code s.
Proof.
  induction n as [| n IH]; intros s Ht Hc Hs; [done |]. cbn [main_loop]. rewrite iteration_agree by done.
  pose proof (iteration_ok a Ha B tweak code s Ht Hc Hs) as H1. destruct (iteration _ _ _ _ s); [do 2 next; by apply IH | done].
Qed.

Lemma before_loop_agree turns u input ctx height :
  locals_ok u -> bytes input -> ctx_ok a ctx -> @before_loop A a 0 turns u input ctx height = @before_loop B a 0 turns u input ctx height.
Proof.
  intros Hu Hi Hc. rewrite (before_loop_unfold a Ha A), (before_loop_unfold a Ha B) by done.
  destruct (absorb_input a u input ctx) as [c0 |] eqn:E; [do 2 next | done].
  by rewrite (exploded_agree A B a) by by apply (absorb_input_ok a u input ctx).
Qed.

Lemma single_hash_agree turns u input output ctx height :
  locals_ok u -> bytes input -> ctx_ok a ctx ->
  @cryptonight_single_hash A a 0 turns u input output ctx height = @cryptonight_single_hash B a 0 turns u input output ctx height.
Proof.
  intros Hu Hi Hc. rewrite (single_hash_unfold a Ha A), (single_hash_unfold a Ha B) by done.
  destruct (_ && _); [done |]. rewrite before_loop_agree by done.
  destruct (@before_loop B a 0 turns u input ctx height) as [[[[c1 tweak] code] s] |] eqn:E; [do 2 next | done].
  destruct (before_loop_ok a Ha B turns u input ctx height c1 tweak code s Hu Hi Hc E) as (H1 & Ht & Hcode & Hs).
  rewrite main_loop_agree by done. pose proof (main_loop_ok a Ha B tweak code (Z.to_nat (iterations a)) s Ht Hcode Hs) as HL.
  destruct (main_loop _ _ _ _ _ s) as [s' |]; [do 2 next | done]. rewrite (imploded_agree A B a); [done | done |].
  destruct H1 as [[? ? ?] ? ? ?], (inv_pad _ _ HL). split; [split |..]; cbn; done || lia.
Qed.
End AgreeHash.

(** ** Theorems *)

(** C7: For inputs below 2^31 bytes the hash never reads outside its input
    (in the Keccak blocks, at byte 35 and in the last Keccak call) and never
    accesses its scratchpad out of bounds or at a misaligned address, nor the
    registers and the program of CryptoNightR out of bounds, for every
    algorithm and all old contents of memory, in every one of its iterations,
    with any correct implementation of the AES rounds; and it leaves the
    context in order.  It fails to return in two cases only: in some turn the
    division of a heavy algorithm reads a register with trapping contents
    ([division_traps]), or, in CryptoNightR, the generator of programs needs
    more turns. *)
Theorem cryptonight_single_hash_safe (A : AesRounds) (ok : AesRoundsOk A) a turns u input output ctx height :
  a ∈ cn_algos -> locals_ok u -> bytes input -> Z.of_nat (length input) < 2 ^ 31 -> ctx_ok a ctx ->
  match cryptonight_single_hash a 0 turns u input output ctx height with
  | Some (_, ctx') => ctx_ok a ctx'
  | None => fails a A turns u input ctx height
  end.
Proof. intros Ha. by apply single_hash_ok. Qed.

(** A context with an empty scratchpad, and locals that hold anything. *)
Definition blank_ctx (a : Z) : cryptonight_ctx :=
  Ctx (replicate 28 5) (replicate (Z.to_nat (N a)) (M128 1 2)) (replicate 8 (M128 3 4)) false.
Definition some_locals : locals := {|
  blake_ctx := Blake256.some_state; groestl_ctx := Groestl.some_state; jh_ctx := Jh.some_state;
  skein_ctx := Skein.some_state; keccak_temp := replicate 144 7; r_ := replicate 9 0;
  code_ := replicate 256 Variant4.blank |}.
Lemma blank_ctx_ok a : ctx_ok a (blank_ctx a).
Proof.
  split; [split |..]; unfold blank_ctx; cbn [state memory save_state];
    rewrite ?length_replicate; try done; apply Forall_replicate; try split; unfold word; cbn [lo64 hi64]; lia.
Qed.
Lemma some_locals_ok : locals_ok some_locals.
Proof.
  assert (HR : Variant4.regs_ok (replicate 9 0)) by (split; [done | apply Forall_replicate; unfold word; lia]).
  split; unfold some_locals; cbn [blake_ctx groestl_ctx jh_ctx skein_ctx keccak_temp r_ code_];
    rewrite ?length_replicate; (exact HR || by apply (bool_decide_unpack _)).
Qed.
Lemma cryptonight_single_hash_safe_witness (u := some_locals) (input := [1; 2; 3]) (output := replicate 32 0) :
  match @cryptonight_single_hash soft_rounds CN_2 0 0 u input output (blank_ctx CN_2) 0 with
  | Some (_, ctx') => ctx_ok CN_2 ctx'
  | None => fails CN_2 soft_rounds 0 u input (blank_ctx CN_2) 0
  end.
Proof.
  apply (cryptonight_single_hash_safe soft_rounds soft_rounds_ok CN_2 0 u input output (blank_ctx CN_2) 0);
    [by apply (bool_decide_unpack _) | apply some_locals_ok | by apply (bool_decide_unpack _) | done | apply blank_ctx_ok].
Defined.

(** C15: The hashes with software and with hardware AES rounds are the same. *)
Theorem cryptonight_soft_aes_equiv a turns u input output ctx height :
  a ∈ cn_algos -> locals_ok u -> bytes input -> ctx_ok a ctx ->
  @cryptonight_single_hash soft_rounds a 0 turns u input output ctx height
  = @cryptonight_single_hash hard_rounds a 0 turns u input output ctx height.
Proof. intros. by apply single_hash_agree; try apply _. Qed.

Lemma cryptonight_soft_aes_equiv_witness (u := some_locals) (input := [1; 2; 3]) (output := replicate 32 0) :
  @cryptonight_single_hash soft_rounds CN_HEAVY_TUBE 0 0 u input output (blank_ctx CN_HEAVY_TUBE) 0
  = @cryptonight_single_hash hard_rounds CN_HEAVY_TUBE 0 0 u input output (blank_ctx CN_HEAVY_TUBE) 0.
Proof.
  apply (cryptonight_soft_aes_equiv CN_HEAVY_TUBE 0 u input output (blank_ctx CN_HEAVY_TUBE) 0);
    [by apply (bool_decide_unpack _) | apply some_locals_ok | by apply (bool_decide_unpack _) | apply blank_ctx_ok].
Defined.

(** C39: The division of the heavy algorithms traps for exactly these contents of
    the register it reads: the first word is -2^63 and the third 32-bit
    element -1, -2, -5 or -6. *)
Theorem heavy_division_traps a mem i x :
  a ∈ cn_algos -> pad_ok a mem -> mem !! Z.to_nat (lane a i) = Some x ->
  heavy_division a 0 mem i = None <->
  x.(lo64) = 2 ^ 63 /\ signed32 (u32 x.(hi64)) ∈ [-1; -2; -5; -6].
Proof.
  intros Ha Hm Hx. destruct (heavy_division_ok a Ha mem i Hm) as (y & Hy & [_ _] & H).
  rewrite Hx in Hy. injection Hy as <-. rewrite <- lor_5_trap. destruct H as [[HT ->] | (HT & m' & i' & -> & _)]; [done |].
  split; [done | by intros ?].
Qed.

Lemma heavy_division_traps_witness (mem := replicate (Z.to_nat (N CN_HEAVY_0)) (M128 (2 ^ 63) 0x12345678fffffffa)) :
  heavy_division CN_HEAVY_0 0 mem 0 = None <-> 2 ^ 63 = 2 ^ 63 /\ signed32 (u32 0x12345678fffffffa) ∈ [-1; -2; -5; -6].
Proof.
  apply (heavy_division_traps CN_HEAVY_0 mem 0 (M128 (2 ^ 63) 0x12345678fffffffa)).
  - by apply (bool_decide_unpack _).
  - split; unfold mem; [rewrite length_replicate; lia |].
    apply Forall_replicate; split; unfold word; cbn [lo64 hi64]; lia.
  - unfold mem. apply lookup_replicate. split; [done |]. change (lane CN_HEAVY_0 0) with 0. change (N CN_HEAVY_0) with 262144. lia.
Defined.
