(* ===== verification/CnDouble.v ===== *)
(** * Two CryptoNight hashes at once: [cryptonight_double_hash] of
    [CryptoNight_x86.h]

    The code interleaves the steps of two hashes of inputs of equal size, to
    hide the latency of memory.  [double_hash_spec] says that this is two
    independent single hashes: no step of one reads what the other changes;
    [CnMulti] states it with the hashes of three to five inputs. *)

From S2P Require Import Prelude Endian SoftAes KeccakP XmrKeccak CnMath CnAlgo Scratchpad Conceal CryptoNight.
From S2P Require Blake256 Variant4.

(** ** The code *)

Section Double.
Context `{AesRounds} (ALGO : Z).

(** The second half of a turn, which is written out for both hashes: from the
    load of [cl] to the division of the heavy algorithms.  It gives the new
    [al], [ah], [idx], [cx], [division_result], [sqrt_result], the registers
    of CryptoNightR and the scratchpad. *)
Definition second_half (tweak1_2 : Z) (code : list Variant4.V4_Instruction) (s : regs) (l : list m128i) (ax cx : m128i) :
  option (Z * Z * Z * m128i * Z * Z * list Z * list m128i) :=
  let idx := cx.(lo64) in
  c ← load_at l (Z.land idx (MASK ALGO));
  let cl := c.(lo64) in let ch := c.(hi64) in
  '(al, ah, cl, division_result, sqrt_result, r) ← variant_math ALGO code s cl cx;
  let '(lo, hi) := _umul128 idx cl in
  '(l, cx, hi, lo) ← variant_shuffle ALGO l idx ax s.(bx0) s.(bx1) cx hi lo;
  let al := u64 (al + hi) in
  let ah := u64 (ah + lo) in
  let second :=
    if IS_CN_HEAVY_TUBE ALGO || (ALGO =? CN_RTO) then Z.lxor (Z.lxor ah tweak1_2) al
    else if BASE ALGO =? CN_1 then Z.lxor ah tweak1_2 else ah in
  l ← store_at l (Z.land idx (MASK ALGO)) (M128 al second);
  let al := Z.lxor al cl in
  let ah := Z.lxor ah ch in
  let idx := al in
  '(l, idx) ← (if isHeavy ALGO then heavy_division ALGO 0 l idx else Some (l, idx));
  Some (al, ah, idx, cx, division_result, sqrt_result, r, l).

(** One turn of the loop; [s0] and [s1] are the variables of the two hashes,
    [bx00] and [bx01] those of the first ([bx10], [bx11] of the second). *)
Definition double_iteration (tweak1_2_0 tweak1_2_1 : Z) (code0 code1 : list Variant4.V4_Instruction) (s0 s1 : regs) :
  option (regs * regs) :=
  let at_ i := Z.land i (MASK ALGO) in
  cx0 ← load_at s0.(l0) (at_ s0.(idx0));
  cx1 ← load_at s1.(l0) (at_ s1.(idx0));
  let '(cx0, conc_var0) := if ALGO =? CN_CCX then cryptonight_conceal_tweak cx0 s0.(conc_var) else (cx0, s0.(conc_var)) in
  let '(cx1, conc_var1) := if ALGO =? CN_CCX then cryptonight_conceal_tweak cx1 s1.(conc_var) else (cx1, s1.(conc_var)) in
  let ax0 := _mm_set_epi64x s0.(ah0) s0.(al0) in
  let ax1 := _mm_set_epi64x s1.(ah0) s1.(al0) in
  let cx0 := if IS_CN_HEAVY_TUBE ALGO then aes_round_tweak_div cx0 ax0 else aesenc cx0 ax0 in
  let cx1 := if IS_CN_HEAVY_TUBE ALGO then aes_round_tweak_div cx1 ax1 else aesenc cx1 ax1 in
  '(m0, cx0, m1, cx1) ← (if (BASE ALGO =? CN_1) || (BASE ALGO =? CN_2) then
      '(m0, cx0) ← cryptonight_monero_tweak ALGO (at_ s0.(idx0)) s0.(l0) (at_ s0.(idx0)) ax0 s0.(bx0) s0.(bx1) cx0;
      '(m1, cx1) ← cryptonight_monero_tweak ALGO (at_ s1.(idx0)) s1.(l0) (at_ s1.(idx0)) ax1 s1.(bx0) s1.(bx1) cx1;
      Some (m0, cx0, m1, cx1)
    else
      m0 ← store_at s0.(l0) (at_ s0.(idx0)) (_mm_xor_si128 s0.(bx0) cx0);
      m1 ← store_at s1.(l0) (at_ s1.(idx0)) (_mm_xor_si128 s1.(bx0) cx1);
      Some (m0, cx0, m1, cx1));
  '(al0, ah0, idx0, cx0, division_result0, sqrt_result0, r0, m0) ← second_half tweak1_2_0 code0 s0 m0 ax0 cx0;
  '(al1, ah1, idx1, cx1, division_result1, sqrt_result1, r1, m1) ← second_half tweak1_2_1 code1 s1 m1 ax1 cx1;
  let bx01 := if BASE ALGO =? CN_2 then s0.(bx0) else s0.(bx1) in
  let bx11 := if BASE ALGO =? CN_2 then s1.(bx0) else s1.(bx1) in
  Some (Regs al0 ah0 idx0 cx0 bx01 conc_var0 division_result0 sqrt_result0 r0 m0,
        Regs al1 ah1 idx1 cx1 bx11 conc_var1 division_result1 sqrt_result1 r1 m1).

Fixpoint double_loop (n : nat) (tweak1_2_0 tweak1_2_1 : Z) (code0 code1 : list Variant4.V4_Instruction) (s0 s1 : regs) :
  option (regs * regs) :=
  match n with
  | O => Some (s0, s1)
  | S n =>
    '(s0, s1) ← double_iteration tweak1_2_0 tweak1_2_1 code0 code1 s0 s1;
    double_loop n tweak1_2_0 tweak1_2_1 code0 code1 s0 s1
  end.

(** [VARIANT1_INIT(part)] for inputs of [size] bytes. *)
Definition VARIANT1_INIT_part (part size : nat) (input st : list Z) : option Z :=
  if BASE ALGO =? CN_1 then x ← load64 input (35 + part * size); Some (Z.lxor x st.[24]) else Some 0.

(** [input] holds both inputs, [output] is 64 bytes. *)
Definition cryptonight_double_hash (turns : nat) (u0 u1 : locals) (input : list Z) (size : nat) (output : list Z)
    (ctx0 ctx1 : cryptonight_ctx) (height : Z) : option (list Z * cryptonight_ctx * cryptonight_ctx) :=
  if (BASE ALGO =? CN_1) && (size <? 43)%nat then Some (write_at 0 (replicate 64 0) output, ctx0, ctx1) else
  K0 ← keccak_size u0.(keccak_temp) (take size input);
  K1 ← keccak_size u1.(keccak_temp) (take size (drop size input));
  let ctx0 := set_state ctx0 (write_at 0 (lanes K0) ctx0.(state)) in
  let ctx1 := set_state ctx1 (write_at 0 (lanes K1) ctx1.(state)) in
  let h0 := ctx0.(state) in
  let h1 := ctx1.(state) in
  tweak1_2_0 ← VARIANT1_INIT_part 0 size input h0;
  tweak1_2_1 ← VARIANT1_INIT_part 1 size input h1;
  '(r0, code0) ← VARIANT4_RANDOM_MATH_INIT ALGO turns u0.(blake_ctx) h0 u0.(r_) u0.(code_) height;
  '(r1, code1) ← VARIANT4_RANDOM_MATH_INIT ALGO turns u1.(blake_ctx) h1 u1.(r_) u1.(code_) height;
  let ctx0 := if half_mem ALGO then set_first_half ctx0 true else ctx0 in
  let ctx1 := if half_mem ALGO then set_first_half ctx1 true else ctx1 in
  ctx0 ← cn_explode_scratchpad ALGO 0 ctx0;
  ctx1 ← cn_explode_scratchpad ALGO 0 ctx1;
  '(s0, s1) ← double_loop (Z.to_nat (iterations ALGO)) tweak1_2_0 tweak1_2_1 code0 code1
    (init_regs ctx0.(state) r0 ctx0.(memory)) (init_regs ctx1.(state) r1 ctx1.(memory));
  ctx0 ← cn_implode_scratchpad ALGO 0 (set_memory ctx0 s0.(l0));
  ctx1 ← cn_implode_scratchpad ALGO 0 (set_memory ctx1 s1.(l0));
  let st0 := write_at 0 (keccakf (take 25 ctx0.(state)) 24) ctx0.(state) in
  let st1 := write_at 0 (keccakf (take 25 ctx1.(state)) 24) ctx1.(state) in
  output ← extra_hashes u0 (Z.land (u8 st0.[0]) 3) (state_bytes st0) output;
  out1 ← extra_hashes u1 (Z.land (u8 st1.[0]) 3) (state_bytes st1) (drop 32 output);
  Some (take 32 output ++ out1, set_state ctx0 st0, set_state ctx1 st1).
End Double.

(** ** Two turns at once are a turn each *)

(** Both results, or none. *)
Definition both {T U} (x : option T) (y : option U) : option (T * U) := a ← x; b ← y; Some (a, b).

Section Equal.
Context (A : AesRounds) (a : Z).

(** A turn of the single hash, cut where the double hash changes sides. *)
Definition first_half_turn (s : regs) : option (list m128i * m128i * m128i) :=
  cx ← load_at s.(l0) (Z.land s.(idx0) (MASK a));
  let '(cx, conc_var) := if a =? CN_CCX then cryptonight_conceal_tweak cx s.(conc_var) else (cx, s.(conc_var)) in
  let ax := _mm_set_epi64x s.(ah0) s.(al0) in
  let cx := if IS_CN_HEAVY_TUBE a then aes_round_tweak_div cx ax else aesenc cx ax in
  '(m, cx) ← (if (BASE a =? CN_1) || (BASE a =? CN_2)
    then cryptonight_monero_tweak a (Z.land s.(idx0) (MASK a)) s.(l0) (Z.land s.(idx0) (MASK a)) ax s.(bx0) s.(bx1) cx
    else m ← store_at s.(l0) (Z.land s.(idx0) (MASK a)) (_mm_xor_si128 s.(bx0) cx); Some (m, cx));
  Some (m, cx, conc_var).
Definition second_half_turn (tweak : Z) (code : list Variant4.V4_Instruction) (s : regs) (f : list m128i * m128i * m128i) : option regs :=
  let '(m, cx, conc) := f in
  '(al, ah, idx, cx, dv, sq, r, m) ← second_half a tweak code s m (_mm_set_epi64x s.(ah0) s.(al0)) cx;
  Some (Regs al ah idx cx (if BASE a =? CN_2 then s.(bx0) else s.(bx1)) conc dv sq r m).

Lemma iteration_halves tweak code s :
  @iteration A a 0 tweak code s = (f ← first_half_turn s; second_half_turn tweak code s f).
Proof.
  unfold iteration, before_division, first_half_turn, second_half_turn, second_half, interleaved_index. cbn [Z.eqb]. cbv zeta.
  destruct (load_at (l0 s) (Z.land (idx0 s) (MASK a))) as [x |]; [do 2 next | done].
  destruct (if a =? CN_CCX then _ else _) as [x' conc]. set (c := if IS_CN_HEAVY_TUBE a then _ else _).
  destruct (if _ || _ then _ else _) as [[m c1] |]; [do 3 next | done].
  destruct (load_at m (Z.land (lo64 c1) (MASK a))) as [y |]; [do 2 next | done].
  destruct (variant_math a code s (lo64 y) c1) as [[[[[[al ah] cl] dv] sq] r] |]; [do 2 next | done].
  unfold _umul128. cbv zeta.
  destruct (variant_shuffle _ _ _ _ _ _ _ _ _) as [[[[m2 c2] hi] lo] |]; [do 2 next | done].
  destruct (store_at _ _ _) as [m3 |]; [do 3 next | done].
  cbn [al0 ah0 idx0 bx0 bx1 conc_var division_result sqrt_result r0 l0].
  destruct (if isHeavy a then _ else _) as [[m4 i] |]; [do 3 next; done | done].
Qed.

Lemma bind_both {T U V} (x : option T) (y : option U) (f : T -> U -> option V) :
  (a ← x; b ← y; f a b) = ('(a, b) ← both x y; f a b).
Proof. destruct x; [| done]. by destruct y. Qed.
Lemma both_bind {T T' U U'} (x : option T) (y : option U) (f : T -> option T') (g : U -> option U') :
  both (a ← x; f a) (b ← y; g b) = ('(a, b) ← both x y; both (f a) (g b)).
Proof. destruct x; [| done]. destruct y; [done |]. cbn. by destruct (f _). Qed.

Lemma tail_halves t0 t1 code0 code1 s0 s1 m0 d0 m1 d1 conc0 conc1 :
  ('(p0, p1, p2, cx0, dv0, sq0, p3, m0) ← second_half a t0 code0 s0 m0 (_mm_set_epi64x s0.(ah0) s0.(al0)) d0;
   '(q0, q1, q2, cx1, dv1, sq1, q3, m1) ← second_half a t1 code1 s1 m1 (_mm_set_epi64x s1.(ah0) s1.(al0)) d1;
   Some (Regs p0 p1 p2 cx0 (if BASE a =? CN_2 then s0.(bx0) else s0.(bx1)) conc0 dv0 sq0 p3 m0,
         Regs q0 q1 q2 cx1 (if BASE a =? CN_2 then s1.(bx0) else s1.(bx1)) conc1 dv1 sq1 q3 m1)) =
  both (second_half_turn t0 code0 s0 (m0, d0, conc0)) (second_half_turn t1 code1 s1 (m1, d1, conc1)).
Proof.
  unfold second_half_turn.
  destruct (second_half a t0 _ _ _ _ _) as [[[[[[[[? ?] ?] ?] ?] ?] ?] ?] |]; [do 2 next | done].
  by destruct (second_half a t1 _ _ _ _ _) as [[[[[[[[? ?] ?] ?] ?] ?] ?] ?] |].
Qed.

(** The first halves are interleaved more finely, the second ones run one
    after the other. *)
Lemma double_halves t0 t1 code0 code1 s0 s1 :
  @double_iteration A a t0 t1 code0 code1 s0 s1 =
  ('(f0, f1) ← both (first_half_turn s0) (first_half_turn s1);
   both (second_half_turn t0 code0 s0 f0) (second_half_turn t1 code1 s1 f1)).
Proof.
  unfold double_iteration, first_half_turn. cbv zeta. rewrite both_bind, bind_both.
  destruct (both (load_at (l0 s0) _) (load_at (l0 s1) _)) as [[x0 x1] |]; [do 2 next | done].
  destruct (if a =? CN_CCX then cryptonight_conceal_tweak x0 _ else _) as [y0 conc0].
  destruct (if a =? CN_CCX then cryptonight_conceal_tweak x1 _ else _) as [y1 conc1].
  set (c0 := if IS_CN_HEAVY_TUBE a then aes_round_tweak_div y0 _ else _).
  set (c1 := if IS_CN_HEAVY_TUBE a then aes_round_tweak_div y1 _ else _).
  destruct (_ || _).
  - destruct (cryptonight_monero_tweak _ _ (l0 s0) _ _ _ _ _) as [[m0 d0] |]; [next | done].
    destruct (cryptonight_monero_tweak _ _ (l0 s1) _ _ _ _ _) as [[m1 d1] |]; [| done]. apply tail_halves.
  - destruct (store_at (l0 s0) _ _) as [m0 |]; [next | done].
    destruct (store_at (l0 s1) _ _) as [m1 |]; [| done]. apply tail_halves.
Qed.

Lemma double_iteration_eq t0 t1 code0 code1 s0 s1 :
  @double_iteration A a t0 t1 code0 code1 s0 s1 = both (@iteration A a 0 t0 code0 s0) (@iteration A a 0 t1 code1 s1).
Proof. by rewrite double_halves, !iteration_halves, both_bind. Qed.

Lemma double_loop_eq n t0 t1 code0 code1 : forall s0 s1,
  @double_loop A a n t0 t1 code0 code1 s0 s1 = both (@main_loop A a 0 n t0 code0 s0) (@main_loop A a 0 n t1 code1 s1).
Proof.
  induction n as [| n IH]; intros s0 s1; [done |]. cbn [double_loop main_loop]. rewrite double_iteration_eq, both_bind.
  destruct (both (iteration _ _ _ _ s0) (iteration _ _ _ _ s1)) as [[x0 x1] |]; [do 2 next; apply IH | done].
Qed.
End Equal.

Section Hashes.
Context (A : AesRounds) `{!AesRoundsOk A} (a : Z) (Ha : a ∈ cn_algos).

Lemma tweak_parts size input st :
  length input = (2 * size)%nat -> (BASE a =? CN_1) && (size <? 43)%nat = false ->
  VARIANT1_INIT_part a 0 size input st = VARIANT1_INIT a (take size input) st /\
  VARIANT1_INIT_part a 1 size input st = VARIANT1_INIT a (drop size input) st.
Proof.
  intros Hl Hs. unfold VARIANT1_INIT_part, VARIANT1_INIT, load64. destruct (BASE a =? CN_1); [| done]. cbn [andb] in Hs.
  apply Nat.ltb_ge in Hs. rewrite length_take, length_drop, !(proj2 (Nat.leb_le _ _)) by lia. do 4 next.
  rewrite Nat.mul_0_l, Nat.mul_1_l, Nat.add_0_r, skipn_firstn_comm, take_take, drop_drop.
  replace (8 `min` (size - 35))%nat with 8%nat by lia. by replace (35 + size)%nat with (size + 35)%nat by lia.
Qed.

(** What the loop of one of the hashes starts from, and its end. *)
Definition start (turns : nat) (u : locals) (input : list Z) (c : cryptonight_ctx) (height : Z) :
  option (cryptonight_ctx * Z * list Variant4.V4_Instruction * regs) :=
  let c1 := exploded A a c in
  tweak ← VARIANT1_INIT a input c1.(state);
  '(r, code) ← VARIANT4_RANDOM_MATH_INIT a turns u.(blake_ctx) c1.(state) u.(r_) u.(code_) height;
  Some (c1, tweak, code, init_regs c1.(state) r c1.(memory)).

Lemma both_starts {T} turns u0 u1 input size ctx0 ctx1 height K0 K1
    (f : cryptonight_ctx * Z * list Variant4.V4_Instruction * regs -> cryptonight_ctx * Z * list Variant4.V4_Instruction * regs -> option T)
    (p0 := set_state ctx0 (write_at 0 (lanes K0) ctx0.(state))) (p1 := set_state ctx1 (write_at 0 (lanes K1) ctx1.(state)))
    (q0 := if half_mem a then set_first_half p0 true else p0) (q1 := if half_mem a then set_first_half p1 true else p1) :
  length input = (2 * size)%nat -> (BASE a =? CN_1) && (size <? 43)%nat = false ->
  ctx_shape a q0 -> ctx_shape a q1 ->
  (tweak1_2_0 ← VARIANT1_INIT_part a 0 size input p0.(state);
   tweak1_2_1 ← VARIANT1_INIT_part a 1 size input p1.(state);
   '(r0, code0) ← VARIANT4_RANDOM_MATH_INIT a turns u0.(blake_ctx) p0.(state) u0.(r_) u0.(code_) height;
   '(r1, code1) ← VARIANT4_RANDOM_MATH_INIT a turns u1.(blake_ctx) p1.(state) u1.(r_) u1.(code_) height;
   ctx0 ← cn_explode_scratchpad a 0 q0;
   ctx1 ← cn_explode_scratchpad a 0 q1;
   f (ctx0, tweak1_2_0, code0, init_regs ctx0.(state) r0 ctx0.(memory)) (ctx1, tweak1_2_1, code1, init_regs ctx1.(state) r1 ctx1.(memory)))
  = ('(s0, s1) ← both (start turns u0 (take size input) q0 height) (start turns u1 (drop size input) q1 height); f s0 s1).
Proof.
  intros Hl Hs S0 S1. rewrite (cn_explode_scratchpad_spec A a q0 Ha S0), (cn_explode_scratchpad_spec A a q1 Ha S1). unfold start, both.
  assert (E : forall p, (exploded A a (if half_mem a then set_first_half p true else p)).(state) = p.(state)).
  { intros p. unfold exploded. by destruct (half_mem a); cbn [andb first_half set_first_half]; destruct (first_half p). }
  assert (E0 : (exploded A a q0).(state) = p0.(state)) by apply E. assert (E1 : (exploded A a q1).(state) = p1.(state)) by apply E.
  cbv zeta. rewrite E0, E1. destruct (tweak_parts size input p0.(state) Hl Hs) as [-> _]. destruct (tweak_parts size input p1.(state) Hl Hs) as [_ ->].
  destruct (VARIANT1_INIT a (take size input) _) as [t0 |]; [do 2 next | done].
  destruct (VARIANT1_INIT a (drop size input) _) as [t1 |]; [do 2 next |].
  2: { by destruct (VARIANT4_RANDOM_MATH_INIT a turns (blake_ctx u0) _ _ _ _) as [[? ?] |]. }
  destruct (VARIANT4_RANDOM_MATH_INIT a turns (blake_ctx u0) _ _ _ _) as [[r0 code0] |]; [do 3 next | done].
  destruct (VARIANT4_RANDOM_MATH_INIT a turns (blake_ctx u1) _ _ _ _) as [[r1 code1] |]; [do 5 next | done].
  by rewrite E0, E1.
Qed.

(** A single hash from there. *)
Definition from_start (u : locals) (output : list Z) (s : cryptonight_ctx * Z * list Variant4.V4_Instruction * regs) :
  option (list Z * cryptonight_ctx) :=
  let '(c, tweak, code, s) := s in
  s ← main_loop a 0 (Z.to_nat (iterations a)) tweak code s;
  finish u output (imploded A a (set_memory c s.(l0))).

Lemma single_from_start turns u input output ctx height :
  locals_ok u -> bytes input -> ctx_ok a ctx -> (BASE a =? CN_1) && (length input <? 43)%nat = false ->
  cryptonight_single_hash a 0 turns u input output ctx height =
  (c ← absorb_input a u input ctx; s ← start turns u input c height; from_start u output s).
Proof.
  intros Hu Hi Hc Hs. rewrite (single_hash_unfold a Ha A), Hs, (before_loop_unfold a Ha A) by done.
  destruct (absorb_input a u input ctx) as [c |]; [repeat next | done]. unfold start.
  destruct (VARIANT1_INIT _ _ _); [repeat next | done]. by destruct (VARIANT4_RANDOM_MATH_INIT _ _ _ _ _ _ _) as [[? ?] |].
Qed.

(** The invariants there. *)
Definition in_order (s : cryptonight_ctx * Z * list Variant4.V4_Instruction * regs) : Prop :=
  let '(c, tweak, code, s) := s in
  ctx_ok a c /\ match main_loop a 0 (Z.to_nat (iterations a)) tweak code s with Some s => regs_inv a s | None => True end.

(** The loop of one of the hashes keeps its invariant. *)
Lemma start_inv turns u input ctx height c s :
  locals_ok u -> bytes input -> ctx_ok a ctx -> absorb_input a u input ctx = Some c -> start turns u input c height = Some s ->
  in_order s.
Proof.
  intros Hu Hi Hc Ea Es. destruct s as [[[c1 tweak] code] s].
  assert (E : before_loop a 0 turns u input ctx height = Some (c1, tweak, code, s))
    by (rewrite (before_loop_unfold a Ha A), Ea by done; next; exact Es).
  destruct (before_loop_ok a Ha A turns u input ctx height c1 tweak code s Hu Hi Hc E) as (H1 & Ht & Hcode & Hs).
  split; [done |]. pose proof (main_loop_ok a Ha A tweak code (Z.to_nat (iterations a)) s Ht Hcode Hs) as HL.
  by destruct (main_loop _ _ _ _ _ _).
Qed.

Lemma second_fails {S T U V} (x : option (S * T)) (g : S -> option U) (k : S -> T -> U -> option V) :
  (forall o, g o = None) -> ('(o0, c0) ← x; r ← g o0; k o0 c0 r) = None.
Proof. intros H. destruct x as [[o c] |]; [next | done]. by rewrite H. Qed.

(** The two hashes from there. *)
Definition rest_of_both (u0 u1 : locals) (output : list Z) (s0 s1 : cryptonight_ctx * Z * list Variant4.V4_Instruction * regs) :
  option (list Z * cryptonight_ctx * cryptonight_ctx) :=
  let '(ctx0, tweak0, code0, s0) := s0 in
  let '(ctx1, tweak1, code1, s1) := s1 in
  '(s0, s1) ← double_loop a (Z.to_nat (iterations a)) tweak0 tweak1 code0 code1 s0 s1;
  ctx0 ← cn_implode_scratchpad a 0 (set_memory ctx0 s0.(l0));
  ctx1 ← cn_implode_scratchpad a 0 (set_memory ctx1 s1.(l0));
  let st0 := write_at 0 (keccakf (take 25 ctx0.(state)) 24) ctx0.(state) in
  let st1 := write_at 0 (keccakf (take 25 ctx1.(state)) 24) ctx1.(state) in
  output ← extra_hashes u0 (Z.land (u8 st0.[0]) 3) (state_bytes st0) output;
  out1 ← extra_hashes u1 (Z.land (u8 st1.[0]) 3) (state_bytes st1) (drop 32 output);
  Some (take 32 output ++ out1, set_state ctx0 st0, set_state ctx1 st1).

Lemma rest_of_both_eq u0 u1 output s0 s1 : in_order s0 -> in_order s1 ->
  rest_of_both u0 u1 output s0 s1
  = ('(o0, c0) ← from_start u0 output s0; '(o1, c1) ← from_start u1 (drop 32 o0) s1; Some (take 32 o0 ++ o1, c0, c1)).
Proof.
  destruct s0 as [[[c0 t0] code0] s0], s1 as [[[c1 t1] code1] s1]. intros [C0 L0] [C1 L1].
  unfold rest_of_both, from_start. rewrite double_loop_eq. unfold both.
  destruct (main_loop a 0 _ t0 code0 s0) as [x0 |]; [repeat next | done].
  destruct (main_loop a 0 _ t1 code1 s1) as [x1 |]; [repeat next |].
  2: { symmetry. apply second_fails. done. }
  destruct (after_loop_ok a Ha A c0 x0 C0 L0) as [S0 _]. destruct (after_loop_ok a Ha A c1 x1 C1 L1) as [S1 _].
  rewrite (cn_implode_scratchpad_spec A a _ Ha S0), (cn_implode_scratchpad_spec A a _ Ha S1). repeat next. unfold finish.
  destruct (extra_hashes u0 _ _ output) as [o0 |]; [repeat next | done].
  by destruct (extra_hashes u1 _ _ _) as [o1 |]; [repeat next |].
Qed.

Lemma double_hash_spec turns u0 u1 input size output ctx0 ctx1 height :
  locals_ok u0 -> locals_ok u1 -> bytes input -> length input = (2 * size)%nat -> length output = 64%nat ->
  ctx_ok a ctx0 -> ctx_ok a ctx1 ->
  cryptonight_double_hash a turns u0 u1 input size output ctx0 ctx1 height =
  ('(o0, c0) ← cryptonight_single_hash a 0 turns u0 (take size input) output ctx0 height;
   '(o1, c1) ← cryptonight_single_hash a 0 turns u1 (drop size input) (drop 32 o0) ctx1 height;
   Some (take 32 o0 ++ o1, c0, c1)).
Proof.
  intros Hu0 Hu1 Hi Hl Ho H0 H1.
  assert (Hi0 : bytes (take size input)) by by apply Forall_take.
  assert (Hi1 : bytes (drop size input)) by by apply Forall_drop.
  unfold cryptonight_double_hash. destruct (_ && _) eqn:Es.
  { unfold cryptonight_single_hash. rewrite length_take, length_drop, Nat.min_l, Es by lia. next.
    replace (length input - size)%nat with size by lia. rewrite Es. next.
    do 40 (destruct output as [| ? output]; [done |]). do 25 (destruct output as [| ? output]; [done |]). done. }
  rewrite (take_ge (drop size input)) by (rewrite length_drop; lia).
  assert (E1 : forall o, cryptonight_single_hash a 0 turns u1 (drop size input) o ctx1 height =
    (c ← absorb_input a u1 (drop size input) ctx1; s ← start turns u1 (drop size input) c height; from_start u1 o s)).
  { intros o. apply single_from_start; [done .. |]. rewrite length_drop. by replace (length input - size)%nat with size by lia. }
  rewrite single_from_start; [| done .. | by rewrite length_take, Nat.min_l by lia].
  unfold absorb_input in *.
  destruct (keccak_size _ (take size input)) as [K0 |] eqn:EK0; [do 3 next | done].
  destruct (keccak_size _ (drop size input)) as [K1 |] eqn:EK1.
  2: { symmetry. apply second_fails. intros o. by rewrite E1. }
  set (q0 := if half_mem a then set_first_half (set_state ctx0 _) true else _). next.
  set (q1 := if half_mem a then set_first_half (set_state ctx1 _) true else _) in *.
  assert (A0 : absorb_input a u0 (take size input) ctx0 = Some q0) by (unfold absorb_input; by rewrite EK0).
  assert (A1 : absorb_input a u1 (drop size input) ctx1 = Some q1) by (unfold absorb_input; by rewrite EK1).
  pose proof (absorb_input_ok a u0 _ ctx0 q0 Hu0 Hi0 H0 A0) as Q0. pose proof (absorb_input_ok a u1 _ ctx1 q1 Hu1 Hi1 H1 A1) as Q1.
  assert (S0 : ctx_shape a q0) by by destruct Q0. assert (S1 : ctx_shape a q1) by by destruct Q1.
  etransitivity; [apply (both_starts turns u0 u1 input size ctx0 ctx1 height K0 K1 (rest_of_both u0 u1 output) Hl Es S0 S1) |].
  fold q0 q1. pose proof (start_inv turns u0 (take size input) ctx0 height q0) as L0. pose proof (start_inv turns u1 (drop size input) ctx1 height q1) as L1.
  assert (E2 : forall o, cryptonight_single_hash a 0 turns u1 (drop size input) o ctx1 height = (s ← start turns u1 (drop size input) q1 height; from_start u1 o s)) by exact E1.
  clear E1. unfold both. destruct (start turns u0 (take size input) q0 height) as [s0 |]; [repeat next | done].
  destruct (start turns u1 (drop size input) q1 height) as [s1 |]; [repeat next | symmetry; apply second_fails; intros o; by rewrite E2].
  specialize (L0 s0 Hu0 Hi0 H0 A0 eq_refl). specialize (L1 s1 Hu1 Hi1 H1 A1 eq_refl).
  rewrite rest_of_both_eq by done. destruct (from_start u0 output s0) as [[o0 c0] |]; [repeat next | done]. by rewrite E2.
Qed.
End Hashes.
