(* ===== verification/CnSpec.v ===== *)
(** * CryptoNight as published, and the code as its refinement

    [CnSpec] is the hash of the CryptoNight standard on blocks of 16 bytes,
    with the tweaks of Monero's variants 1 and 2 as options.  The theorems
    cover the algorithms with the base variants 0, 1 and 2 that are neither
    heavy nor Conceal's nor CryptoNightR: for those that keep half of their
    scratchpad they say that the half and the second generation give the hash
    with the whole scratchpad. *)

From S2P Require Import Prelude Endian Streaming SoftAes KeccakP KeccakSponge XmrKeccak CnMath CnAlgo Scratchpad CryptoNight CnDouble.
From S2P Require Blake256 Jh Groestl Skein Variant4.

Module CnSpec.
(** A block of 16 bytes is an [m128i], two little-endian numbers. *)
Definition blocks (n : nat) (l : list Z) : list m128i := map vec_of_bytes (pieces 16 n l).
Definition aes_round (b key : m128i) : m128i := vec_of_bytes (Aes.round (vec_bytes b) (vec_bytes key)).
(** Ten rounds with the first ten round keys of AES-256. *)
Definition encrypt (key : list Z) (b : m128i) : m128i :=
  fold_left (fun b j => vec_of_bytes (Aes.round (vec_bytes b) (Aes.round_key key 40 j))) (seq 0 10) b.

(** The scratchpad: [n] groups of eight blocks, each the encryption of the
    group before; and its absorption into eight blocks. *)
Fixpoint fill (n : nat) (key : list Z) (x : list m128i) : list m128i :=
  match n with O => [] | S n => let x := map (encrypt key) x in x ++ fill n key x end.
Fixpoint absorb (n : nat) (key : list Z) (pad x : list m128i) : list m128i :=
  match n with
  | O => x
  | S n => absorb n key (drop 8 pad) (map (encrypt key) (zip_with _mm_xor_si128 (take 8 pad) x))
  end.

(** The size of the scratchpad in groups of 128 bytes, the part that the loop
    addresses in blocks, the turns of the loop, the tweaks of variant 1 (also
    Arto's), those of variant 2 (also with two chunks exchanged). *)
Record params := {
  pad_groups : nat; loop_blocks : Z; turns : nat; monero7 : bool; arto : bool; monero8 : bool; reversed : bool }.

(** [b1], [division] and [root] are those of variant 2: the [b] of the turn
    before, and the results of the last integer computations. *)
Record loop_state := { a : m128i; b : m128i; b1 : m128i; division : Z; root : Z; pad : list m128i }.
Definition address (p : params) (x : m128i) : nat := Z.to_nat ((x.(lo64) / 16) mod p.(loop_blocks)).
Definition block (pad : list m128i) (i : nat) : m128i := nth i pad (M128 0 0).
Definition add64 (x y : m128i) : m128i := M128 ((x.(lo64) + y.(lo64)) mod 2 ^ 64) ((x.(hi64) + y.(hi64)) mod 2 ^ 64).

(** The other blocks of a group of four. *)
Definition other (i : nat) (k : Z) : nat := Z.to_nat (Z.lxor (Z.of_nat i) k).
Definition shuffle_add (reversed : bool) (pad : list m128i) (i : nat) (a b b1 : m128i) : list m128i :=
  let c1 := block pad (other i 1) in
  let c2 := block pad (other i 2) in
  let c3 := block pad (other i 3) in
  <[other i 3 := add64 c2 a]> (<[other i 2 := add64 (if reversed then c3 else c1) b]>
    (<[other i 1 := add64 (if reversed then c1 else c3) b1]> pad)).

(** The two halves of a turn: the AES round at [a], and the product at [c]. *)
Definition first_half (p : params) (s : loop_state) : m128i * list m128i :=
  let i := address p s.(a) in
  let c := aes_round (block s.(pad) i) s.(a) in
  let pad := if p.(monero8) then shuffle_add p.(reversed) s.(pad) i s.(a) s.(b) s.(b1) else s.(pad) in
  let t := _mm_xor_si128 s.(b) c in
  (c, <[i := if p.(monero7) then vec_of_bytes (VARIANT1_1 (vec_bytes t)) else t]> pad).
Definition second_half (p : params) (tweak : Z) (s : loop_state) (c : m128i) (pad : list m128i) : loop_state :=
  let j := address p c in
  let d := block pad j in
  let '(cl, division, root) :=
    if p.(monero8) then integer_math s.(division) s.(root) d.(lo64) c.(lo64) c.(hi64) else (d.(lo64), s.(division), s.(root)) in
  let product := M128 (c.(lo64) * cl / 2 ^ 64) ((c.(lo64) * cl) mod 2 ^ 64) in
  let pad1 := <[other j 1 := _mm_xor_si128 (block pad (other j 1)) product]> pad in
  let pad2 := if p.(monero8) then shuffle_add p.(reversed) pad1 j s.(a) s.(b) s.(b1) else pad in
  let product := if p.(monero8) then _mm_xor_si128 product (block pad (other j 2)) else product in
  let x := add64 s.(a) product in
  let y := if p.(arto) then Z.lxor (Z.lxor x.(hi64) tweak) x.(lo64) else if p.(monero7) then Z.lxor x.(hi64) tweak else x.(hi64) in
  {| a := M128 (Z.lxor x.(lo64) cl) (Z.lxor x.(hi64) d.(hi64)); b := c; b1 := s.(b);
     division := division; root := root; pad := <[j := M128 x.(lo64) y]> pad2 |}.
Definition step (p : params) (tweak : Z) (s : loop_state) : loop_state :=
  let '(c, pad) := first_half p s in second_half p tweak s c pad.

(** The number whose root variant 2 takes in a turn with [c]. *)
Definition root_argument (s : loop_state) (c : m128i) : Z :=
  u64 (c.(lo64) + (integer_math s.(division) s.(root) 0 c.(lo64) c.(hi64)).1.2).
Definition turn_root (p : params) (s : loop_state) : Z := root_argument s (first_half p s).1.

Definition final_hash (i : Z) (m : list Z) : list Z :=
  if i =? 0 then Blake256.Blake.blake256 m
  else if i =? 1 then Groestl.GroestlSpec.hash m
  else if i =? 2 then Jh.JhSpec.hash 256 m
  else Skein.SkeinSpec.skein 256 m false.

(** The Keccak state of the input, and its parts. *)
Definition keccak_state (input : list Z) : list Z := absorbed P24 136 (padded 136 input 1).
Definition bytes_of (K : list Z) (i n : nat) : list Z := take n (drop i K).
Definition text_of (K : list Z) : list m128i := blocks 8 (bytes_of K 64 128).
Definition tweak_of (p : params) (input K : list Z) : Z :=
  if p.(monero7) then Z.lxor (le_word (take 8 (drop 35 input))) (le_word (bytes_of K 192 8)) else 0.
Definition xor_blocks (K : list Z) (i j : nat) : m128i := _mm_xor_si128 (vec_of_bytes (bytes_of K i 16)) (vec_of_bytes (bytes_of K j 16)).
Definition loop_start (p : params) (K : list Z) : loop_state := {|
  a := xor_blocks K 0 32; b := xor_blocks K 16 48; b1 := xor_blocks K 64 80;
  division := le_word (bytes_of K 96 8); root := u32 (le_word (bytes_of K 104 8));
  pad := fill p.(pad_groups) (bytes_of K 0 32) (text_of K) |}.
Definition after_turns (p : params) (input : list Z) (n : nat) : loop_state :=
  let K := keccak_state input in Nat.iter n (step p (tweak_of p input K)) (loop_start p K).

(** Variant 1 has no hash for inputs that are too short for its nonce. *)
Definition hash (p : params) (input : list Z) : list Z :=
  let K := keccak_state input in
  let s := after_turns p input p.(turns) in
  let text := absorb p.(pad_groups) (bytes_of K 32 32) s.(pad) (text_of K) in
  let F := P24 (take 64 K ++ concat (map vec_bytes text) ++ drop 192 K) in
  final_hash (F.[0] mod 4) F.
End CnSpec.

(** The parameters of an algorithm. *)
Definition params_of (ALGO : Z) : CnSpec.params := {|
  CnSpec.pad_groups := Z.to_nat (CnAlgo.memory ALGO / 128);
  CnSpec.loop_blocks := (mask ALGO + 16) / 16;
  CnSpec.turns := Z.to_nat (iterations ALGO);
  CnSpec.monero7 := base ALGO =? CN_1;
  CnSpec.arto := ALGO =? CN_RTO;
  CnSpec.monero8 := base ALGO =? CN_2;
  CnSpec.reversed := (ALGO =? CN_RWZ) || (ALGO =? CN_UPX2) |}.

(** The algorithms of the theorems: those without random programs, divisions
    of the heavy kind and floating-point tweak; first those with the base
    variants 0 and 1. *)
Definition plain (ALGO : Z) : bool := negb (isR ALGO) && negb (isHeavy ALGO) && negb (ALGO =? CN_CCX).
Definition classic (ALGO : Z) : bool := negb (base ALGO =? CN_2) && negb (isHeavy ALGO) && negb (ALGO =? CN_CCX).

(** ** The rounds *)

Section Rounds.
Context (A : AesRounds) `{!AesRoundsOk A}.

Lemma encrypt_spec m0 m1 x (k := aes_genkey m0 m1) :
  vec m0 -> vec m1 -> Forall vec x ->
  ten_rounds k x = map (CnSpec.encrypt (vec_bytes m0 ++ vec_bytes m1)) x.
Proof.
  intros H0 H1 Hx. destruct (aes_genkey_schedule A m0 m1 H0 H1) as (Hv & Hl & E). fold k in Hv, Hl, E.
  assert (EK : forall j, (j < 10)%nat -> vec_bytes (nth j k (M128 0 0)) = Aes.round_key (vec_bytes m0 ++ vec_bytes m1) 40 j).
  { intros j Hj. unfold Aes.round_key. by rewrite E, words_of_keys by by rewrite Hl. }
  clearbody k. clear E. assert (Ek : k = map (fun j => nth j k (M128 0 0)) (seq 0 10)).
  { clear -Hl. do 10 (destruct k as [| ? k]; [done |]). by destruct k. }
  assert (G : forall l x, Forall (fun j => (j < 10)%nat) l -> Forall vec x ->
    fold_left (fun x key => aes_round key x) (map (fun j => nth j k (M128 0 0)) l) x
    = map (fun b => fold_left (fun b j => vec_of_bytes (Aes.round (vec_bytes b) (Aes.round_key (vec_bytes m0 ++ vec_bytes m1) 40 j))) l b) x).
  { clear x Hx. induction l as [| j l IH]; intros x Hj Hx; [by rewrite map_id |].
    apply Forall_cons_1 in Hj as [Hj Hl']. cbn [map fold_left].
    assert (Vj : vec (nth j k (M128 0 0))) by (rewrite List.Forall_forall in Hv; apply Hv, nth_In; lia).
    rewrite IH; [| exact Hl' | by apply (aes_round_vec A)]. unfold aes_round. rewrite map_map. apply map_ext_in. intros y Hy.
    rewrite List.Forall_forall in Hx. rewrite <- EK, <- aesenc_ok; [| by apply Hx | done | done].
    by rewrite vec_of_vec_bytes by (apply aesenc_vec; [by apply Hx | done]). }
  unfold ten_rounds, CnSpec.encrypt. rewrite Ek. apply G; [| done]. apply List.Forall_forall. intros j Hj. apply in_seq in Hj. lia.
Qed.

Lemma fill_spec m0 m1 n : vec m0 -> vec m1 -> forall x, Forall vec x ->
  fill A n (aes_genkey m0 m1) x = CnSpec.fill n (vec_bytes m0 ++ vec_bytes m1) x.
Proof.
  intros H0 H1. induction n as [| n IH]; intros x Hx; [done |]. cbn [fill CnSpec.fill]. cbv zeta.
  assert (V : Forall vec (ten_rounds (aes_genkey m0 m1) x)) by (apply ten_rounds_vec; [done | by apply genkey_vec | done]).
  rewrite IH by done. by rewrite <- encrypt_spec by done.
Qed.

Lemma absorb_spec m0 m1 n : vec m0 -> vec m1 -> forall pad x, Forall vec pad -> Forall vec x ->
  fold_in n (ten_rounds (aes_genkey m0 m1)) pad x = CnSpec.absorb n (vec_bytes m0 ++ vec_bytes m1) pad x.
Proof.
  intros H0 H1. induction n as [| n IH]; intros pad x Hp Hx; [done |]. cbn [fold_in CnSpec.absorb].
  assert (V : Forall vec (zip_with _mm_xor_si128 (take 8 pad) x)) by (by apply zip_xor_vec; [apply Forall_take |]).
  rewrite IH; [by rewrite <- encrypt_spec by done | by apply Forall_drop |].
  by apply ten_rounds_vec; [| apply genkey_vec |].
Qed.
End Rounds.

(** ** One turn of the loop *)

Section Loop.
Context (A : AesRounds) `{!AesRoundsOk A} (a : Z) (Ha : a ∈ cn_algos) (Hcl : plain a = true).
Let n := Z.to_nat (N a).
Let p := params_of a.

Lemma plain_flags : isHeavy a = false /\ (a =? CN_CCX) = false /\ (a =? CN_R) = false /\ IS_CN_HEAVY_TUBE a = false.
Proof.
  unfold plain in Hcl. apply andb_true_iff in Hcl as [H H3]. apply andb_true_iff in H as [H1 H2].
  apply negb_true_iff in H1, H2, H3. split_and!; try done.
  unfold IS_CN_HEAVY_TUBE. destruct (Z.eqb_spec a CN_HEAVY_TUBE) as [-> |]; [by vm_compute in H2 | done].
Qed.

(** Scratchpads that agree where the loop can address them. *)
Definition agree (l l' : list m128i) : Prop :=
  (n <= length l)%nat /\ (n <= length l')%nat /\ forall q, (q < n)%nat -> l !! q = l' !! q.

Lemma agree_insert l l' q x : agree l l' -> agree (<[q := x]> l) (<[q := x]> l').
Proof.
  intros (Hl & Hl' & H). split; [by rewrite length_insert |]. split; [by rewrite length_insert |].
  intros i Hi. destruct (decide (i = q)) as [-> | Hne].
  - by rewrite !list_lookup_insert_eq by lia.
  - rewrite !list_lookup_insert_ne by done. by apply H.
Qed.
Lemma agree_block l l' q : agree l l' -> (q < n)%nat -> CnSpec.block l q = CnSpec.block l' q.
Proof.
  intros (Hl & Hl' & H) Hq. unfold CnSpec.block. destruct (l' !! q) as [x |] eqn:E.
  - by rewrite (nth_lookup_Some l' _ _ _ E), (nth_lookup_Some l _ _ x) by by rewrite H.
  - apply lookup_ge_None in E. lia.
Qed.
Lemma agree_other l l' rev i x y z : agree l l' -> (forall k, 0 <= k < 4 -> (CnSpec.other i k < n)%nat) ->
  agree (CnSpec.shuffle_add rev l i x y z) (CnSpec.shuffle_add rev l' i x y z).
Proof.
  intros H Hi. unfold CnSpec.shuffle_add.
  rewrite !(agree_block l l') by (apply H || (apply Hi; lia)). by repeat apply agree_insert.
Qed.

(** The registers and the addressed part of the scratchpad. *)
Record related (s : regs) (t : CnSpec.loop_state) : Prop := {
  rel_a : M128 s.(al0) s.(ah0) = t.(CnSpec.a); rel_idx : s.(idx0) = s.(al0); rel_b : s.(bx0) = t.(CnSpec.b);
  rel_v2 : BASE a = CN_2 ->
    s.(bx1) = t.(CnSpec.b1) /\ s.(division_result) = t.(CnSpec.division) /\ u32 s.(sqrt_result) = t.(CnSpec.root);
  rel_pad : agree s.(l0) t.(CnSpec.pad) }.

Lemma address_lane x : CnSpec.address p x = Z.to_nat (lane a x.(lo64)) /\ (CnSpec.address p x < n)%nat.
Proof.
  destruct (geometry a Ha) as (E & _ & R & _). unfold CnSpec.address, p, params_of, lane, n. cbn [CnSpec.loop_blocks].
  rewrite <- E, Z.mul_comm, Z.div_mul by lia. pose proof (Z.mod_pos_bound (lo64 x / 16) (N a) ltac:(lia)). lia.
Qed.

(** ** The accesses of the code *)

Lemma other_lane i k : 0 <= k < 4 ->
  Z.lxor (Z.land i (mask a)) (16 * k) = 16 * Z.of_nat (CnSpec.other (Z.to_nat (lane a i)) k) /\
  (CnSpec.other (Z.to_nat (lane a i)) k < n)%nat.
Proof.
  intros Hk. destruct (mask_lane a Ha i) as [E L]. destruct (shuffle_lane a Ha i k Hk) as [E' L'].
  unfold CnSpec.other, n. rewrite E', (Z2Nat.id (lane a i)) by lia. rewrite Z2Nat.id by lia. split; [done | lia].
Qed.
Lemma load_block mem q : pad_ok a mem -> (q < n)%nat -> load_at mem (16 * Z.of_nat q) = Some (CnSpec.block mem q) /\ vec (CnSpec.block mem q).
Proof.
  intros Hm Hq. destruct (load_at_ok a mem (Z.of_nat q) Hm ltac:(lia)) as (x & Hx & Lx & Vx). rewrite Nat2Z.id in Lx.
  unfold CnSpec.block. by rewrite (nth_lookup_Some mem _ _ _ Lx).
Qed.
Lemma store_block mem q x : pad_ok a mem -> (q < n)%nat -> vec x ->
  store_at mem (16 * Z.of_nat q) x = Some (<[q := x]> mem) /\ pad_ok a (<[q := x]> mem).
Proof. intros Hm Hq Hx. destruct (store_at_ok a mem (Z.of_nat q) x Hm ltac:(lia) Hx) as [E H]. by rewrite Nat2Z.id in E, H. Qed.

Lemma add64_eq x y : _mm_add_epi64 x y = CnSpec.add64 x y.
Proof. unfold _mm_add_epi64, CnSpec.add64. by rewrite !u64_mod. Qed.
Lemma add64_vec x y : vec (CnSpec.add64 x y).
Proof. rewrite <- add64_eq. apply add_epi64_vec. Qed.

(** The three stores of a shuffle. *)
Lemma shuffle_stores mem i x1 x2 x3 (q := fun k => CnSpec.other (Z.to_nat (lane a i)) k) :
  pad_ok a mem -> vec x1 -> vec x2 -> vec x3 ->
  let m' := <[q 3 := x3]> (<[q 2 := x2]> (<[q 1 := x1]> mem)) in
  pad_ok a m' /\ forall T (f : list m128i -> option T),
  (m ← store_at mem (16 * Z.of_nat (q 1)) x1; m ← store_at m (16 * Z.of_nat (q 2)) x2; m ← store_at m (16 * Z.of_nat (q 3)) x3; f m) = f m'.
Proof.
  intros Hm H1 H2 H3. cbv zeta.
  destruct (store_block mem (q 1) x1 Hm ltac:(by apply other_lane) H1) as [E1 M1].
  destruct (store_block _ (q 2) x2 M1 ltac:(by apply other_lane) H2) as [E2 M2].
  destruct (store_block _ (q 3) x3 M2 ltac:(by apply other_lane) H3) as [E3 M3].
  split; [done |]. intros T f. rewrite E1. next. rewrite E2. next. rewrite E3. by next.
Qed.

Lemma VARIANT2_SHUFFLE_eq mem i x y z c rev : pad_ok a mem -> (a =? CN_R) = false ->
  let m' := CnSpec.shuffle_add rev mem (Z.to_nat (lane a i)) x y z in
  VARIANT2_SHUFFLE a mem (Z.land i (mask a)) x y z c rev = Some (m', c) /\ pad_ok a m'.
Proof.
  intros Hm HR. cbv zeta. unfold VARIANT2_SHUFFLE. rewrite HR. change 0x10 with (16 * 1). change 0x20 with (16 * 2). change 0x30 with (16 * 3).
  replace (if rev then 16 * 3 else 16 * 1) with (16 * (if rev then 3 else 1)) by by destruct rev.
  replace (if rev then 16 * 1 else 16 * 3) with (16 * (if rev then 1 else 3)) by by destruct rev.
  assert (HL : forall k, 0 <= k < 4 -> load_at mem (Z.lxor (Z.land i (mask a)) (16 * k)) = Some (CnSpec.block mem (CnSpec.other (Z.to_nat (lane a i)) k))).
  { intros k Hk. destruct (other_lane i k Hk) as [-> Hq]. by apply load_block. }
  rewrite !HL by (destruct rev; lia). do 3 next.
  destruct (other_lane i 1) as [-> _]; [lia |]. destruct (other_lane i 2) as [-> _]; [lia |]. destruct (other_lane i 3) as [-> _]; [lia |].
  rewrite !add64_eq.
  destruct (shuffle_stores mem i (CnSpec.add64 (CnSpec.block mem (CnSpec.other (Z.to_nat (lane a i)) (if rev then 1 else 3))) z)
    (CnSpec.add64 (CnSpec.block mem (CnSpec.other (Z.to_nat (lane a i)) (if rev then 3 else 1))) y)
    (CnSpec.add64 (CnSpec.block mem (CnSpec.other (Z.to_nat (lane a i)) 2)) x)) as [Hp E]; [done | apply add64_vec .. |].
  rewrite E. unfold CnSpec.shuffle_add. by destruct rev.
Qed.

Lemma other_ne j k l : 0 <= k < 4 -> 0 <= l < 4 -> k <> l -> CnSpec.other j k <> CnSpec.other j l.
Proof.
  intros Hk Hl Hne E. apply Hne. unfold CnSpec.other in E.
  assert (forall c, 0 <= c < 4 -> 0 <= Z.lxor (Z.of_nat j) c) by (intros; apply Z.lxor_nonneg; lia).
  apply Z2Nat.inj in E; [| auto ..]. rewrite <- (Z.lxor_0_l k), <- (Z.lxor_0_l l), <- (Z.lxor_nilpotent (Z.of_nat j)), !Z.lxor_assoc. by rewrite E.
Qed.
Lemma block_insert_ne (mem : list m128i) q r x : q <> r -> CnSpec.block (<[q := x]> mem) r = CnSpec.block mem r.
Proof. intros H. unfold CnSpec.block. rewrite !nth_lookup. by rewrite list_lookup_insert_ne. Qed.
Lemma block_insert_eq (mem : list m128i) q x : (q < length mem)%nat -> CnSpec.block (<[q := x]> mem) q = x.
Proof. intros H. unfold CnSpec.block. rewrite nth_lookup. by rewrite list_lookup_insert_eq. Qed.

(** The shuffle that also mixes the product into the group. *)
Lemma VARIANT2_SHUFFLE2_eq mem i x y z hi lo rev (j := Z.to_nat (lane a i)) (product := M128 hi lo) :
  pad_ok a mem -> word 64 hi -> word 64 lo ->
  let pad1 := <[CnSpec.other j 1 := _mm_xor_si128 (CnSpec.block mem (CnSpec.other j 1)) product]> mem in
  let product' := _mm_xor_si128 product (CnSpec.block mem (CnSpec.other j 2)) in
  VARIANT2_SHUFFLE2 mem (Z.land i (mask a)) x y z hi lo rev
  = Some (CnSpec.shuffle_add rev pad1 j x y z, product'.(lo64), product'.(hi64)) /\
  pad_ok a (CnSpec.shuffle_add rev pad1 j x y z).
Proof.
  intros Hm Hh Hl. cbv zeta. unfold VARIANT2_SHUFFLE2. change 0x10 with (16 * 1). change 0x20 with (16 * 2). change 0x30 with (16 * 3).
  assert (HL : forall k, 0 <= k < 4 -> load_at mem (Z.lxor (Z.land i (mask a)) (16 * k)) = Some (CnSpec.block mem (CnSpec.other j k)) /\
    vec (CnSpec.block mem (CnSpec.other j k))).
  { intros k Hk. destruct (other_lane i k Hk) as [-> Hq]. by apply load_block. }
  destruct (HL 1) as [-> V1]; [lia |]. next. destruct (HL 2) as [-> V2]; [lia |]. next. destruct (HL 3) as [-> V3]; [lia |]. next. cbv zeta.
  destruct (other_lane i 1) as [-> R1]; [lia |]. destruct (other_lane i 2) as [-> _]; [lia |]. destruct (other_lane i 3) as [-> _]; [lia |].
  fold j in R1 |- *. rewrite !add64_eq. change (_mm_set_epi64x lo hi) with product.
  set (k1 := _mm_xor_si128 _ product).
  destruct (shuffle_stores mem i (CnSpec.add64 (if rev then k1 else CnSpec.block mem (CnSpec.other j 3)) z)
    (CnSpec.add64 (if rev then CnSpec.block mem (CnSpec.other j 3) else k1) y)
    (CnSpec.add64 (CnSpec.block mem (CnSpec.other j 2)) x)) as [Hp E]; [done | apply add64_vec .. |].
  fold j in Hp, E. rewrite E. unfold CnSpec.shuffle_add.
  rewrite block_insert_eq by (destruct Hm; lia). rewrite !(block_insert_ne mem (CnSpec.other j 1)) by (apply other_ne; lia).
  rewrite list_insert_insert_eq. by destruct rev.
Qed.

(** ** The halves of a turn *)

Lemma v2_flag : CnSpec.monero8 p = (BASE a =? CN_2) /\ CnSpec.monero7 p = (BASE a =? CN_1) /\ CnSpec.reversed p = reverse a.
Proof. done. Qed.

Lemma tweaked_eq y : vec y -> M128 y.(lo64) (tweak1 y.(hi64)) = vec_of_bytes (VARIANT1_1 (vec_bytes y)) /\ vec (vec_of_bytes (VARIANT1_1 (vec_bytes y))).
Proof.
  intros [V0 V1]. destruct (tweak1_value y.(lo64) y.(hi64) V0 V1) as [E W].
  unfold vec_bytes at 1 2. rewrite <- E. change (le_bytes 8 (lo64 y) ++ le_bytes 8 (tweak1 (hi64 y)))
    with (vec_bytes (M128 (lo64 y) (tweak1 (hi64 y)))). by rewrite vec_of_vec_bytes.
Qed.

(** The store of the first half, with the tweak or the shuffle of the variant. *)
Lemma first_store s t c (i := CnSpec.address p t.(CnSpec.a)) (x := _mm_xor_si128 s.(bx0) c)
    (v := if CnSpec.monero7 p then vec_of_bytes (VARIANT1_1 (vec_bytes x)) else x)
    (pad := if CnSpec.monero8 p then CnSpec.shuffle_add (CnSpec.reversed p) t.(CnSpec.pad) i t.(CnSpec.a) t.(CnSpec.b) t.(CnSpec.b1) else t.(CnSpec.pad)) :
  regs_inv a s -> related s t -> vec c ->
  exists m, (if (BASE a =? CN_1) || (BASE a =? CN_2)
    then cryptonight_monero_tweak a (Z.land s.(idx0) (MASK a)) s.(l0) (Z.land s.(idx0) (MASK a)) (_mm_set_epi64x s.(ah0) s.(al0)) s.(bx0) s.(bx1) c
    else m ← store_at s.(l0) (Z.land s.(idx0) (MASK a)) (_mm_xor_si128 s.(bx0) c); Some (m, c)) = Some (m, c) /\
  pad_ok a m /\ agree m (<[i := v]> pad).
Proof.
  intros [Hal Hah Hb0 Hb1 Hdv Hr Hm] [Ra Ri Rb R2 Rp] Vc. destruct plain_flags as (_ & _ & FR & _).
  assert (Vx : vec x) by by apply xor_vec.
  destruct (address_lane t.(CnSpec.a)) as [Ai Hi]. rewrite <- Ra in Ai at 2. cbn [lo64] in Ai. rewrite <- Ri in Ai. fold i in Ai, Hi.
  destruct (mask_lane a Ha s.(idx0)) as [E0 L0]. unfold MASK.
  assert (ST : forall mem y, pad_ok a mem -> vec y -> store_at mem (Z.land s.(idx0) (mask a)) y = Some (<[i := y]> mem) /\ pad_ok a (<[i := y]> mem)).
  { intros mem y Hp Vy. rewrite E0, Ai. by apply store_at_ok. }
  unfold v, pad. destruct v2_flag as (F8 & F7 & FV). rewrite F8, F7, FV. unfold cryptonight_monero_tweak.
  destruct (Z.eqb_spec (BASE a) CN_2) as [E2 | _].
  - rewrite E2. change (CN_2 =? CN_1) with false. cbn [orb].
    destruct (VARIANT2_SHUFFLE_eq s.(l0) s.(idx0) (_mm_set_epi64x s.(ah0) s.(al0)) s.(bx0) s.(bx1) c (reverse a) Hm FR) as [-> Hm'].
    next. fold x. destruct (ST _ x Hm' Vx) as [-> Hm2]. next. eexists. split; [reflexivity |]. split; [done |].
    rewrite <- Ai. destruct (R2 E2) as (<- & _ & _). rewrite <- Ra, <- Rb. apply agree_insert, agree_other; [done |].
    intros k Hk. rewrite Ai. by apply other_lane.
  - rewrite orb_false_r. destruct (BASE a =? CN_1).
    + cbv zeta. fold x. destruct (tweaked_eq x Vx) as [-> Vt]. destruct (ST _ _ Hm Vt) as [-> Hm2]. next.
      eexists. split; [reflexivity |]. split; [done |]. by apply agree_insert.
    + fold x. destruct (ST _ _ Hm Vx) as [-> Hm2]. next. eexists. split; [reflexivity |]. split; [done |]. by apply agree_insert.
Qed.

Lemma first_half_ok s t : regs_inv a s -> related s t ->
  exists m conc, first_half_turn A a s = Some (m, (CnSpec.first_half p t).1, conc) /\
    pad_ok a m /\ vec (CnSpec.first_half p t).1 /\ agree m (CnSpec.first_half p t).2.
Proof.
  intros Hs Hr. pose proof Hs as [Hal Hah Hb0 Hb1 Hdv Hrr Hm]. pose proof Hr as [Ra Ri Rb R2 Rp].
  destruct plain_flags as (_ & FX & _ & FT). unfold first_half_turn. rewrite FX, FT.
  destruct (mask_lane a Ha s.(idx0)) as [E0 L0]. destruct (address_lane t.(CnSpec.a)) as [Ai Hi].
  rewrite <- Ra in Ai at 2. cbn [lo64] in Ai. rewrite <- Ri in Ai.
  destruct (load_block s.(l0) (CnSpec.address p t.(CnSpec.a)) Hm Hi) as [EL VL].
  replace (16 * Z.of_nat (CnSpec.address p t.(CnSpec.a))) with (Z.land s.(idx0) (MASK a)) in EL by (unfold MASK; lia).
  rewrite (agree_block _ _ _ Rp Hi) in EL, VL. rewrite EL. next. set (x := CnSpec.block _ _) in *.
  assert (Ec : aesenc x (_mm_set_epi64x (ah0 s) (al0 s)) = CnSpec.aes_round x t.(CnSpec.a) /\ vec (CnSpec.aes_round x t.(CnSpec.a))).
  { assert (Va : vec (_mm_set_epi64x (ah0 s) (al0 s))) by done.
    unfold CnSpec.aes_round. rewrite <- Ra. change (M128 (al0 s) (ah0 s)) with (_mm_set_epi64x (ah0 s) (al0 s)).
    rewrite <- aesenc_ok by done. rewrite vec_of_vec_bytes by by apply aesenc_vec. split; [done | by apply aesenc_vec]. }
  destruct Ec as [-> Vc]. unfold CnSpec.first_half. fold x. cbn [fst snd]. set (c := CnSpec.aes_round x t.(CnSpec.a)) in *.
  destruct (first_store s t c Hs Hr Vc) as (m & -> & Hm' & Hag). next.
  exists m, s.(conc_var). rewrite Rb in Hag. done.
Qed.

(** The integer computations of a turn. *)
Definition small_root (t : CnSpec.loop_state) (c : m128i) : Prop := BASE a = CN_2 -> CnSpec.root_argument t c < sqrt_limit.
Lemma integer_turn code s t d c :
  regs_inv a s -> related s t -> vec c -> word 64 d -> small_root t c ->
  exists cl dv sq, variant_math a code s d c = Some (s.(al0), s.(ah0), cl, dv, sq, s.(r0)) /\ word 64 cl /\
    (if CnSpec.monero8 p then integer_math t.(CnSpec.division) t.(CnSpec.root) d c.(lo64) c.(hi64)
     else (d, t.(CnSpec.division), t.(CnSpec.root))) = (cl, if BASE a =? CN_2 then dv else t.(CnSpec.division), if BASE a =? CN_2 then u32 sq else t.(CnSpec.root)).
Proof.
  intros [Hal Hah Hb0 Hb1 Hdv Hrr Hm] [Ra Ri Rb R2 Rp] Vc Wd Hroot. destruct plain_flags as (_ & _ & FR & _).
  unfold variant_math. destruct v2_flag as (-> & _ & _). destruct (Z.eqb_spec (BASE a) CN_2) as [E2 | _].
  - unfold isR. rewrite FR. destruct (R2 E2) as (_ & Ed & Es). specialize (Hroot E2). unfold CnSpec.root_argument in Hroot. rewrite <- Ed, <- Es in Hroot. rewrite <- Ed, <- Es.
    destruct (integer_math_value s.(division_result) s.(sqrt_result) d c Hdv Wd Vc) as (sq' & H).
    unfold integer_math in *. cbv zeta in *. cbn [fst snd] in Hroot. destruct H as (-> & W1 & _ & _ & Esq). next.
    eexists _, _, _. split; [reflexivity |]. split; [done |]. by rewrite Esq.
  - by eexists _, _, _.
Qed.

(** The product, which variant 2 mixes with the group of [c]. *)
Lemma product_turn s t m pad c cl (j := CnSpec.address p c) (product := M128 (c.(lo64) * cl / 2 ^ 64) ((c.(lo64) * cl) mod 2 ^ 64))
    (pad1 := <[CnSpec.other j 1 := _mm_xor_si128 (CnSpec.block pad (CnSpec.other j 1)) product]> pad)
    (product' := if CnSpec.monero8 p then _mm_xor_si128 product (CnSpec.block pad (CnSpec.other j 2)) else product) :
  regs_inv a s -> related s t -> pad_ok a m -> agree m pad -> vec c -> word 64 cl ->
  exists m', variant_shuffle a m c.(lo64) (_mm_set_epi64x s.(ah0) s.(al0)) s.(bx0) s.(bx1) c product.(lo64) product.(hi64)
    = Some (m', c, product'.(lo64), product'.(hi64)) /\ pad_ok a m' /\
    agree m' (if CnSpec.monero8 p then CnSpec.shuffle_add (CnSpec.reversed p) pad1 j t.(CnSpec.a) t.(CnSpec.b) t.(CnSpec.b1) else pad).
Proof.
  intros _ [Ra Ri Rb R2 Rp] Hm Hag [Vc _] Wcl. destruct plain_flags as (_ & _ & FR & _).
  destruct (address_lane c) as [Aj Hj]. fold j in Aj, Hj.
  assert (W : word 64 product.(lo64) /\ word 64 product.(hi64)).
  { subst product. cbn [lo64 hi64]. unfold word in *. split; [| apply Z.mod_pos_bound; lia].
    split; [apply Z.div_pos; nia | apply Z.div_lt_upper_bound; nia]. }
  unfold variant_shuffle, pad1, product'. destruct v2_flag as (-> & _ & ->). destruct (Z.eqb_spec (BASE a) CN_2) as [E2 | _]; [| by exists m].
  rewrite FR. destruct (R2 E2) as (Eb1 & _ & _).
  destruct (VARIANT2_SHUFFLE2_eq m c.(lo64) (_mm_set_epi64x s.(ah0) s.(al0)) s.(bx0) s.(bx1) product.(lo64) product.(hi64) (reverse a) Hm)
    as [E Hm']; [apply W .. |]. unfold MASK. rewrite E. next.
  assert (HO : forall k, 0 <= k < 4 -> (CnSpec.other j k < n)%nat) by (intros k Hk; rewrite Aj; by apply other_lane).
  change (M128 (lo64 product) (hi64 product)) with product in *. rewrite <- Aj in *.
  rewrite !(agree_block m pad) in * by (done || (apply HO; lia)).
  eexists. split; [reflexivity |]. split; [done |]. rewrite <- Ra, <- Rb, <- Eb1.
  apply agree_other; [by apply agree_insert | done].
Qed.

Lemma second_half_ok tweak code s t m pad c conc :
  word 64 tweak -> regs_inv a s -> related s t -> pad_ok a m -> vec c -> agree m pad -> small_root t c ->
  exists s', second_half_turn a tweak code s (m, c, conc) = Some s' /\ related s' (CnSpec.second_half p tweak t c pad).
Proof.
  intros Ht Hs Hr Hm Vc Hag Hroot. destruct plain_flags as (FH & _ & _ & FT).
  unfold second_half_turn, second_half. rewrite FH, FT.
  destruct (mask_lane a Ha c.(lo64)) as [E1 L1]. destruct (address_lane c) as [Aj Hj].
  destruct (load_block m (CnSpec.address p c) Hm Hj) as [EL [VL0 VL1]].
  assert (EM : 16 * Z.of_nat (CnSpec.address p c) = Z.land c.(lo64) (MASK a)) by (unfold MASK; lia).
  rewrite EM, (agree_block _ _ _ Hag Hj) in EL. rewrite (agree_block _ _ _ Hag Hj) in VL0, VL1. rewrite EL. next. set (d := CnSpec.block _ _) in *.
  destruct (integer_turn code s t d.(lo64) c Hs Hr Vc VL0 Hroot) as (cl & dv & sq & -> & Wcl & EI). next.
  unfold _umul128. cbv zeta.
  destruct (product_turn s t m pad c cl Hs Hr Hm Hag Vc Wcl) as (m' & EP & Hm' & Hag'). cbn [lo64 hi64] in EP.
  rewrite Z.shiftr_div_pow2, u64_mod by lia. 
  rewrite EP. next.
  unfold CnSpec.second_half. fold d. rewrite EI. set (q := if CnSpec.monero8 p then _mm_xor_si128 _ _ else _) in *.
  assert (Ex : CnSpec.add64 t.(CnSpec.a) q = M128 (u64 (al0 s + lo64 q)) (u64 (ah0 s + hi64 q)))
    by (rewrite <- add64_eq, <- (rel_a s t Hr); reflexivity).
  rewrite Ex. cbn [lo64 hi64]. set (second := if _ || _ then _ else _).
  change (if CnSpec.arto p then Z.lxor (Z.lxor (u64 (ah0 s + hi64 q)) tweak) (u64 (al0 s + lo64 q))
    else if CnSpec.monero7 p then Z.lxor (u64 (ah0 s + hi64 q)) tweak else u64 (ah0 s + hi64 q)) with second.
  assert (Vx : vec (M128 (u64 (al0 s + lo64 q)) second)).
  { split; [apply u64_word |]. cbn [hi64]. subst second.
    assert (word 64 (Z.lxor (u64 (ah0 s + hi64 q)) tweak)) by (apply word_lxor; [lia | apply u64_word | done]).
    destruct (_ || _); [by apply word_lxor; [lia | | apply u64_word] |]. destruct (BASE a =? CN_1); [done | apply u64_word]. }
  rewrite <- EM. destruct (store_block m' (CnSpec.address p c) _ Hm' Hj Vx) as [-> _]. do 3 next.
  eexists. split; [reflexivity |].
  split; cbn [al0 ah0 idx0 bx0 bx1 division_result sqrt_result l0 CnSpec.a CnSpec.b CnSpec.b1 CnSpec.division CnSpec.root CnSpec.pad]; try done.
  - intros E2. rewrite (proj2 (Z.eqb_eq _ _) E2). split; [apply (rel_b s t Hr) | done].
  - by apply agree_insert.
Qed.

Lemma step_halves q tweak t :
  CnSpec.step q tweak t = CnSpec.second_half q tweak t (CnSpec.first_half q t).1 (CnSpec.first_half q t).2.
Proof. unfold CnSpec.step. by destruct (CnSpec.first_half q t). Qed.
Lemma turn_root_eq q t : CnSpec.turn_root q t = CnSpec.root_argument t (CnSpec.first_half q t).1.
Proof. reflexivity. Qed.
Lemma small_turn_root t : (BASE a = CN_2 -> CnSpec.turn_root p t < sqrt_limit) -> small_root t (CnSpec.first_half p t).1.
Proof. intros H E. rewrite <- turn_root_eq. exact (H E). Qed.

Lemma plain_step tweak code s t :
  word 64 tweak -> code_ok a code -> regs_inv a s -> related s t ->
  (BASE a = CN_2 -> CnSpec.turn_root p t < sqrt_limit) ->
  exists s', @iteration A a 0 tweak code s = Some s' /\ regs_inv a s' /\ related s' (CnSpec.step p tweak t).
Proof.
  intros Ht Hc Hs Hr Hroot. pose proof (iteration_ok a Ha A tweak code s Ht Hc Hs) as HI.
  destruct (first_half_ok s t Hs Hr) as (m & conc & EF & Hm & Vc & Hag).
  destruct (second_half_ok tweak code s t m _ _ conc Ht Hs Hr Hm Vc Hag (small_turn_root t Hroot)) as (s' & E & Hr').
  assert (EI : @iteration A a 0 tweak code s = Some s') by (rewrite iteration_halves, EF; next; exact E).
  rewrite EI in HI. rewrite step_halves. by exists s'.
Qed.

(** The spec writes the addressed part only. *)
Lemma shuffle_add_pad rev pad j x y z : (j < n)%nat ->
  drop n (CnSpec.shuffle_add rev pad j x y z) = drop n pad /\ length (CnSpec.shuffle_add rev pad j x y z) = length pad.
Proof.
  intros Hj. assert (HO : forall k, 0 <= k < 4 -> (CnSpec.other j k < n)%nat).
  { intros k Hk. unfold CnSpec.other. destruct (lxor_lane a Ha (Z.of_nat j) k ltac:(lia) Hk) as [_ L]. lia. }
  unfold CnSpec.shuffle_add. rewrite !length_insert. split; [| done]. by rewrite !drop_insert_lt by (apply HO; lia).
Qed.
Lemma insert_pad (pad : list m128i) q x : (q < n)%nat -> drop n (<[q := x]> pad) = drop n pad /\ length (<[q := x]> pad) = length pad.
Proof. intros Hq. by rewrite length_insert, drop_insert_lt. Qed.
Lemma first_half_pad t :
  drop n (CnSpec.first_half p t).2 = drop n t.(CnSpec.pad) /\ length (CnSpec.first_half p t).2 = length t.(CnSpec.pad).
Proof.
  unfold CnSpec.first_half. cbn [snd]. destruct (address_lane t.(CnSpec.a)) as [_ Hi].
  generalize (if CnSpec.monero7 p then vec_of_bytes (VARIANT1_1 (vec_bytes (_mm_xor_si128 (CnSpec.b t)
    (CnSpec.aes_round (CnSpec.block (CnSpec.pad t) (CnSpec.address p (CnSpec.a t))) (CnSpec.a t)))))
    else _mm_xor_si128 (CnSpec.b t) (CnSpec.aes_round (CnSpec.block (CnSpec.pad t) (CnSpec.address p (CnSpec.a t))) (CnSpec.a t))).
  intros v. set (pad := if CnSpec.monero8 p then _ else _).
  destruct (insert_pad pad (CnSpec.address p t.(CnSpec.a)) v Hi) as [-> ->].
  subst pad. destruct (CnSpec.monero8 p); [by apply shuffle_add_pad | done].
Qed.
Lemma second_half_pad tweak t c pad :
  drop n (CnSpec.second_half p tweak t c pad).(CnSpec.pad) = drop n pad /\
  length (CnSpec.second_half p tweak t c pad).(CnSpec.pad) = length pad.
Proof.
  unfold CnSpec.second_half. destruct (address_lane c) as [_ Hj].
  destruct (if CnSpec.monero8 p then integer_math _ _ _ _ _ else _) as [[cl dv] rt]. cbn [CnSpec.pad].
  set (pad2 := if CnSpec.monero8 p then CnSpec.shuffle_add _ _ _ _ _ _ else pad).
  rewrite length_insert, drop_insert_lt by done. subst pad2. destruct (CnSpec.monero8 p); [| done].
  set (x := _mm_xor_si128 _ _).
  destruct (shuffle_add_pad (CnSpec.reversed p) (<[CnSpec.other (CnSpec.address p c) 1 := x]> pad)
    (CnSpec.address p c) t.(CnSpec.a) t.(CnSpec.b) t.(CnSpec.b1) Hj) as [-> ->].
  apply insert_pad. unfold CnSpec.other. destruct (lxor_lane a Ha (Z.of_nat (CnSpec.address p c)) 1 ltac:(lia) ltac:(lia)) as [_ L]. lia.
Qed.
Lemma step_pad tweak t :
  drop n (CnSpec.step p tweak t).(CnSpec.pad) = drop n t.(CnSpec.pad) /\
  length (CnSpec.step p tweak t).(CnSpec.pad) = length t.(CnSpec.pad).
Proof.
  rewrite step_halves. destruct (second_half_pad tweak t (CnSpec.first_half p t).1 (CnSpec.first_half p t).2) as [-> ->]. apply first_half_pad.
Qed.

(** A root argument above the limit of [int_sqrt_v2] in the first [m] turns. *)
Definition large_root (tweak : Z) (t : CnSpec.loop_state) (m : nat) : Prop :=
  BASE a = CN_2 /\ exists i, (i < m)%nat /\ sqrt_limit <= CnSpec.turn_root p (Nat.iter i (CnSpec.step p tweak) t).

Lemma plain_loop tweak code m : forall s t,
  word 64 tweak -> code_ok a code -> regs_inv a s -> related s t ->
  let t' := Nat.iter m (CnSpec.step p tweak) t in
  large_root tweak t m \/
  exists s', @main_loop A a 0 m tweak code s = Some s' /\ regs_inv a s' /\ related s' t' /\
    drop n t'.(CnSpec.pad) = drop n t.(CnSpec.pad) /\ length t'.(CnSpec.pad) = length t.(CnSpec.pad).
Proof.
  induction m as [| m IH]; intros s t Ht Hc Hs Hr; cbv zeta; [right; by exists s |].
  destruct (decide (BASE a = CN_2 /\ sqrt_limit <= CnSpec.turn_root p t)) as [[E2 Hlarge] | Hsmall].
  { left. split; [done |]. exists 0%nat. split; [lia | done]. }
  destruct (plain_step tweak code s t Ht Hc Hs Hr) as (s1 & E & Hs1 & Hr1).
  { intros E2. destruct (Z.lt_ge_cases (CnSpec.turn_root p t) sqrt_limit); [done | by destruct Hsmall]. }
  cbn [main_loop]. rewrite E. next. destruct (step_pad tweak t) as [Ed El]. rewrite Nat.iter_succ_r.
  destruct (IH s1 _ Ht Hc Hs1 Hr1) as [[E2 (i & Hi & Hl)] | (s' & E' & Hs' & Hr' & Ed' & El')].
  - left. split; [done |]. exists (S i). rewrite Nat.iter_succ_r. split; [lia | done].
  - right. exists s'. by rewrite Ed', El', Ed, El.
Qed.
End Loop.

(** ** The state and its bytes *)

Lemma nth_lanes K j : (j < 25)%nat -> (lanes K).[j] = le_word (take 8 (drop (8 * j) K)).
Proof.
  intros Hj. unfold lanes. assert (G : forall m l i, (i < m)%nat -> (map le_word (pieces 8 m l)).[i] = le_word (take 8 (drop (8 * i) l))).
  { induction m as [| m IH]; intros l i Hi; [lia |]. cbn [pieces map]. destruct i as [| i]; [by rewrite drop_0 |]. cbn [nth].
    rewrite IH, drop_drop by lia. do 3 f_equal. lia. }
  by apply G.
Qed.

Section Bytes.
Context (st K : list Z) (HK : state200 K) (Hst : take 25 st = lanes K).

Lemma st_word j : (j < 25)%nat -> st.[j] = le_word (take 8 (drop (8 * j) K)).
Proof. intros Hj. rewrite <- (nth_take_Z st 25 j Hj), Hst. by apply nth_lanes. Qed.

Lemma lane_bytes_at k : (k < 12)%nat -> state_lane st k = vec_of_bytes (take 16 (drop (16 * k) K)).
Proof.
  intros Hk. unfold state_lane, vec_of_bytes. rewrite !st_word by lia. f_equal; f_equal.
  - rewrite take_take, Nat.min_l by lia. do 2 f_equal. lia.
  - rewrite skipn_firstn_comm, drop_drop. do 2 f_equal. lia.
Qed.

Lemma lane_key k : (k < 11)%nat -> vec_bytes (state_lane st k) ++ vec_bytes (state_lane st (k + 1)) = take 32 (drop (16 * k) K).
Proof.
  intros Hk. destruct HK as [Hl Hb].
  assert (G : forall i, (i < 12)%nat -> vec_bytes (state_lane st i) = take 16 (drop (16 * i) K)).
  { intros i Hi. rewrite lane_bytes_at by done. apply vec_bytes_of; [rewrite length_take, length_drop; lia | by apply Forall_take, Forall_drop]. }
  rewrite !G by lia. replace (16 * (k + 1))%nat with (16 * k + 16)%nat by lia. rewrite <- drop_drop.
  apply (take_take_drop (drop (16 * k) K) 16 16).
Qed.

Lemma lanes_blocks : state_lanes st = CnSpec.text_of K.
Proof.
  unfold state_lanes, CnSpec.text_of, CnSpec.bytes_of, CnSpec.blocks. cbn [seq map pieces]. rewrite !drop_drop. cbn [Nat.add].
  rewrite !lane_bytes_at by lia. rewrite !skipn_firstn_comm, !take_take, !drop_drop. cbn [Nat.add Nat.mul Nat.sub Nat.min]. reflexivity.
Qed.
End Bytes.

Lemma lane_bytes_split i l : lane_bytes (take i l) = take (8 * i) (lane_bytes l) /\ lane_bytes (drop i l) = drop (8 * i) (lane_bytes l).
Proof.
  revert i. induction l as [| w l IH]; intros i; [by rewrite take_nil, drop_nil; change (lane_bytes []) with (@nil Z); rewrite take_nil, drop_nil |].
  destruct i as [| i]; [done |]. destruct (IH i) as [E1 E2].
  assert (Hl : length (le_bytes 8 w) = 8%nat) by apply length_le_bytes.
  change (lane_bytes (w :: l)) with (le_bytes 8 w ++ lane_bytes l). cbn [take drop].
  change (lane_bytes (w :: take i l)) with (le_bytes 8 w ++ lane_bytes (take i l)). rewrite E1, E2.
  replace (8 * S i)%nat with (length (le_bytes 8 w) + 8 * i)%nat by lia. by rewrite take_app_add, drop_app_add.
Qed.

Lemma words_of_bytes l : lane_bytes (words_of l) = concat (map vec_bytes l).
Proof.
  induction l as [| x l IH]; [done |]. cbn [map concat]. rewrite <- IH. unfold vec_bytes. by rewrite <- app_assoc.
Qed.

Lemma final_state_bytes st K text :
  state200 K -> length st = 28%nat -> take 25 st = lanes K -> length text = 8%nat ->
  state_bytes (write_at 8 (words_of text) st) = take 64 K ++ concat (map vec_bytes text) ++ drop 192 K.
Proof.
  intros HK Hl Hst Ht. unfold state_bytes. fold (lane_bytes (take 25 (write_at 8 (words_of text) st))).
  pose proof (length_words_of text) as Hw. rewrite Ht in Hw.
  assert (E : take 25 (write_at 8 (words_of text) st) = take 8 (lanes K) ++ words_of text ++ drop 24 (lanes K)).
  { unfold write_at. rewrite Hw. rewrite take_app, length_take, Nat.min_l by lia.
    rewrite take_take, Nat.min_r by lia. change (25 - 8)%nat with 17%nat. rewrite take_app, Hw, (take_ge (words_of text)) by lia.
    change (17 - 16)%nat with 1%nat. change (8 + 16)%nat with 24%nat. rewrite <- Hst, take_take, Nat.min_l by lia.
    by rewrite skipn_firstn_comm. }
  rewrite E. assert (EA : forall l k, lane_bytes (l ++ k) = lane_bytes l ++ lane_bytes k) by (intros; unfold lane_bytes; by rewrite map_app, concat_app).
  rewrite !EA, words_of_bytes. destruct (lane_bytes_split 8 (lanes K)) as [-> _]. destruct (lane_bytes_split 24 (lanes K)) as [_ ->].
  by rewrite lane_bytes_lanes.
Qed.

Lemma extra_hashes_spec u i m output :
  locals_ok u -> buffer 200 m -> length output = 32%nat -> 0 <= i < 4 ->
  extra_hashes u i m output = Some (write_at 0 (CnSpec.final_hash i m) output).
Proof.
  intros Hu [Hl Hm] Ho Hi. unfold extra_hashes, CnSpec.final_hash. rewrite Hl. change (Z.of_nat 200) with 200.
  destruct (Z.eqb_spec i 0); [| destruct (Z.eqb_spec i 1); [| destruct (Z.eqb_spec i 2)]].
  - do 2 f_equal. apply Blake256.blake256_hash_eq; [by destruct Hu | done |]. unfold Blake256.short_portion. lia.
  - do 2 f_equal. change (u64 (200 * 8)) with (8 * Z.of_nat 200 + 0). unfold Groestl.groestl.
    pose proof (Groestl.groestl_digest u.(groestl_ctx) [] m 200 0 (groestl_buf u Hu) (Forall_nil_2 _) Hm) as E.
    cbn [Groestl.feed fold_left concat app] in E. rewrite E by (rewrite ?Hl; cbn; lia). rewrite (take_ge m) by lia.
    by rewrite nth_overflow by lia.
  - change (32 * 8) with 256. change (u64 (8 * 200)) with (8 * 200). replace 200 with (Z.of_nat (length m)) by (rewrite Hl; done).
    rewrite Jh.jh_hash_spec; [by next | by destruct Hu | done | rewrite Hl; lia].
  - do 2 f_equal. rewrite Skein.xmr_skein_eq by (done || by destruct Hu). by rewrite take_ge by lia.
Qed.

Lemma final_keccak st (G := P24 (state_bytes st)) :
  length st = 28%nat -> Forall (word 64) st ->
  let st' := write_at 0 (keccakf (take 25 st) 24) st in
  state_bytes st' = G /\ Z.land (u8 st'.[0]) 3 = G.[0] mod 4 /\ buffer 200 G.
Proof.
  intros Hl Hw. cbv zeta.
  assert (H25 : state25 (take 25 st)) by (split; [rewrite length_take; lia | by apply Forall_take]).
  destruct (keccakf_bytes _ H25) as [EP [Hlf Hwf]]. set (f := keccakf (take 25 st) 24) in *.
  assert (Et : take 25 (write_at 0 f st) = f) by (by rewrite (take_write_at' 25 0) by lia).
  assert (EG : state_bytes (write_at 0 f st) = lane_bytes f) by (unfold state_bytes, lane_bytes; by rewrite Et).
  assert (E : lane_bytes f = G) by (rewrite EP; unfold G; f_equal). rewrite EG, E. split; [reflexivity |].
  split; [| rewrite <- E; by apply lane_bytes_state200].
  rewrite <- E, <- (nth_take_Z (write_at 0 f st) 25 0), Et by lia. clear.
  destruct f as [| w f]; [done |]. change (lane_bytes (w :: f)) with (le_bytes 8 w ++ lane_bytes f).
  cbn [nth le_bytes app]. change 3 with (Z.ones 2). rewrite Z.land_ones, u8_mod by lia.
  change 4 with (2 ^ 2). change 256 with (2 ^ 8). done.
Qed.

(** ** The whole hash *)

Lemma exploded_fields A a c (k := @aes_genkey A (state_lane c.(state) 0) (state_lane c.(state) 1)) :
  (exploded A a c).(state) = c.(state) /\
  (exploded A a c).(memory) = write_at 0 (fill A (groups a) k (start_lanes A a c)) c.(memory) /\
  (half_mem a && c.(first_half) = true ->
   (exploded A a c).(save_state) = write_at 0 (Nat.iter (groups a) (ten_rounds k) (start_lanes A a c)) c.(save_state)).
Proof. unfold exploded. destruct (half_mem a && first_half c); [done |]. by split; [| split; [| intros [=]]]. Qed.

Section Hash.
Context (A : AesRounds) `{!AesRoundsOk A} (a : Z) (Ha : a ∈ cn_algos) (Hcl : plain a = true).
Let n := Z.to_nat (N a).
Let p := params_of a.

(** The whole scratchpad of the specification: the part of the code, and the
    rest when the code keeps half of it. *)
Lemma pad_groups_eq : CnSpec.pad_groups p = (if half_mem a then groups a + groups a else groups a)%nat /\ n = (8 * groups a)%nat.
Proof.
  destruct (geometry a Ha) as (_ & _ & R & _ & M). destruct (groups_spec a Ha) as [EN _].
  unfold p, params_of, n. cbn [CnSpec.pad_groups]. rewrite M, EN. split; [| lia].
  destruct (half_mem a).
  - replace (16 * (8 * Z.of_nat (groups a)) * 2) with (Z.of_nat (groups a + groups a) * 128) by lia. rewrite Z.div_mul by lia. lia.
  - replace (16 * (8 * Z.of_nat (groups a)) * 1) with (Z.of_nat (groups a) * 128) by lia. rewrite Z.div_mul by lia. lia.
Qed.

(** Absorbing what the loop left of the first part and the second part. *)
Lemma imploded_text c x0 m0 m1 s (pad : list m128i) :
  ctx_ok a c -> length x0 = 8%nat -> Forall vec x0 -> vec m0 -> vec m1 ->
  state_lane c.(state) 0 = m0 -> state_lane c.(state) 1 = m1 ->
  pad_ok a s ->
  (half_mem a = true -> c.(save_state) = Nat.iter (groups a) (ten_rounds (aes_genkey m0 m1)) x0) ->
  length pad = (8 * CnSpec.pad_groups p)%nat ->
  (forall q, (q < n)%nat -> s !! q = pad !! q) ->
  drop n pad = drop n (fill A (CnSpec.pad_groups p) (aes_genkey m0 m1) x0) ->
  let k2 := aes_genkey (state_lane c.(state) 2) (state_lane c.(state) 3) in
  state (imploded A a (set_memory c s))
  = write_at 8 (words_of (fold_in (CnSpec.pad_groups p) (ten_rounds k2) pad (state_lanes c.(state)))) c.(state).
Proof.
  intros Hc Hlx Hx Hm0 Hm1 E0 E1 [Hls Hvs] Hsave Hlp Hpad Htail. cbv zeta.
  destruct (plain_flags a Ha Hcl) as (Hh & _). destruct pad_groups_eq as [EG En].
  unfold imploded, set_memory. cbn [state memory save_state]. rewrite Hh.
  set (k2 := aes_genkey (state_lane (state c) 2) _). set (y := state_lanes (state c)).
  assert (ER : round_of A a k2 = fun x => ten_rounds k2 x) by (unfold round_of; by rewrite Hh).
  rewrite ER. change (fun x => ten_rounds k2 x) with (ten_rounds k2).
  assert (Etake : take (8 * groups a) s = take (8 * groups a) pad).
  { rewrite <- En. apply list_eq. intros i. destruct (decide (i < n)%nat) as [Hi | Hi].
    - rewrite !lookup_take_lt by done. by apply Hpad.
    - rewrite !lookup_take_ge by lia. done. }
  rewrite <- (fold_in_take (groups a) _ s), Etake, fold_in_take, EG.
  destruct (half_mem a) eqn:Hhm; [| done].
  rewrite fold_in_app. set (z := fold_in _ _ pad y). cbn [state set_state].
  unfold exploded, set_first_half. cbn [state memory save_state first_half set_memory set_state]. rewrite Hhm. cbn [andb].
  unfold start_lanes. cbn [state memory save_state first_half]. rewrite Hhm, Hh. cbn [andb negb]. rewrite Hsave, E0, E1 by done.
  rewrite take_ge by (rewrite length_iter_rounds; lia). cbn [state memory save_state set_memory].
  do 2 f_equal. set (w := Nat.iter _ _ x0). set (k := aes_genkey m0 m1) in *.
  assert (Hlw : length w = 8%nat) by (unfold w; by rewrite length_iter_rounds).
  rewrite <- (fold_in_take (groups a) _ (write_at 0 _ s)). f_equal.
  rewrite <- En, Htail, EG, fill_add. fold w. rewrite drop_app_length' by (rewrite length_fill; lia).
  rewrite (take_write_at' n 0) by (rewrite ?length_fill; lia). done.
Qed.

(** The variables before the loop. *)
Lemma related_start st K mem r :
  state200 K -> take 25 st = lanes K -> agree a mem (CnSpec.loop_start p K).(CnSpec.pad) ->
  related a (init_regs st r mem) (CnSpec.loop_start p K).
Proof.
  intros HK Hst Hp.
  assert (EX : forall i j, (i < 12)%nat -> (j < 12)%nat -> CnSpec.xor_blocks K (16 * i) (16 * j) = _mm_xor_si128 (state_lane st i) (state_lane st j)).
  { intros i j Hi Hj. unfold CnSpec.xor_blocks, CnSpec.bytes_of. by rewrite !(lane_bytes_at st K Hst) by done. }
  split; cbn [CnSpec.loop_start CnSpec.a CnSpec.b CnSpec.b1 CnSpec.division CnSpec.root]; [| done | | |].
  - symmetry. apply (EX 0 2)%nat; lia.
  - symmetry. apply (EX 1 3)%nat; lia.
  - intros _. split; [symmetry; apply (EX 4 5)%nat; lia |]. cbn [init_regs bx1 division_result sqrt_result]. unfold CnSpec.bytes_of.
    pose proof (st_word st K Hst 12 ltac:(lia)) as E12. pose proof (st_word st K Hst 13 ltac:(lia)) as E13.
    cbn [Nat.mul Nat.add] in E12, E13. by rewrite E12, E13.
  - exact Hp.
Qed.

(** The scratchpad of the code is the first part of that of the specification. *)
Lemma start_pad c0 K (c1 := exploded A a c0) (m0 := state_lane c0.(state) 0) (m1 := state_lane c0.(state) 1) (x0 := state_lanes c0.(state)) :
  ctx_ok a c0 -> state200 K -> take 25 c0.(state) = lanes K -> (half_mem a = true -> c0.(first_half) = true) ->
  let pad := (CnSpec.loop_start p K).(CnSpec.pad) in
  pad = fill A (CnSpec.pad_groups p) (aes_genkey m0 m1) x0 /\ length pad = (8 * CnSpec.pad_groups p)%nat /\ Forall vec pad /\
  agree a c1.(memory) pad /\
  (half_mem a = true -> c1.(save_state) = Nat.iter (groups a) (ten_rounds (aes_genkey m0 m1)) x0).
Proof.
  intros H0 HK Hst Heh. cbv zeta. destruct (plain_flags a Ha Hcl) as (Hh & _). destruct pad_groups_eq as [EG En].
  destruct (exploded_fields A a c0) as (_ & Em & Esv). fold c1 m0 m1 in Em, Esv.
  pose proof H0 as [[_ Hmem Hsv] Hw Hv _].
  assert (Vm0 : vec m0) by by apply state_lane_vec. assert (Vm1 : vec m1) by by apply state_lane_vec.
  destruct (state_lanes8 c0.(state) Hw) as [Lx0 Vx0]. fold x0 in Lx0, Vx0.
  assert (Estart : start_lanes A a c0 = x0).
  { unfold start_lanes. rewrite Hh. destruct (half_mem a); [by rewrite Heh | done]. }
  rewrite Estart in Em, Esv.
  assert (EF : (CnSpec.loop_start p K).(CnSpec.pad) = fill A (CnSpec.pad_groups p) (aes_genkey m0 m1) x0).
  { rewrite fill_spec by done. cbn [CnSpec.loop_start CnSpec.pad]. unfold m0, m1, x0. rewrite (lanes_blocks c0.(state) K Hst).
    pose proof (lane_key c0.(state) K HK Hst 0 ltac:(lia)) as E. cbn [Nat.add Nat.mul] in E. by rewrite E. }
  assert (LF : length (CnSpec.loop_start p K).(CnSpec.pad) = (8 * CnSpec.pad_groups p)%nat) by (rewrite EF, length_fill; lia).
  split; [done |]. split; [done |]. split; [rewrite EF; apply fill_vec; [done | by apply genkey_vec | done] |]. split.
  - split; [rewrite Em, length_write_at; fold n; rewrite ?length_fill; lia |]. fold n.
    split; [rewrite LF, En, EG; destruct (half_mem a); lia |]. intros q Hq. rewrite Em, EF.
    unfold write_at. rewrite take_0, app_nil_l, lookup_app_l by (rewrite length_fill; lia).
    rewrite EG. destruct (half_mem a); [| done]. rewrite fill_add. by rewrite lookup_app_l by (rewrite length_fill; lia).
  - intros Hhm. rewrite Esv by (by rewrite Hhm, Heh). apply write_at_full. rewrite length_iter_rounds; lia.
Qed.

Lemma finish_text u output c st K text :
  locals_ok u -> ctx_ok a c -> length output = 32%nat -> state200 K -> take 25 st = lanes K -> length st = 28%nat -> length text = 8%nat ->
  c.(state) = write_at 8 (words_of text) st ->
  let F := P24 (take 64 K ++ concat (map vec_bytes text) ++ drop 192 K) in
  exists ctx', finish u output c = Some (write_at 0 (CnSpec.final_hash (F.[0] mod 4) F) output, ctx').
Proof.
  intros Hu Hc Ho HK Hst Hl Ht Ec. cbv zeta.
  destruct (final_keccak c.(state)) as (EF2 & Ei & HG); [by destruct Hc as [[]] | by destruct Hc |].
  unfold finish. cbv zeta. rewrite EF2, Ei, extra_hashes_spec; [| done | done | done | by apply Z.mod_pos_bound]. next.
  rewrite Ec, (final_state_bytes st K text HK Hl Hst Ht). by eexists.
Qed.

(** What the second pass leaves when the loop has left [s'], and [t1] in the
    specification. *)
Lemma absorbed_text c0 K s' t1 (c1 := exploded A a c0) :
  ctx_ok a c0 -> state200 K -> take 25 c0.(state) = lanes K -> (half_mem a = true -> c0.(first_half) = true) ->
  regs_inv a s' -> related a s' t1 ->
  drop n t1.(CnSpec.pad) = drop n (CnSpec.loop_start p K).(CnSpec.pad) ->
  length t1.(CnSpec.pad) = length (CnSpec.loop_start p K).(CnSpec.pad) ->
  let text := CnSpec.absorb (CnSpec.pad_groups p) (CnSpec.bytes_of K 32 32) t1.(CnSpec.pad) (CnSpec.text_of K) in
  state (imploded A a (set_memory c1 s'.(l0))) = write_at 8 (words_of text) c0.(state) /\ length text = 8%nat /\
  ctx_ok a (imploded A a (set_memory c1 s'.(l0))).
Proof.
  intros H0 HK Hst Heh Hs' Hr' Ed El. cbv zeta. rewrite <- (lanes_blocks c0.(state) K Hst).
  destruct (start_pad c0 K H0 HK Hst Heh) as (EF & LF & VF & _ & Esv). fold c1 in Esv.
  assert (H1 : ctx_ok a c1) by by apply exploded_ok. destruct (exploded_fields A a c0) as (Es1 & _). fold c1 in Es1.
  pose proof H0 as [_ Hw _ _]. set (x0 := state_lanes c0.(state)) in *.
  destruct (state_lanes8 c0.(state) Hw) as [Lx0 Vx0]. fold x0 in Lx0, Vx0.
  assert (V : forall k, (k < 12)%nat -> vec (state_lane c0.(state) k)) by (intros; by apply state_lane_vec).
  destruct (rel_pad a s' t1 Hr') as (_ & _ & Hag). fold n in Hag.
  assert (Vpad : Forall vec t1.(CnSpec.pad)).
  { rewrite <- (take_drop n t1.(CnSpec.pad)), Ed. apply Forall_app. split; [| by apply Forall_drop].
    assert (Et : take n t1.(CnSpec.pad) = take n s'.(l0)).
    { apply list_eq. intros q. destruct (decide (q < n)%nat); [| by rewrite !lookup_take_ge by lia]. rewrite !lookup_take_lt by done. symmetry. by apply Hag. }
    rewrite Et. apply Forall_take. by destruct (inv_pad a s' Hs'). }
  pose proof (lane_key c0.(state) K HK Hst 2 ltac:(lia)) as EK. cbn [Nat.add Nat.mul] in EK.
  assert (EA : fold_in (CnSpec.pad_groups p) (ten_rounds (aes_genkey (state_lane c0.(state) 2) (state_lane c0.(state) 3))) t1.(CnSpec.pad) x0
    = CnSpec.absorb (CnSpec.pad_groups p) (CnSpec.bytes_of K 32 32) t1.(CnSpec.pad) x0).
  { rewrite (absorb_spec A) by (done || apply V; lia). by rewrite EK. }
  split; [| split].
  - rewrite (imploded_text c1 x0 (state_lane c0.(state) 0) (state_lane c0.(state) 1) s'.(l0) t1.(CnSpec.pad) H1 Lx0 Vx0 (V 0%nat ltac:(lia)) (V 1%nat ltac:(lia))
      (f_equal (fun s => state_lane s 0) Es1) (f_equal (fun s => state_lane s 1) Es1) (inv_pad a s' Hs'));
      [| exact Esv | by rewrite El | exact Hag | by rewrite Ed, EF].
    rewrite Es1. fold x0. by rewrite EA.
  - rewrite <- EA. apply (fold_in_lanes8 _ (ten_rounds _)); [| by split | done | by rewrite El, LF].
    intros y Hy. apply ten_rounds_lanes8; [done | | done]. apply (genkey_vec A); apply V; lia.
  - by apply after_loop_ok.
Qed.

(** A root argument above the limit in a turn of the hash. *)
Definition rare_root (input : list Z) : Prop :=
  base a = CN_2 /\ exists i, (i < Z.to_nat (iterations a))%nat /\ sqrt_limit <= CnSpec.turn_root p (CnSpec.after_turns p input i).

Lemma single_hash_spec turns u input output ctx height :
  locals_ok u -> bytes input -> Z.of_nat (length input) < 2 ^ 31 -> ctx_ok a ctx -> length output = 32%nat ->
  rare_root input \/
  exists ctx', cryptonight_single_hash a 0 turns u input output ctx height
    = Some (write_at 0 (if (base a =? CN_1) && (length input <? 43)%nat then replicate 32 0 else CnSpec.hash p input) output, ctx').
Proof.
  intros Hu Hi Hint Hc Ho. rewrite (single_hash_unfold a Ha A) by done. change (BASE a) with (base a).
  destruct (_ && _) eqn:Eshort; [right; by exists ctx |].
  destruct (plain_flags a Ha Hcl) as (Hh & _ & Fr & _).
  rewrite (before_loop_unfold a Ha A) by done. destruct (absorb_input_int a u input ctx Hu Hi Hint) as [c0 E0].
  pose proof (absorb_input_ok a u input ctx c0 Hu Hi Hc E0) as H0. rewrite E0. next.
  pose proof (keccak_state200 input Hi) as HK. pose proof (keccak_size_int u.(keccak_temp) input (temp_size u Hu) Hi Hint) as HKs.
  set (K := absorbed P24 136 (padded 136 input 1)) in *.
  destruct (state_after_keccak u.(keccak_temp) input ctx.(state) K (temp_size u Hu) Hi ltac:(by destruct Hc as [[]]) ltac:(by destruct Hc) HKs)
    as (Hl & Hw & Hst).
  assert (Ef : c0.(state) = write_at 0 (lanes K) ctx.(state) /\ (half_mem a = true -> c0.(first_half) = true)).
  { revert E0. unfold absorb_input. rewrite HKs. next. intros [= <-]. by destruct (half_mem a). }
  destruct Ef as [Es Eh]. rewrite <- Es in Hl, Hw, Hst. clear HKs E0 Es.
  destruct (start_pad c0 K H0 HK Hst Eh) as (_ & LF & _ & Hag & _).
  set (c1 := exploded A a c0) in *. assert (H1 : ctx_ok a c1) by by apply exploded_ok.
  destruct (exploded_fields A a c0) as (Es1 & _). fold c1 in Es1. cbv zeta. rewrite Es1.
  destruct (tweak1_2_reads a input c0.(state) Eshort) as [tw Etw]. rewrite Etw. next.
  assert (Htw : word 64 tw) by by apply (tweak1_2_word a input c0.(state)).
  assert (Etw2 : tw = CnSpec.tweak_of p input K).
  { revert Etw. unfold VARIANT1_INIT, load64, CnSpec.tweak_of, BASE. cbn [CnSpec.monero7 p params_of].
    rewrite (st_word c0.(state) K Hst 24) by lia. destruct (base a =? CN_1); [| by intros [= <-]].
    destruct (_ <=? _)%nat; [next | done]. by intros [= <-]. }
  unfold VARIANT4_RANDOM_MATH_INIT, isR. rewrite Fr. do 2 next.
  assert (Hcode : code_ok a u.(code_)) by (unfold code_ok, isR; by rewrite Fr).
  assert (Hinv : regs_inv a (init_regs c0.(state) u.(r_) c1.(memory)))
    by (apply init_regs_inv; [done | unfold isR; by rewrite Fr | by apply pad_of_ctx]).
  assert (Hrel : related a (init_regs c0.(state) u.(r_) c1.(memory)) (CnSpec.loop_start p K)) by by apply related_start.
  destruct (plain_loop A a Ha Hcl tw u.(code_) (Z.to_nat (iterations a)) _ _ Htw Hcode Hinv Hrel) as [[E2 (i & Hlt & Hlim)] | (s' & -> & Hs' & Hr' & Ed & El)].
  { left. split; [exact E2 |]. exists i. split; [exact Hlt |]. unfold CnSpec.after_turns, CnSpec.keccak_state.
    cbv zeta. fold K. rewrite <- Etw2. exact Hlim. }
  next. right. fold p in Hr', Ed, El. fold n in Ed.
  destruct (absorbed_text c0 K s' _ H0 HK Hst Eh Hs' Hr' Ed El) as (E2 & Ht & Hc2).
  destruct (finish_text u output (imploded A a (set_memory c1 s'.(l0))) c0.(state) K _ Hu Hc2 Ho HK Hst Hl Ht E2) as [ctx' ->]. exists ctx'.
  unfold CnSpec.hash, CnSpec.after_turns, CnSpec.keccak_state. cbv zeta. fold K. rewrite <- Etw2. reflexivity.
Qed.
End Hash.

(** ** Theorems *)

Example classic_algos : filter (fun a => classic a = true) cn_algos =
  [CN_0; CN_1; CN_FAST; CN_XAO; CN_RTO; CN_LITE_0; CN_LITE_1; CN_GR_0; CN_GR_1; CN_GR_2; CN_GR_3; CN_GR_4; CN_GR_5].
Proof. reflexivity. Qed.
Example variant2_algos : filter (fun a => plain a = true) (filter (fun a => base a = CN_2) cn_algos) =
  [CN_2; CN_HALF; CN_RWZ; CN_ZLS; CN_DOUBLE; CN_PICO_0; CN_PICO_TLO; CN_UPX2].
Proof. reflexivity. Qed.

Lemma classic_plain a : classic a = true -> plain a = true /\ base a <> CN_2.
Proof.
  unfold classic, plain, isR. intros H. apply andb_true_iff in H as [H H3]. apply andb_true_iff in H as [H1 H2].
  apply negb_true_iff, Z.eqb_neq in H1. rewrite H2, H3. split; [| done]. destruct (Z.eqb_spec a CN_R) as [-> |]; [by vm_compute in H1 | done].
Qed.

(** C1: For these thirteen algorithms, whatever the memory and the locals held
    before, for every input below 2^31 bytes and with any correct AES rounds,
    [cryptonight_single_hash] returns the CryptoNight hash of its input (zeroes
    when the input is too short for variant 1); that is also true for the two
    that keep only half of their scratchpad and generate the other half again. *)
Theorem cryptonight_refines (A : AesRounds) (ok : AesRoundsOk A) a turns u input output ctx height :
  a ∈ cn_algos -> classic a = true -> locals_ok u -> bytes input -> Z.of_nat (length input) < 2 ^ 31 ->
  ctx_ok a ctx -> length output = 32%nat ->
  exists ctx', cryptonight_single_hash a 0 turns u input output ctx height
    = Some (write_at 0 (if (base a =? CN_1) && (length input <? 43)%nat then replicate 32 0
                        else CnSpec.hash (params_of a) input) output, ctx').
Proof.
  intros Ha Hcl Hu Hi Hint Hc Ho. destruct (classic_plain a Hcl) as [Hp Hb].
  destruct (single_hash_spec A a Ha Hp turns u input output ctx height Hu Hi Hint Hc Ho) as [[E _] | H]; [by destruct Hb | exact H].
Qed.

Lemma cryptonight_refines_witness (input := replicate 76 3) (output := replicate 32 0) :
  exists ctx', @cryptonight_single_hash soft_rounds CN_GR_5 0 0 some_locals input output (blank_ctx CN_GR_5) 0
    = Some (write_at 0 (if (base CN_GR_5 =? CN_1) && (length input <? 43)%nat then replicate 32 0
                        else CnSpec.hash (params_of CN_GR_5) input) output, ctx').
Proof.
  apply (cryptonight_refines soft_rounds soft_rounds_ok CN_GR_5 0 some_locals input output (blank_ctx CN_GR_5) 0);
    [by apply (bool_decide_unpack _) | done | apply some_locals_ok | by apply (bool_decide_unpack _) | done | apply blank_ctx_ok | done].
Defined.

(** C2: For the eight algorithms of variant 2 without random programs
    [cryptonight_single_hash] returns the hash of the specification with the
    shuffles, the division and the exact integer root, unless in some turn the
    root is taken of a number in the last 5.5 billion below 2^64, where
    [int_sqrt_v2] is off by one. *)
Theorem cryptonight_variant2_refines (A : AesRounds) (ok : AesRoundsOk A) a turns u input output ctx height (p := params_of a) :
  a ∈ cn_algos -> plain a = true -> base a = CN_2 -> locals_ok u -> bytes input -> Z.of_nat (length input) < 2 ^ 31 ->
  ctx_ok a ctx -> length output = 32%nat ->
  (exists i, (i < Z.to_nat (iterations a))%nat /\ sqrt_limit <= CnSpec.turn_root p (CnSpec.after_turns p input i)) \/
  exists ctx', cryptonight_single_hash a 0 turns u input output ctx height = Some (write_at 0 (CnSpec.hash p input) output, ctx').
Proof.
  intros Ha Hp Hb Hu Hi Hint Hc Ho.
  destruct (single_hash_spec A a Ha Hp turns u input output ctx height Hu Hi Hint Hc Ho) as [[_ H] | H]; [left; exact H | right].
  assert (E : (base a =? CN_1) = false) by (rewrite Hb; reflexivity). rewrite E, andb_false_l in H. exact H.
Qed.

Lemma cryptonight_variant2_refines_witness (input := replicate 76 3) (output := replicate 32 0) (p := params_of CN_UPX2) :
  (exists i, (i < Z.to_nat (iterations CN_UPX2))%nat /\ sqrt_limit <= CnSpec.turn_root p (CnSpec.after_turns p input i)) \/
  exists ctx', @cryptonight_single_hash soft_rounds CN_UPX2 0 0 some_locals input output (blank_ctx CN_UPX2) 0
    = Some (write_at 0 (CnSpec.hash p input) output, ctx').
Proof.
  apply (cryptonight_variant2_refines soft_rounds soft_rounds_ok CN_UPX2 0 some_locals input output (blank_ctx CN_UPX2) 0);
    [by apply (bool_decide_unpack _) | done | done | apply some_locals_ok | by apply (bool_decide_unpack _) | done | apply blank_ctx_ok | done].
Defined.
