(* ===== verification/CnMulti.v ===== *)
(** * Several CryptoNight hashes at once: [cryptonight_triple_hash],
    [cryptonight_quad_hash] and [cryptonight_penta_hash] of
    [CryptoNight_x86.h]

    Three, four or five hashes of inputs of equal size, whose turns the code
    cuts into four steps (the macros [CN_STEP1] .. [CN_STEP4]) that it runs
    for each hash in turn.  The theorem, also for the two hashes of
    [CnDouble], is that they are hashes computed one after the other. *)

From S2P Require Import Prelude Endian SoftAes KeccakP XmrKeccak CnMath CnAlgo Scratchpad Conceal CryptoNight CnDouble.
From S2P Require Blake256 Variant4.

(** ** The code *)

(** The variables of one hash, whose names end in its number in the code;
    [ptr] is an offset into [l]. *)
Module Vars.
Record t := Vars {
  ax : m128i; bx0 : m128i; bx1 : m128i; cx : m128i; conc_var : m128i; idx : Z; ptr : Z; cl : Z; ch : Z; mc : m128i;
  division_result : Z; sqrt_result : Z; r : list Z; code : list Variant4.V4_Instruction; l : list m128i }.
End Vars.


Section Steps.
Context `{AesRounds} (ALGO : Z).

Definition CN_STEP1 (v : Vars.t) : option Vars.t :=
  let '(Vars.Vars a b0 b1 c conc_var idx ptr cl ch mc dv sq r code l) := v in
  let ptr := Z.land idx (MASK ALGO) in
  c ← load_at l ptr;
  let '(c, conc_var) := if ALGO =? CN_CCX then cryptonight_conceal_tweak c conc_var else (c, conc_var) in
  Some (Vars.Vars a b0 b1 c conc_var idx ptr cl ch mc dv sq r code l).

Definition CN_STEP2 (v : Vars.t) : option Vars.t :=
  let '(Vars.Vars a b0 b1 c conc_var idx ptr cl ch mc dv sq r code l) := v in
  let c := if IS_CN_HEAVY_TUBE ALGO then aes_round_tweak_div c a else aesenc c a in
  '(l, c) ← (if (BASE ALGO =? CN_1) || (BASE ALGO =? CN_2)
    then cryptonight_monero_tweak ALGO ptr l (Z.land idx (MASK ALGO)) a b0 b1 c
    else l ← store_at l ptr (_mm_xor_si128 b0 c); Some (l, c));
  Some (Vars.Vars a b0 b1 c conc_var idx ptr cl ch mc dv sq r code l).

Definition CN_STEP3 (v : Vars.t) : option Vars.t :=
  let '(Vars.Vars a b0 b1 c conc_var idx ptr cl ch mc dv sq r code l) := v in
  let idx := c.(lo64) in
  let ptr := Z.land idx (MASK ALGO) in
  x ← load_at l ptr;
  Some (Vars.Vars a b0 b1 c conc_var idx ptr x.(lo64) x.(hi64) mc dv sq r code l).

(** The start of [CN_STEP4]; [al] and [ah] are set and read for CryptoNightR
    only. *)
Definition CN_STEP4_math (a b0 b1 c : m128i) (cl dv sq : Z) (r : list Z) (code : list Variant4.V4_Instruction) :
  option (Z * Z * Z * Z * Z * list Z) :=
  if BASE ALGO =? CN_2 then
    if isR ALGO then
      let al := a.(lo64) in let ah := a.(hi64) in
      '(r, cl) ← VARIANT4_RANDOM_MATH ALGO code r al ah cl b0 b1;
      if ALGO =? CN_R then
        Some (Z.lxor al (Z.lor r.[2] (Z.shiftl r.[3] 32)), Z.lxor ah (Z.lor r.[0] (Z.shiftl r.[1] 32)), cl, dv, sq, r)
      else Some (al, ah, cl, dv, sq, r)
    else
      '(cl, dv, sq) ← VARIANT2_INTEGER_MATH dv sq cl c;
      Some (0, 0, cl, dv, sq, r)
  else Some (0, 0, cl, dv, sq, r).

Definition CN_STEP4 (v : Vars.t) : option Vars.t :=
  let '(Vars.Vars a b0 b1 c conc_var idx ptr cl ch mc dv sq r code l) := v in
  '(al, ah, cl, dv, sq, r) ← CN_STEP4_math a b0 b1 c cl dv sq r code;
  let '(lo, hi) := _umul128 idx cl in
  '(l, c, hi, lo) ← (if BASE ALGO =? CN_2 then
      if ALGO =? CN_R then
        '(l, c) ← VARIANT2_SHUFFLE ALGO l (Z.land idx (MASK ALGO)) a b0 b1 c false;
        Some (l, c, hi, lo)
      else
        '(l, hi, lo) ← VARIANT2_SHUFFLE2 l (Z.land idx (MASK ALGO)) a b0 b1 hi lo (reverse ALGO);
        Some (l, c, hi, lo)
    else Some (l, c, hi, lo));
  let a := if ALGO =? CN_R then _mm_set_epi64x ah al else a in
  let a := _mm_add_epi64 a (_mm_set_epi64x lo hi) in
  l ← (if BASE ALGO =? CN_1 then
      l ← store_at l ptr (_mm_xor_si128 a mc);
      if IS_CN_HEAVY_TUBE ALGO || (ALGO =? CN_RTO) then
        x ← load_at l ptr;
        store_at l ptr (M128 x.(lo64) (Z.lxor x.(hi64) x.(lo64)))
      else Some l
    else store_at l ptr a);
  let a := _mm_xor_si128 a (_mm_set_epi64x ch cl) in
  let idx := a.(lo64) in
  '(l, idx) ← (if isHeavy ALGO then heavy_division ALGO 0 l idx else Some (l, idx));
  let b1 := if BASE ALGO =? CN_2 then b0 else b1 in
  let b0 := c in
  Some (Vars.Vars a b0 b1 c conc_var idx ptr cl ch mc dv sq r code l).

(** A turn of the loop for all hashes, and the loop. *)
Definition multi_iteration (vs : list Vars.t) : option (list Vars.t) :=
  vs ← mapM CN_STEP1 vs; vs ← mapM CN_STEP2 vs; vs ← mapM CN_STEP3 vs; mapM CN_STEP4 vs.
Fixpoint multi_loop (n : nat) (vs : list Vars.t) : option (list Vars.t) :=
  match n with O => Some vs | S n => vs ← multi_iteration vs; multi_loop n vs end.

(** The number of a hash, its locals and its context. *)
Definition hash_at : Type := nat * locals * cryptonight_ctx.

(** [CONST_INIT(ctx[n], n)] and the other assignments before the loop. *)
Definition CONST_INIT (turns : nat) (input : list Z) (size : nat) (height : Z) (h : hash_at) : option Vars.t :=
  let '(n, u, ctx) := h in
  let st := ctx.(state) in
  mc ← (if BASE ALGO =? CN_1 then x ← load64 input (n * size + 35); Some (_mm_set_epi64x (Z.lxor x st.[24]) 0) else Some (M128 0 0));
  let ax := _mm_set_epi64x (Z.lxor st.[1] st.[5]) (Z.lxor st.[0] st.[4]) in
  '(r, code) ← VARIANT4_RANDOM_MATH_INIT ALGO turns u.(blake_ctx) st u.(r_) u.(code_) height;
  Some {| Vars.ax := ax; Vars.bx0 := _mm_set_epi64x (Z.lxor st.[3] st.[7]) (Z.lxor st.[2] st.[6]);
    Vars.bx1 := _mm_set_epi64x (Z.lxor st.[9] st.[11]) (Z.lxor st.[8] st.[10]); Vars.cx := M128 0 0;
    Vars.conc_var := M128 0 0; Vars.idx := ax.(lo64); Vars.ptr := 0; Vars.cl := 0; Vars.ch := 0; Vars.mc := mc;
    Vars.division_result := st.[12]; Vars.sqrt_result := st.[13]; Vars.r := r; Vars.code := code; Vars.l := ctx.(memory) |}.

(** The parts of the loops over [i] before and after. *)
Definition keccak_input (input : list Z) (size : nat) (h : hash_at) : option hash_at :=
  let '(i, u, ctx) := h in ctx ← absorb_input ALGO u (take size (drop (size * i) input)) ctx; Some (i, u, ctx).
Definition explode_ctx (h : hash_at) : option hash_at :=
  let '(i, u, ctx) := h in ctx ← cn_explode_scratchpad ALGO 0 ctx; Some (i, u, ctx).
Definition implode_ctx (h : hash_at) : option hash_at :=
  let '(i, u, ctx) := h in ctx ← cn_implode_scratchpad ALGO 0 ctx; Some (i, u, ctx).
Definition hash_output (output : list Z) (h : hash_at) : option (list Z * cryptonight_ctx) :=
  let '(i, u, ctx) := h in
  let st := write_at 0 (keccakf (take 25 ctx.(state)) 24) ctx.(state) in
  out ← extra_hashes u (Z.land (u8 st.[0]) 3) (state_bytes st) (drop (32 * i) output);
  Some (take (32 * i) output ++ out, set_state ctx st).

(** The loop after, which runs two functions for each hash. *)
Fixpoint for_each (f : hash_at -> option hash_at) (g : list Z -> hash_at -> option (list Z * cryptonight_ctx))
    (output : list Z) (hs : list hash_at) : option (list Z * list cryptonight_ctx) :=
  match hs with
  | [] => Some (output, [])
  | h :: hs =>
    h ← f h;
    '(output, ctx) ← g output h;
    '(output, ctxs) ← for_each f g output hs;
    Some (output, ctx :: ctxs)
  end.
Definition outputs (f : hash_at -> option hash_at) : list Z -> list hash_at -> option (list Z * list cryptonight_ctx) := for_each f hash_output.

(** What the loop left in the scratchpads. *)
Definition after_loop (h : hash_at) (v : Vars.t) : hash_at := let '(i, u, ctx) := h in (i, u, set_memory ctx v.(Vars.l)).

(** [us], [ctxs]: the locals and the contexts of the hashes. *)
Definition numbered (us : list locals) (ctxs : list cryptonight_ctx) : list hash_at := zip (zip (seq 0 (length us)) us) ctxs.

Definition cryptonight_triple_hash (turns : nat) (us : list locals) (input : list Z) (size : nat) (output : list Z)
    (ctxs : list cryptonight_ctx) (height : Z) : option (list Z * list cryptonight_ctx) :=
  if (BASE ALGO =? CN_1) && (size <? 43)%nat then Some (write_at 0 (replicate (32 * 3) 0) output, ctxs) else
  hs ← mapM (fun h => h ← keccak_input input size h; explode_ctx h) (numbered us ctxs);
  vs ← mapM (CONST_INIT turns input size height) hs;
  vs ← multi_loop (Z.to_nat (iterations ALGO)) vs;
  outputs implode_ctx output (zip_with after_loop hs vs).

Definition cryptonight_quad_hash (turns : nat) (us : list locals) (input : list Z) (size : nat) (output : list Z)
    (ctxs : list cryptonight_ctx) (height : Z) : option (list Z * list cryptonight_ctx) :=
  if (BASE ALGO =? CN_1) && (size <? 43)%nat then Some (write_at 0 (replicate (32 * 4) 0) output, ctxs) else
  hs ← mapM (keccak_input input size) (numbered us ctxs);
  hs ← mapM explode_ctx hs;
  vs ← mapM (CONST_INIT turns input size height) hs;
  vs ← multi_loop (Z.to_nat (iterations ALGO)) vs;
  hs ← mapM implode_ctx (zip_with after_loop hs vs);
  outputs Some output hs.

Definition cryptonight_penta_hash (turns : nat) (us : list locals) (input : list Z) (size : nat) (output : list Z)
    (ctxs : list cryptonight_ctx) (height : Z) : option (list Z * list cryptonight_ctx) :=
  if (BASE ALGO =? CN_1) && (size <? 43)%nat then Some (write_at 0 (replicate (32 * 5) 0) output, ctxs) else
  hs ← mapM (fun h => h ← keccak_input input size h; explode_ctx h) (numbered us ctxs);
  vs ← mapM (CONST_INIT turns input size height) hs;
  vs ← multi_loop (Z.to_nat (iterations ALGO)) vs;
  outputs implode_ctx output (zip_with after_loop hs vs).

(** [cryptonight_double_hash] with the arguments of the others. *)
Definition double_hash (turns : nat) (us : list locals) (input : list Z) (size : nat) (output : list Z)
    (ctxs : list cryptonight_ctx) (height : Z) : option (list Z * list cryptonight_ctx) :=
  match us, ctxs with
  | [u0; u1], [ctx0; ctx1] =>
    '(output, ctx0, ctx1) ← cryptonight_double_hash ALGO turns u0 u1 input size output ctx0 ctx1 height;
    Some (output, [ctx0; ctx1])
  | _, _ => None
  end.
End Steps.

(** ** The specification: one hash after the other *)

Section InTurn.
Context `{AesRounds} (ALGO : Z) (turns : nat) (input : list Z) (size : nat) (height : Z).

(** The hash of part [i] of the input goes to part [i] of the output. *)
Fixpoint in_turn (output : list Z) (hs : list hash_at) : option (list Z * list cryptonight_ctx) :=
  match hs with
  | [] => Some (output, [])
  | (i, u, ctx) :: hs =>
    '(out, ctx) ← cryptonight_single_hash ALGO 0 turns u (take size (drop (size * i) input)) (drop (32 * i) output) ctx height;
    '(output, ctxs) ← in_turn (take (32 * i) output ++ out) hs;
    Some (output, ctx :: ctxs)
  end.
End InTurn.

(** ** Steps of several hashes are steps of each *)

Lemma mapM_bind {A B C} (f : A -> option B) (g : B -> option C) l :
  (x ← mapM f l; mapM g x) = mapM (fun a => b ← f a; g b) l.
Proof.
  induction l as [| a l IH]; [done |]. cbn. rewrite <- IH.
  destruct (f a) as [b |]; [| done]. cbn. destruct (mapM f l); cbn; [done | by destruct (g b)].
Qed.
Lemma mapM_zip {A B C} (f : A -> option B) (g : A -> B -> C) l :
  (x ← mapM f l; Some (zip_with g l x)) = mapM (fun a => b ← f a; Some (g a b)) l.
Proof.
  induction l as [| a l IH]; [done |]. cbn. rewrite <- IH. destruct (f a); [cbn | done]. by destruct (mapM f l).
Qed.
Lemma mapM_pure {A} (l : list A) : mapM Some l = Some l.
Proof. induction l as [| a l IH]; [done |]. cbn. by rewrite IH. Qed.

Section Turn.
Context (A : AesRounds) (a : Z).

Definition turn (v : Vars.t) : option Vars.t :=
  v ← CN_STEP1 a v; v ← CN_STEP2 a v; v ← CN_STEP3 a v; CN_STEP4 a v.
Fixpoint turns_of (n : nat) (v : Vars.t) : option Vars.t :=
  match n with O => Some v | S n => v ← turn v; turns_of n v end.

Lemma multi_iteration_eq vs : multi_iteration a vs = mapM turn vs.
Proof.
  unfold multi_iteration, turn. rewrite <- mapM_bind. destruct (mapM (CN_STEP1 a) vs) as [x |]; [do 2 next | done].
  rewrite <- mapM_bind. destruct (mapM (CN_STEP2 a) x) as [y |]; [do 2 next | done]. apply mapM_bind.
Qed.
Lemma multi_loop_eq n : forall vs, multi_loop a n vs = mapM (turns_of n) vs.
Proof.
  induction n as [| n IH]; intros vs; cbn [multi_loop turns_of]; [by rewrite mapM_pure |].
  rewrite multi_iteration_eq, <- mapM_bind. by destruct (mapM turn vs); [do 2 next |].
Qed.

(** ** The turn of one hash is a turn of the single hash *)

(** The variables of the single hash, the tweak and the program. *)
Definition vars_of (tweak : Z) (code : list Variant4.V4_Instruction) (s : regs) (cx : m128i) (ptr cl ch : Z) : Vars.t :=
  Vars.Vars (M128 s.(al0) s.(ah0)) s.(bx0) s.(bx1) cx s.(conc_var) s.(idx0) ptr cl ch (M128 0 tweak)
    s.(division_result) s.(sqrt_result) s.(r0) code s.(l0).

(** Both fail, or both leave the same variables. *)
Definition same_step (tweak : Z) (code : list Variant4.V4_Instruction) (x : option regs) (y : option Vars.t) : Prop :=
  match x with Some s => exists cx ptr cl ch, y = Some (vars_of tweak code s cx ptr cl ch) | None => y = None end.

Lemma store_twice mem p x y :
  match store_at mem p x with
  | Some m => load_at m p = Some x /\ store_at m p y = store_at mem p y
  | None => store_at mem p y = None
  end.
Proof.
  unfold store_at, load_at. destruct (p mod 16 =? 0); [| done]. unfold store, load.
  destruct (Z.leb_spec 0 (p / 16)); [| done]. destruct (Z.ltb_spec (p / 16) (Z.of_nat (length mem))); [cbn [andb] | done].
  rewrite list_lookup_insert_eq by lia. rewrite length_insert, (proj2 (Z.ltb_lt _ _)) by lia. cbn [andb].
  by rewrite list_insert_insert_eq.
Qed.

(** The two stores of the fourth step are one. *)
Lemma store_tweaked mem p al ah tweak :
  ((BASE a =? CN_1) = false -> IS_CN_HEAVY_TUBE a || (a =? CN_RTO) = false) ->
  (if BASE a =? CN_1 then
      l ← store_at mem p (_mm_xor_si128 (M128 al ah) (M128 0 tweak));
      if IS_CN_HEAVY_TUBE a || (a =? CN_RTO) then
        x ← load_at l p;
        store_at l p (M128 x.(lo64) (Z.lxor x.(hi64) x.(lo64)))
      else Some l
    else store_at mem p (M128 al ah))
  = store_at mem p (M128 al (if IS_CN_HEAVY_TUBE a || (a =? CN_RTO) then Z.lxor (Z.lxor ah tweak) al
                             else if BASE a =? CN_1 then Z.lxor ah tweak else ah)).
Proof.
  intros Hb. destruct (BASE a =? CN_1); [| by rewrite Hb]. unfold _mm_xor_si128. cbn [lo64 hi64]. rewrite Z.lxor_0_r.
  destruct (_ || _); [| by destruct (store_at _ _ _)].
  pose proof (store_twice mem p (M128 al (Z.lxor ah tweak)) (M128 al (Z.lxor (Z.lxor ah tweak) al))) as H.
  destruct (store_at _ _ (M128 al (Z.lxor ah tweak))) as [m |]; [next | by rewrite H].
  destruct H as [-> <-]. by next.
Qed.
Lemma tweaked_base : (BASE a =? CN_1) = false -> IS_CN_HEAVY_TUBE a || (a =? CN_RTO) = false.
Proof.
  unfold IS_CN_HEAVY_TUBE. intros H. apply orb_false_iff.
  split; apply Z.eqb_neq; intros ->; by vm_compute in H.
Qed.

(** The registers between the load and the product. *)
Lemma math_ok code s cl cx (y := CN_STEP4_math a (M128 s.(al0) s.(ah0)) s.(bx0) s.(bx1) cx cl s.(division_result) s.(sqrt_result) s.(r0) code) :
  match variant_math a code s cl cx with
  | Some (al, ah, cl, dv, sq, r) => exists al' ah', y = Some (al', ah', cl, dv, sq, r) /\
      (if a =? CN_R then _mm_set_epi64x ah' al' else M128 s.(al0) s.(ah0)) = M128 al ah
  | None => y = None
  end.
Proof.
  unfold y, CN_STEP4_math, variant_math, isR. cbn [lo64 hi64]. destruct (Z.eqb_spec a CN_R) as [-> | _].
  - change (BASE CN_R =? CN_2) with true. cbv beta iota.
    destruct (VARIANT4_RANDOM_MATH _ _ _ _ _ _ _ _) as [[r cl'] |]; [next; by eexists _, _ | done].
  - destruct (BASE a =? CN_2); [| by exists 0, 0].
    destruct (VARIANT2_INTEGER_MATH _ _ _ _) as [[[cl' dv] sq] |]; [do 2 next; by exists 0, 0 | done].
Qed.

Lemma turn_ok tweak code s cx ptr cl ch :
  same_step tweak code (iteration a 0 tweak code s) (turn (vars_of tweak code s cx ptr cl ch)).
Proof.
  unfold turn, vars_of, CN_STEP1, iteration, before_division, interleaved_index. cbn [Z.eqb]. cbv beta iota zeta.
  destruct (load_at (l0 s) (Z.land (idx0 s) (MASK a))) as [x |]; [do 2 next | done].
  destruct (if a =? CN_CCX then _ else _) as [x' conc]. next. unfold CN_STEP2.
  set (c := if IS_CN_HEAVY_TUBE a then _ else _).
  change (if IS_CN_HEAVY_TUBE a then aes_round_tweak_div x' (M128 (al0 s) (ah0 s)) else aesenc x' (M128 (al0 s) (ah0 s))) with c.
  change (_mm_set_epi64x (ah0 s) (al0 s)) with (M128 (al0 s) (ah0 s)).
  destruct (if _ || _ then _ else _) as [[m c1] |]; [do 3 next | done].
  unfold CN_STEP3. destruct (load_at m (Z.land (lo64 c1) (MASK a))) as [y |]; [do 3 next | done].
  unfold CN_STEP4. pose proof (math_ok code s (lo64 y) c1) as HM. cbv zeta in HM.
  destruct (variant_math a code s (lo64 y) c1) as [[[[[[al ah] cl'] dv] sq] r] |]; [next | by rewrite HM].
  destruct HM as (al' & ah' & -> & Ea). next. unfold _umul128, variant_shuffle. cbv beta iota zeta.
  match goal with |- same_step _ _ (mbind _ (mbind _ ?shuffled)) _ => destruct shuffled as [[[[m2 c2] hi] lo] |]; [do 2 next | done] end. rewrite Ea.
  unfold _mm_add_epi64. cbn [lo64 hi64 _mm_set_epi64x]. rewrite store_tweaked by apply tweaked_base.
  destruct (store_at _ _ _) as [m3 |]; [do 3 next | done].
  unfold _mm_xor_si128. cbn [lo64 hi64 al0 ah0 idx0 bx0 bx1 conc_var division_result sqrt_result r0 l0]. destruct (if isHeavy a then _ else _) as [[m4 i] |]; [do 2 next | done].
  by eexists _, _, _, _.
Qed.

Lemma turns_ok tweak code n : forall s cx ptr cl ch,
  same_step tweak code (main_loop a 0 n tweak code s) (turns_of n (vars_of tweak code s cx ptr cl ch)).
Proof.
  induction n as [| n IH]; intros s cx ptr cl ch; cbn [main_loop turns_of]; [by eexists _, _, _, _ |].
  pose proof (turn_ok tweak code s cx ptr cl ch) as H. destruct (iteration a 0 tweak code s) as [s' |].
  - destruct H as (cx' & ptr' & cl' & ch' & ->). do 2 next. apply IH.
  - rewrite H. done.
Qed.
End Turn.

(** ** A hash of several is a single hash *)

Section Parts.
Context (A : AesRounds) (a : Z) (turns : nat) (input : list Z) (size : nat) (height : Z).
Let iterations_ := Z.to_nat (iterations a).

(** From the input to the end of the loop. *)
Definition until_implode (h : hash_at) : option hash_at :=
  h ← (h ← keccak_input a input size h; explode_ctx a h);
  v ← (v ← CONST_INIT a turns input size height h; turns_of A a iterations_ v);
  Some (after_loop h v).

Lemma all_until_implode {T} (g : list hash_at -> option T) hs :
  (hs ← mapM (fun h => h ← keccak_input a input size h; explode_ctx a h) hs;
   vs ← mapM (CONST_INIT a turns input size height) hs;
   vs ← multi_loop a iterations_ vs;
   g (zip_with after_loop hs vs)) = (hs ← mapM until_implode hs; g hs).
Proof.
  unfold until_implode. rewrite <- (mapM_bind (fun h => h ← keccak_input a input size h; explode_ctx a h)).
  destruct (mapM _ hs) as [hs' |]; [repeat next | done]. clear hs.
  rewrite <- (mapM_zip (fun h => v ← CONST_INIT a turns input size height h; turns_of A a iterations_ v) after_loop hs').
  rewrite <- (mapM_bind (CONST_INIT a turns input size height)).
  destruct (mapM _ hs') as [vs |]; [repeat next | done]. rewrite multi_loop_eq. by destruct (mapM _ vs); [repeat next |].
Qed.


Lemma outputs_implode f hs : forall output, (hs ← mapM f hs; outputs Some output hs) = outputs f output hs.
Proof.
  unfold outputs. induction hs as [| h hs IH]; intros output; [done |]. cbn [mapM for_each].
  destruct (f h) as [h' |]; [repeat next | done].
  destruct (hash_output output h') as [[o ctx] |] eqn:E.
  - next. rewrite <- IH. destruct (mapM f hs) as [hs' |]; [repeat next | done]. cbn [for_each]. next. rewrite E. by next.
  - destruct (mapM f hs) as [hs' |]; [repeat next | done]. cbn [for_each]. next. by rewrite E.
Qed.

(** The single hash, when it is not too short. *)
Hypothesis long : (BASE a =? CN_1) && (size <? 43)%nat = false.

Lemma tweak_part i st :
  length (take size (drop (size * i) input)) = size ->
  (if BASE a =? CN_1 then x ← load64 input (i * size + 35); Some (_mm_set_epi64x (Z.lxor x st.[24]) 0) else Some (M128 0 0))
  = (tweak ← VARIANT1_INIT a (take size (drop (size * i) input)) st; Some (M128 0 tweak)).
Proof.
  intros Hl. unfold VARIANT1_INIT, load64. rewrite Hl. destruct (BASE a =? CN_1); [| done]. cbn [andb] in long. apply Nat.ltb_ge in long.
  rewrite length_take, length_drop in Hl. rewrite !(proj2 (Nat.leb_le _ _)) by nia. repeat next.
  unfold _mm_set_epi64x. do 4 f_equal. rewrite skipn_firstn_comm, take_take, drop_drop. f_equal; [lia | f_equal; lia].
Qed.

Lemma single_hash_parts i u ctx output :
  length (take size (drop (size * i) input)) = size ->
  cryptonight_single_hash a 0 turns u (take size (drop (size * i) input)) output ctx height
  = ('(_, _, c) ← until_implode (i, u, ctx); c ← cn_implode_scratchpad a 0 c; finish u output c).
Proof.
  intros Hl. unfold cryptonight_single_hash, before_loop, until_implode, keccak_input, explode_ctx, CONST_INIT. rewrite Hl, long. cbv zeta.
  destruct (absorb_input _ _ _ _) as [c0 |]; [repeat next | done].
  destruct (cn_explode_scratchpad _ _ _) as [c |]; [repeat next | done]. rewrite tweak_part by done.
  destruct (VARIANT1_INIT _ _ _) as [tw |]; [repeat next | done].
  destruct (VARIANT4_RANDOM_MATH_INIT _ _ _ _ _ _ _) as [[r code] |]; [repeat next | done].
  pose proof (turns_ok A a tw code iterations_ (init_regs c.(state) r c.(memory)) (M128 0 0) 0 0 0) as H.
  change (vars_of tw code (init_regs c.(state) r c.(memory)) (M128 0 0) 0 0 0) with (Vars.Vars 
    (_mm_set_epi64x (Z.lxor c.(state).[1] c.(state).[5]) (Z.lxor c.(state).[0] c.(state).[4]))
    (_mm_set_epi64x (Z.lxor c.(state).[3] c.(state).[7]) (Z.lxor c.(state).[2] c.(state).[6]))
    (_mm_set_epi64x (Z.lxor c.(state).[9] c.(state).[11]) (Z.lxor c.(state).[8] c.(state).[10]))
    (M128 0 0) (M128 0 0) (Z.lxor c.(state).[0] c.(state).[4]) 0 0 0 (M128 0 tw) c.(state).[12] c.(state).[13] r code c.(memory)) in H.
  unfold iterations_ in *. destruct (main_loop _ _ _ _ _ _) as [s |].
  - destruct H as (cx & ptr & cl & ch & E). cbn [lo64 _mm_set_epi64x] in E |- *. rewrite E. repeat next.
    change (after_loop (i, u, c) (vars_of tw code s cx ptr cl ch)) with (i, u, set_memory c s.(l0)). cbv beta iota.
    unfold finish. cbv zeta. reflexivity.
  - cbn [same_step] in H. cbn [lo64 _mm_set_epi64x] in H |- *. by rewrite H.
Qed.

(** A hash keeps its number and its locals. *)
Lemma until_implode_keeps i u ctx i' u' c : until_implode (i, u, ctx) = Some (i', u', c) -> i' = i /\ u' = u.
Proof.
  unfold until_implode, keccak_input, explode_ctx. destruct (absorb_input _ _ _ _); [repeat next | done].
  destruct (cn_explode_scratchpad _ _ _); [repeat next | done].
  destruct (mbind _ (CONST_INIT _ _ _ _ _ _)) as [v |]; [next | done]. by intros [= <- <- _].
Qed.

(** The parts of the input are whole. *)
Lemma outputs_in_turn hs : forall output,
  Forall (fun h : hash_at => length (take size (drop (size * h.1.1) input)) = size) hs ->
  (hs ← mapM until_implode hs; outputs (implode_ctx a) output hs) = in_turn a turns input size height output hs.
Proof.
  unfold outputs. induction hs as [| [[i u] ctx] hs IH]; intros output Hl; [done |]. apply Forall_cons_1 in Hl as [Hi Hl].
  cbn [mapM in_turn]. rewrite single_hash_parts by done. cbn [fst] in *.
  destruct (until_implode (i, u, ctx)) as [[[i' u'] c] |] eqn:Eu; [repeat next | done].
  apply until_implode_keeps in Eu as [-> ->].
  destruct (mapM until_implode hs) as [hs' |].
  - repeat next. cbn [for_each]. change (implode_ctx a (i, u, c)) with (c ← cn_implode_scratchpad a 0 c; Some (i, u, c)).
    destruct (cn_implode_scratchpad a 0 c) as [c2 |]; [repeat next | done]. unfold finish, hash_output.
    destruct (extra_hashes _ _ _ _) as [o |]; [repeat next | done]. rewrite <- IH by done. by next.
  - destruct (mbind _ (cn_implode_scratchpad a 0 c)) as [[o c2] |]; [next | done]. rewrite <- IH by done. done.
Qed.
End Parts.

(** The numbers and parts of [n] hashes. *)
Lemma numbered_parts (input : list Z) size (us : list locals) ctxs n :
  length input = (n * size)%nat -> length us = n ->
  Forall (fun h : hash_at => length (take size (drop (size * h.1.1) input)) = size) (numbered us ctxs).
Proof.
  intros Hl Hu. apply List.Forall_forall. intros [[i u] c] Hin. cbn [fst]. apply in_combine_l, in_combine_l, in_seq in Hin.
  rewrite length_take, length_drop. nia.
Qed.

(** Inputs that are too short for variant 1. *)
Lemma in_turn_short (A : AesRounds) a turns input size height : (BASE a =? CN_1) && (size <? 43)%nat = true ->
  forall (us : list locals) (ctxs : list cryptonight_ctx) k output, length us = length ctxs -> (32 * (k + length us) <= length output)%nat ->
  in_turn a turns input size height output (zip (zip (seq k (length us)) us) ctxs)
  = Some (take (32 * k) output ++ replicate (32 * length us) 0 ++ drop (32 * (k + length us)) output, ctxs).
Proof.
  intros Hs. apply andb_true_iff in Hs as [Hb Hs]. apply Nat.ltb_lt in Hs.
  induction us as [| u us IH]; intros [| ctx ctxs] k output Hl Ho; try done.
  - cbn [length seq zip_with in_turn]. rewrite Nat.mul_0_r, Nat.add_0_r. cbn [replicate app]. by rewrite take_drop.
  - cbn [length seq zip_with in_turn] in *. unfold cryptonight_single_hash at 1.
    rewrite Hb, (proj2 (Nat.ltb_lt _ _)) by (rewrite length_take; lia). cbn [andb]. next.
    unfold write_at. rewrite take_0, app_nil_l, length_replicate, drop_drop. change (0 + 32)%nat with 32%nat.
    rewrite IH by (try lia; rewrite !length_app, length_take, length_replicate, length_drop; lia). next.
    do 2 f_equal. replace (32 * S (length us))%nat with (32 + 32 * length us)%nat by lia. rewrite replicate_add.
    set (T := take (32 * k) output). assert (HT : length T = (32 * k)%nat) by (unfold T; rewrite length_take; lia).
    rewrite !(app_assoc T). assert (HTR : length (T ++ replicate 32 0) = (32 * S k)%nat) by (rewrite length_app, length_replicate; lia).
    rewrite take_app_length' by done. rewrite drop_app_ge by (rewrite HTR; lia). rewrite drop_drop, HTR.
    rewrite (app_assoc (T ++ _)), <- (app_assoc T). do 2 f_equal. lia.
Qed.

Lemma whole_output (output : list Z) n : length output = n -> take (32 * 0) output ++ replicate n 0 ++ drop n output = write_at 0 (replicate n 0) output.
Proof. intros Hl. unfold write_at. by rewrite length_replicate. Qed.

(** ** The hashes *)

Section Hashes.
Context (A : AesRounds) (a : Z) (turns : nat) (us : list locals) (input : list Z) (size : nat) (output : list Z)
  (ctxs : list cryptonight_ctx) (height : Z) (n : nat).
Hypotheses (Hi : length input = (n * size)%nat) (Hu : length us = n) (Hc : length ctxs = n) (Ho : length output = (32 * n)%nat).

Lemma in_turn_zeroes : (BASE a =? CN_1) && (size <? 43)%nat = true ->
  in_turn a turns input size height output (numbered us ctxs) = Some (write_at 0 (replicate (32 * n) 0) output, ctxs).
Proof.
  intros Hs. unfold numbered. rewrite in_turn_short by (done || lia). rewrite Hu, Nat.add_0_l. by rewrite whole_output.
Qed.
Lemma in_turn_long : (BASE a =? CN_1) && (size <? 43)%nat = false ->
  (hs ← mapM (fun h => h ← keccak_input a input size h; explode_ctx a h) (numbered us ctxs);
   vs ← mapM (CONST_INIT a turns input size height) hs;
   vs ← multi_loop a (Z.to_nat (iterations a)) vs;
   outputs (implode_ctx a) output (zip_with after_loop hs vs))
  = in_turn a turns input size height output (numbered us ctxs).
Proof.
  intros Hs. rewrite (all_until_implode A a turns input size height (outputs (implode_ctx a) output)).
  apply outputs_in_turn; [done |]. by apply (numbered_parts input size us ctxs n).
Qed.

(** Three and five; four differs in the order of its loops only. *)
Lemma triple_in_turn : n = 3%nat ->
  cryptonight_triple_hash a turns us input size output ctxs height = in_turn a turns input size height output (numbered us ctxs).
Proof.
  intros Hn. unfold cryptonight_triple_hash. destruct (_ && _) eqn:E; [by rewrite in_turn_zeroes, Hn |].
  by rewrite <- in_turn_long.
Qed.
Lemma penta_in_turn : n = 5%nat ->
  cryptonight_penta_hash a turns us input size output ctxs height = in_turn a turns input size height output (numbered us ctxs).
Proof.
  intros Hn. unfold cryptonight_penta_hash. destruct (_ && _) eqn:E; [by rewrite in_turn_zeroes, Hn |].
  by rewrite <- in_turn_long.
Qed.
Lemma quad_in_turn : n = 4%nat ->
  cryptonight_quad_hash a turns us input size output ctxs height = in_turn a turns input size height output (numbered us ctxs).
Proof.
  intros Hn. unfold cryptonight_quad_hash. destruct (_ && _) eqn:E; [by rewrite in_turn_zeroes, Hn |].
  rewrite <- in_turn_long, <- mapM_bind by done. destruct (mapM _ (numbered us ctxs)) as [hs0 |]; [repeat next | done].
  destruct (mapM _ hs0) as [hs |]; [do 2 next | done]. destruct (mapM _ hs) as [vs |]; [do 2 next | done]. destruct (multi_loop _ _ vs) as [vs' |]; [do 2 next | done].
  apply outputs_implode.
Qed.
Lemma double_in_turn `{!AesRoundsOk A} : n = 2%nat -> a ∈ cn_algos -> bytes input -> Forall locals_ok us -> Forall (ctx_ok a) ctxs ->
  double_hash a turns us input size output ctxs height = in_turn a turns input size height output (numbered us ctxs).
Proof.
  intros Hn Ha Hb Hus Hcs. subst n.
  destruct us as [| u0 [| u1 []]], ctxs as [| c0 [| c1 []]]; try done.
  apply Forall_cons_1 in Hus as [Hu0 Hus]. apply Forall_cons_1 in Hus as [Hu1 _].
  apply Forall_cons_1 in Hcs as [Hc0 Hcs]. apply Forall_cons_1 in Hcs as [Hc1 _].
  unfold double_hash. rewrite (double_hash_spec A a Ha) by (done || lia).
  unfold numbered. cbn [length seq zip_with in_turn]. rewrite !Nat.mul_0_r, !Nat.mul_1_r, !drop_0.
  destruct (cryptonight_single_hash _ _ _ _ (take size input) _ _ _) as [[o0 c0'] |]; [do 2 next | done].
  change (take 0 output ++ o0) with o0. rewrite (take_ge (drop size input)) by (rewrite length_drop; lia).
  by destruct (cryptonight_single_hash _ _ _ _ (drop size input) _ _ _) as [[o1 c1'] |]; [do 2 next |].
Qed.
End Hashes.

(** ** Theorem *)

(** C8: Hashing two, three, four or five inputs at once gives what hashing them
    one after the other gives, outputs and contexts, for every algorithm, with
    any correct AES rounds and whatever the memory held before; one fails
    exactly when one of the single hashes does. *)
Theorem interleaved_hashes (A : AesRounds) (ok : AesRoundsOk A) a turns us input size output ctxs height n :
  a ∈ cn_algos -> bytes input -> Forall locals_ok us -> Forall (ctx_ok a) ctxs ->
  length input = (n * size)%nat -> length us = n -> length ctxs = n -> length output = (32 * n)%nat ->
  let expected := in_turn a turns input size height output (numbered us ctxs) in
  match n with
  | 2%nat => double_hash a turns us input size output ctxs height = expected
  | 3%nat => cryptonight_triple_hash a turns us input size output ctxs height = expected
  | 4%nat => cryptonight_quad_hash a turns us input size output ctxs height = expected
  | 5%nat => cryptonight_penta_hash a turns us input size output ctxs height = expected
  | _ => True
  end.
Proof.
  intros Ha Hb Hus Hcs Hi Hu Hc Ho. cbv zeta. destruct n as [| [| [| [| [| [| n]]]]]]; [done | done | | | | | done].
  - by apply (double_in_turn A a turns us input size output ctxs height 2).
  - by apply (triple_in_turn A a turns us input size output ctxs height 3).
  - by apply (quad_in_turn A a turns us input size output ctxs height 4).
  - by apply (penta_in_turn A a turns us input size output ctxs height 5).
Qed.

Lemma interleaved_hashes_witness (us := replicate 4 some_locals) (input := replicate 304 3) (output := replicate 128 0)
    (ctxs := replicate 4 (blank_ctx CN_R)) :
  @cryptonight_quad_hash soft_rounds CN_R 9 us input 76 output ctxs 1806260
  = @in_turn soft_rounds CN_R 9 input 76 1806260 output (numbered us ctxs).
Proof.
  apply (interleaved_hashes soft_rounds soft_rounds_ok CN_R 9 us input 76 output ctxs 1806260 4);
    [by apply (bool_decide_unpack _) | by apply (bool_decide_unpack _) | apply Forall_replicate, some_locals_ok
    | apply Forall_replicate, blank_ctx_ok | reflexivity ..].
Defined.
