(* ===== verification/JobBoundary.v ===== *)
(** * The boundary of a mining job: [native/job-boundary.h] and its users in
    [native/core.h] and [native/job/execution.inc]

    What the miner checks of a job that comes from a pool: numbers in text,
    the layouts of the blobs, the shapes of PearlHash matrices; and how the
    worker threads divide the space of nonces among themselves.  The
    templates over [UInt] are functions of its width [w].  A function that
    returns whether it succeeded and stores its result through a reference is
    a function of the old value that returns a pair. *)

From stdpp Require Import strings.
From S2P Require Import Prelude Endian.

(** ** The code: numbers and text *)

(** [std::numeric_limits<UInt>::max()] and [static_cast<UInt>]. *)
Definition maximum (w : Z) : Z := 2 ^ w - 1.
Definition cast (w x : Z) : Z := x mod 2 ^ w.

(** The value of a character as a digit. *)
Definition digit_of (character : Z) : option Z :=
  if (48 <=? character) && (character <=? 57) then Some (character - 48)
  else if (97 <=? character) && (character <=? 122) then Some (character - 97 + 10)
  else if (65 <=? character) && (character <=? 90) then Some (character - 65 + 10)
  else None.

Fixpoint digits_loop (w base value : Z) (text : list Z) : option Z :=
  match text with
  | [] => Some value
  | character :: text =>
      let radix := cast w base in
      match digit_of character with
      | None => None
      | Some digit =>
          if base <=? digit then None else
          let digit_value := cast w digit in
          if (maximum w - digit_value) / radix <? value then None
          else digits_loop w base (cast w (value * radix + digit_value)) text
      end
  end.

Definition has_hex_prefix (text : list Z) : bool :=
  match text with c0 :: c1 :: _ => (c0 =? 48) && ((c1 =? 120) || (c1 =? 88)) | _ => false end.

Definition parse_unsigned (w : Z) (text : list Z) (out base : Z) (allow_hex_prefix : bool) :
  bool * Z :=
  if (base <? 2) || (36 <? base) then (false, out) else
  let begin := if allow_hex_prefix && (base =? 16) && has_hex_prefix text then 2%nat else 0%nat in
  if (begin =? length text)%nat then (false, out) else
  match digits_loop w base 0 (drop begin text) with
  | Some value => (true, value)
  | None => (false, out)
  end.

(** [text.find(delimiter, pos)]; [None] is [npos]. *)
Fixpoint find_from (delimiter : Z) (pos : nat) (text : list Z) : option nat :=
  match text with
  | [] => None
  | c :: text =>
      match pos with
      | O => if c =? delimiter then Some O else option_map S (find_from delimiter O text)
      | S pos => option_map S (find_from delimiter pos text)
      end
  end.

Definition split_once (text : list Z) (delimiter : Z) (left right : list Z) : bool * list Z * list Z :=
  match find_from delimiter 0 text with
  | None => (false, left, right)
  | Some position =>
      if (position =? 0)%nat || (position + 1 =? length text)%nat then (false, left, right) else
      if find_from delimiter (position + 1) text is Some _ then (false, left, right)
      else (true, take position text, drop (position + 1) text)
  end.

(** ** The code: layouts and shapes *)

Definition str (s : Strings.String.string) : list Z :=
  map (fun c => Z.of_N (Ascii.N_of_ascii c)) (Strings.String.list_ascii_of_string s).
#[global] Arguments str s%_string.

Definition nonce_big_endian (algo : list Z) (blob_size : Z) : bool :=
  (bool_decide (algo = str "fishhash") && (blob_size =? 180)) ||
  bool_decide (algo = str "xelishashv3") || bool_decide (algo = str "nexapow") ||
  bool_decide (algo = str "beamhash3").

(** [size_t] has 64 bits. *)
Definition fishhash_nonce_offset (blob_size : Z) : Z :=
  if blob_size =? 40 then 32 else if blob_size =? 180 then 172 else maximum 64.
Definition valid_fishhash_layout (blob_size offset : Z) : bool :=
  let expected := fishhash_nonce_offset blob_size in
  negb (expected =? maximum 64) && (offset =? expected).
Definition valid_karlsenhashv2_layout (blob_size offset : Z) : bool :=
  (blob_size =? 80) && (offset =? 72).
Definition valid_nexapow_layout (blob_size offset : Z) : bool :=
  ((blob_size =? 40) && (offset =? 32)) || ((blob_size =? 44) && (offset =? 36)) ||
  ((blob_size =? 48) && (offset =? 40)).
Definition valid_cn_gpu_input (size : Z) : bool := (0 <? size) && (size <=? 135).
Definition valid_beamhash3_input (size : Z) : bool := size =? 44.
Definition padded_u32_range_fits (count alignment : Z) : bool :=
  negb (alignment =? 0) && (count <=? maximum 32 - u32 (alignment - 1)).

Definition valid_pearlhash_shape (m n k rank : Z) : bool :=
  let rank_power_of_two := negb (rank =? 0) && (Z.land rank (u64 (rank - 1)) =? 0) in
  let max_dimension := u64 (Z.shiftl 1 24) in
  let max_k := u64 (Z.shiftl 1 16) in
  if (m <? 128) || (max_dimension <? m) || negb (m mod 32 =? 0) ||
     (n <? 128) || (max_dimension <? n) || negb (n mod 32 =? 0) ||
     (k <? 1024) || (max_k <? k) || negb (k mod 64 =? 0) || (rank <? 128) || (1024 <? rank) ||
     negb rank_power_of_two || (k <? u64 (16 * rank)) || (u64 (u64 (4 * rank) * rank) <? k)
  then false else
  let tile_rows := m / 16 in
  let tile_columns := n / 16 in
  let signed_max := maximum 31 in
  (m <=? signed_max / rank) && (n <=? signed_max / rank) && (m <=? signed_max / k) &&
  (tile_rows <=? signed_max / tile_columns) && (n <=? maximum 64 / m) &&
  (u64 (m * n) <=? maximum 64 / k).

Definition c29_completed_graphs (result : Z) : Z := if result =? 0 then 1 else 0.

(** ** The code: nonces *)

Definition nonce_overflowed (previous next protected_mask : Z) : bool :=
  (next <? previous) || negb (Z.land previous protected_mask =? Z.land next protected_mask).

Definition nonce_with_offset (w base index stride protected_mask result : Z) : bool * Z :=
  if negb (index =? 0) && (maximum 64 / index <? stride) then (false, result) else
  let offset := u64 (index * stride) in
  if maximum w - base <? offset then (false, result) else
  let candidate := cast w (base + cast w offset) in
  if negb (protected_mask =? 0) &&
     negb (Z.land base protected_mask =? Z.land candidate protected_mask)
  then (false, result) else (true, candidate).

Definition pearl_seed_start (slot thread_id thread_num stride start : Z) : bool * Z :=
  if (thread_num =? 0) || (thread_num <=? thread_id) || (stride =? 0) then (false, start)
  else nonce_with_offset 32 slot thread_id stride 0 start.

Definition pearl_seed_next (current step next : Z) : bool * Z :=
  let max := maximum 32 in
  if (step =? 0) || (max <? step) || (u64 (max - step) <? current) then (false, next)
  else (true, u32 (u64 (current + step))).

(** The pair of references is [last], [next]. *)
Definition next_nonce_batch (w first count lane_stride batch_stride protected_mask last next : Z) :
  bool * Z * Z :=
  if count =? 0 then (false, last, next) else
  let '(ok, last) := nonce_with_offset w first (count - 1) lane_stride protected_mask last in
  if negb ok then (false, last, next) else
  let '(ok, next) := nonce_with_offset w first 1 batch_stride protected_mask next in
  if negb ok then (false, last, next) else
  let '(ok, _) := nonce_with_offset w next (count - 1) lane_stride protected_mask 0 in
  (ok, last, next).

Definition load_nonce (w : Z) (data : list Z) (big_endian : bool) : Z :=
  let sizeof := Z.to_nat (w / 8) in
  if big_endian then
    fold_left (fun value i => cast w (Z.lor (cast w (Z.shiftl value 8)) data.[i])) (seq 0 sizeof) 0
  else
    fold_left (fun value i => cast w (Z.lor value (cast w (Z.shiftl data.[i] (8 * Z.of_nat i)))))
      (seq 0 sizeof) 0.

Definition store_nonce (w : Z) (data : list Z) (value : Z) (big_endian : bool) : list Z :=
  let sizeof := Z.to_nat (w / 8) in
  if big_endian then
    fold_left (fun data i => <[i := u8 (Z.shiftr value (Z.of_nat (sizeof - 1 - i) * 8))]> data)
      (seq 0 sizeof) data
  else fold_left (fun data i => <[i := u8 (Z.shiftr value (Z.of_nat i * 8))]> data) (seq 0 sizeof) data.

(** ** The code: the nonces of a worker *)

(** [Core::next_nonce_after_batch]: the nonce, and [m_nonce_exhausted]. *)
Definition next_nonce_after_batch (w m_target : Z) (m_nonce_exhausted : bool)
  (first count lane_stride batch_stride protected_mask : Z) : Z * bool :=
  if m_target =? 0 then (cast w (first + cast w batch_stride), m_nonce_exhausted) else
  let '(ok, last, next) :=
    next_nonce_batch w first count lane_stride batch_stride protected_mask first first in
  if ok then (next, m_nonce_exhausted) else (last, true).

(** The checks of [Core::set_job] on the batch and the worker. *)
Definition worker_ok (new_batch new_thread_num new_thread_id nonce_unit : Z) : bool :=
  negb (new_batch =? 0) && negb (new_thread_num =? 0) && (new_thread_id <? new_thread_num) &&
  (new_batch <=? maximum 32 / new_thread_num / nonce_unit).

(** What [Core::set_job] leaves: the first batch, the member [m_nonce32] or
    [m_nonce64], [m_nonce_exhausted] and [m_nonce_step]. *)
Record nonce_plan := { first_nonce : Z; m_nonce : Z; nonce_exhausted : bool; m_nonce_step : Z }.

(** One blob on a GPU, [w] = 32 for verthash and 64 for the others; [None] is
    the exception. *)
Definition embedded_plan (w m_target new_nonce new_thread_id new_thread_num m_batch mask : Z) :
  option nonce_plan :=
  let step := u32 (new_thread_num * m_batch) in
  let current := cast w (cast w new_nonce + cast w (new_thread_id * m_batch)) in
  let finish (current : Z) :=
    let '(nonce, exhausted) := next_nonce_after_batch w m_target false current m_batch 1 step mask in
    Some {| first_nonce := current; m_nonce := nonce; nonce_exhausted := exhausted; m_nonce_step := step |} in
  if m_target =? 0 then finish current else
  let '(ok, current) := nonce_with_offset w (cast w new_nonce) new_thread_id m_batch mask current in
  if negb ok then None else
  let '(ok, _) := nonce_with_offset w current (m_batch - 1) 1 mask 0 in
  if negb ok then None else finish current.

(** A blob for every lane of the batch; [blob_nonce] is the nonce in the
    pool's blob, [nonce_unit] is 1 where the nonce has 64 bits. *)
Definition generic_plan (w m_target new_nonce new_thread_id new_thread_num m_batch nonce_unit mask
    blob_nonce : Z) : option nonce_plan :=
  let step := u32 (new_thread_num * nonce_unit) in
  let m := cast w (cast w new_nonce + cast w (u32 (new_thread_id * nonce_unit))) in
  let '(ok, m) := if m_target =? 0 then (true, m)
    else nonce_with_offset w (cast w new_nonce) new_thread_id nonce_unit 0 m in
  if negb ok then None else
  let first := if mask =? 0 then m else Z.lor m (Z.land blob_nonce mask) in
  let '(ok, _) := if m_target =? 0 then (true, 0)
    else nonce_with_offset w first (m_batch - 1) step mask 0 in
  if negb ok then None else
  let '(nonce, exhausted) :=
    next_nonce_after_batch w m_target false first m_batch step (u64 (m_batch * step)) mask in
  Some {| first_nonce := first; m_nonce := nonce; nonce_exhausted := exhausted; m_nonce_step := step |}.

(** RandomX: a thread per element of the batch, each with its own counter. *)
Definition rx_ok (new_nonce new_thread_id new_batch nonce_unit : Z) : bool :=
  let '(ok, first_initial_nonce) :=
    nonce_with_offset 32 (u32 new_nonce) (u64 (new_thread_id * new_batch)) nonce_unit 0 0 in
  ok && fst (nonce_with_offset 32 first_initial_nonce (new_batch - 1) nonce_unit 0 0).
Definition rx_step (new_thread_num m_batch nonce_unit : Z) : Z :=
  u32 (u64 (u64 (new_thread_num * m_batch) * nonce_unit)).
Definition rx_initial (new_nonce new_thread_id m_batch batch_id nonce_unit : Z) : Z :=
  u32 (u64 (new_nonce + u64 (u64 (u64 (new_thread_id * m_batch) + batch_id) * nonce_unit))).
Definition rx_first (initial_nonce mask blob_nonce : Z) : Z :=
  if mask =? 0 then initial_nonce else Z.lor initial_nonce (Z.land blob_nonce mask).
(** The nonces a thread hashes, as many as [turns] of its loop. *)
Fixpoint rx_nonces (turns : nat) (nonce step mask : Z) : list Z :=
  match turns with
  | O => []
  | S turns =>
      let next_nonce := u32 (nonce + step) in
      nonce :: (if nonce_overflowed nonce next_nonce mask then []
                else rx_nonces turns next_nonce step mask)
  end.

(** The first nonces of the batches a device hashes in [turns] turns of the
    loop of [Core::Execute]: the one that is prepared, and the next ones until
    the nonces are exhausted. *)
Fixpoint device_batches (turns : nat) (w m_target prepared nonce : Z) (exhausted : bool)
  (count lane_stride batch_stride mask : Z) : list Z :=
  match turns with
  | O => []
  | S turns =>
      prepared ::
      (if exhausted then [] else
       let '(nonce', exhausted') :=
         next_nonce_after_batch w m_target exhausted nonce count lane_stride batch_stride mask in
       device_batches turns w m_target nonce nonce' exhausted' count lane_stride batch_stride mask)
  end.

(** ** Numbers in text *)

Module Numerals.
Definition lower : list Z := map Z.of_nat (seq 48 10 ++ seq 97 26).
Definition upper : list Z := map Z.of_nat (seq 48 10 ++ seq 65 26).
(** The character [c] is the digit [d], in either case. *)
Definition denotes (c d : Z) : Prop :=
  0 <= d /\ (lower !! Z.to_nat d = Some c \/ upper !! Z.to_nat d = Some c).
Definition value (base : Z) (ds : list Z) : Z := fold_left (fun v d => v * base + d) ds 0.
(** The text is a numeral in the base, of that value. *)
Definition reads (base : Z) (text : list Z) (v : Z) : Prop :=
  text <> [] /\ exists ds, Forall2 denotes text ds /\ Forall (fun d => d < base) ds /\ value base ds = v.
End Numerals.
Import Numerals.

Lemma digit_of_range c d : digit_of c = Some d -> 0 <= d < 36.
Proof.
  unfold digit_of. repeat (case_match; [intros [= <-]; lia |]). discriminate.
Qed.

Lemma digit_of_denotes c d : digit_of c = Some d <-> denotes c d.
Proof.
  split.
  - intros H. pose proof (digit_of_range _ _ H) as Hd. revert H.
    unfold digit_of. repeat case_match; intros [= <-]; (split; [lia |]).
    + left. unfold lower. rewrite list_lookup_fmap, lookup_app_l by (rewrite length_seq; lia).
      rewrite lookup_seq_lt by lia. cbn. f_equal. lia.
    + left. unfold lower. rewrite list_lookup_fmap, lookup_app_r by (rewrite length_seq; lia).
      rewrite length_seq, lookup_seq_lt by lia. cbn. f_equal. lia.
    + right. unfold upper. rewrite list_lookup_fmap, lookup_app_r by (rewrite length_seq; lia).
      rewrite length_seq, lookup_seq_lt by lia. cbn. f_equal. lia.
  - intros [Hd Hc].
    assert (Hlt : (Z.to_nat d < 36)%nat).
    { destruct Hc as [Hc | Hc]; apply lookup_lt_Some in Hc; exact Hc. }
    rewrite <- (Z2Nat.id d) by done. revert Hc Hlt. generalize (Z.to_nat d). clear.
    intros n Hc Hlt.
    do 36 (destruct n as [| n]; [destruct Hc as [[= <-] | [= <-]]; reflexivity |]). lia.
Qed.

Lemma fold_value_ge base ds v :
  1 <= base -> 0 <= v -> Forall (fun d => 0 <= d) ds ->
  v <= fold_left (fun v d => v * base + d) ds v.
Proof.
  intros Hb Hv Hds. revert v Hv. induction Hds as [| d ds Hd _ IH]; intros v Hv; [done |].
  cbn [fold_left]. assert (v <= v * base + d) by nia. specialize (IH (v * base + d)). lia.
Qed.

Lemma denotes_nonneg text ds : Forall2 denotes text ds -> Forall (fun d => 0 <= d) ds.
Proof. induction 1 as [| c d text ds [Hd _] _ IH]; by constructor. Qed.

Lemma cast_small w x : word w x -> cast w x = x.
Proof. intros Hx. by apply Z.mod_small. Qed.

(** The test in front of the multiplication: the next value fits. *)
Lemma guard_fits w base v d :
  2 <= base -> 0 <= v -> 0 <= d < base -> d <= maximum w ->
  ((maximum w - d) / base < v <-> 2 ^ w <= v * base + d).
Proof.
  intros Hb Hv Hd Hm. unfold maximum in *. split; intros H.
  - assert (2 ^ w - 1 - d < v * base); [| lia].
    apply Z.nle_gt. intros Hle. apply Z.div_le_lower_bound in H || idtac.
    assert (v <= (2 ^ w - 1 - d) / base) by (apply Z.div_le_lower_bound; lia). lia.
  - apply Z.div_lt_upper_bound; lia.
Qed.

Lemma digits_loop_spec w base text v r :
  8 <= w -> 2 <= base <= 36 -> word w v ->
  digits_loop w base v text = Some r <->
  exists ds, Forall2 denotes text ds /\ Forall (fun d => d < base) ds /\
    fold_left (fun v d => v * base + d) ds v = r /\ r < 2 ^ w.
Proof.
  intros Hw Hb. assert (Hp : 2 ^ 8 <= 2 ^ w) by (apply Z.pow_le_mono_r; lia). change (2 ^ 8) with 256 in Hp.
  revert v. induction text as [| c text IH]; intros v Hv; cbn [digits_loop].
  { split.
    - intros [= <-]. exists []. unfold word in Hv. do 2 (split; [constructor |]). split; [done | lia].
    - intros (ds & Hds & _ & <- & _). apply Forall2_nil_inv_l in Hds as ->. done. }
  rewrite (cast_small w base) by (unfold word; lia).
  destruct (digit_of c) as [d |] eqn:Hc.
  - pose proof (digit_of_range _ _ Hc) as Hd. rewrite (cast_small w d) by (unfold word; lia).
    apply digit_of_denotes in Hc.
    assert (Huniq : forall d', denotes c d' -> d' = d).
    { intros d' Hd'. apply digit_of_denotes in Hc, Hd'. congruence. }
    destruct (Z.leb_spec base d) as [Hbd | Hbd].
    { split; [discriminate |]. intros (ds & Hds & Hlt & _).
      apply Forall2_cons_inv_l in Hds as (d' & ds' & Hd' & _ & ->).
      apply Huniq in Hd' as ->. apply Forall_cons_1 in Hlt as [Hlt _]. lia. }
    pose proof (guard_fits w base v d ltac:(lia) ltac:(unfold word in Hv; lia) ltac:(lia)
      ltac:(unfold maximum; lia)) as Hg.
    destruct (Z.ltb_spec ((maximum w - d) / base) v) as [Hov | Hov].
    + split; [discriminate |]. intros (ds & Hds & Hlt & Hr & Hrw).
      apply Forall2_cons_inv_l in Hds as (d' & ds' & Hd' & Hds' & ->).
      apply Huniq in Hd' as ->. cbn [fold_left] in Hr. apply Hg in Hov.
      pose proof (fold_value_ge base ds' (v * base + d) ltac:(lia) ltac:(lia) (denotes_nonneg _ _ Hds')). lia.
    + assert (Hfit : word w (v * base + d)) by (unfold word in *; nia).
      rewrite (cast_small w) by done. rewrite (IH _ Hfit). split.
      * intros (ds & Hds & Hlt & Hr & Hrw). exists (d :: ds). cbn [fold_left]. do 2 (split; [by constructor |]). by split.
      * intros (ds & Hds & Hlt & Hr & Hrw).
        apply Forall2_cons_inv_l in Hds as (d' & ds' & Hd' & Hds' & ->).
        apply Huniq in Hd' as ->. apply Forall_cons_1 in Hlt as [_ Hlt]. by exists ds'.
  - split; [discriminate |]. intros (ds & Hds & _).
    apply Forall2_cons_inv_l in Hds as (d' & ds' & Hd' & _). apply digit_of_denotes in Hd'. congruence.
Qed.

(** What is left of the text when a prefix 0x is accepted and there. *)
Definition body (text : list Z) (base : Z) (allow_hex_prefix : bool) : list Z :=
  if allow_hex_prefix && (base =? 16) && has_hex_prefix text then drop 2 text else text.

Lemma parse_unsigned_reads w text out base hex v :
  8 <= w -> 2 <= base <= 36 ->
  parse_unsigned w text out base hex = (true, v) <-> reads base (body text base hex) v /\ v < 2 ^ w.
Proof.
  intros Hw Hb. unfold parse_unsigned, reads, body.
  rewrite (proj2 (Z.ltb_ge base 2)), (proj2 (Z.ltb_ge 36 base)) by lia. cbn [orb].
  assert (Hbody : forall b : bool, (b = true -> (2 <= length text)%nat) ->
    ((if b then 2 else 0) =? length text)%nat = bool_decide ((if b then drop 2 text else text) = []) /\
    drop (if b then 2 else 0) text = if b then drop 2 text else text).
  { intros [] Hl; split; [| done | | done].
    - specialize (Hl eq_refl). destruct text as [| ? [| ? [| ]]]; cbn in *; (lia || done).
    - by destruct text. }
  destruct (Hbody (hex && (base =? 16) && has_hex_prefix text)) as [-> ->].
  { intros (_ & Hp)%andb_true_iff. destruct text as [| ? [|]]; cbn in *; (discriminate || lia). }
  set (t := if hex && _ && _ then drop 2 text else text). case_bool_decide as He; [split; [discriminate | by intros [[Hne _] _]] |].
  pose proof (digits_loop_spec w base t 0) as Hs. unfold value.
  destruct (digits_loop w base 0 t) as [r |] eqn:Hr.
  - destruct (proj1 (Hs r Hw Hb ltac:(unfold word; lia)) eq_refl) as (ds & Hds & Hlt & Hv & Hrw).
    split; [intros [= <-]; split; [split; [done |] | done]; by exists ds |].
    intros [[_ (ds' & Hds' & Hlt' & Hv')] Hvw]. f_equal.
    enough (Some r = Some v) by congruence. apply Hs; [done | done | unfold word; lia | by exists ds'].
  - split; [discriminate |]. intros [[_ (ds' & Hds' & Hlt' & Hv')] Hvw].
    enough (None = Some v) by discriminate. apply Hs; [done | done | unfold word; lia | by exists ds'].
Qed.

(** C34: [parse_unsigned] accepts exactly the nonempty numerals of the base, in
    either case of letters and after an optional 0x, whose value fits the
    type, and stores that value; for anything else (a sign, a space, a digit
    of another base, a value of more than [w] bits) it returns false and leaves
    the output alone. *)
Theorem parse_unsigned_spec w text out base hex v :
  8 <= w -> 2 <= base <= 36 ->
  (parse_unsigned w text out base hex = (true, v) <->
    reads base (body text base hex) v /\ v < 2 ^ w) /\
  ((forall u, u < 2 ^ w -> ~ reads base (body text base hex) u) <->
    parse_unsigned w text out base hex = (false, out)).
Proof.
  intros Hw Hb. split; [by apply parse_unsigned_reads |].
  assert (Hfalse : forall u, parse_unsigned w text out base hex = (false, u) -> u = out).
  { unfold parse_unsigned. intros u. repeat case_match; congruence. }
  split.
  - intros Hno. destruct (parse_unsigned w text out base hex) as [[] u] eqn:Hp.
    + apply parse_unsigned_reads in Hp as [Hr Hu]; [by destruct (Hno u) | done | done].
    + by rewrite (Hfalse _ eq_refl).
  - intros Hp u Hu Hr. assert (parse_unsigned w text out base hex = (true, u)) as Ht
      by (by apply parse_unsigned_reads). congruence.
Qed.

Lemma parse_unsigned_spec_witness :
  (parse_unsigned 32 (str "0xfFfFfFfF") 7 16 true = (true, 0xffffffff) <->
    reads 16 (body (str "0xfFfFfFfF") 16 true) 0xffffffff /\ 0xffffffff < 2 ^ 32) /\
  ((forall u, u < 2 ^ 32 -> ~ reads 16 (body (str "0xfFfFfFfF") 16 true) u) <->
    parse_unsigned 32 (str "0xfFfFfFfF") 7 16 true = (false, 7)).
Proof. apply (parse_unsigned_spec 32 (str "0xfFfFfFfF") 7 16 true 0xffffffff); lia. Defined.
Example parse_unsigned_max :
  parse_unsigned 32 (str "0xfFfFfFfF") 7 16 true = (true, 0xffffffff) /\
  parse_unsigned 32 (str "4294967296") 7 10 false = (false, 7) /\
  parse_unsigned 64 (str "-1") 7 10 false = (false, 7) /\
  parse_unsigned 8 (str "0x") 7 16 true = (false, 7).
Proof. by vm_compute. Qed.

(** ** Splitting at a delimiter *)

Lemma find_from_none d text : find_from d 0 text = None <-> d ∉ text.
Proof.
  induction text as [| c text IH]; cbn [find_from].
  { split; [intros _; apply not_elem_of_nil | done]. }
  rewrite not_elem_of_cons, <- IH. destruct (Z.eqb_spec c d) as [-> | Hne].
  - split; [discriminate | by intros []].
  - destruct (find_from d 0 text); cbn [option_map]; [by split; [| intros []] |].
    split; [split; [by apply not_eq_sym | done] | done].
Qed.

Lemma find_from_some d text p :
  find_from d 0 text = Some p <-> exists l r, text = l ++ (d :: r) /\ (d ∉ l) /\ length l = p.
Proof.
  revert p. induction text as [| c text IH]; intros p; cbn [find_from].
  { split; [discriminate |]. by intros ([] & ? & ? & _). }
  destruct (Z.eqb_spec c d) as [-> | Hne].
  - split.
    + intros [= <-]. exists [], text. split; [done |]. split; [apply not_elem_of_nil | done].
    + intros (l & r & Ht & Hl & <-). destruct l as [| x l]; [done |].
      injection Ht as <- _. exfalso. apply Hl. left.
  - split.
    + destruct (find_from d 0 text) as [q |]; [| discriminate]. intros [= <-].
      destruct (proj1 (IH q) eq_refl) as (l & r & -> & Hl & <-). exists (c :: l), r. rewrite not_elem_of_cons.
      split; [done |]. split; [by split; [apply not_eq_sym |] | done].
    + intros (l & r & Ht & Hl & <-). destruct l as [| x l]; [by injection Ht as -> _ |].
      injection Ht as -> Ht. apply not_elem_of_cons in Hl as [_ Hl].
      assert (find_from d 0 text = Some (length l)) as ->; [| done]. apply IH. by exists l, r.
Qed.

Lemma find_from_drop d text p :
  find_from d p text = option_map (Nat.add p) (find_from d 0 (drop p text)).
Proof.
  revert p. induction text as [| c text IH]; intros [| p]; try done; cbn [find_from drop].
  - by destruct (if c =? d then _ else _).
  - rewrite IH. by destruct (find_from d 0 (drop p text)).
Qed.

(** [split_once] succeeds exactly on two nonempty parts around the only
    occurrence of the delimiter and then returns them; otherwise neither
    output changes. *)
Theorem split_once_spec text d left right l r :
  (split_once text d left right = (true, l, r) <->
    text = l ++ (d :: r) /\ l <> [] /\ r <> [] /\ (d ∉ l) /\ (d ∉ r)) /\
  (forall l r, split_once text d left right = (false, l, r) -> l = left /\ r = right).
Proof.
  unfold split_once. split.
  - split.
    + destruct (find_from d 0 text) as [p |] eqn:Hp; [| discriminate].
      apply find_from_some in Hp as (l' & r' & -> & Hl & <-). rewrite length_app. cbn [length].
      destruct (Nat.eqb_spec (length l') 0), (Nat.eqb_spec (length l' + 1) (length l' + S (length r')));
        try discriminate. cbn [orb]. rewrite find_from_drop.
      replace (l' ++ d :: r') with ((l' ++ [d]) ++ r') by by rewrite <- app_assoc.
      rewrite drop_app_length' by (rewrite length_app; cbn; lia).
      destruct (find_from d 0 r') eqn:Hr; [discriminate |]. apply find_from_none in Hr.
      rewrite <- app_assoc, take_app_length. intros [= <- <-].
      split; [done |]. split; [by destruct l' |]. split; [| done]. intros ->. cbn in *. lia.
    + intros (-> & Hl & Hr & Hdl & Hdr).
      assert (find_from d 0 (l ++ d :: r) = Some (length l)) as -> by (apply find_from_some; by exists l, r).
      rewrite length_app. cbn [length].
      assert ((length l <> 0)%nat /\ (length r <> 0)%nat) as [H1 H2] by by destruct l, r.
      rewrite (proj2 (Nat.eqb_neq _ _) H1), (proj2 (Nat.eqb_neq (length l + 1) _)) by lia. cbn [orb].
      rewrite find_from_drop.
      replace (l ++ d :: r) with ((l ++ [d]) ++ r) by by rewrite <- app_assoc.
      rewrite drop_app_length' by (rewrite length_app; cbn; lia).
      rewrite (proj2 (find_from_none d r) Hdr). cbn. by rewrite <- app_assoc, take_app_length.
  - intros l' r'. repeat case_match; by intros [= -> ->].
Qed.

Lemma split_once_spec_witness :
  (split_once (str "stratum:3333") 58 [] [] = (true, str "stratum", str "3333") <->
    str "stratum:3333" = str "stratum" ++ (58 :: str "3333") /\ str "stratum" <> [] /\
    str "3333" <> [] /\ (58 ∉ str "stratum") /\ (58 ∉ str "3333")) /\
  (forall l r, split_once (str "stratum:3333") 58 [] [] = (false, l, r) -> l = [] /\ r = []).
Proof. apply split_once_spec. Defined.

(** ** Nonces as bytes *)

(** The widths at which the templates are used. *)
Definition uint (w : Z) : Prop := w = 8 \/ w = 16 \/ w = 32 \/ w = 64.

#[global] Instance uint_dec w : Decision (uint w).
Proof. unfold uint. apply _. Defined.

Lemma sizeof_bits w : uint w -> 8 * Z.of_nat (Z.to_nat (w / 8)) = w.
Proof. by intros [-> | [-> | [-> | ->]]]. Qed.

Lemma fold_insert_seq (f : nat -> Z) n data :
  (n <= length data)%nat ->
  fold_left (fun data i => <[i := f i]> data) (seq 0 n) data = write_at 0 (map f (seq 0 n)) data.
Proof.
  induction n as [| n IH]; intros Hn; [done |]. unfold write_at in *.
  rewrite !take_0 in *. rewrite seq_S, fold_left_app, map_app, IH by lia. cbn [fold_left map app Nat.add].
  rewrite length_app, length_map, length_seq. cbn [length].
  rewrite (drop_S data data.[n] n) by (apply lookup_nth_Z; lia).
  rewrite insert_app_r_alt by (rewrite length_map, length_seq; lia).
  rewrite length_map, length_seq, Nat.sub_diag. cbn. by rewrite <- app_assoc, Nat.add_1_r.
Qed.

Lemma load_le_spec w data n :
  bytes data -> (n <= length data)%nat -> 8 * Z.of_nat n <= w ->
  fold_left (fun value i => cast w (Z.lor value (cast w (Z.shiftl data.[i] (8 * Z.of_nat i)))))
    (seq 0 n) 0 = le_word (take n data).
Proof.
  intros Hd. induction n as [| n IH]; intros Hn Hw; [by rewrite take_0 |].
  rewrite seq_S, fold_left_app. cbn [fold_left Nat.add]. rewrite IH by lia.
  rewrite (take_S_r data n data.[n]) by (apply lookup_nth_Z; lia). rewrite le_word_snoc, length_take_le by lia.
  pose proof (le_word_range (take n data) ltac:(by apply Forall_take)) as Hr.
  rewrite length_take_le in Hr by lia. assert (Hb : is_byte data.[n]) by auto with words.
  assert (2 ^ (8 * Z.of_nat n + 8) <= 2 ^ w) by (apply Z.pow_le_mono_r; lia).
  rewrite Z.pow_add_r in * by lia. unfold word in *.
  rewrite Z.shiftl_mul_pow2 by lia. rewrite (cast_small w (_ * _)) by (unfold word; nia).
  rewrite <- Z.shiftl_mul_pow2 by lia. rewrite lor_shift_add by (unfold word; lia).
  rewrite Z.shiftl_mul_pow2 by lia. apply cast_small. unfold word. nia.
Qed.

Lemma load_be_spec w data n :
  bytes data -> (n <= length data)%nat -> 8 * Z.of_nat n <= w ->
  fold_left (fun value i => cast w (Z.lor (cast w (Z.shiftl value 8)) data.[i])) (seq 0 n) 0
  = be_word (take n data).
Proof.
  intros Hd. induction n as [| n IH]; intros Hn Hw; [by rewrite take_0 |].
  rewrite seq_S, fold_left_app. cbn [fold_left Nat.add]. rewrite IH by lia.
  rewrite (take_S_r data n data.[n]) by (apply lookup_nth_Z; lia).
  unfold be_word. rewrite rev_app_distr. cbn [rev app le_word]. fold (be_word (take n data)).
  pose proof (be_word_range (take n data) ltac:(by apply Forall_take)) as Hr.
  rewrite length_take_le in Hr by lia. assert (Hb : is_byte data.[n]) by auto with words.
  assert (2 ^ (8 * Z.of_nat n + 8) <= 2 ^ w) by (apply Z.pow_le_mono_r; lia).
  rewrite Z.pow_add_r in * by lia. unfold word in *.
  rewrite (cast_small w (Z.shiftl _ _)) by (rewrite Z.shiftl_mul_pow2 by lia; unfold word; lia).
  rewrite Z.lor_comm, lor_shift_add by (unfold word; lia).
  rewrite Z.shiftl_mul_pow2 by lia. rewrite cast_small by (unfold word; lia). lia.
Qed.

Definition nonce_bytes (big_endian : bool) : nat -> Z -> list Z := if big_endian then be_bytes else le_bytes.

Lemma store_nonce_spec w data value big_endian :
  uint w -> (Z.to_nat (w / 8) <= length data)%nat ->
  store_nonce w data value big_endian
  = write_at 0 (nonce_bytes big_endian (Z.to_nat (w / 8)) value) data.
Proof.
  intros Hw Hn. unfold store_nonce, nonce_bytes. set (n := Z.to_nat (w / 8)) in *.
  destruct big_endian; rewrite fold_insert_seq by done; f_equal.
  - unfold be_bytes. apply nth_ext_Z.
    { by rewrite length_rev, length_map, length_le_bytes, length_seq. }
    rewrite length_map, length_seq. intros i Hi. rewrite nth_map_seq by done.
    rewrite rev_nth by by rewrite length_le_bytes. rewrite length_le_bytes, nth_le_bytes by lia.
    do 2 f_equal. lia.
  - rewrite <- store_bytes. apply map_ext. intros i. by rewrite Z.mul_comm.
Qed.

(** storing a nonce changes just the bytes of the nonce, which become
    its big- or little-endian representation; loading reads that
    representation; so a nonce that was stored is loaded unchanged, whatever
    surrounds it. *)
Theorem load_store_nonce w data value be :
  uint w -> bytes data -> (Z.to_nat (w / 8) <= length data)%nat -> word w value ->
  let n := Z.to_nat (w / 8) in let data' := store_nonce w data value be in
  data' = nonce_bytes be n value ++ drop n data /\
  load_nonce w data be = (if be then be_word else le_word) (take n data) /\
  load_nonce w data' be = value.
Proof.
  intros Hw Hd Hn Hv n data'. pose proof (sizeof_bits w Hw) as Hs. fold n in Hs, Hn.
  assert (Hload : forall l, bytes l -> (n <= length l)%nat ->
    load_nonce w l be = (if be then be_word else le_word) (take n l)).
  { intros l Hl Hln. unfold load_nonce. destruct be; [apply load_be_spec | apply load_le_spec]; (done || lia). }
  assert (Hlen : length (nonce_bytes be n value) = n)
    by (destruct be; [apply length_be_bytes | apply length_le_bytes]).
  assert (Hdata : data' = nonce_bytes be n value ++ drop n data).
  { unfold data'. rewrite store_nonce_spec by done. fold n. unfold write_at. by rewrite take_0, Hlen. }
  split; [done |]. split; [by apply Hload |]. rewrite Hdata, Hload.
  - rewrite take_app_length' by done.
    destruct be; cbn [nonce_bytes]; [rewrite be_word_be_bytes | rewrite le_word_le_bytes];
      rewrite Hs; by apply Z.mod_small.
  - apply bytes_app; [| by apply Forall_drop].
    destruct be; [apply bytes_be_bytes | apply bytes_le_bytes].
  - rewrite length_app. lia.
Qed.

Lemma load_store_nonce_witness :
  let n := 4%nat in let data' := store_nonce 32 [1; 2; 3; 4; 5] 0xdeadbeef true in
  data' = nonce_bytes true n 0xdeadbeef ++ drop n [1; 2; 3; 4; 5] /\
  load_nonce 32 [1; 2; 3; 4; 5] true = be_word (take n [1; 2; 3; 4; 5]) /\
  load_nonce 32 data' true = 0xdeadbeef.
Proof.
  apply (load_store_nonce 32 [1; 2; 3; 4; 5] 0xdeadbeef true);
    [by right; right; left | by forall_words | vm_compute; lia | by apply (bool_decide_unpack _)].
Defined.

(** ** Offsets and batches *)

Lemma uint_bounds w : uint w -> 8 <= w <= 64 /\ 2 ^ w <= 2 ^ 64.
Proof. intros Hw. assert (8 <= w <= 64) by (unfold uint in Hw; lia). split; [done | apply Z.pow_le_mono_r; lia]. Qed.

Lemma nonce_with_offset_spec w base index stride mask result (x := base + index * stride) :
  uint w -> word w base -> 0 <= index -> 0 <= stride ->
  nonce_with_offset w base index stride mask result
  = if (x <? 2 ^ w) && (Z.land base mask =? Z.land x mask) then (true, x) else (false, result).
Proof.
  intros Hw Hb Hi Hs. destruct (uint_bounds w Hw) as [Hw' Hp]. unfold nonce_with_offset, maximum in *.
  unfold word in Hb. assert (0 <= index * stride) by nia.
  destruct (negb (index =? 0) && ((2 ^ 64 - 1) / index <? stride)) eqn:Hov.
  - apply andb_true_iff in Hov as [Hi0%negb_true_iff%Z.eqb_neq Hov%Z.ltb_lt].
    assert (2 ^ 64 - 1 < index * stride).
    { apply Z.nle_gt. intros Hle. assert (stride <= (2 ^ 64 - 1) / index) by (apply Z.div_le_lower_bound; lia). lia. }
    rewrite (proj2 (Z.ltb_ge x (2 ^ w))) by (unfold x; lia). done.
  - assert (word 64 (index * stride)).
    { unfold word. destruct (Z.eqb_spec index 0) as [-> | Hne]; [lia |]. apply Z.ltb_ge in Hov.
      assert (index * stride <= index * ((2 ^ 64 - 1) / index)) by nia.
      pose proof (Z.mul_div_le (2 ^ 64 - 1) index). lia. }
    rewrite u64_small by done. destruct (Z.ltb_spec (2 ^ w - 1 - base) (index * stride)) as [H1 | H1].
    { rewrite (proj2 (Z.ltb_ge x (2 ^ w))) by (unfold x; lia). done. }
    rewrite (cast_small w (index * stride)) by (unfold word; lia). fold x.
    assert (Hx : word w x) by (unfold word, x; lia).
    rewrite (cast_small w x), (proj2 (Z.ltb_lt x (2 ^ w))) by (unfold word in *; lia || done). cbn [andb].
    destruct (Z.eqb_spec mask 0) as [-> | Hm]; cbn [negb andb]; [by rewrite !Z.land_0_r |].
    by destruct (Z.land base mask =? Z.land x mask).
Qed.

(** The batch of [count] nonces from [first] fits: its last nonce is no more
    than the type holds and has the protected bits of the first one. *)
Definition fits (w first count lane mask : Z) : Prop :=
  let last := first + (count - 1) * lane in last < 2 ^ w /\ Z.land first mask = Z.land last mask.

#[global] Instance fits_dec w first count lane mask : Decision (fits w first count lane mask).
Proof. unfold fits. apply _. Defined.

Lemma fits_offset w first count lane mask result :
  uint w -> word w first -> 1 <= count -> 0 <= lane ->
  nonce_with_offset w first (count - 1) lane mask result
  = if decide (fits w first count lane mask) then (true, first + (count - 1) * lane) else (false, result).
Proof.
  intros Hw Hf Hc Hl. rewrite nonce_with_offset_spec by (done || lia). unfold fits.
  destruct (Z.ltb_spec (first + (count - 1) * lane) (2 ^ w));
    destruct (Z.eqb_spec (Z.land first mask) (Z.land (first + (count - 1) * lane) mask));
    case_decide; (done || (exfalso; tauto || lia)).
Qed.

(** The batch after a batch that fits. *)
Lemma next_nonce_after_batch_spec w target first count lane stride mask (next := first + stride) :
  uint w -> target <> 0 -> word w first -> 1 <= count -> 0 <= lane -> 0 <= stride ->
  fits w first count lane mask ->
  next_nonce_after_batch w target false first count lane stride mask
  = if decide (fits w next count lane mask /\ Z.land first mask = Z.land next mask)
    then (next, false) else (first + (count - 1) * lane, true).
Proof.
  intros Hw Ht Hf Hc Hl Hs Hfit. unfold next_nonce_after_batch, next_nonce_batch.
  rewrite (proj2 (Z.eqb_neq target 0) Ht), (proj2 (Z.eqb_neq count 0)) by lia.
  rewrite fits_offset, decide_True by done. cbn [negb].
  rewrite nonce_with_offset_spec by (done || lia). rewrite Z.mul_1_l. fold next.
  destruct (Z.ltb_spec next (2 ^ w)) as [Hn | Hn]; cbn [andb].
  - assert (Hnw : word w next) by (unfold word, next in *; lia).
    destruct (Z.eqb_spec (Z.land first mask) (Z.land next mask)) as [Hm | Hm]; cbn [negb].
    + rewrite fits_offset by done. case_decide; case_decide; (done || tauto).
    + case_decide; [tauto | done].
  - rewrite decide_False; [done |]. intros [[Hlast _] _]. nia.
Qed.

(** The batches of a device whose first batch fits: batch [k] starts [k]
    strides later, fits, and keeps the protected bits. *)
Lemma device_batches_spec turns w target first nonce exhausted count lane stride mask k s :
  uint w -> target <> 0 -> word w first -> 1 <= count -> 0 <= lane -> 0 <= stride ->
  fits w first count lane mask ->
  next_nonce_after_batch w target false first count lane stride mask = (nonce, exhausted) ->
  device_batches turns w target first nonce exhausted count lane stride mask !! k = Some s ->
  s = first + Z.of_nat k * stride /\ word w s /\ fits w s count lane mask /\
  Z.land s mask = Z.land first mask.
Proof.
  intros Hw Ht Hf Hc Hl Hs. revert first nonce exhausted k Hf.
  induction turns as [| turns IH]; intros first nonce exhausted k Hf Hfit Hnext Hk; [done |].
  cbn [device_batches] in Hk. destruct k as [| k].
  { injection Hk as <-. split; [lia |]. do 2 (split; [done |]). done. }
  cbn [lookup list_lookup] in Hk. destruct exhausted; [done |].
  rewrite next_nonce_after_batch_spec in Hnext by done. case_decide as Hd; [| done].
  injection Hnext as <-. destruct Hd as [Hfit' Hm].
  destruct (next_nonce_after_batch _ _ _ _ _ _ _ _) as [n' e'] eqn:Hnext'.
  assert (Hf' : word w (first + stride)).
  { unfold word, fits in *. destruct Hfit' as [Hlast _]. nia. }
  destruct (IH (first + stride) n' e' k Hf' Hfit' Hnext' Hk) as (-> & Hws & Hfs & Hms).
  split; [lia |]. split; [done |]. split; [done |]. congruence.
Qed.

(** A mask of high bits: NiceHash protects the prefix of the nonce. *)
Lemma land_high w j x : 0 <= j <= w -> word w x -> Z.land x (2 ^ w - 2 ^ j) = 2 ^ j * (x / 2 ^ j).
Proof.
  intros Hj Hx. replace (2 ^ w - 2 ^ j) with (Z.shiftl (Z.ones (w - j)) j).
  - rewrite Z.mul_comm, <- Z.shiftl_mul_pow2, <- Z.shiftr_div_pow2 by lia.
    bitwise. destruct (decide (j <= i)).
    + rewrite !Z.shiftl_spec, Z.shiftr_spec by lia. replace (i - j + j) with i by lia.
      destruct (decide (i < w)); [by rewrite Z.ones_spec_low by lia; rewrite andb_true_r |].
      by rewrite (word_testbit w) by (done || lia).
    + rewrite !(Z.shiftl_spec_low _ j) by lia. apply andb_false_r.
  - rewrite Z.shiftl_mul_pow2, Z.ones_equiv by lia. rewrite Z.mul_pred_l, <- Z.pow_add_r by lia.
    do 2 f_equal; lia.
Qed.

Lemma protected_between w j first last x :
  0 <= j <= w -> word w first -> word w last -> first <= x <= last ->
  Z.land first (2 ^ w - 2 ^ j) = Z.land last (2 ^ w - 2 ^ j) ->
  Z.land x (2 ^ w - 2 ^ j) = Z.land first (2 ^ w - 2 ^ j).
Proof.
  intros Hj Hf Hl Hx. rewrite !land_high by (done || unfold word in *; lia). intros He.
  assert (0 < 2 ^ j) by lia.
  assert (first / 2 ^ j <= x / 2 ^ j <= last / 2 ^ j) by (split; apply Z.div_le_mono; lia). nia.
Qed.

Lemma worker_ok_spec batch T t u :
  0 < u -> word 32 batch -> word 32 T -> worker_ok batch T t u = true ->
  1 <= batch /\ 1 <= T /\ t < T /\ T * batch * u < 2 ^ 32.
Proof.
  intros Hu Hb HT. unfold worker_ok. rewrite !andb_true_iff, !negb_true_iff, !Z.eqb_neq, Z.ltb_lt, Z.leb_le.
  intros (((Hb0 & HT0) & Ht) & Hmax). unfold word, maximum in *. do 3 (split; [lia |]).
  rewrite Z.div_div in Hmax by lia.
  pose proof (Z.mul_div_le (2 ^ 32 - 1) (T * u) ltac:(nia)). nia.
Qed.

(** ** The nonces of embedded blobs *)

(** Worker [t] of [T] hashes the nonce [x] as number [i] of its batch [k]. *)
Definition embedded_hashes (w target n0 T batch mask t : Z) (k : nat) (i x : Z) : Prop :=
  exists p turns s,
    embedded_plan w target n0 t T batch mask = Some p /\
    device_batches turns w target p.(first_nonce) p.(m_nonce) p.(nonce_exhausted) batch 1
      p.(m_nonce_step) mask !! k = Some s /\ 0 <= i < batch /\ x = s + i.

Lemma embedded_hashes_spec w target n0 T batch mask t k i x :
  uint w -> target <> 0 -> word w n0 -> word 32 T -> word 32 batch -> 0 <= t ->
  worker_ok batch T t 1 = true -> embedded_hashes w target n0 T batch mask t k i x ->
  let s := n0 + batch * (Z.of_nat k * T + t) in
  x = s + i /\ 0 <= i < batch /\ word w s /\ fits w s batch 1 mask /\ Z.land s mask = Z.land n0 mask.
Proof.
  intros Hw Ht Hn HT Hb Ht0 Hok (p & turns & s & Hp & Hs & Hi & ->).
  apply worker_ok_spec in Hok as (Hb1 & HT1 & HtT & Hstep); [| lia | done | done].
  unfold embedded_plan in Hp. rewrite (proj2 (Z.eqb_neq target 0) Ht), (cast_small w n0) in Hp by done.
  rewrite nonce_with_offset_spec in Hp by (done || lia).
  destruct (Z.ltb_spec (n0 + t * batch) (2 ^ w)) as [H1 | H1]; [| done].
  destruct (Z.eqb_spec (Z.land n0 mask) (Z.land (n0 + t * batch) mask)) as [Hm | Hm]; [| done].
  cbn [andb negb] in Hp. assert (Hc : word w (n0 + t * batch)) by (unfold word in *; nia).
  rewrite fits_offset in Hp by (done || lia). case_decide as Hf; [| done]. cbn [negb] in Hp.
  destruct (next_nonce_after_batch _ _ _ _ _ _ _ _) as [n e] eqn:Hnext in Hp. injection Hp as <-.
  cbn [first_nonce m_nonce nonce_exhausted m_nonce_step] in Hs. rewrite u32_small in * by (unfold word; nia).
  eapply device_batches_spec in Hs as (Hs & Hsw & Hsf & Hsm); [| done | done | done | lia | lia | nia | done | done].
  assert (s = n0 + batch * (Z.of_nat k * T + t)) as Hse by nia. rewrite <- Hse.
  split; [done |]. split; [done |]. split; [done |]. split; [done |]. congruence.
Qed.

(** C9: miners that search one blob with an embedded nonce never repeat work:
    a nonce is hashed by one worker only, in one batch and at one place of
    it; every nonce fits its width, that is no counter wraps; and when the
    mask protects a prefix of the nonce all nonces keep the prefix of the
    pool. *)
Theorem embedded_nonces_fresh w target n0 T batch mask t k i x t' k' i' :
  uint w -> target <> 0 -> word w n0 -> word 32 T -> word 32 batch -> 0 <= t -> 0 <= t' ->
  worker_ok batch T t 1 = true -> worker_ok batch T t' 1 = true ->
  embedded_hashes w target n0 T batch mask t k i x ->
  embedded_hashes w target n0 T batch mask t' k' i' x ->
  (t = t' /\ k = k' /\ i = i') /\ word w x /\
  (forall j, 0 <= j <= w -> mask = 2 ^ w - 2 ^ j -> Z.land x mask = Z.land n0 mask).
Proof.
  intros Hw Ht Hn HT Hb Ht0 Ht0' Hok Hok' Hx Hx'.
  eapply embedded_hashes_spec in Hx as (Hx & Hi & Hsw & [Hl Hm] & Hs); [| done..].
  eapply embedded_hashes_spec in Hx' as (Hx' & Hi' & _); [| done..].
  apply worker_ok_spec in Hok as (Hb1 & HT1 & HtT & _); [| lia | done | done].
  apply worker_ok_spec in Hok' as (_ & _ & HtT' & _); [| lia | done | done].
  assert (Hq : Z.of_nat k * T + t = Z.of_nat k' * T + t' /\ i = i').
  { apply (Z.div_mod_unique batch); lia. }
  assert (Hq' : Z.of_nat k = Z.of_nat k' /\ t = t').
  { apply (Z.div_mod_unique T); lia. }
  split; [lia |]. split; [unfold word in *; lia |].
  intros j Hj ->. rewrite <- Hs. rewrite Hx. eapply protected_between; [done | done | | | exact Hm];
    unfold word in *; lia.
Qed.

Lemma embedded_nonces_fresh_witness :
  (1 = 1 /\ 2%nat = 2%nat /\ 3 = 3) /\ word 32 0xab000053 /\
  (forall j, 0 <= j <= 32 -> 0xff000000 = 2 ^ 32 - 2 ^ j ->
    Z.land 0xab000053 0xff000000 = Z.land 0xab000000 0xff000000).
Proof.
  assert (Hh : embedded_hashes 32 1 0xab000000 2 16 0xff000000 1 2 3 0xab000053).
  { eexists _, 3%nat, 0xab000050. split; [reflexivity |]. split; [reflexivity | lia]. }
  refine (embedded_nonces_fresh 32 1 0xab000000 2 16 0xff000000 1 2 3 0xab000053 1 2 3
    _ _ _ _ _ _ _ _ _ Hh Hh).
  - by right; right; left.
  - lia.
  - by apply (bool_decide_unpack _).
  - by apply (bool_decide_unpack _).
  - by apply (bool_decide_unpack _).
  - lia.
  - lia.
  - reflexivity.
  - reflexivity.
Defined.

(** ** The nonces of one blob per lane *)

Lemma land_lor_idem b mask : Z.land (Z.land b mask) mask = Z.land b mask.
Proof. by rewrite <- Z.land_assoc, Z.land_diag. Qed.

(** Setting the protected bits to a prefix moves every counter with the same
    protected bits by the same amount. *)
Lemma lor_prefix x y p mask :
  0 <= x -> 0 <= y -> Z.land x mask = Z.land y mask ->
  Z.lor x (Z.land p mask) - x = Z.lor y (Z.land p mask) - y.
Proof.
  assert (H : forall z, Z.lor z (Z.land p mask) - z
    = Z.lor (Z.land z mask) (Z.land p mask) - Z.land z mask); [| intros _ _ He; by rewrite (H x), (H y), He].
  intros z.
  assert (Hz : z = Z.ldiff z mask + Z.land z mask).
  { rewrite Z.add_nocarry_lxor, Z.lxor_lor by (bitwise; rewrite Z.bits_0; btauto). bitblast. }
  assert (Hl : Z.lor z (Z.land p mask) = Z.ldiff z mask + Z.lor (Z.land z mask) (Z.land p mask)).
  { rewrite Z.add_nocarry_lxor, Z.lxor_lor by (bitwise; rewrite Z.bits_0; btauto). bitblast. }
  lia.
Qed.

Definition generic_hashes (w target n0 T batch unit mask blob t : Z) (k : nat) (i x : Z) : Prop :=
  exists p turns s,
    generic_plan w target n0 t T batch unit mask blob = Some p /\
    device_batches turns w target p.(first_nonce) p.(m_nonce) p.(nonce_exhausted) batch
      p.(m_nonce_step) (u64 (batch * p.(m_nonce_step))) mask !! k = Some s /\
    0 <= i < batch /\ x = s + i * p.(m_nonce_step).

Lemma generic_hashes_spec w target n0 T batch unit mask blob t k i x :
  uint w -> target <> 0 -> word w n0 -> word 32 T -> word 32 batch -> 0 < unit -> 0 <= t ->
  word w blob -> worker_ok batch T t unit = true ->
  generic_hashes w target n0 T batch unit mask blob t k i x ->
  let m := n0 + t * unit in
  x = m + (Z.lor m (Z.land blob mask) - m) + unit * (T * (batch * Z.of_nat k + i)) /\
  0 <= i < batch /\ word w m /\ word w x.
Proof.
  intros Hw Ht Hn HT Hb Hu Ht0 Hblob Hok (p & turns & s & Hp & Hs & Hi & ->) m.
  apply worker_ok_spec in Hok as (Hb1 & HT1 & HtT & Hstep); [| done | done | done].
  destruct (uint_bounds w Hw) as [Hwb Hp64].
  unfold generic_plan in Hp. rewrite (proj2 (Z.eqb_neq target 0) Ht), (cast_small w n0) in Hp by done.
  rewrite nonce_with_offset_spec in Hp by (done || lia). fold m in Hp. rewrite !Z.land_0_r in Hp.
  destruct (Z.ltb_spec m (2 ^ w)) as [H1 | H1]; [| done]. cbn [andb negb Z.eqb] in Hp.
  assert (Hm : word w m) by (unfold word, m in *; nia).
  replace (if mask =? 0 then m else Z.lor m (Z.land blob mask)) with (Z.lor m (Z.land blob mask)) in Hp
    by (destruct (Z.eqb_spec mask 0) as [-> |]; [by rewrite Z.land_0_r, Z.lor_0_r | done]).
  set (first := Z.lor m (Z.land blob mask)) in *.
  assert (Hf : word w first).
  { apply word_lor; [lia | done |]. apply word_of_bits; [lia | apply Z.land_nonneg; unfold word in *; lia |].
    intros b Hb'. rewrite Z.land_spec, (word_testbit w blob) by (done || lia). done. }
  rewrite u32_small in Hp by (unfold word; nia).
  rewrite fits_offset in Hp by (done || nia). case_decide as Hfit; [| done]. cbn [negb] in Hp.
  assert (H64 : word 64 (batch * (T * unit))) by (unfold word; nia).
  rewrite u64_small in Hp by done.
  destruct (next_nonce_after_batch _ _ _ _ _ _ _ _) as [n e] eqn:Hnext in Hp. injection Hp as <-.
  cbn [first_nonce m_nonce nonce_exhausted m_nonce_step] in *. rewrite u64_small in Hs by done.
  eapply device_batches_spec in Hs as (Hs & Hsw & [Hsl _] & _); [| done | done | done | lia | nia | nia | done | done].
  rewrite Hs in *. split; [nia |]. split; [done |]. split; [done |]. unfold word in *. nia.
Qed.

(** C17: miners with one blob per lane of a batch never repeat work either:
    a nonce belongs to one worker, one batch and one lane, and no counter
    wraps, when the counters of all the workers start with the same protected
    bits (which is not checked, see the example below). *)
Theorem generic_nonces_fresh w target n0 T batch unit mask blob t k i x t' k' i' :
  uint w -> target <> 0 -> word w n0 -> word 32 T -> word 32 batch -> 0 < unit -> word w blob ->
  0 <= t -> 0 <= t' ->
  (forall t, 0 <= t < T -> Z.land (n0 + t * unit) mask = Z.land n0 mask) ->
  worker_ok batch T t unit = true -> worker_ok batch T t' unit = true ->
  generic_hashes w target n0 T batch unit mask blob t k i x ->
  generic_hashes w target n0 T batch unit mask blob t' k' i' x ->
  (t = t' /\ k = k' /\ i = i') /\ word w x.
Proof.
  intros Hw Ht Hn HT Hb Hu Hblob Ht0 Ht0' Hmask Hok Hok' Hx Hx'.
  eapply generic_hashes_spec in Hx as (Hx & Hi & Hm & Hxw); [| done..].
  eapply generic_hashes_spec in Hx' as (Hx' & Hi' & Hm' & _); [| done..].
  apply worker_ok_spec in Hok as (Hb1 & HT1 & HtT & _); [| done | done | done].
  apply worker_ok_spec in Hok' as (_ & _ & HtT' & _); [| done | done | done].
  rewrite (lor_prefix (n0 + t * unit) n0 blob mask) in Hx by (apply Hmask || unfold word in *; lia).
  rewrite (lor_prefix (n0 + t' * unit) n0 blob mask) in Hx' by (apply Hmask || unfold word in *; lia).
  assert (Hq : t + T * (batch * Z.of_nat k + i) = t' + T * (batch * Z.of_nat k' + i')) by nia.
  assert (Hq' : batch * Z.of_nat k + i = batch * Z.of_nat k' + i' /\ t = t')
    by (apply (Z.div_mod_unique T); lia).
  assert (Z.of_nat k = Z.of_nat k' /\ i = i') by (apply (Z.div_mod_unique batch); lia).
  split; [lia | done].
Qed.

Lemma generic_nonces_fresh_witness :
  (1 = 1 /\ 1%nat = 1%nat /\ 2 = 2) /\ word 32 0x78560d12.
Proof.
  assert (Hh : generic_hashes 32 1 0 2 4 256 0xff 0x12 1 1 2 0xd12).
  { eexists _, 2%nat, 0x912. split; [reflexivity |]. split; [reflexivity |]. split; [lia | reflexivity]. }
  assert (Hg : generic_hashes 32 1 0x78560000 2 4 256 0xff 0x12 1 1 2 0x78560d12).
  { eexists _, 2%nat, 0x78560912. split; [reflexivity |]. split; [reflexivity |]. split; [lia | reflexivity]. }
  refine (generic_nonces_fresh 32 1 0x78560000 2 4 256 0xff 0x12 1 1 2 0x78560d12 1 1 2
    _ _ _ _ _ _ _ _ _ _ _ _ Hg Hg).
  - by right; right; left.
  - lia.
  - by apply (bool_decide_unpack _).
  - by apply (bool_decide_unpack _).
  - by apply (bool_decide_unpack _).
  - lia.
  - by apply (bool_decide_unpack _).
  - lia.
  - lia.
  - intros t Ht. assert (t = 0 \/ t = 1) as [-> | ->] by lia; reflexivity.
  - reflexivity.
  - reflexivity.
Defined.

(** With the prefix 02 of the pool protected and a counter near the end of its
    three bytes, the second worker starts with the prefix 03: the start of the
    counter is not checked against the mask before the prefix is set. *)
Example generic_plan_changes_prefix :
  generic_plan 32 1 0x00ffffff 1 2 1 1 0xff000000 0x02000000
  = Some {| first_nonce := 0x03000000; m_nonce := 0x03000002; nonce_exhausted := false; m_nonce_step := 2 |}.
Proof. reflexivity. Qed.

(** ** The nonces of RandomX threads *)

Lemma rx_nonces_spec turns nonce step mask k x :
  word 32 nonce -> 0 < step < 2 ^ 32 -> rx_nonces turns nonce step mask !! k = Some x ->
  x = nonce + Z.of_nat k * step /\ word 32 x /\ Z.land x mask = Z.land nonce mask.
Proof.
  intros Hn Hs. revert nonce k Hn. induction turns as [| turns IH]; intros nonce k Hn; [done |].
  cbn [rx_nonces]. destruct k as [| k]; cbn [lookup list_lookup].
  { intros [= <-]. split; [lia | done]. }
  destruct (nonce_overflowed nonce (u32 (nonce + step)) mask) eqn:Ho; [done |].
  unfold nonce_overflowed in Ho. apply orb_false_iff in Ho as [Hlt%Z.ltb_ge Hm%negb_false_iff%Z.eqb_eq].
  assert (Hw : word 32 (nonce + step)).
  { unfold word in *. split; [lia |]. apply Z.nle_gt. intros Hle.
    rewrite u32_mod, <- (Z.mod_unique_pos (nonce + step) (2 ^ 32) 1 (nonce + step - 2 ^ 32)) in Hlt by lia. lia. }
  rewrite u32_small in * by done. intros Hk. destruct (IH _ _ Hw Hk) as (-> & Hx & Hxm).
  split; [lia |]. split; [done | congruence].
Qed.

Definition rx_hashes (n0 T batch unit mask blob t b : Z) (k : nat) (x : Z) : Prop :=
  exists turns, rx_nonces turns (rx_first (rx_initial n0 t batch b unit) mask blob)
    (rx_step T batch unit) mask !! k = Some x.

Lemma rx_hashes_spec n0 T batch unit mask blob t b k x (m := n0 + (t * batch + b) * unit) :
  word 32 n0 -> word 32 T -> word 32 batch -> 0 < unit -> word 32 blob -> 0 <= t -> 0 <= b < batch ->
  worker_ok batch T t unit = true -> rx_ok n0 t batch unit = true ->
  rx_hashes n0 T batch unit mask blob t b k x ->
  x = Z.lor m (Z.land blob mask) + Z.of_nat k * (T * batch * unit) /\ 0 <= m /\ word 32 x /\
  Z.land x mask = Z.lor (Z.land m mask) (Z.land blob mask) /\ t < T /\ 0 <= t * batch + b < T * batch.
Proof.
  intros Hn HT Hb Hu Hblob Ht Hbb Hok Hrx (turns & Hx).
  apply worker_ok_spec in Hok as (Hb1 & HT1 & HtT & Hstep); [| done | done | done].
  assert (Htb : 0 <= t * batch <= (T - 1) * batch) by nia.
  assert (Hu32 : T * batch < 2 ^ 32 /\ t * batch < 2 ^ 32 /\ unit < 2 ^ 32) by nia.
  unfold rx_ok in Hrx. rewrite u32_small in Hrx by done. rewrite u64_small in Hrx by (unfold word; lia).
  rewrite nonce_with_offset_spec in Hrx by (done || lia || (right; right; by left)).
  rewrite !Z.land_0_r in Hrx. destruct (Z.ltb_spec (n0 + t * batch * unit) (2 ^ 32)) as [H1 | H1]; [| done].
  cbn [andb Z.eqb] in Hrx.
  rewrite nonce_with_offset_spec in Hrx by (lia || (right; right; by left) || (unfold word in *; nia)).
  rewrite !Z.land_0_r in Hrx.
  destruct (Z.ltb_spec (n0 + t * batch * unit + (batch - 1) * unit) (2 ^ 32)) as [H2 | H2]; [| done].
  assert (Hbu : b * unit <= (batch - 1) * unit) by nia.
  assert (Hmw : word 32 m) by (unfold word, m in *; nia).
  unfold rx_step in Hx.
  rewrite (u64_small (T * batch)), (u64_small (T * batch * unit)), u32_small in Hx by (unfold word; nia).
  unfold rx_initial in Hx.
  rewrite (u64_small (t * batch)), (u64_small (t * batch + b)), (u64_small ((t * batch + b) * unit)) in Hx
    by (unfold word in *; nia).
  fold m in Hx. rewrite u64_small, u32_small in Hx by (done || unfold word in *; lia).
  assert (Hfirst : rx_first m mask blob = Z.lor m (Z.land blob mask)).
  { unfold rx_first. destruct (Z.eqb_spec mask 0) as [-> |]; [by rewrite Z.land_0_r, Z.lor_0_r | done]. }
  rewrite Hfirst in Hx.
  apply rx_nonces_spec in Hx as (Hx & Hxw & Hxm); [| | nia].
  - split; [done |]. split; [unfold word in Hmw; lia |]. split; [done |]. split; [| nia].
    rewrite Hxm, Z.land_lor_distr_l, land_lor_idem. done.
  - apply word_lor; [lia | done |].
    apply word_of_bits; [lia | apply Z.land_nonneg; unfold word in *; lia |].
    intros c Hc. rewrite Z.land_spec, (word_testbit 32 blob) by (done || lia). done.
Qed.

(** Without equal protected bits two threads may hash one nonce: [set_job]
    accepts this start, the counters of all threads but the first run into the
    protected byte, and setting the prefix makes the second thread start below
    the first one. *)
Example rx_nonces_repeat (n0 := 0x00ffff00) (mask := 0xff000000) (blob := 0x01000000) :
  worker_ok 255 1 0 256 = true /\ rx_ok n0 0 255 256 = true /\
  rx_hashes n0 1 255 256 mask blob 0 0 0 0x01ffff00 /\ rx_hashes n0 1 255 256 mask blob 0 1 257 0x01ffff00.
Proof. split; [done |]. split; [done |]. split; [by exists 1%nat | by exists 258%nat; vm_compute]. Qed.

(** C33: when the starts of the counters of all threads of all workers have the
    same protected bits, which [set_job] does not check, the RandomX threads
    hash different nonces: with the checks that [set_job] makes, a nonce
    belongs to one thread [b] of one worker [t] and to one turn [k] of its
    loop, the counters do not wrap, and each thread keeps the protected bits
    it starts with. *)
Theorem rx_nonces_fresh n0 T batch unit mask blob t b k x t' b' k' :
  word 32 n0 -> word 32 T -> word 32 batch -> 0 < unit -> word 32 blob ->
  0 <= t -> 0 <= t' -> 0 <= b < batch -> 0 <= b' < batch ->
  (forall c, 0 <= c < T * batch -> Z.land (n0 + c * unit) mask = Z.land n0 mask) ->
  worker_ok batch T t unit = true -> worker_ok batch T t' unit = true ->
  rx_ok n0 t batch unit = true -> rx_ok n0 t' batch unit = true ->
  rx_hashes n0 T batch unit mask blob t b k x -> rx_hashes n0 T batch unit mask blob t' b' k' x ->
  (t = t' /\ b = b' /\ k = k') /\ word 32 x /\
  Z.land x mask = Z.land (Z.lor n0 (Z.land blob mask)) mask.
Proof.
  intros Hn HT Hb Hu Hblob Ht Ht' Hbb Hbb' Hmask Hok Hok' Hrx Hrx' Hx Hx'.
  eapply rx_hashes_spec in Hx as (Hx & Hm & Hxw & Hxm & HtT & Hc); [| done..].
  eapply rx_hashes_spec in Hx' as (Hx' & Hm' & _ & _ & _ & Hc'); [| done..].
  assert (Hn0 : 0 <= n0) by (unfold word in Hn; lia).
  pose proof (lor_prefix _ n0 blob mask Hm Hn0 (Hmask _ Hc)) as Hp.
  pose proof (lor_prefix _ n0 blob mask Hm' Hn0 (Hmask _ Hc')) as Hp'.
  assert (Hq : t * batch + b + Z.of_nat k * (T * batch) = t' * batch + b' + Z.of_nat k' * (T * batch)) by nia.
  assert (Hq' : Z.of_nat k = Z.of_nat k' /\ t * batch + b = t' * batch + b')
    by (apply (Z.div_mod_unique (T * batch)); lia).
  assert (t = t' /\ b = b') by (apply (Z.div_mod_unique batch); lia).
  split; [lia |]. split; [done |].
  by rewrite Hxm, (Hmask _ Hc), Z.land_lor_distr_l, land_lor_idem.
Qed.

Lemma rx_nonces_fresh_witness :
  (1 = 1 /\ 3 = 3 /\ 2%nat = 2%nat) /\ word 32 0xab000017 /\
  Z.land 0xab000017 0xff000000 = Z.land (Z.lor 0 (Z.land 0xab000000 0xff000000)) 0xff000000.
Proof.
  assert (Hh : rx_hashes 0 2 4 1 0xff000000 0xab000000 1 3 2 0xab000017) by (by exists 3%nat).
  refine (rx_nonces_fresh 0 2 4 1 0xff000000 0xab000000 1 3 2 0xab000017 1 3 2
    _ _ _ _ _ _ _ _ _ _ _ _ _ _ Hh Hh); try by apply (bool_decide_unpack _).
  intros c Hc. assert (c = 0 \/ c = 1 \/ c = 2 \/ c = 3 \/ c = 4 \/ c = 5 \/ c = 6 \/ c = 7) as H by lia.
  by repeat (destruct H as [-> | H]; [reflexivity |]); subst.
Defined.

(** ** The seeds of PearlHash *)

(** The seeds of a worker: the loop of [Core::Execute] ends it when the next
    seed is refused. *)
Fixpoint pearl_seeds (turns : nat) (current step : Z) : list Z :=
  match turns with
  | O => []
  | S turns =>
      current :: (let '(ok, next) := pearl_seed_next current step 0 in
                  if ok then pearl_seeds turns next step else [])
  end.

Definition pearl_hashes (slot T stride t : Z) (k : nat) (x : Z) : Prop :=
  exists turns start,
    pearl_seed_start slot t T stride 0 = (true, start) /\
    pearl_seeds turns start (u64 (T * stride)) !! k = Some x.

Lemma pearl_seeds_spec turns current step k x :
  word 32 current -> word 64 step -> pearl_seeds turns current step !! k = Some x ->
  x = current + Z.of_nat k * step /\ word 32 x.
Proof.
  intros Hc Hs. revert current k Hc. induction turns as [| turns IH]; intros current k Hc; [done |].
  cbn [pearl_seeds]. destruct k as [| k]; cbn [lookup list_lookup].
  { intros [= <-]. split; [lia | done]. }
  unfold pearl_seed_next, maximum. destruct (Z.eqb_spec step 0); [done |].
  destruct (Z.ltb_spec (2 ^ 32 - 1) step); [done |]. cbn [orb].
  unfold word in *. rewrite (u64_small (_ - step)) by (unfold word; lia).
  destruct (Z.ltb_spec (2 ^ 32 - 1 - step) current); [done |].
  rewrite (u64_small (current + step)), u32_small by (unfold word; lia).
  intros Hk. destruct (IH (current + step) k ltac:(lia) Hk) as [-> Hx]. lia.
Qed.

(** PearlHash processes that share a stride of slots never repeat a seed
    and never leave 32 bits: a seed belongs to one slot below the stride, one
    worker of it and one turn. *)
Theorem pearl_seeds_fresh slot slot' T stride t t' k k' x :
  word 32 T -> word 32 stride -> 0 <= slot < stride -> 0 <= slot' < stride -> 0 <= t -> 0 <= t' ->
  pearl_hashes slot T stride t k x -> pearl_hashes slot' T stride t' k' x ->
  (slot = slot' /\ t = t' /\ k = k') /\ word 32 x /\ t < T.
Proof.
  intros HT Hst Hslot Hslot' Ht Ht'.
  assert (Hspec : forall slot t k, 0 <= slot < stride -> 0 <= t -> pearl_hashes slot T stride t k x ->
    x = slot + stride * (t + T * Z.of_nat k) /\ word 32 x /\ t < T).
  { clear - HT Hst. intros slot t k Hslot Ht (turns & start & Hstart & Hk).
    unfold pearl_seed_start in Hstart. destruct (Z.eqb_spec T 0); [done |].
    destruct (Z.leb_spec T t) as [| HtT]; [done |]. destruct (Z.eqb_spec stride 0); [lia |]. cbn [orb] in Hstart.
    rewrite nonce_with_offset_spec in Hstart by (lia || (right; right; by left) || (unfold word in *; lia)).
    rewrite !Z.land_0_r in Hstart. destruct (Z.ltb_spec (slot + t * stride) (2 ^ 32)); [| done].
    cbn [andb Z.eqb] in Hstart. injection Hstart as <-.
    assert (Hs : word 64 (T * stride)) by (unfold word in *; nia). rewrite u64_small in Hk by done.
    apply pearl_seeds_spec in Hk as [-> Hx]; [| unfold word in *; nia | done].
    split; [lia | done]. }
  intros Hx Hx'. apply Hspec in Hx as (Hx & Hxw & HtT); [| done..].
  apply Hspec in Hx' as (Hx' & _ & HtT'); [| done..].
  assert (Hq : t + T * Z.of_nat k = t' + T * Z.of_nat k' /\ slot = slot')
    by (apply (Z.div_mod_unique stride); lia).
  assert (Hq' : Z.of_nat k = Z.of_nat k' /\ t = t') by (apply (Z.div_mod_unique T); lia).
  split; [lia | done].
Qed.

Lemma pearl_seeds_fresh_witness :
  (5 = 5 /\ 1 = 1 /\ 2%nat = 2%nat) /\ word 32 (5 + 256 * (1 + 4 * 2)) /\ 1 < 4.
Proof.
  assert (Hh : pearl_hashes 5 4 256 1 2 (5 + 256 * (1 + 4 * 2))) by (by exists 3%nat, 261).
  refine (pearl_seeds_fresh 5 5 4 256 1 1 2 2 _ _ _ _ _ _ _ Hh Hh); by apply (bool_decide_unpack _).
Defined.
