(* ===== verification/PowIntensity.v ===== *)
(** * Sizes of GPU work: [sycl/pow-intensity.h] and [sycl/workgroup-limits.h]

    How much memory a PearlHash job takes and whether a device has it, and how
    many work items a dispatch gets.  [unsigned] has 32 bits and [size_t] 64. *)

From S2P Require Import Prelude JobBoundary.

(** ** The code *)

Definition kMiB : Z := u64 (Z.shiftl 1 20).
Definition kGiB : Z := u64 (Z.shiftl 1 30).

Definition round_down_to_multiple (value step : Z) : Z := u32 (value - value mod step).

Record PowDeviceProfile := { compute_units : Z; global_mem : Z; max_alloc : Z }.
Record pearlhash_profile_t := { pm : Z; pn : Z; pk : Z; prank : Z }.

Definition ordinary : pearlhash_profile_t := {| pm := 131072; pn := 131072; pk := 2048; prank := 128 |}.
Definition pearlhash_intel_capability_profile (simd_width : Z) (level_zero_gpu discrete_gpu : bool)
  (global_mem execution_units : Z) : pearlhash_profile_t :=
  if negb level_zero_gpu || negb discrete_gpu || (global_mem <? u64 (8 * kGiB)) then ordinary else
  if simd_width =? 16 then {| pm := 131072; pn := 131072; pk := 4096; prank := 128 |} else
  if simd_width =? 8 then
    {| pm := u32 (131072 * (if 512 <=? execution_units then 4 else if 256 <=? execution_units then 2 else 1));
       pn := 131072; pk := 2048; prank := 128 |}
  else ordinary.

Definition pearlhash_result_allocation_bytes : Z := 64.
Definition pearlhash_runtime_reserve_bytes : Z := u64 (512 * kMiB).

Record PearlHashAllocationCounts := {
  m_rank : Z; n_rank : Z; m_k : Z; n_k : Z; cva_bytes : Z; cvb_bytes : Z;
  c_max_alloc : Z; total_bytes : Z
}.
Definition no_counts : PearlHashAllocationCounts :=
  {| m_rank := 0; n_rank := 0; m_k := 0; n_k := 0; cva_bytes := 0; cvb_bytes := 0;
     c_max_alloc := 0; total_bytes := 0 |}.

(** The bytes of a tree of chaining values over [n] bytes. *)
Definition cv_bytes (n : Z) : Z :=
  u64 (u64 (u64 (2 * u64 (n / 1024 + (if n mod 1024 =? 0 then 0 else 1))) + 2) * 32).

(** Whether the shape is legal, and [out]. *)
Definition pearlhash_allocation_counts (shape : pearlhash_profile_t) (hip_jit : bool) :
  bool * PearlHashAllocationCounts :=
  if negb (valid_pearlhash_shape shape.(pm) shape.(pn) shape.(pk) shape.(prank)) then (false, no_counts) else
  let m_rank := u64 (shape.(pm) * shape.(prank)) in
  let n_rank := u64 (shape.(pn) * shape.(prank)) in
  let m_k := u64 (shape.(pm) * shape.(pk)) in
  let n_k := u64 (shape.(pn) * shape.(pk)) in
  let cva_bytes := cv_bytes m_k in
  let cvb_bytes := cv_bytes n_k in
  let noise_bytes := u64 (shape.(pk) * 4) in
  let largest := Z.max m_rank (Z.max n_rank (Z.max m_k (Z.max n_k (Z.max cva_bytes (Z.max cvb_bytes
    (Z.max noise_bytes pearlhash_result_allocation_bytes)))))) in
  if maximum 64 <? largest then (false, no_counts) else
  let total := u64 (u64 (u64 (u64 (u64 (u64 (u64 (u64 (u64 (m_rank + u64 (2 * n_rank)) + m_k) + n_k) +
    cva_bytes) + cvb_bytes) + u64 (4 * noise_bytes)) + 128) + pearlhash_result_allocation_bytes) +
    (if hip_jit then u64 (m_k + n_k) else 0)) in
  (true, {| m_rank := m_rank; n_rank := n_rank; m_k := m_k; n_k := n_k; cva_bytes := cva_bytes;
            cvb_bytes := cvb_bytes; c_max_alloc := largest; total_bytes := total |}).

Definition pearlhash_required_memory_fits (device : PowDeviceProfile) (shape : pearlhash_profile_t) : bool :=
  negb (device.(max_alloc) =? 0) && (pearlhash_runtime_reserve_bytes <=? device.(global_mem)) &&
  let '(ok, counts) := pearlhash_allocation_counts shape false in
  ok && (counts.(c_max_alloc) <=? device.(max_alloc)) &&
  (counts.(total_bytes) <=? u64 (device.(global_mem) - pearlhash_runtime_reserve_bytes)).

Definition pearlhash_optional_allocation_fits (device : PowDeviceProfile)
  (required : PearlHashAllocationCounts) (optional_bytes : Z) : bool :=
  negb (device.(max_alloc) =? 0) && (optional_bytes <=? device.(max_alloc)) &&
  (pearlhash_runtime_reserve_bytes <=? device.(global_mem)) &&
  (required.(total_bytes) <=? u64 (device.(global_mem) - pearlhash_runtime_reserve_bytes)) &&
  (optional_bytes <=?
     u64 (u64 (device.(global_mem) - pearlhash_runtime_reserve_bytes) - required.(total_bytes))).

Definition compact_shape : pearlhash_profile_t := {| pm := 65536; pn := 65536; pk := 4096; prank := 256 |}.
Definition no_shape : pearlhash_profile_t := {| pm := 0; pn := 0; pk := 0; prank := 0 |}.
Definition pearlhash_capacity_profile (device : PowDeviceProfile) (preferred : pearlhash_profile_t) :
  pearlhash_profile_t :=
  if (device.(global_mem) =? 0) || (device.(max_alloc) =? 0) then preferred else
  if pearlhash_required_memory_fits device preferred then preferred else
  if pearlhash_required_memory_fits device compact_shape then compact_shape else no_shape.

Record PowIntensityScale := {
  fallback_workgroup : Z; base_work_items : Z; compute_unit_divisor : Z
}.
Record PowIntensityHeuristic := {
  compact : PowIntensityScale; balanced : PowIntensityScale; wide : PowIntensityScale;
  max_work_items_per_gib : Z
}.
Definition progpow_intensity_heuristic : PowIntensityHeuristic := {|
  compact := {| fallback_workgroup := 256; base_work_items := 16384; compute_unit_divisor := 48 |};
  balanced := {| fallback_workgroup := 256; base_work_items := 32768; compute_unit_divisor := 48 |};
  wide := {| fallback_workgroup := 256; base_work_items := 32768; compute_unit_divisor := 36 |};
  max_work_items_per_gib := 4
|}.

Definition pow_device_score (profile : PowDeviceProfile) : Z :=
  let mem_per_cu := profile.(global_mem) / profile.(compute_units) in
  let score := 0 in
  let score := if 128 <=? profile.(compute_units) then score + 2
    else if 64 <=? profile.(compute_units) then score + 1 else score in
  let score := if u64 (8 * kGiB) <=? profile.(global_mem) then score + 2
    else if u64 (6 * kGiB) <=? profile.(global_mem) then score + 1 else score in
  let score := if u64 (2 * kGiB) <=? profile.(max_alloc) then score + 1 else score in
  if u64 (48 * kMiB) <=? mem_per_cu then score + 1 else score.

Definition select_pow_intensity_scale (profile : PowDeviceProfile) (heuristic : PowIntensityHeuristic) :
  PowIntensityScale :=
  let score := pow_device_score profile in
  if 5 <=? score then heuristic.(wide) else if 3 <=? score then heuristic.(balanced)
  else heuristic.(compact).

Definition pow_intensity (profile : PowDeviceProfile) (heuristic : PowIntensityHeuristic)
  (loc explicit_max_work_items_per_gib : Z) : Z :=
  let scale := select_pow_intensity_scale profile heuristic in
  let intensity64 := u64 (u64 (loc * scale.(base_work_items)) * profile.(compute_units)) in
  let intensity64 := intensity64 / scale.(compute_unit_divisor) in
  let per_gib := if explicit_max_work_items_per_gib =? 0 then heuristic.(max_work_items_per_gib)
    else explicit_max_work_items_per_gib in
  let intensity64 := if per_gib =? 0 then intensity64
    else Z.min intensity64 (u64 (u64 (Z.max 1 (profile.(global_mem) / kGiB) * per_gib) * kMiB)) in
  let intensity64 := Z.min intensity64 (maximum 32) in
  let intensity := round_down_to_multiple (u32 intensity64) loc in
  Z.max intensity (u32 (loc * 4096)).

Definition mom_subgroup_supports_team (subgroup team_size : Z) : bool :=
  negb (team_size =? 0) && (team_size <=? subgroup) && (subgroup mod team_size =? 0).

Definition mom_workgroup_fits (workgroup max_workgroup max_work_items local_bytes fixed_local_bytes
    local_bytes_per_item local_bytes_per_team team_size : Z) : bool :=
  if (workgroup =? 0) || (max_workgroup <? workgroup) || (max_work_items <? workgroup) ||
     (local_bytes <? fixed_local_bytes) || (team_size =? 0) || negb (workgroup mod team_size =? 0)
  then false else
  let available := u64 (local_bytes - fixed_local_bytes) in
  let teams := workgroup / team_size in
  if available / teams <? local_bytes_per_team then false else
  let available := u64 (available - u64 (local_bytes_per_team * teams)) in
  local_bytes_per_item <=? available / workgroup.

(** ** PearlHash shapes *)

(** The documented limits of a legal shape, and what the overflow checks of
    [valid_pearlhash_shape] come to. *)
Definition legal_shape (m n k rank : Z) : Prop :=
  (128 <= m <= 2 ^ 24 /\ m mod 32 = 0) /\ (128 <= n <= 2 ^ 24 /\ n mod 32 = 0) /\
  (1024 <= k <= 2 ^ 16 /\ k mod 64 = 0) /\ (exists e, 7 <= e <= 10 /\ rank = 2 ^ e) /\
  16 * rank <= k <= 4 * rank * rank /\
  m * rank < 2 ^ 31 /\ n * rank < 2 ^ 31 /\ m * k < 2 ^ 31 /\ (m / 16) * (n / 16) < 2 ^ 31.

Lemma rank_powers rank :
  128 <= rank <= 1024 -> Z.land rank (u64 (rank - 1)) = 0 <-> exists e, 7 <= e <= 10 /\ rank = 2 ^ e.
Proof.
  intros Hr. rewrite u64_small by (unfold word; lia). split.
  - intros Hl. set (e := Z.log2 rank). destruct (Z.log2_spec rank ltac:(lia)) as [Hlo Hhi]. fold e in Hlo, Hhi.
    assert (He : 7 <= e <= 10).
    { split; [change 7 with (Z.log2 128) | change 10 with (Z.log2 1024)]; apply Z.log2_le_mono; lia. }
    exists e. split; [done |]. apply Z.le_antisymm; [| lia]. apply Z.nlt_ge. intros Hgt.
    assert (Hb : Z.testbit (Z.land rank (rank - 1)) e = true).
    { rewrite Z.land_spec. unfold e at 1. rewrite Z.bit_log2 by lia.
      rewrite <- (Z.log2_unique (rank - 1) e) by lia. apply Z.bit_log2. lia. }
    rewrite Hl, Z.bits_0 in Hb. discriminate.
  - intros (e & He & ->).
    assert (e = 7 \/ e = 8 \/ e = 9 \/ e = 10) as [-> | [-> | [-> | ->]]] by lia; reflexivity.
Qed.

Lemma valid_pearlhash_shape_spec m n k rank :
  0 <= m -> 0 <= n -> 0 <= k -> 0 <= rank ->
  valid_pearlhash_shape m n k rank = true <-> legal_shape m n k rank.
Proof.
  intros Hm Hn Hk Hr. unfold valid_pearlhash_shape, legal_shape, maximum.
  change (u64 (Z.shiftl 1 24)) with (2 ^ 24). change (u64 (Z.shiftl 1 16)) with (2 ^ 16).
  split.
  - destruct (_ || _) eqn:Hbad; [discriminate |].
    rewrite !orb_false_iff, !negb_false_iff, !Z.ltb_ge, !Z.eqb_eq, andb_true_iff, Z.eqb_eq in Hbad.
    destruct Hbad as (((((((((((((Hm1 & Hm2) & Hm3) & Hn1) & Hn2) & Hn3) & Hk1) & Hk2) & Hk3) & Hr1) & Hr2) & _ & Hp) & H16) & H4).
    rewrite !andb_true_iff, !Z.leb_le, !le_div_iff by (lia || (apply Z.div_str_pos; lia)).
    intros (((((H1 & H2) & H3) & H5) & _) & _).
    assert (rank * rank <= 1024 * rank) by nia.
    rewrite (u64_small (16 * rank)) in H16 by (unfold word; lia).
    rewrite (u64_small (4 * rank)), u64_small in H4 by (unfold word; lia).
    apply rank_powers in Hp; [| lia]. repeat (split; [lia || done |]). lia.
  - intros ((Hm1 & Hm2) & (Hn1 & Hn2) & (Hk1 & Hk2) & He & Hrk & Hmr & Hnr & Hmk & Ht).
    assert (Hrank : 128 <= rank <= 1024).
    { destruct He as (e & He & ->). change 128 with (2 ^ 7). change 1024 with (2 ^ 10).
      split; apply Z.pow_le_mono_r; lia. }
    assert (Hm' : m < 2 ^ 24) by nia. assert (Hn' : n < 2 ^ 24) by nia.
    assert (Hmn : 0 <= m * n <= (2 ^ 24 - 1) * (2 ^ 24 - 1)) by (split; [nia | apply Z.mul_le_mono_nonneg; lia]).
    assert (Hmnk : m * n * k <= (2 ^ 24 - 1) * (2 ^ 24 - 1) * 2 ^ 16) by (apply Z.mul_le_mono_nonneg; lia).
    assert (rank * rank <= 1024 * rank) by nia.
    rewrite (u64_small (16 * rank)), (u64_small (4 * rank)), (u64_small (4 * rank * rank)), (u64_small (m * n))
      by (unfold word; lia).
    apply rank_powers in He; [| lia].
    rewrite !(proj2 (Z.ltb_ge _ _)), Hm2, Hn2, Hk2, He by lia.
    rewrite (proj2 (Z.eqb_neq rank 0)) by lia. cbn [orb negb andb Z.eqb].
    rewrite !andb_true_iff, !Z.leb_le, !le_div_iff by (lia || (apply Z.div_str_pos; lia)). lia.
Qed.

(** ** The memory of a PearlHash job *)

(** Removes the conversions of a sum of products that does not overflow, from
    the inside out. *)
Ltac drop_u64 :=
  repeat match goal with
  | |- context [u64 ?x] =>
      lazymatch x with context [u64 _] => fail | _ => rewrite (u64_small x) by (unfold word; lia) end
  end.

(** Two chaining values of 32 bytes for every full or partial KiB, and two more. *)
Definition tree_bytes (n : Z) : Z := 64 * ((n + 1023) / 1024) + 64.

Lemma cv_bytes_spec n : 0 <= n < 2 ^ 41 -> cv_bytes n = tree_bytes n.
Proof.
  intros Hn. unfold cv_bytes, tree_bytes.
  assert (Hq : n / 1024 + (if n mod 1024 =? 0 then 0 else 1) = (n + 1023) / 1024).
  { pose proof (Z.div_mod n 1024 ltac:(lia)) as Hd. pose proof (Z.mod_pos_bound n 1024 ltac:(lia)) as Hb.
    destruct (Z.eqb_spec (n mod 1024) 0); [apply (Z.div_unique_pos _ _ _ 1023) |
      apply (Z.div_unique_pos _ _ _ (n mod 1024 - 1))]; lia. }
  rewrite Hq. assert (0 <= (n + 1023) / 1024 <= 2 ^ 32) by (split; [apply Z.div_pos; lia | apply Z.div_le_upper_bound; lia]).
  set (q := (n + 1023) / 1024) in *.
  rewrite (u64_small q), (u64_small (2 * q)), (u64_small (2 * q + 2)), u64_small by (unfold word; lia). lia.
Qed.

Definition pearl_footprint (s : pearlhash_profile_t) (hip_jit : bool) : Z :=
  s.(pm) * s.(prank) + 2 * (s.(pn) * s.(prank)) + s.(pm) * s.(pk) + s.(pn) * s.(pk) +
  tree_bytes (s.(pm) * s.(pk)) + tree_bytes (s.(pn) * s.(pk)) + 4 * (4 * s.(pk)) + 4 * 32 + 64 +
  (if hip_jit then s.(pm) * s.(pk) + s.(pn) * s.(pk) else 0).

Lemma legal_products s :
  legal_shape s.(pm) s.(pn) s.(pk) s.(prank) ->
  0 < s.(pm) * s.(prank) < 2 ^ 31 /\ 0 < s.(pn) * s.(prank) < 2 ^ 31 /\
  0 < s.(pm) * s.(pk) < 2 ^ 31 /\ 0 < s.(pn) * s.(pk) < 2 ^ 40.
Proof.
  intros ((Hm1 & Hm2) & (Hn1 & Hn2) & (Hk1 & Hk2) & He & Hrk & Hmr & Hnr & Hmk & Ht).
  assert (Hrank : 128 <= prank s <= 1024).
  { destruct He as (e & He & ->). change 128 with (2 ^ 7). change 1024 with (2 ^ 10).
    split; apply Z.pow_le_mono_r; lia. }
  assert (pn s < 2 ^ 24) by nia.
  assert (pn s * pk s <= (2 ^ 24 - 1) * 2 ^ 16) by (apply Z.mul_le_mono_nonneg; lia). nia.
Qed.

Lemma tree_bytes_bound n b : 0 <= n < 1024 * b -> 0 <= tree_bytes n <= 64 * b + 64.
Proof.
  intros Hn. unfold tree_bytes. assert ((n + 1023) / 1024 < b + 1) by (apply Z.div_lt_upper_bound; lia).
  assert (0 <= (n + 1023) / 1024) by (apply Z.div_pos; lia). lia.
Qed.

Lemma pearlhash_counts_value s hip :
  0 <= s.(pm) -> 0 <= s.(pn) -> 0 <= s.(pk) -> 0 <= s.(prank) ->
  (legal_shape s.(pm) s.(pn) s.(pk) s.(prank) ->
   exists out, pearlhash_allocation_counts s hip = (true, out) /\
     out.(m_rank) = s.(pm) * s.(prank) /\ out.(n_rank) = s.(pn) * s.(prank) /\
     out.(m_k) = s.(pm) * s.(pk) /\ out.(n_k) = s.(pn) * s.(pk) /\
     out.(cva_bytes) = tree_bytes (s.(pm) * s.(pk)) /\ out.(cvb_bytes) = tree_bytes (s.(pn) * s.(pk)) /\
     out.(total_bytes) = pearl_footprint s hip /\ pearl_footprint s hip < 4 * 2 ^ 40 /\
     Forall (fun n => 0 <= n <= out.(c_max_alloc) /\ out.(c_max_alloc) < 2 ^ 40)
       [out.(m_rank); out.(n_rank); out.(m_k); out.(n_k); out.(cva_bytes); out.(cvb_bytes); 4 * s.(pk); 64]) /\
  (~ legal_shape s.(pm) s.(pn) s.(pk) s.(prank) -> pearlhash_allocation_counts s hip = (false, no_counts)).
Proof.
  intros H1 H2 H3 H4. pose proof (valid_pearlhash_shape_spec _ _ _ _ H1 H2 H3 H4) as Hv.
  unfold pearlhash_allocation_counts. split; intros Hl.
  - rewrite (proj2 Hv Hl). cbn [negb].
    destruct (legal_products s Hl) as (Ha & Hb & Hc & Hd).
    pose proof (tree_bytes_bound (pm s * pk s) (2 ^ 21) ltac:(lia)) as Hta.
    pose proof (tree_bytes_bound (pn s * pk s) (2 ^ 30) ltac:(lia)) as Htb.
    assert (Hk : 1024 <= pk s <= 2 ^ 16) by apply Hl.
    unfold pearlhash_result_allocation_bytes, pearl_footprint.
    rewrite (u64_small (pm s * prank s)), (u64_small (pn s * prank s)), (u64_small (pm s * pk s)),
      (u64_small (pn s * pk s)), !cv_bytes_spec, (u64_small (pk s * 4)) by (unfold word; lia).
    set (ta := tree_bytes (pm s * pk s)) in *. set (tb := tree_bytes (pn s * pk s)) in *.
    set (largest := Z.max _ _). assert (Hlg : largest < 2 ^ 40) by lia.
    assert (Hle : Forall (fun n => 0 <= n <= largest /\ largest < 2 ^ 40)
      [pm s * prank s; pn s * prank s; pm s * pk s; pn s * pk s; ta; tb; 4 * pk s; 64])
      by (repeat constructor; lia).
    clearbody largest ta tb. rewrite (proj2 (Z.ltb_ge _ _)) by (unfold maximum; lia).
    eexists. split; [reflexivity |]. cbn [m_rank n_rank m_k n_k cva_bytes cvb_bytes total_bytes c_max_alloc].
    do 6 (split; [reflexivity |]). split; [| split; [destruct hip; lia |]].
    + destruct hip; drop_u64; lia.
    + exact Hle.
  - destruct (valid_pearlhash_shape _ _ _ _); [by destruct Hl; apply Hv | reflexivity].
Qed.

(** C35: [pearlhash_allocation_counts] succeeds exactly on the documented
    shapes; then no 64-bit operation overflows, so that the counts are the
    sizes of the buffers and their sum; every product is below 2^40 and the
    whole footprint below 4 TiB, as the comment says; the largest count is
    one of the buffers and bounds them all.  On failure no counts are left. *)
Theorem pearlhash_allocation_counts_spec s hip :
  0 <= s.(pm) -> 0 <= s.(pn) -> 0 <= s.(pk) -> 0 <= s.(prank) ->
  (legal_shape s.(pm) s.(pn) s.(pk) s.(prank) ->
   exists out, pearlhash_allocation_counts s hip = (true, out) /\
     out.(m_rank) = s.(pm) * s.(prank) /\ out.(n_rank) = s.(pn) * s.(prank) /\
     out.(m_k) = s.(pm) * s.(pk) /\ out.(n_k) = s.(pn) * s.(pk) /\
     out.(cva_bytes) = tree_bytes (s.(pm) * s.(pk)) /\ out.(cvb_bytes) = tree_bytes (s.(pn) * s.(pk)) /\
     out.(total_bytes) = pearl_footprint s hip /\ pearl_footprint s hip < 4 * 2 ^ 40 /\
     Forall (fun n => 0 <= n <= out.(c_max_alloc) /\ out.(c_max_alloc) < 2 ^ 40)
       [out.(m_rank); out.(n_rank); out.(m_k); out.(n_k); out.(cva_bytes); out.(cvb_bytes); 4 * s.(pk); 64]) /\
  (~ legal_shape s.(pm) s.(pn) s.(pk) s.(prank) -> pearlhash_allocation_counts s hip = (false, no_counts)).
Proof. apply pearlhash_counts_value. Qed.

Lemma pearlhash_allocation_counts_witness_shape : legal_shape 131072 131072 2048 128.
Proof.
  unfold legal_shape. repeat split; try lia. exists 7. lia.
Qed.

Lemma pearlhash_allocation_counts_spec_witness :
  exists out, pearlhash_allocation_counts ordinary true = (true, out) /\
    out.(total_bytes) = pearl_footprint ordinary true.
Proof.
  destruct (pearlhash_allocation_counts_spec ordinary true) as [H _]; [cbn; lia ..|].
  destruct (H pearlhash_allocation_counts_witness_shape) as (out & Ho & _ & _ & _ & _ & _ & _ & Ht & _).
  by exists out.
Defined.

(** ** Whether a device has the memory *)

(** Every buffer can be allocated, and all of them beside the reserve. *)
Definition fits_device (device : PowDeviceProfile) (s : pearlhash_profile_t) : Prop :=
  legal_shape s.(pm) s.(pn) s.(pk) s.(prank) /\ 0 < device.(max_alloc) /\
  Forall (fun n => n <= device.(max_alloc))
    [s.(pm) * s.(prank); s.(pn) * s.(prank); s.(pm) * s.(pk); s.(pn) * s.(pk);
     tree_bytes (s.(pm) * s.(pk)); tree_bytes (s.(pn) * s.(pk)); 4 * s.(pk); 64] /\
  pearl_footprint s false + 2 ^ 29 <= device.(global_mem).

Definition shape_ok (s : pearlhash_profile_t) : Prop :=
  0 <= s.(pm) /\ 0 <= s.(pn) /\ 0 <= s.(pk) /\ 0 <= s.(prank).
Definition device_ok (d : PowDeviceProfile) : Prop :=
  word 32 d.(compute_units) /\ word 64 d.(global_mem) /\ word 64 d.(max_alloc).

(** The largest count is one of the buffers. *)
Lemma largest_le s hip out b :
  pearlhash_allocation_counts s hip = (true, out) ->
  out.(c_max_alloc) <= b <->
  Forall (fun n => n <= b) [out.(m_rank); out.(n_rank); out.(m_k); out.(n_k); out.(cva_bytes);
    out.(cvb_bytes); u64 (s.(pk) * 4); 64].
Proof.
  unfold pearlhash_allocation_counts. destruct (negb _); [discriminate |]. cbv zeta.
  destruct (maximum 64 <? _); [discriminate |]. intros [= <-].
  cbn [c_max_alloc m_rank n_rank m_k n_k cva_bytes cvb_bytes].
  unfold pearlhash_result_allocation_bytes. split; intros H.
  - repeat (apply List.Forall_cons; [lia |]). constructor.
  - do 8 (apply Forall_cons_1 in H as [? H]). lia.
Qed.

Lemma pearlhash_required_memory_fits_spec device s :
  shape_ok s -> device_ok device ->
  pearlhash_required_memory_fits device s = true <-> fits_device device s.
Proof.
  intros (H1 & H2 & H3 & H4) (_ & Hg & Ha). unfold word in Hg, Ha.
  destruct (pearlhash_counts_value s false H1 H2 H3 H4) as [Hok Hno].
  unfold pearlhash_required_memory_fits, fits_device.
  change pearlhash_runtime_reserve_bytes with (2 ^ 29).
  rewrite !andb_true_iff, negb_true_iff, Z.eqb_neq, Z.leb_le.
  destruct (decide (valid_pearlhash_shape (pm s) (pn s) (pk s) (prank s) = true)) as [Hv | Hv];
    rewrite (valid_pearlhash_shape_spec _ _ _ _ H1 H2 H3 H4) in Hv.
  - destruct (Hok Hv) as (out & Hout & E1 & E2 & E3 & E4 & E5 & E6 & E7 & _ & _).
    pose proof (largest_le s false out (max_alloc device) Hout) as Hlg.
    assert (Hk : pk s <= 2 ^ 16) by apply Hv.
    rewrite u64_small, (Z.mul_comm (pk s)) in Hlg by (unfold word; lia).
    rewrite E1, E2, E3, E4, E5, E6 in Hlg. rewrite Hout, E7, <- Hlg.
    cbn [andb]. rewrite andb_true_iff, !Z.leb_le. split.
    + intros ((Hne & Hr) & Hmax & Htot). rewrite u64_small in Htot by (unfold word; lia).
      split; [done |]. lia.
    + intros (_ & Hpos & Hmax & Htot).
      assert (0 <= pearl_footprint s false).
      { destruct (legal_products s Hv) as (Ha1 & Hb1 & Hc1 & Hd1). unfold pearl_footprint.
        pose proof (tree_bytes_bound (pm s * pk s) (2 ^ 21) ltac:(lia)).
        pose proof (tree_bytes_bound (pn s * pk s) (2 ^ 30) ltac:(lia)). lia. }
      rewrite u64_small by (unfold word; lia). lia.
  - rewrite (Hno Hv). cbn [andb]. split; [intros [_ [=]] | tauto].
Qed.

(** a shape chosen for a device whose memory is known is the preferred
    one if the device has the memory for it, otherwise the compact one if it
    has the memory for that, otherwise none: no choice ever exceeds what one
    allocation or the device can hold beside the reserve. *)
Theorem pearlhash_capacity_profile_spec device preferred :
  shape_ok preferred -> device_ok device -> 0 < device.(global_mem) -> 0 < device.(max_alloc) ->
  let s := pearlhash_capacity_profile device preferred in
  (fits_device device preferred /\ s = preferred) \/
  (~ fits_device device preferred /\ fits_device device compact_shape /\ s = compact_shape) \/
  (~ fits_device device preferred /\ ~ fits_device device compact_shape /\ s = no_shape).
Proof.
  intros Hp Hd Hg Ha s. unfold s, pearlhash_capacity_profile.
  rewrite (proj2 (Z.eqb_neq _ _)), (proj2 (Z.eqb_neq _ _)) by lia. cbn [orb].
  rewrite <- !pearlhash_required_memory_fits_spec by (done || by (repeat split; cbn; lia)).
  destruct (pearlhash_required_memory_fits device preferred); [by left |].
  destruct (pearlhash_required_memory_fits device compact_shape); [right; left | right; right]; by repeat split.
Qed.

Lemma pearlhash_capacity_profile_spec_witness :
  let device := {| compute_units := 64; global_mem := 2 ^ 31; max_alloc := 2 ^ 30 |} in
  let s := pearlhash_capacity_profile device ordinary in
  (fits_device device ordinary /\ s = ordinary) \/
  (~ fits_device device ordinary /\ fits_device device compact_shape /\ s = compact_shape) \/
  (~ fits_device device ordinary /\ ~ fits_device device compact_shape /\ s = no_shape).
Proof.
  apply (pearlhash_capacity_profile_spec
    {| compute_units := 64; global_mem := 2 ^ 31; max_alloc := 2 ^ 30 |} ordinary);
    [cbn; unfold shape_ok; cbn; lia | by repeat split | reflexivity | reflexivity].
Defined.
Example pearlhash_capacity_profile_compact :
  pearlhash_capacity_profile {| compute_units := 64; global_mem := 2 ^ 30 + 2 ^ 28; max_alloc := 2 ^ 30 |}
    {| pm := 131072; pn := 131072; pk := 4096; prank := 128 |} = compact_shape.
Proof. reflexivity. Qed.

(** An optional buffer is admitted only beside the required ones. *)
Lemma pearlhash_optional_allocation_fits_spec device required optional_bytes :
  device_ok device -> 0 <= required.(total_bytes) -> 0 <= optional_bytes ->
  pearlhash_optional_allocation_fits device required optional_bytes = true <->
  0 < device.(max_alloc) /\ optional_bytes <= device.(max_alloc) /\
  required.(total_bytes) + optional_bytes + 2 ^ 29 <= device.(global_mem).
Proof.
  intros (_ & Hg & Ha) Hr Ho. unfold word in Hg, Ha. unfold pearlhash_optional_allocation_fits.
  change pearlhash_runtime_reserve_bytes with (2 ^ 29).
  rewrite !andb_true_iff, negb_true_iff, Z.eqb_neq, !Z.leb_le. split.
  - intros ((((H1 & H2) & H3) & H4) & H5).
    rewrite u64_small in H4 by (unfold word; lia).
    rewrite (u64_small (global_mem device - 2 ^ 29)), u64_small in H5 by (unfold word; lia). lia.
  - intros (H1 & H2 & H3).
    rewrite (u64_small (global_mem device - 2 ^ 29)), u64_small by (unfold word; lia). lia.
Qed.

(** ** Dispatch sizes *)

Lemma pow_intensity_value profile h loc explicit
    (scale := select_pow_intensity_scale profile h)
    (per_gib := if explicit =? 0 then h.(max_work_items_per_gib) else explicit)
    (items := loc * scale.(base_work_items) * profile.(compute_units) / scale.(compute_unit_divisor))
    (cap := Z.max 1 (profile.(global_mem) / 2 ^ 30) * per_gib * 2 ^ 20)
    (n := Z.min (if per_gib =? 0 then items else Z.min items cap) (2 ^ 32 - 1)) :
  1 <= loc -> loc * 4096 < 2 ^ 32 -> 0 <= scale.(base_work_items) -> 1 <= scale.(compute_unit_divisor) ->
  0 <= profile.(compute_units) -> loc * scale.(base_work_items) * profile.(compute_units) < 2 ^ 64 ->
  word 64 profile.(global_mem) -> 0 <= per_gib < 2 ^ 10 ->
  pow_intensity profile h loc explicit = Z.max (loc * (n / loc)) (loc * 4096).
Proof.
  intros Hl Hl4 Hb Hd Hc Hov Hg Hp. unfold pow_intensity. fold scale. fold per_gib.
  unfold word in Hg. assert (Hlb : 0 <= loc * base_work_items scale) by nia.
  assert (Hall : 0 <= loc * base_work_items scale * compute_units profile) by nia.
  assert (Hi : 0 <= items) by (apply Z.div_pos; lia).
  assert (Hgib : 0 <= profile.(global_mem) / 2 ^ 30 < 2 ^ 34)
    by (split; [apply Z.div_pos; lia | apply Z.div_lt_upper_bound; lia]).
  set (g := Z.max 1 (profile.(global_mem) / 2 ^ 30)) in *.
  assert (Hgp : 0 <= g * per_gib < 2 ^ 44) by nia. change kGiB with (2 ^ 30). change kMiB with (2 ^ 20).
  assert (Hsc : u64 (u64 (loc * base_work_items scale) * compute_units profile) / compute_unit_divisor scale = items).
  { unfold items. destruct (Z.eqb_spec (compute_units profile) 0) as [He | He].
    - by rewrite He, !Z.mul_0_r.
    - by rewrite (u64_small (loc * base_work_items scale)), u64_small by (unfold word; nia). }
  rewrite Hsc. fold g. rewrite (u64_small (g * per_gib)), (u64_small (g * per_gib * 2 ^ 20)) by (unfold word; lia).
  fold cap. unfold maximum. fold n.
  assert (Hn : 0 <= n < 2 ^ 32) by (unfold n, cap in *; destruct (per_gib =? 0); lia).
  rewrite (u32_small n), (u32_small (loc * 4096)) by (unfold word; lia). f_equal.
  unfold round_down_to_multiple. pose proof (Z.div_mod n loc ltac:(lia)) as Hdm.
  pose proof (Z.mod_pos_bound n loc ltac:(lia)). pose proof (Z.mod_le n loc ltac:(lia) ltac:(lia)).
  rewrite u32_small by (unfold word; lia). lia.
Qed.

Lemma progpow_scale profile :
  let scale := select_pow_intensity_scale profile progpow_intensity_heuristic in
  0 <= scale.(base_work_items) <= 32768 /\ 36 <= scale.(compute_unit_divisor).
Proof. cbv zeta. unfold select_pow_intensity_scale. repeat case_match; cbn; lia. Qed.

(** a dispatch for the ProgPow algorithms is a whole number of work
    groups for every device and every work group of up to 1024 items; it has
    at least 4096 groups, fits 32 bits, and beyond that minimum never exceeds
    the megabytes allowed for each full GiB of the device, with no overflow on
    the way. *)
Theorem progpow_intensity_spec profile loc explicit :
  1 <= loc <= 1024 -> device_ok profile -> 0 <= explicit < 1024 ->
  let per_gib := if explicit =? 0 then 4 else explicit in
  let n := pow_intensity profile progpow_intensity_heuristic loc explicit in
  (exists groups, 4096 <= groups /\ n = loc * groups) /\ n < 2 ^ 32 /\
  (n = loc * 4096 \/ n <= Z.max 1 (profile.(global_mem) / 2 ^ 30) * per_gib * 2 ^ 20).
Proof.
  intros Hl (Hc & Hg & _) He per_gib n. unfold word in Hc.
  pose proof (progpow_scale profile) as Hs. cbv zeta in Hs.
  assert (Hp : 0 < per_gib < 2 ^ 10) by (unfold per_gib; destruct (Z.eqb_spec explicit 0); lia).
  unfold n. rewrite pow_intensity_value; [| lia | lia | lia | lia | lia | | done | cbn [max_work_items_per_gib progpow_intensity_heuristic]; fold per_gib; lia].
  - set (m := Z.min _ _).
    assert (Hm : m <= 2 ^ 32 - 1 /\ m <= Z.max 1 (global_mem profile / 2 ^ 30) * per_gib * 2 ^ 20).
    { unfold m. cbn [max_work_items_per_gib progpow_intensity_heuristic]. fold per_gib.
      rewrite (proj2 (Z.eqb_neq per_gib 0)) by lia. lia. }
    clearbody m. pose proof (Z.mul_div_le m loc ltac:(lia)) as Hd.
    split; [| lia].
    exists (Z.max (m / loc) 4096). split; [lia | by rewrite Z.mul_max_distr_nonneg_l by lia].
  - set (x := loc * base_work_items _). assert (Hx : 0 <= x <= 1024 * 32768).
    { unfold x. split; [nia | apply Z.mul_le_mono_nonneg; lia]. }
    assert (x * compute_units profile <= 1024 * 32768 * 2 ^ 32) by (apply Z.mul_le_mono_nonneg; lia). lia.
Qed.

Lemma progpow_intensity_spec_witness :
  let profile := {| compute_units := 64; global_mem := 2 ^ 33; max_alloc := 2 ^ 32 |} in
  let n := pow_intensity profile progpow_intensity_heuristic 256 0 in
  (exists groups, 4096 <= groups /\ n = 256 * groups) /\ n < 2 ^ 32 /\
  (n = 256 * 4096 \/ n <= Z.max 1 (2 ^ 33 / 2 ^ 30) * 4 * 2 ^ 20).
Proof.
  apply (progpow_intensity_spec {| compute_units := 64; global_mem := 2 ^ 33; max_alloc := 2 ^ 32 |} 256 0);
    [lia | by repeat split | lia].
Defined.

(** ** Launch limits *)

(** a work group is accepted exactly when it is within the limits of the
    device, made of whole teams, and the local memory holds the fixed part,
    a part for each team and a part for each item, computed without overflow
    for every 64-bit requirement. *)
Theorem mom_workgroup_fits_spec workgroup max_workgroup max_work_items local_bytes fixed per_item per_team team :
  word 32 workgroup -> word 32 team -> word 64 local_bytes -> 0 <= fixed -> 0 <= per_item -> 0 <= per_team ->
  mom_workgroup_fits workgroup max_workgroup max_work_items local_bytes fixed per_item per_team team = true <->
  0 < workgroup <= Z.min max_workgroup max_work_items /\ (0 < team /\ (team | workgroup)) /\
  fixed + per_team * (workgroup / team) + per_item * workgroup <= local_bytes.
Proof.
  intros Hw Ht Hl Hf Hi Hp. unfold mom_workgroup_fits, word in *.
  assert (Hdiv : 0 < team -> (workgroup mod team =? 0) = true <-> (team | workgroup))
    by (intros H; rewrite Z.eqb_eq; apply Z.mod_divide; lia).
  destruct (_ || _) eqn:Hbad.
  - split; [discriminate |]. intros (H1 & (H2 & H3) & H4). exfalso.
    assert (0 <= workgroup / team) by (apply Z.div_pos; lia). apply Hdiv in H3; [| done].
    rewrite H3 in Hbad. revert Hbad.
    rewrite (proj2 (Z.eqb_neq workgroup 0)), (proj2 (Z.eqb_neq team 0)), !(proj2 (Z.ltb_ge _ _)) by nia. discriminate.
  - rewrite !orb_false_iff, !negb_false_iff, !Z.ltb_ge, !Z.eqb_neq in Hbad.
    destruct Hbad as (((((H1 & H2) & H3) & H4) & H5) & H6). apply Hdiv in H6; [| lia].
    assert (Hteams : 0 < workgroup / team).
    { destruct H6 as [q ->]. rewrite Z.div_mul by lia. nia. }
    rewrite (u64_small (local_bytes - fixed)) by (unfold word; lia).
    destruct (Z.ltb_spec ((local_bytes - fixed) / (workgroup / team)) per_team) as [H7 | H7].
    + split; [discriminate |]. intros (_ & _ & H8). exfalso.
      assert (per_team <= (local_bytes - fixed) / (workgroup / team)) by (apply Z.div_le_lower_bound; nia). lia.
    + apply le_div_iff in H7; [| done]. assert (0 <= per_team * (workgroup / team)) by nia.
      rewrite (u64_small (per_team * _)), u64_small by (unfold word; lia).
      rewrite Z.leb_le, le_div_iff by lia. split; [intros H8; repeat split; (lia || done) | lia].
Qed.

Lemma mom_workgroup_fits_spec_witness :
  mom_workgroup_fits 256 1024 1024 65536 1024 16 512 32 = true <->
  0 < 256 <= Z.min 1024 1024 /\ (0 < 32 /\ (32 | 256)) /\ 1024 + 512 * (256 / 32) + 16 * 256 <= 65536.
Proof. apply (mom_workgroup_fits_spec 256 1024 1024 65536 1024 16 512 32); by apply (bool_decide_unpack _). Defined.
