(* ===== verification/CpuScheduling.v ===== *)
(** * CPU threads: [native/cpu-scheduling.h] and [native/hashrate-sampling.h]

    How the threads of the CPU share the L3 cache among batches, the text that
    names them ("cpu*2^3,cpu": three threads with batches of 2, one with 1),
    and when the hash rate is sampled.  [unsigned] has 32 bits; a division by
    zero, or a loop that does not end, is [None]. *)

From stdpp Require Import strings.
From S2P Require Import Prelude JobBoundary.

(** ** The code: batches *)

(** [while (++used_threads <= thread_count && (used_l3cache += batch_mem) <= l3cache)]:
    [used_l3cache] and the threads. *)
Fixpoint fill_threads (fuel : nat) (thread_count l3cache batch_mem batch : Z)
  (used_threads used_l3cache : Z) (threads : list Z) : option (Z * list Z) :=
  match fuel with
  | O => None
  | S fuel =>
      let used_threads := u32 (used_threads + 1) in
      if used_threads <=? thread_count then
        let used_l3cache := u32 (used_l3cache + batch_mem) in
        if used_l3cache <=? l3cache then
          fill_threads fuel thread_count l3cache batch_mem batch used_threads used_l3cache (threads ++ [batch])
        else Some (used_l3cache, threads)
      else Some (used_l3cache, threads)
  end.

(** [for (auto& i : threads)]: [used_l3cache], [updated] and the threads. *)
Fixpoint grow_pass (max_cpu_batch l3cache batch_mem : Z) (used_l3cache : Z) (updated : bool)
  (threads : list Z) : Z * bool * list Z :=
  match threads with
  | [] => (used_l3cache, updated, [])
  | i :: threads =>
      let '(used_l3cache, updated, i) :=
        if i <? max_cpu_batch then
          let used_l3cache := u32 (used_l3cache + batch_mem) in
          if used_l3cache <=? l3cache then (used_l3cache, true, u32 (i + 1)) else (used_l3cache, updated, i)
        else (used_l3cache, updated, i) in
      let '(used_l3cache, updated, threads) :=
        grow_pass max_cpu_batch l3cache batch_mem used_l3cache updated threads in
      (used_l3cache, updated, i :: threads)
  end.

(** [while (used_l3cache < l3cache)]. *)
Fixpoint grow_batches (fuel : nat) (max_cpu_batch l3cache batch_mem used_l3cache : Z) (threads : list Z) :
  option (list Z) :=
  match fuel with
  | O => None
  | S fuel =>
      if used_l3cache <? l3cache then
        let '(used_l3cache, updated, threads) :=
          grow_pass max_cpu_batch l3cache batch_mem used_l3cache false threads in
        if updated then grow_batches fuel max_cpu_batch l3cache batch_mem used_l3cache threads
        else Some threads
      else Some threads
  end.

Definition cpu_thread_batches (fuel : nat) (algo : list Z)
  (max_cpu_batch socket_count thread_count l3cache batch_mem : Z) : option (list Z) :=
  if bool_decide (str "rx/" `prefix_of` algo) then
    if (batch_mem =? 0) || (socket_count =? 0) then None else
    let batch := Z.max 1 (Z.min thread_count (l3cache / batch_mem) / socket_count) in
    Some (replicate (Z.to_nat socket_count) batch)
  else
  '(used_l3cache, threads) ← fill_threads fuel thread_count l3cache batch_mem
    (if bool_decide (algo = str "ghostrider") then 8 else 1) 0 0 [];
  threads ← (if bool_decide (str "argon2/" `prefix_of` algo) then Some threads
    else grow_batches fuel max_cpu_batch l3cache batch_mem used_l3cache threads);
  Some (match threads with [] => [1] | _ => threads end).

(** ** The code: the names of the devices *)

(** [std::to_string] of an unsigned number; twenty digits are enough for 64
    bits. *)
Fixpoint decimal (fuel : nat) (n : Z) : list Z :=
  match fuel with
  | O => []
  | S fuel => (if n <? 10 then [] else decimal fuel (n / 10)) ++ [48 + n mod 10]
  end.
Definition to_string (n : Z) : list Z := decimal 20 n.

Definition add_result_dev (result_dev add_str : list Z) : list Z :=
  (match result_dev with [] => [] | _ => result_dev ++ str "," end) ++ add_str.

(** The lambda [add_last_dev]: [result_dev] and [same_batch_threads]. *)
Definition add_last_dev (result_dev : list Z) (prev_batch same_batch_threads : Z) : list Z * Z :=
  if (same_batch_threads =? 0) || (prev_batch =? 0) then (result_dev, same_batch_threads) else
  let result_dev := add_result_dev result_dev
    (str "cpu" ++ (if prev_batch =? 1 then [] else str "*" ++ to_string prev_batch)) in
  let result_dev := if same_batch_threads =? 1 then result_dev
    else result_dev ++ str "^" ++ to_string same_batch_threads in
  (result_dev, 0).

(** The body of the loop over the threads. *)
Definition append_step '(result_dev, prev_batch, same_batch_threads) (batch : Z) : list Z * Z * Z :=
  let '(result_dev, same_batch_threads) :=
    if negb (same_batch_threads =? 0) && negb (prev_batch =? batch)
    then add_last_dev result_dev prev_batch same_batch_threads
    else (result_dev, same_batch_threads) in
  (result_dev, batch, u32 (same_batch_threads + 1)).

Definition append_grouped_cpu_devs (result_dev : list Z) (threads : list Z) : list Z :=
  let '(result_dev, prev_batch, same_batch_threads) :=
    fold_left append_step threads (result_dev, 0, 0) in
  fst (add_last_dev result_dev prev_batch same_batch_threads).

(** ** The code: sampling of the hash rate *)

(** Whether a check is due, and [remaining]. *)
Definition hashrate_check_due (completed_hashes : Z) (is_gpu : bool) (remaining cpu_interval : Z) :
  bool * Z :=
  if completed_hashes =? 0 then (false, remaining) else
  if is_gpu || (remaining <=? 1) then (true, cpu_interval) else (false, u32 (remaining - 1)).

Example cpu_thread_batches_cn :
  cpu_thread_batches 10 (str "cn/0") 5 1 3 10485760 2097152 = Some [2; 2; 1] /\
  cpu_thread_batches 10 (str "ghostrider") 5 2 2 33554432 2097152 = Some [8; 8] /\
  cpu_thread_batches 10 (str "rx/0") 1 2 8 8388608 2097152 = Some [2; 2] /\
  append_grouped_cpu_devs [] [2; 2; 1] = str "cpu*2^2,cpu".
Proof. by vm_compute. Qed.

(** ** Batches *)






Section Batches.
Variables thread_count l3cache batch_mem : Z.
Hypothesis l3_word : 0 <= l3cache < 2 ^ 31.
Hypothesis mem_word : 0 < batch_mem < 2 ^ 32.





End Batches.





(** RandomX: one process for each socket, which share the threads. *)
Lemma cpu_thread_batches_rx fuel algo max_cpu_batch sockets thread_count l3cache batch_mem :
  0 <= thread_count -> 0 <= l3cache -> 0 < batch_mem -> 0 < sockets -> str "rx/" `prefix_of` algo ->
  exists batch, cpu_thread_batches fuel algo max_cpu_batch sockets thread_count l3cache batch_mem
    = Some (replicate (Z.to_nat sockets) batch) /\ 1 <= batch /\
    (batch = 1 \/ sockets * batch <= thread_count /\ sockets * batch * batch_mem <= l3cache).
Proof.
  intros Ht Hl Hm Hs Hrx. eexists. unfold cpu_thread_batches. rewrite bool_decide_true by done.
  rewrite (proj2 (Z.eqb_neq batch_mem 0)), (proj2 (Z.eqb_neq sockets 0)) by lia. cbn [orb].
  split; [reflexivity |]. set (q := l3cache / batch_mem).
  pose proof (Z.mul_div_le (Z.min thread_count q) sockets Hs) as Hd. split; [lia |].
  destruct (Z.max_spec 1 (Z.min thread_count q / sockets)) as [[_ ->] | [_ ->]]; [right | by left].
  split; [lia |]. apply le_div_iff; [done |]. fold q. lia.
Qed.

(** ** The names of the devices *)

Lemma decimal_reads fuel n :
  (0 < fuel)%nat -> 0 <= n < 10 ^ Z.of_nat fuel ->
  Numerals.reads 10 (decimal fuel n) n /\ Forall (fun c => 48 <= c <= 57) (decimal fuel n).
Proof.
  revert n. induction fuel as [| fuel IH]; intros n Hf Hn; [lia |]. cbn [decimal].
  assert (Hmod : 0 <= n mod 10 < 10) by (apply Z.mod_pos_bound; lia).
  assert (Hd : Numerals.denotes (48 + n mod 10) (n mod 10)).
  { apply digit_of_denotes. unfold digit_of.
    rewrite (proj2 (Z.leb_le 48 _)), (proj2 (Z.leb_le _ 57)) by lia. cbn [andb]. f_equal. lia. }
  pose proof (Z.div_mod n 10 ltac:(lia)) as Hdm.
  assert (Hrec : (n <? 10) = false -> Numerals.reads 10 (decimal fuel (n / 10)) (n / 10) /\
    Forall (fun c => 48 <= c <= 57) (decimal fuel (n / 10))).
  { intros Hlt%Z.ltb_ge. destruct fuel as [| fuel]; [change (10 ^ Z.of_nat 1) with 10 in Hn; lia |].
    apply IH; [lia |]. rewrite Nat2Z.inj_succ, Z.pow_succ_r in Hn by lia.
    split; [apply Z.div_pos; lia | apply Z.div_lt_upper_bound; lia]. }
  destruct (n <? 10) eqn:Hlt.
  - apply Z.ltb_lt in Hlt. split; [| by repeat constructor; lia]. split; [done |].
    exists [n mod 10]. split; [by constructor |]. split; [by constructor; [lia |] |].
    cbn. lia.
  - destruct (Hrec eq_refl) as [[Hne (ds & Hds & Hlt10 & Hv)] Hc].
    split; [| apply Forall_app_2; [done | by constructor; [lia |]]].
    split; [by destruct (decimal fuel (n / 10)) |]. exists (ds ++ [n mod 10]).
    split; [by apply Forall2_app; [| constructor] |].
    split; [apply Forall_app_2; [done | by constructor; [lia |]] |].
    unfold Numerals.value in *. rewrite fold_left_app, Hv. cbn. lia.
Qed.

Lemma to_string_reads n :
  word 64 n -> Numerals.reads 10 (to_string n) n /\ Forall (fun c => 48 <= c <= 57) (to_string n).
Proof.
  intros Hn. apply decimal_reads; [lia |]. unfold word in Hn.
  assert (2 ^ 64 < 10 ^ Z.of_nat 20) by reflexivity. lia.
Qed.

Lemma parse_to_string n : word 32 n -> parse_unsigned 32 (to_string n) 0 10 false = (true, n).
Proof.
  intros Hn. apply parse_unsigned_reads; [lia | lia |]. unfold word in Hn.
  split; [apply to_string_reads; unfold word; lia | lia].
Qed.

(** The runs of equal batches, [same] of [prev] before. *)
Fixpoint runs (prev same : Z) (threads : list Z) : list (Z * Z) :=
  match threads with
  | [] => [(prev, same)]
  | b :: threads => if b =? prev then runs prev (same + 1) threads else (prev, same) :: runs b 1 threads
  end.

Definition group_name (g : Z * Z) : list Z :=
  str "cpu" ++ (if fst g =? 1 then [] else str "*" ++ to_string (fst g)) ++
  (if snd g =? 1 then [] else str "^" ++ to_string (snd g)).

Definition add_group (r : list Z) (g : Z * Z) : list Z := add_result_dev r (group_name g).

Lemma add_last_dev_spec r prev same :
  1 <= prev -> 1 <= same -> add_last_dev r prev same = (add_group r (prev, same), 0).
Proof.
  intros Hp Hs. unfold add_last_dev, add_group, group_name, add_result_dev. cbn [fst snd].
  rewrite (proj2 (Z.eqb_neq same 0)), (proj2 (Z.eqb_neq prev 0)) by lia. cbn [orb].
  destruct (same =? 1); by rewrite ?app_nil_r, <- ?app_assoc.
Qed.

Lemma append_runs threads r prev same :
  Forall (Z.le 1) threads -> 1 <= prev -> 1 <= same -> same + Z.of_nat (length threads) < 2 ^ 32 ->
  (let '(r, prev, same) := fold_left append_step threads (r, prev, same) in fst (add_last_dev r prev same))
  = fold_left add_group (runs prev same threads) r.
Proof.
  intros Hf. revert r prev same. induction Hf as [| b threads Hb _ IH]; intros r prev same Hp Hs Hl.
  { cbn. by rewrite add_last_dev_spec. }
  cbn [length] in Hl. rewrite fold_left_one. cbn [runs]. unfold append_step at 2.
  rewrite (proj2 (Z.eqb_neq same 0)), (Z.eqb_sym b prev) by lia. cbn [negb andb].
  destruct (Z.eqb_spec prev b) as [<- | Hne]; cbn [negb].
  - rewrite u32_small by (unfold word; lia). apply IH; lia.
  - rewrite add_last_dev_spec by done. rewrite u32_small, Z.add_0_l by (unfold word; lia).
    rewrite fold_left_one. apply IH; lia.
Qed.

(** How the text is read back: groups at the commas, each a "cpu" with the
    batch after a star and the number of threads after a hat. *)
Module DeviceNames.
Fixpoint split_all (d : Z) (text : list Z) : list (list Z) :=
  match text with
  | [] => [[]]
  | c :: text =>
      if c =? d then [] :: split_all d text else
      match split_all d text with p :: ps => (c :: p) :: ps | [] => [[c]] end
  end.
Definition read_count (mark : Z) (text : list Z) : option Z :=
  match text with
  | [] => Some 1
  | c :: number =>
      if c =? mark then
        let '(ok, n) := parse_unsigned 32 number 0 10 false in if ok then Some n else None
      else None
  end.
Definition read_group (text : list Z) : option (list Z) :=
  if bool_decide (take 3 text = str "cpu") then
    let rest := drop 3 text in
    let hat := match find_from 94 0 rest with Some p => p | None => length rest end in
    batch ← read_count 42 (take hat rest);
    count ← read_count 94 (drop hat rest);
    Some (replicate (Z.to_nat count) batch)
  else None.
Definition read_devs (text : list Z) : option (list Z) :=
  option_map (@concat Z) (mapM read_group (split_all 44 text)).
End DeviceNames.
Import DeviceNames.

Lemma append_grouped_runs r b threads :
  Forall (Z.le 1) (b :: threads) -> Z.of_nat (length (b :: threads)) < 2 ^ 32 ->
  append_grouped_cpu_devs r (b :: threads) = fold_left add_group (runs b 1 threads) r.
Proof.
  intros [Hb Hf]%Forall_cons_1 Hl. cbn [length] in Hl.
  rewrite <- append_runs by (done || lia). reflexivity.
Qed.

Lemma split_all_app d l r : split_all d (l ++ (d :: r)) = split_all d l ++ split_all d r.
Proof.
  induction l as [| c l IH]; cbn [app split_all]; [by rewrite Z.eqb_refl |].
  rewrite IH. destruct (c =? d); [done |].
  destruct (split_all d l) as [| p ps] eqn:Hs; [| done].
  destruct l as [| c' l]; [done |]. cbn in Hs. destruct (c' =? d); [done |]. by destruct (split_all d l).
Qed.

Lemma split_all_one d l : d ∉ l -> split_all d l = [l].
Proof.
  induction l as [| c l IH]; [done |]. rewrite not_elem_of_cons. intros [Hc Hl]. cbn [split_all].
  rewrite (proj2 (Z.eqb_neq c d)), IH by (done || congruence). done.
Qed.

Definition digits (l : list Z) : Prop := Forall (fun c => 48 <= c <= 57) l.
Lemma digits_notin d l : d < 48 \/ 57 < d -> digits l -> d ∉ l.
Proof. intros Hd Hl Hin%list_elem_of_In. pose proof (proj1 (List.Forall_forall _ _) Hl d Hin). cbn in *. lia. Qed.

Lemma digits_to_string n : word 64 n -> digits (to_string n).
Proof. intros Hn. by apply to_string_reads. Qed.

Definition group_ok (g : Z * Z) : Prop := 1 <= fst g < 2 ^ 32 /\ 1 <= snd g < 2 ^ 32.

(** The two optional parts of a name. *)
Definition part (mark n : Z) : list Z := if n =? 1 then [] else mark :: to_string n.

Lemma group_name_parts b c : group_name (b, c) = str "cpu" ++ part 42 b ++ part 94 c.
Proof. unfold group_name, part. cbn [fst snd]. by destruct (b =? 1), (c =? 1). Qed.

Lemma part_notin d mark n :
  d <> mark -> d < 48 \/ 57 < d -> 1 <= n < 2 ^ 32 -> d ∉ part mark n.
Proof.
  intros Hm Hd Hn. unfold part. destruct (n =? 1); [apply not_elem_of_nil |].
  apply not_elem_of_cons. split; [done |]. apply digits_notin; [done |].
  apply digits_to_string. unfold word. lia.
Qed.

Lemma read_part mark n : 1 <= n < 2 ^ 32 -> read_count mark (part mark n) = Some n.
Proof.
  intros Hn. unfold part, read_count. destruct (Z.eqb_spec n 1) as [-> | _]; [done |].
  rewrite Z.eqb_refl, parse_to_string by (unfold word; lia). done.
Qed.

Lemma read_group_name g : group_ok g -> read_group (group_name g) = Some (replicate (Z.to_nat (snd g)) (fst g)).
Proof.
  destruct g as [b c]. intros [Hb Hc]. cbn [fst snd] in *. rewrite group_name_parts. unfold read_group.
  change (take 3 (str "cpu" ++ part 42 b ++ part 94 c)) with (str "cpu").
  change (drop 3 (str "cpu" ++ part 42 b ++ part 94 c)) with (part 42 b ++ part 94 c).
  rewrite bool_decide_true by done. cbv zeta.
  assert (Hhat : match find_from 94 0 (part 42 b ++ part 94 c) with
      Some p => p | None => length (part 42 b ++ part 94 c) end = length (part 42 b)).
  { pose proof (part_notin 94 42 b ltac:(lia) ltac:(lia) Hb) as Hn. destruct (Z.eqb_spec c 1) as [-> | Hne].
    - change (part 94 1) with (@nil Z). rewrite app_nil_r. by rewrite (proj2 (find_from_none _ _) Hn).
    - assert (find_from 94 0 (part 42 b ++ part 94 c) = Some (length (part 42 b))) as ->; [| done].
      apply find_from_some. exists (part 42 b), (to_string c). split; [| done].
      unfold part at 2. by rewrite (proj2 (Z.eqb_neq c 1)). }
  rewrite Hhat, take_app_length, drop_app_length, !read_part by done. done.
Qed.

Lemma group_name_comma g : group_ok g -> 44 ∉ group_name g.
Proof.
  destruct g as [b c]. intros [Hb Hc]. rewrite group_name_parts, !not_elem_of_app.
  split; [| split; by apply part_notin; [| lia |]]. by apply (bool_decide_unpack _).
Qed.

Lemma split_groups g gs :
  Forall group_ok (g :: gs) ->
  split_all 44 (fold_left add_group (g :: gs) []) = map group_name (g :: gs).
Proof.
  revert g. induction gs as [| h gs IH] using rev_ind; intros g Hok.
  { apply Forall_cons_1 in Hok as [Hg _]. cbn [fold_left map]. unfold add_group, add_result_dev. cbn [app].
    by rewrite split_all_one by by apply group_name_comma. }
  rewrite app_comm_cons in *. apply Forall_app in Hok as [Hok Hh]. apply Forall_cons_1 in Hh as [Hh _].
  rewrite fold_left_app, map_app, <- IH by done. cbn [fold_left map]. unfold add_group at 1, add_result_dev at 1.
  destruct (fold_left add_group gs (add_group [] g)) as [| x acc] eqn:Hr.
  - exfalso. pose proof (IH g Hok) as Hs. cbn [fold_left] in Hs. rewrite Hr in Hs. by injection Hs.
  - rewrite <- app_assoc. change (str "," ++ group_name h) with (44 :: group_name h).
    by rewrite split_all_app, (split_all_one 44 (group_name h)) by by apply group_name_comma.
Qed.

Lemma runs_ok prev same threads :
  1 <= prev < 2 ^ 32 -> 1 <= same -> Forall (fun b => 1 <= b < 2 ^ 32) threads ->
  same + Z.of_nat (length threads) < 2 ^ 32 ->
  Forall group_ok (runs prev same threads) /\
  concat (map (fun g => replicate (Z.to_nat (snd g)) (fst g)) (runs prev same threads))
  = replicate (Z.to_nat same) prev ++ threads.
Proof.
  intros Hp Hs Hf. revert prev same Hp Hs. induction Hf as [| b threads Hb _ IH]; intros prev same Hp Hs Hl.
  { cbn. rewrite app_nil_r. split; [| done]. constructor; [| done]. unfold group_ok. cbn. cbn in Hl. lia. }
  cbn [length runs] in *. destruct (Z.eqb_spec b prev) as [-> | Hne].
  - destruct (IH prev (same + 1) ltac:(done) ltac:(lia) ltac:(lia)) as [Hok Hc]. split; [done |].
    rewrite Hc. replace (Z.to_nat (same + 1)) with (Z.to_nat same + 1)%nat by lia.
    rewrite replicate_add, <- app_assoc. done.
  - destruct (IH b 1 ltac:(done) ltac:(lia) ltac:(lia)) as [Hok Hc].
    split; [constructor; [unfold group_ok; cbn; lia | done] |]. rewrite map_cons, concat_cons, Hc. done.
Qed.

Lemma fold_groups_prefix gs text r :
  r <> [] -> fold_left add_group gs (text ++ str "," ++ r) = text ++ str "," ++ fold_left add_group gs r.
Proof.
  revert r. induction gs as [| g gs IH]; intros r Hr; [done |]. cbn [fold_left].
  assert (add_group (text ++ str "," ++ r) g = text ++ str "," ++ add_group r g) as ->.
  { unfold add_group, add_result_dev. destruct r as [| c r]; [done |].
    destruct (text ++ str "," ++ c :: r) eqn:Ht; [by destruct text |]. rewrite <- Ht. by rewrite <- !app_assoc. }
  apply IH. unfold add_group, add_result_dev. by destruct r.
Qed.

(** C38: the text of the devices determines the threads: reading it back, with
    the parser of numbers of the jobs, gives the list of batches in order;
    and a list added to a text that has other devices comes after a comma. *)
Theorem append_grouped_cpu_devs_read threads :
  threads <> [] -> Forall (fun b => 1 <= b < 2 ^ 32) threads -> Z.of_nat (length threads) < 2 ^ 32 ->
  read_devs (append_grouped_cpu_devs [] threads) = Some threads /\
  (forall text, text <> [] ->
    append_grouped_cpu_devs text threads = text ++ str "," ++ append_grouped_cpu_devs [] threads).
Proof.
  intros Hne Hf Hl. destruct threads as [| b threads]; [done |].
  assert (Hf1 : Forall (Z.le 1) (b :: threads)).
  { revert Hf. apply List.Forall_impl. lia. }
  pose proof Hf as [Hb Hf']%Forall_cons_1. cbn [length] in Hl.
  destruct (runs_ok b 1 threads Hb ltac:(lia) Hf' ltac:(lia)) as [Hok Hc].
  assert (Hruns : exists g gs, runs b 1 threads = g :: gs).
  { clear. generalize 1. induction threads as [| c threads IH]; intros s; cbn; [eauto |].
    destruct (c =? b); [apply IH | eauto]. }
  destruct Hruns as (g & gs & Hg). rewrite append_grouped_runs by (done || cbn; lia). split.
  - unfold read_devs. rewrite Hg in *. rewrite split_groups by done.
    assert (mapM read_group (map group_name (g :: gs))
      = Some (map (fun g => replicate (Z.to_nat (snd g)) (fst g)) (g :: gs))) as ->.
    { clear - Hok. induction Hok as [| h hs Hh _ IH]; [done |]. rewrite !map_cons. cbn [mapM].
      rewrite read_group_name by done. cbn [mbind option_bind]. rewrite IH. done. }
    cbn [option_map]. by rewrite Hc.
  - intros text Ht. rewrite append_grouped_runs by (done || cbn; lia). clear - Ht Hg. rewrite Hg. cbn [fold_left].
    replace (add_group text g) with (text ++ str "," ++ add_group [] g)
      by (unfold add_group, add_result_dev; cbn [app]; destruct text; [done | by rewrite <- !app_assoc]).
    by apply fold_groups_prefix.
Qed.

Lemma append_grouped_cpu_devs_read_witness :
  read_devs (append_grouped_cpu_devs [] [2; 2; 1; 16; 16; 16]) = Some [2; 2; 1; 16; 16; 16] /\
  (forall text, text <> [] ->
    append_grouped_cpu_devs text [2; 2; 1; 16; 16; 16]
    = text ++ str "," ++ append_grouped_cpu_devs [] [2; 2; 1; 16; 16; 16]).
Proof.
  apply append_grouped_cpu_devs_read; [done | by apply (bool_decide_unpack _) | reflexivity].
Defined.

(** ** Sampling of the hash rate *)

(** The checks that are due in a run of CPU dispatches, and what remains. *)
Definition check_step (cpu_interval : Z) '(checks, remaining) (hashes : Z) : Z * Z :=
  let '(due, remaining) := hashrate_check_due hashes false remaining cpu_interval in
  ((if due then checks + 1 else checks), remaining).
Definition cpu_checks (cpu_interval : Z) (dispatches : list Z) (remaining : Z) : Z * Z :=
  fold_left (check_step cpu_interval) dispatches (0, remaining).

Lemma check_step_spec interval k remaining h :
  1 <= remaining <= interval -> word 32 interval ->
  check_step interval (k, remaining) h
  = if h =? 0 then (k, remaining) else if remaining =? 1 then (k + 1, interval) else (k, remaining - 1).
Proof.
  intros Hr Hi. unfold check_step, hashrate_check_due. cbn [orb]. destruct (h =? 0); [done |].
  destruct (Z.leb_spec remaining 1), (Z.eqb_spec remaining 1); try lia; [done |].
  rewrite u32_small by (unfold word in *; lia). done.
Qed.

Lemma cpu_checks_acc interval dispatches remaining k :
  fold_left (check_step interval) dispatches (k, remaining)
  = (k + fst (cpu_checks interval dispatches remaining), snd (cpu_checks interval dispatches remaining)).
Proof.
  unfold cpu_checks. revert k remaining. induction dispatches as [| h dispatches IH]; intros k remaining.
  { cbn. f_equal. lia. }
  cbn [fold_left]. unfold check_step at 2 4 6. destruct (hashrate_check_due h false remaining interval) as [due r].
  rewrite (IH (if due then k + 1 else k)), (IH (if due then 0 + 1 else 0)). cbn [fst snd]. f_equal. destruct due; lia.
Qed.

(** sampling never starves: of the dispatches that computed hashes every
    [cpu_interval]-th one is a sampling point, however they are mixed with
    dispatches that computed none; and a GPU dispatch with hashes is always
    one. *)
Theorem hashrate_sampling_live interval dispatches remaining :
  1 <= remaining <= interval -> word 32 interval ->
  let samples := Z.of_nat (length (filter (fun h => h <> 0) dispatches)) in
  cpu_checks interval dispatches remaining
  = ((samples + interval - remaining) / interval,
     interval - (samples + interval - remaining) mod interval) /\
  (forall hashes, hashes <> 0 -> hashrate_check_due hashes true remaining interval = (true, interval)).
Proof.
  intros Hr Hi. cbv zeta. split.
  - revert remaining Hr. induction dispatches as [| h dispatches IH]; intros remaining Hr.
    { cbn. rewrite Z.div_small, Z.mod_small by lia. f_equal. lia. }
    unfold cpu_checks. cbn [fold_left]. rewrite check_step_spec, filter_cons by done.
    destruct (Z.eqb_spec h 0) as [-> | Hh].
    + rewrite decide_False by tauto. by apply IH.
    + rewrite decide_True by done. cbn [length]. rewrite Nat2Z.inj_succ.
      set (m := Z.of_nat (length _)) in *. destruct (Z.eqb_spec remaining 1) as [-> | H1].
      * rewrite cpu_checks_acc, IH by lia. cbn [fst snd]. fold m.
        replace (Z.succ m + interval - 1) with (m + interval - interval + 1 * interval) by lia.
        rewrite Z.div_add, Z.mod_add by lia. f_equal. lia.
      * rewrite cpu_checks_acc, IH by lia. cbn [fst snd]. fold m.
        replace (m + interval - (remaining - 1)) with (Z.succ m + interval - remaining) by lia. f_equal.
  - intros hashes Hh. unfold hashrate_check_due. by rewrite (proj2 (Z.eqb_neq hashes 0) Hh).
Qed.

Lemma hashrate_sampling_live_witness :
  cpu_checks 10 [1; 0; 5; 5; 0; 2; 2; 2; 2; 2; 2; 2; 2] 10 = (1, 9) /\
  (forall hashes, hashes <> 0 -> hashrate_check_due hashes true 10 10 = (true, 10)).
Proof.
  apply (hashrate_sampling_live 10 [1; 0; 5; 5; 0; 2; 2; 2; 2; 2; 2; 2; 2] 10); by apply (bool_decide_unpack _).
Defined.
